(** * SceneGraph2: the render-dependency scheduler of noclip.website

    A shallow embedding of [src/SuperMarioGalaxy/SceneGraph2.ts]
    (graph builder, scheduler and executor) together with the properties
    of its use-counting, pooling and resolve bookkeeping.

    Conventions of the embedding.
    - A JavaScript array that is indexed by id and may have holes is a
      [list (option A)]: [None] is a hole (reads as [undefined]), the
      list length is the array's [length].  Writing past the end extends
      the array with holes, as JavaScript does.
    - A JavaScript number used as a counter is a [jsnum]: an integer or
      [NaN] ([undefined++] yields [NaN]).
    - [assert]/[assertExists] failures and property reads on [null] or
      [undefined] abort the call: every fallible operation returns a
      [result].
    - [this] of [SceneGraphExecutor] and the [GfxDevice] argument are
      passed and returned explicitly.
    - The physical objects ([RenderTarget], [ResolveTexture]) are records
      whose identity is the device handle they were created with
      ([attachment], [texture]); these handles are never reassigned.
      A record is a value: the entry of [resolveTextureForID] and the
      entry of the dead pool that stand for one object are two copies.
      Of a registered resolve texture the code reads the [texture] only,
      and it pushes the registered object to the pool before anything
      can take it from there, so the copies differ, if at all, in the
      [debugName] of an entry that is no longer read; the executor is
      entered with an empty [resolveTextureForID] (it is cleared at the
      end of [execGraph]).
    - The viewport coordinates are JavaScript numbers that are
      multiplied: they are IEEE 754 binary64 values, Rocq's primitive
      [float], and their product is [PrimFloat.mul]. *)

From Stdlib Require Import ZArith QArith.
From Corelib Require PrimFloat SpecFloat FloatOps.
From stdpp Require Import base list strings.

Local Open Scope Z_scope.
Local Open Scope nat_scope.

(** ** Fatal errors *)

Inductive error : Type :=
  | AssertFailed   (* assert(...) / assertExists(...) threw *)
  | TypeError.     (* property access on null or undefined *)

Inductive result (A : Type) : Type :=
  | OK (a : A)
  | Fatal (e : error).
Arguments OK {A} a.
Arguments Fatal {A} e.

Definition rbind {A B} (m : result A) (k : A -> result B) : result B :=
  match m with
  | OK a => k a
  | Fatal e => Fatal e
  end.

Notation "'let*' x ':=' m 'in' k" := (rbind m (fun x => k))
  (at level 10, x pattern, m at level 100, k at level 200).

Definition assert (b : bool) : result unit :=
  if b then OK tt else Fatal AssertFailed.

Definition assertExists {A} (v : option A) : result A :=
  match v with
  | Some a => OK a
  | None => Fatal AssertFailed
  end.

Definition is_fatal {A} (r : result A) : Prop :=
  match r with
  | OK _ => False
  | Fatal _ => True
  end.

(** ** JavaScript arrays with holes *)

Module JsArray.

Definition get {A} (l : list (option A)) (i : nat) : option A :=
  match l !! i with
  | Some c => c
  | None => None
  end.

(* l[i] = v *)
Definition set {A} (l : list (option A)) (i : nat) (v : A) : list (option A) :=
  if decide (i < length l) then <[i := Some v]> l
  else l ++ replicate (i - length l) None ++ [Some v].

(* delete l[i] *)
Definition delete {A} (l : list (option A)) (i : nat) : list (option A) :=
  <[i := None]> l.

(* l.push(v) *)
Definition push {A} (l : list (option A)) (v : A) : list (option A) :=
  l ++ [Some v].

(* l.length = n; l.fill(v) *)
Definition fillArray {A} (n : nat) (v : A) : list (option A) :=
  replicate n (Some v).

(* l.includes(v), for a number v: a hole reads as undefined *)
Definition includes (l : list (option nat)) (v : nat) : bool :=
  existsb (fun c => bool_decide (c = Some v)) l.

(* l.indexOf(v): the first index holding v; None stands for -1 *)
Fixpoint indexOf (l : list (option nat)) (v : nat) : option nat :=
  match l with
  | [] => None
  | c :: l' =>
      if bool_decide (c = Some v) then Some 0
      else match indexOf l' v with
           | Some i => Some (S i)
           | None => None
           end
  end.

(* l[i] = v where i came from indexOf: writing at -1 creates a property
   that is not an array element and leaves the elements untouched. *)
Definition set_at {A} (l : list (option A)) (i : option nat) (v : A)
  : list (option A) :=
  match i with
  | Some i => set l i v
  | None => l
  end.

End JsArray.

(** ** Counters *)

Inductive jsnum : Type :=
  | Num (z : Z)
  | NaN.

(* ToNumber of an array cell *)
Definition to_number (c : option jsnum) : jsnum :=
  match c with
  | Some n => n
  | None => NaN     (* undefined *)
  end.

Definition jsnum_incr (n : jsnum) : jsnum :=
  match n with
  | Num z => Num (z + 1)
  | NaN => NaN
  end.

Definition jsnum_decr (n : jsnum) : jsnum :=
  match n with
  | Num z => Num (z - 1)
  | NaN => NaN
  end.

(* c > 0 *)
Definition jsnum_gt0 (c : option jsnum) : bool :=
  match c with
  | Some (Num z) => (0 <? z)%Z
  | _ => false
  end.

(* c === 0 *)
Definition jsnum_is0 (c : option jsnum) : bool :=
  match c with
  | Some (Num z) => (z =? 0)%Z
  | _ => false
  end.

(* a[i]++ *)
Definition incr_at (a : list (option jsnum)) (i : nat) : list (option jsnum) :=
  JsArray.set a i (jsnum_incr (to_number (JsArray.get a i))).

(* --a[i], leaving the new value in the cell *)
Definition decr_at (a : list (option jsnum)) (i : nat) : list (option jsnum) :=
  JsArray.set a i (jsnum_decr (to_number (JsArray.get a i))).

(** ** Numbers that are multiplied *)

(* a JavaScript number that takes part in arithmetic: a binary64 value *)
Definition double : Type := PrimFloat.float.

(* the number an integer width or height is: the double nearest to it
   (the integer itself up to 2^53) *)
Definition double_of_Z (z : Z) : double :=
  FloatOps.SF2Prim
    (SpecFloat.binary_normalize FloatOps.prec FloatOps.emax z 0 false).

(** ** The device collaborator

    [GfxPlatform] is outside this file's scope; the device is a source of
    fresh handles and a log of the calls made on it. *)

Definition GfxFormat := nat.
Definition GfxTexture := nat.
Definition GfxAttachment := nat.

Record Color : Type := mkColor {
  color_r : Q; color_g : Q; color_b : Q; color_a : Q;
}.

(* a clear policy: an explicit value or 'load' *)
Inductive clear (A : Type) : Type :=
  | Load
  | Clear (v : A).
Arguments Load {A}.
Arguments Clear {A} v.

Record GfxRenderPassDescriptor : Type := mkDescriptor {
  colorAttachment : option GfxAttachment;
  colorResolveTo : option GfxTexture;
  depthStencilAttachment : option GfxAttachment;
  depthStencilResolveTo : option GfxTexture;
  colorClearColor : clear Color;
  depthClearValue : clear Q;
  stencilClearValue : clear Q;
}.

Inductive GfxCall : Type :=
  | CreateTexture (t : GfxTexture)
  | CreateAttachment (h : GfxAttachment)
  | CreateAttachmentFromTexture (h : GfxAttachment) (t : GfxTexture)
  | DestroyTexture (t : GfxTexture)
  | DestroyAttachment (h : GfxAttachment)
  | CreateRenderPass (d : GfxRenderPassDescriptor)
  | SetViewport (x y w h : double)
  | SubmitPass.

Record GfxDevice : Type := mkDevice {
  nextHandle : nat;
  calls : list GfxCall;
}.

Definition createTexture (dev : GfxDevice) : GfxTexture * GfxDevice :=
  (nextHandle dev,
   mkDevice (S (nextHandle dev)) (calls dev ++ [CreateTexture (nextHandle dev)])).

Definition createAttachment (dev : GfxDevice) : GfxAttachment * GfxDevice :=
  (nextHandle dev,
   mkDevice (S (nextHandle dev)) (calls dev ++ [CreateAttachment (nextHandle dev)])).

Definition createAttachmentFromTexture (dev : GfxDevice) (t : GfxTexture)
  : GfxAttachment * GfxDevice :=
  (nextHandle dev,
   mkDevice (S (nextHandle dev))
            (calls dev ++ [CreateAttachmentFromTexture (nextHandle dev) t])).

Definition device_call (dev : GfxDevice) (c : GfxCall) : GfxDevice :=
  mkDevice (nextHandle dev) (calls dev ++ [c]).

(** ** Data model *)

Record RenderTargetDescription : Type := mkDescription {
  desc_debugName : string;
  desc_pixelFormat : GfxFormat;
  desc_width : Z;
  desc_height : Z;
  desc_numSamples : Z;
  desc_colorClearColor : clear Color;
  desc_depthClearValue : clear Q;
  desc_stencilClearValue : clear Q;
}.

Inductive RenderTargetAttachmentSlot : Type :=
  | Color0
  | DepthStencil.

(* the numeric value of the const enum *)
Definition slot_index (s : RenderTargetAttachmentSlot) : nat :=
  match s with
  | Color0 => 0
  | DepthStencil => 1
  end.

Record GfxNormalizedViewportCoords : Type := mkViewport {
  vp_x : double; vp_y : double; vp_w : double; vp_h : double;
}.

(* { x: 0, y: 0, w: 1, h: 1 } *)
Definition IdentityViewportCoords : GfxNormalizedViewportCoords :=
  mkViewport PrimFloat.zero PrimFloat.zero PrimFloat.one PrimFloat.one.

(* The scope handed to an exec callback offers one method. *)
Definition SceneGraphPassScope : Type := nat -> result GfxTexture.

(* An exec callback draws through the render pass it is given (the calls
   it makes on the device are its result) and may query the scope. *)
Definition SceneGraphPassExecFunc : Type :=
  SceneGraphPassScope -> result (list GfxCall).

Record SceneGraphPassImpl : Type := mkPass {
  renderTargetIDs : list (option nat);
  resolveTextureOutputIDs : list (option nat);
  resolveTextureInputIDs : list nat;
  doPresent : bool;
  viewport : GfxNormalizedViewportCoords;
  resolveTextureInputTextures : list (option GfxTexture);
  descriptor : GfxRenderPassDescriptor;
  viewportX : double;
  viewportY : double;
  viewportW : double;
  viewportH : double;
  func : option SceneGraphPassExecFunc;
  debugName : option string;
}.

Definition emptyDescriptor : GfxRenderPassDescriptor :=
  mkDescriptor None None None None Load Load Load.

(* new SceneGraphPassImpl() *)
Definition newPass : SceneGraphPassImpl :=
  mkPass [] [] [] false IdentityViewportCoords [] emptyDescriptor
         PrimFloat.zero PrimFloat.zero PrimFloat.zero PrimFloat.zero None None.

Record SceneGraph : Type := mkGraph {
  renderTargetDescriptions : list RenderTargetDescription;
  resolveTextureRenderTargetIDs : list nat;
  passes : list SceneGraphPassImpl;
}.

Definition newSceneGraph : SceneGraph := mkGraph [] [] [].

(** ** SceneGraphPassImpl: the interface a setup callback sees *)

Definition with_renderTargetIDs (v : list (option nat)) (p : SceneGraphPassImpl) :=
  mkPass v (resolveTextureOutputIDs p) (resolveTextureInputIDs p) (doPresent p)
         (viewport p) (resolveTextureInputTextures p) (descriptor p)
         (viewportX p) (viewportY p) (viewportW p) (viewportH p) (func p)
         (debugName p).

Definition with_resolveTextureOutputIDs (v : list (option nat)) (p : SceneGraphPassImpl) :=
  mkPass (renderTargetIDs p) v (resolveTextureInputIDs p) (doPresent p)
         (viewport p) (resolveTextureInputTextures p) (descriptor p)
         (viewportX p) (viewportY p) (viewportW p) (viewportH p) (func p)
         (debugName p).

Definition with_resolveTextureInputIDs (v : list nat) (p : SceneGraphPassImpl) :=
  mkPass (renderTargetIDs p) (resolveTextureOutputIDs p) v (doPresent p)
         (viewport p) (resolveTextureInputTextures p) (descriptor p)
         (viewportX p) (viewportY p) (viewportW p) (viewportH p) (func p)
         (debugName p).

Definition with_doPresent (v : bool) (p : SceneGraphPassImpl) :=
  mkPass (renderTargetIDs p) (resolveTextureOutputIDs p) (resolveTextureInputIDs p) v
         (viewport p) (resolveTextureInputTextures p) (descriptor p)
         (viewportX p) (viewportY p) (viewportW p) (viewportH p) (func p)
         (debugName p).

Definition with_resolveTextureInputTextures (v : list (option GfxTexture))
    (p : SceneGraphPassImpl) :=
  mkPass (renderTargetIDs p) (resolveTextureOutputIDs p) (resolveTextureInputIDs p)
         (doPresent p) (viewport p) v (descriptor p)
         (viewportX p) (viewportY p) (viewportW p) (viewportH p) (func p)
         (debugName p).

Definition with_descriptor (v : GfxRenderPassDescriptor) (p : SceneGraphPassImpl) :=
  mkPass (renderTargetIDs p) (resolveTextureOutputIDs p) (resolveTextureInputIDs p)
         (doPresent p) (viewport p) (resolveTextureInputTextures p) v
         (viewportX p) (viewportY p) (viewportW p) (viewportH p) (func p)
         (debugName p).

Definition with_pixelViewport (x y w h : double) (p : SceneGraphPassImpl) :=
  mkPass (renderTargetIDs p) (resolveTextureOutputIDs p) (resolveTextureInputIDs p)
         (doPresent p) (viewport p) (resolveTextureInputTextures p) (descriptor p)
         x y w h (func p) (debugName p).

Definition with_func (v : option SceneGraphPassExecFunc) (p : SceneGraphPassImpl) :=
  mkPass (renderTargetIDs p) (resolveTextureOutputIDs p) (resolveTextureInputIDs p)
         (doPresent p) (viewport p) (resolveTextureInputTextures p) (descriptor p)
         (viewportX p) (viewportY p) (viewportW p) (viewportH p) v
         (debugName p).

Definition with_debugName (v : option string) (p : SceneGraphPassImpl) :=
  mkPass (renderTargetIDs p) (resolveTextureOutputIDs p) (resolveTextureInputIDs p)
         (doPresent p) (viewport p) (resolveTextureInputTextures p) (descriptor p)
         (viewportX p) (viewportY p) (viewportW p) (viewportH p) (func p) v.

Definition setDebugName (name : string) (p : SceneGraphPassImpl)
  : result SceneGraphPassImpl :=
  OK (with_debugName (Some name) p).

Definition attachRenderTargetID (attachmentSlot : RenderTargetAttachmentSlot)
    (renderTargetID : nat) (p : SceneGraphPassImpl) : result SceneGraphPassImpl :=
  let* _ := assert (bool_decide
             (JsArray.get (renderTargetIDs p) (slot_index attachmentSlot) = None)) in
  OK (with_renderTargetIDs
        (JsArray.set (renderTargetIDs p) (slot_index attachmentSlot) renderTargetID) p).

Definition attachResolveTexture (resolveTextureID : nat) (p : SceneGraphPassImpl)
  : result SceneGraphPassImpl :=
  OK (with_resolveTextureInputIDs (resolveTextureInputIDs p ++ [resolveTextureID]) p).

Definition exec (f : SceneGraphPassExecFunc) (p : SceneGraphPassImpl)
  : result SceneGraphPassImpl :=
  let* _ := assert (match func p with None => true | Some _ => false end) in
  OK (with_func (Some f) p).

Definition present (p : SceneGraphPassImpl) : result SceneGraphPassImpl :=
  OK (with_doPresent true p).

(** A setup callback that only talks to the pass it is given is a script
    of interface calls. *)
Inductive PassCall : Type :=
  | CallSetDebugName (name : string)
  | CallAttachRenderTargetID (slot : RenderTargetAttachmentSlot) (renderTargetID : nat)
  | CallAttachResolveTexture (resolveTextureID : nat)
  | CallExec (f : SceneGraphPassExecFunc)
  | CallPresent.

Definition run_call (c : PassCall) (p : SceneGraphPassImpl) : result SceneGraphPassImpl :=
  match c with
  | CallSetDebugName name => setDebugName name p
  | CallAttachRenderTargetID slot id => attachRenderTargetID slot id p
  | CallAttachResolveTexture id => attachResolveTexture id p
  | CallExec f => exec f p
  | CallPresent => present p
  end.

Fixpoint run_calls (cs : list PassCall) (p : SceneGraphPassImpl)
  : result SceneGraphPassImpl :=
  match cs with
  | [] => OK p
  | c :: cs' => let* p' := run_call c p in run_calls cs' p'
  end.

(** ** SceneGraphBuilder *)

Module SceneGraphBuilder.

Record t : Type := mk { currentGraph : option SceneGraph }.

(* A setup callback receives the new pass and closes over the builder:
   it may update both. *)
Definition SceneGraphPassSetupFunc : Type :=
  SceneGraphPassImpl -> t -> result (SceneGraphPassImpl * t).

Definition setup_of_calls (cs : list PassCall) : SceneGraphPassSetupFunc :=
  fun pass builder => let* pass' := run_calls cs pass in OK (pass', builder).

Definition begin (this : t) : result t :=
  OK (mk (Some newSceneGraph)).

Definition end_ (this : t) : result (SceneGraph * t) :=
  let* sceneGraph := assertExists (currentGraph this) in
  OK (sceneGraph, mk None).

(* this.currentGraph!.f : the non-null assertion is erased by the
   compiler, the property read on null throws *)
Definition graph_of (this : t) : result SceneGraph :=
  match currentGraph this with
  | Some graph => OK graph
  | None => Fatal TypeError
  end.

Definition pushPass (setupFunc : SceneGraphPassSetupFunc) (this : t) : result t :=
  let* (pass, this1) := setupFunc newPass this in
  let* graph := graph_of this1 in
  OK (mk (Some (mkGraph (renderTargetDescriptions graph)
                        (resolveTextureRenderTargetIDs graph)
                        (passes graph ++ [pass])))).

Definition createRenderTargetID (desc : RenderTargetDescription) (this : t)
  : result (nat * t) :=
  let* graph := graph_of this in
  OK (length (renderTargetDescriptions graph),
      mk (Some (mkGraph (renderTargetDescriptions graph ++ [desc])
                        (resolveTextureRenderTargetIDs graph)
                        (passes graph)))).

Definition createResolveTextureID (renderTargetID : nat) (this : t)
  : result (nat * t) :=
  let* graph := graph_of this in
  OK (length (resolveTextureRenderTargetIDs graph),
      mk (Some (mkGraph (renderTargetDescriptions graph)
                        (resolveTextureRenderTargetIDs graph ++ [renderTargetID])
                        (passes graph)))).

(* The loop [for (i = length - 1; i >= 0; i--)]: [scan_back ps id k]
   visits the indices k-1, k-2, ..., 0.  The pass found is returned
   with its index, which stands for the reference to that object. *)
Fixpoint scan_back (ps : list SceneGraphPassImpl) (renderTargetID : nat) (k : nat)
  : option (nat * SceneGraphPassImpl) :=
  match k with
  | 0 => None
  | S i =>
      match ps !! i with
      | Some pass =>
          if JsArray.includes (renderTargetIDs pass) renderTargetID
          then Some (i, pass)
          else scan_back ps renderTargetID i
      | None => scan_back ps renderTargetID i
      end
  end.

Definition findLastPassForRenderTarget (renderTargetID : nat) (this : t)
  : result (option (nat * SceneGraphPassImpl)) :=
  let* graph := graph_of this in
  OK (scan_back (passes graph) renderTargetID (length (passes graph))).

Definition resolveRenderTargetToColorTexture (renderTargetID : nat) (this : t)
  : result (nat * t) :=
  let* (resolveTextureID, this1) := createResolveTextureID renderTargetID this in
  let* found := findLastPassForRenderTarget renderTargetID this1 in
  let* (i, renderPass) := assertExists found in
  let attachmentSlot := JsArray.indexOf (renderTargetIDs renderPass) renderTargetID in
  let renderPass' :=
    with_resolveTextureOutputIDs
      (JsArray.set_at (resolveTextureOutputIDs renderPass) attachmentSlot
                      resolveTextureID)
      renderPass in
  let* graph := graph_of this1 in
  OK (resolveTextureID,
      mk (Some (mkGraph (renderTargetDescriptions graph)
                        (resolveTextureRenderTargetIDs graph)
                        (<[i := renderPass']> (passes graph))))).

End SceneGraphBuilder.

(** ** Physical resources *)

Module ResolveTexture.

Record t : Type := mk {
  debugName : string;
  pixelFormat : GfxFormat;
  width : Z;
  height : Z;
  texture : GfxTexture;
  age : nat;
}.

(* new ResolveTexture(device, desc) *)
Definition new (device : GfxDevice) (desc : RenderTargetDescription)
  : t * GfxDevice :=
  let (tex, device1) := createTexture device in
  (mk (desc_debugName desc) (desc_pixelFormat desc) (desc_width desc)
      (desc_height desc) tex 0, device1).

Definition matchesDescription (this : t) (desc : RenderTargetDescription) : bool :=
  bool_decide (pixelFormat this = desc_pixelFormat desc)
  && bool_decide (width this = desc_width desc)
  && bool_decide (height this = desc_height desc).

Definition reset (this : t) (desc : RenderTargetDescription) : result t :=
  let* _ := assert (matchesDescription this desc) in
  OK (mk (desc_debugName desc) (pixelFormat this) (width this) (height this)
         (texture this) 0).

Definition with_age (n : nat) (this : t) : t :=
  mk (debugName this) (pixelFormat this) (width this) (height this)
     (texture this) n.

Definition destroy (this : t) (device : GfxDevice) : GfxDevice :=
  device_call device (DestroyTexture (texture this)).

End ResolveTexture.

Module RenderTarget.

Record t : Type := mk {
  debugName : string;
  pixelFormat : GfxFormat;
  width : Z;
  height : Z;
  numSamples : Z;
  needsClear : bool;
  texture : option GfxTexture;
  attachment : GfxAttachment;
  age : nat;
}.

(* new RenderTarget(device, desc) *)
Definition new (device : GfxDevice) (desc : RenderTargetDescription)
  : result (t * GfxDevice) :=
  let* _ := assert (1 <=? desc_numSamples desc)%Z in
  if (1 <? desc_numSamples desc)%Z then
    (* MSAA render targets must be backed by attachments. *)
    let (att, device1) := createAttachment device in
    OK (mk (desc_debugName desc) (desc_pixelFormat desc) (desc_width desc)
           (desc_height desc) (desc_numSamples desc) true None att 0, device1)
  else
    (* Single-sampled textures can be backed by regular textures. *)
    let (tex, device1) := createTexture device in
    let (att, device2) := createAttachmentFromTexture device1 tex in
    OK (mk (desc_debugName desc) (desc_pixelFormat desc) (desc_width desc)
           (desc_height desc) (desc_numSamples desc) true (Some tex) att 0,
        device2).

Definition matchesDescription (this : t) (desc : RenderTargetDescription) : bool :=
  bool_decide (pixelFormat this = desc_pixelFormat desc)
  && bool_decide (width this = desc_width desc)
  && bool_decide (height this = desc_height desc)
  && bool_decide (numSamples this = desc_numSamples desc).

Definition with_age (n : nat) (this : t) : t :=
  mk (debugName this) (pixelFormat this) (width this) (height this)
     (numSamples this) (needsClear this) (texture this) (attachment this) n.

Definition with_needsClear (v : bool) (this : t) : t :=
  mk (debugName this) (pixelFormat this) (width this) (height this)
     (numSamples this) v (texture this) (attachment this) (age this).

Definition destroy (this : t) (device : GfxDevice) : GfxDevice :=
  let device1 :=
    match texture this with
    | Some tex => device_call device (DestroyTexture tex)
    | None => device
    end in
  device_call device1 (DestroyAttachment (attachment this)).

End RenderTarget.

(** The pool scan of [acquire...ForDescription]:
    [for (i = 0; i < pool.length; i++) { const free = pool[i];
    if (free.matchesDescription(desc)) { ...; pool.splice(i--, 1);
    return free; } }].  [scanned] holds the entries
    at indices below [i]; the result is the first match and the pool
    without it. *)
Fixpoint pool_take {A} (matches : A -> bool) (scanned rest : list A)
  : option (A * list A) :=
  match rest with
  | [] => None
  | x :: rest' =>
      if matches x then Some (x, scanned ++ rest')
      else pool_take matches (scanned ++ [x]) rest'
  end.

(** The age sweep of [scheduleGraph]:
    [for (i = 0; i < pool.length; i++) if (pool[i].age >= ageThreshold)
    { pool[i].destroy(device); pool.splice(i--, 1); }].  [kept] holds the
    entries at indices below [i]. *)
Fixpoint pool_sweep {A} (age : A -> nat) (destroy : A -> GfxDevice -> GfxDevice)
    (ageThreshold : nat) (kept rest : list A) (device : GfxDevice)
  : list A * GfxDevice :=
  match rest with
  | [] => (kept, device)
  | x :: rest' =>
      if bool_decide (ageThreshold <= age x)
      then pool_sweep age destroy ageThreshold kept rest' (destroy x device)
      else pool_sweep age destroy ageThreshold (kept ++ [x]) rest' device
  end.

(** The final loops of [SceneGraphExecutor.destroy]:
    [for (i = 0; i < pool.length; i++) pool[i].destroy(device)]. *)
Fixpoint destroy_each {A} (destroy : A -> GfxDevice -> GfxDevice)
    (pool : list A) (device : GfxDevice) : GfxDevice :=
  match pool with
  | [] => device
  | x :: pool' => destroy_each destroy pool' (destroy x device)
  end.

(** ** SceneGraphExecutor *)

Module SceneGraphExecutor.

Record t : Type := mk {
  currentGraph : option SceneGraph;
  currentGraphPass : option SceneGraphPassImpl;
  renderTargetDeadPool : list RenderTarget.t;
  resolveTextureDeadPool : list ResolveTexture.t;
  renderTargetUseCount : list (option jsnum);
  resolveTextureUseCount : list (option jsnum);
  renderTargetAliveForID : list (option RenderTarget.t);
  resolveTextureForID : list (option ResolveTexture.t);
}.

(* new SceneGraphExecutor() *)
Definition new : t := mk None None [] [] [] [] [] [].

Definition with_currentGraph v (this : t) : t :=
  mk v (currentGraphPass this) (renderTargetDeadPool this)
     (resolveTextureDeadPool this) (renderTargetUseCount this)
     (resolveTextureUseCount this) (renderTargetAliveForID this)
     (resolveTextureForID this).

Definition with_currentGraphPass v (this : t) : t :=
  mk (currentGraph this) v (renderTargetDeadPool this)
     (resolveTextureDeadPool this) (renderTargetUseCount this)
     (resolveTextureUseCount this) (renderTargetAliveForID this)
     (resolveTextureForID this).

Definition with_renderTargetDeadPool v (this : t) : t :=
  mk (currentGraph this) (currentGraphPass this) v
     (resolveTextureDeadPool this) (renderTargetUseCount this)
     (resolveTextureUseCount this) (renderTargetAliveForID this)
     (resolveTextureForID this).

Definition with_resolveTextureDeadPool v (this : t) : t :=
  mk (currentGraph this) (currentGraphPass this) (renderTargetDeadPool this)
     v (renderTargetUseCount this)
     (resolveTextureUseCount this) (renderTargetAliveForID this)
     (resolveTextureForID this).

Definition with_renderTargetUseCount v (this : t) : t :=
  mk (currentGraph this) (currentGraphPass this) (renderTargetDeadPool this)
     (resolveTextureDeadPool this) v
     (resolveTextureUseCount this) (renderTargetAliveForID this)
     (resolveTextureForID this).

Definition with_resolveTextureUseCount v (this : t) : t :=
  mk (currentGraph this) (currentGraphPass this) (renderTargetDeadPool this)
     (resolveTextureDeadPool this) (renderTargetUseCount this)
     v (renderTargetAliveForID this)
     (resolveTextureForID this).

Definition with_renderTargetAliveForID v (this : t) : t :=
  mk (currentGraph this) (currentGraphPass this) (renderTargetDeadPool this)
     (resolveTextureDeadPool this) (renderTargetUseCount this)
     (resolveTextureUseCount this) v
     (resolveTextureForID this).

Definition with_resolveTextureForID v (this : t) : t :=
  mk (currentGraph this) (currentGraphPass this) (renderTargetDeadPool this)
     (resolveTextureDeadPool this) (renderTargetUseCount this)
     (resolveTextureUseCount this) (renderTargetAliveForID this)
     v.

(** *** Resource creation and caching *)

Definition acquireRenderTargetForDescription (device : GfxDevice)
    (desc : RenderTargetDescription) (this : t)
  : result (RenderTarget.t * GfxDevice * t) :=
  match pool_take (fun rt => RenderTarget.matchesDescription rt desc)
                  [] (renderTargetDeadPool this) with
  | Some (freeRenderTarget, pool') =>
      (* Pop it off the list. *)
      OK (RenderTarget.with_age 0 freeRenderTarget, device,
          with_renderTargetDeadPool pool' this)
  | None =>
      (* Allocate a new render target. *)
      let* (renderTarget, device1) := RenderTarget.new device desc in
      OK (renderTarget, device1, this)
  end.

Definition acquireResolveTextureForDescription (device : GfxDevice)
    (desc : RenderTargetDescription) (this : t)
  : result (ResolveTexture.t * GfxDevice * t) :=
  match pool_take (fun rt => ResolveTexture.matchesDescription rt desc)
                  [] (resolveTextureDeadPool this) with
  | Some (freeResolveTexture, pool') =>
      (* Pop it off the list. *)
      let* freeResolveTexture' := ResolveTexture.reset freeResolveTexture desc in
      OK (freeResolveTexture', device, with_resolveTextureDeadPool pool' this)
  | None =>
      (* Allocate a new resolve texture. *)
      let (resolveTexture, device1) := ResolveTexture.new device desc in
      OK (resolveTexture, device1, this)
  end.

(** *** Scheduling *)

(* this.renderTargetUseCount[renderTargetID]++ where the id may be
   undefined: the write then goes to the property named "undefined",
   which is not an array element and is never read back (every reader
   returns or throws first on an undefined id). *)
Definition addRenderTargetUse (renderTargetID : option nat) (this : t) : t :=
  match renderTargetID with
  | Some id =>
      with_renderTargetUseCount (incr_at (renderTargetUseCount this) id) this
  | None => this
  end.

Fixpoint addUseCount_renderTargets (ids : list (option nat)) (this : t) : t :=
  match ids with
  | [] => this
  | renderTargetID :: ids' =>
      (* undefined: continue *)
      addUseCount_renderTargets ids' (addRenderTargetUse renderTargetID this)
  end.

Fixpoint addUseCount_resolveTextures (graph : SceneGraph) (ids : list nat)
    (this : t) : t :=
  match ids with
  | [] => this
  | resolveTextureID :: ids' =>
      let this1 :=
        with_resolveTextureUseCount
          (incr_at (resolveTextureUseCount this) resolveTextureID) this in
      let renderTargetID := resolveTextureRenderTargetIDs graph !! resolveTextureID in
      addUseCount_resolveTextures graph ids' (addRenderTargetUse renderTargetID this1)
  end.

Definition scheduleAddUseCount (graph : SceneGraph) (pass : SceneGraphPassImpl)
    (this : t) : t :=
  addUseCount_resolveTextures graph (resolveTextureInputIDs pass)
    (addUseCount_renderTargets (renderTargetIDs pass) this).

(* a[id] for an id that may be undefined *)
Definition at_id {A} (l : list (option A)) (id : option nat) : option A :=
  match id with
  | Some i => JsArray.get l i
  | None => None
  end.

(* graph.renderTargetDescriptions[id]: reading a field of the result
   throws when it is undefined *)
Definition description_at (graph : SceneGraph) (id : nat)
  : result RenderTargetDescription :=
  match renderTargetDescriptions graph !! id with
  | Some desc => OK desc
  | None => Fatal TypeError
  end.

Definition acquireRenderTargetForID (device : GfxDevice) (graph : SceneGraph)
    (renderTargetID : option nat) (this : t)
  : result (option RenderTarget.t * GfxDevice * t) :=
  match renderTargetID with
  | None => OK (None, device, this)
  | Some id =>
      let* _ := assert (jsnum_gt0 (JsArray.get (renderTargetUseCount this) id)) in
      match JsArray.get (renderTargetAliveForID this) id with
      | Some renderTarget => OK (Some renderTarget, device, this)
      | None =>
          let* desc := description_at graph id in
          let* (renderTarget, device1, this1) :=
            acquireRenderTargetForDescription device desc this in
          OK (Some renderTarget, device1,
              with_renderTargetAliveForID
                (JsArray.set (renderTargetAliveForID this1) id renderTarget) this1)
      end
  end.

Definition releaseRenderTargetForID (renderTargetID : option nat) (this : t)
  : result t :=
  match renderTargetID with
  | None => OK this
  | Some id =>
      let* _ := assert (jsnum_gt0 (JsArray.get (renderTargetUseCount this) id)) in
      let this1 :=
        with_renderTargetUseCount (decr_at (renderTargetUseCount this) id) this in
      if jsnum_is0 (JsArray.get (renderTargetUseCount this1) id) then
        (* This was the last reference to this RT -- steal it from the
           alive list, and put it back into the pool. *)
        let* renderTarget :=
          assertExists (JsArray.get (renderTargetAliveForID this1) id) in
        let renderTarget' := RenderTarget.with_needsClear true renderTarget in
        OK (with_renderTargetDeadPool
              (renderTargetDeadPool this1 ++ [renderTarget'])
              (with_renderTargetAliveForID
                 (JsArray.delete (renderTargetAliveForID this1) id) this1))
      else OK this1
  end.

Definition acquireResolveTextureOutputForID (device : GfxDevice)
    (graph : SceneGraph) (srcRenderTargetID : option nat)
    (resolveTextureID : option nat) (this : t)
  : result (option GfxTexture * GfxDevice * t) :=
  match resolveTextureID with
  | None => OK (None, device, this)
  | Some id =>
      let* _ := assert (bool_decide
                 (srcRenderTargetID = resolveTextureRenderTargetIDs graph !! id)) in
      let* _ := assert (jsnum_gt0 (JsArray.get (resolveTextureUseCount this) id)) in
      let* renderTarget :=
        assertExists (at_id (renderTargetAliveForID this) srcRenderTargetID) in
      match RenderTarget.texture renderTarget with
      | Some _ =>
          (* No need to resolve -- we're already rendering into a
             texture-backed RT. *)
          OK (None, device, this)
      | None =>
          match JsArray.get (resolveTextureForID this) id with
          | Some resolveTexture =>
              OK (Some (ResolveTexture.texture resolveTexture), device, this)
          | None =>
              let* desc :=
                assertExists
                  (match srcRenderTargetID with
                   | Some src => renderTargetDescriptions graph !! src
                   | None => None
                   end) in
              let* (resolveTexture, device1, this1) :=
                acquireResolveTextureForDescription device desc this in
              OK (Some (ResolveTexture.texture resolveTexture), device1,
                  with_resolveTextureForID
                    (JsArray.set (resolveTextureForID this1) id resolveTexture)
                    this1)
          end
      end
  end.

Definition acquireResolveTextureInputTextureForID (graph : SceneGraph)
    (resolveTextureID : nat) (this : t) : result (GfxTexture * t) :=
  let renderTargetID := resolveTextureRenderTargetIDs graph !! resolveTextureID in
  (* First check the resolve texture pool in case we actually needed to
     resolve. *)
  match JsArray.get (resolveTextureForID this) resolveTextureID with
  | Some resolveTexture =>
      let* this1 := releaseRenderTargetForID renderTargetID this in
      OK (ResolveTexture.texture resolveTexture, this1)
  | None =>
      (* In this case, we should be rendering to a texture-backed RT. *)
      let* renderTarget :=
        assertExists (at_id (renderTargetAliveForID this) renderTargetID) in
      let* this1 := releaseRenderTargetForID renderTargetID this in
      let* tex := assertExists (RenderTarget.texture renderTarget) in
      OK (tex, this1)
  end.

Definition releaseResolveTextureInputForID (resolveTextureID : option nat)
    (this : t) : result t :=
  match resolveTextureID with
  | None => OK this
  | Some id =>
      let* _ := assert (jsnum_gt0 (JsArray.get (resolveTextureUseCount this) id)) in
      let this1 :=
        with_resolveTextureUseCount (decr_at (resolveTextureUseCount this) id) this in
      if jsnum_is0 (JsArray.get (resolveTextureUseCount this1) id) then
        (* This was the last reference to this resolve texture -- put it
           back in the dead pool to be reused.  Note that we don't remove
           it from the for-ID pool, because it's still needed in the
           scope. *)
        match JsArray.get (resolveTextureForID this1) id with
        | Some resolveTexture =>
            OK (with_resolveTextureDeadPool
                  (resolveTextureDeadPool this1 ++ [resolveTexture]) this1)
        | None =>
            (* The resolve texture can be missing if we never needed to
               resolve to begin with. *)
            OK this1
        end
      else OK this1
  end.

(* renderTarget.needsClear = false, for the object acquired for this id:
   it is the one held in the alive table (nothing is released between
   the acquisition and this write). *)
Definition markCleared (renderTargetID : option nat) (this : t) : t :=
  match at_id (renderTargetAliveForID this) renderTargetID, renderTargetID with
  | Some renderTarget, Some id =>
      with_renderTargetAliveForID
        (JsArray.set (renderTargetAliveForID this) id
                     (RenderTarget.with_needsClear false renderTarget)) this
  | _, _ => this
  end.

(* (rt !== null && rt.needsClear) ? graph.renderTargetDescriptions[id].f : 'load' *)
Definition clearValue {A} (graph : SceneGraph) (renderTargetID : option nat)
    (renderTarget : option RenderTarget.t)
    (f : RenderTargetDescription -> clear A) : result (clear A) :=
  match renderTarget, renderTargetID with
  | Some rt, Some id =>
      if RenderTarget.needsClear rt
      then let* desc := description_at graph id in OK (f desc)
      else OK Load
  | _, _ => OK Load
  end.

Fixpoint acquireInputTextures (graph : SceneGraph) (ids : list nat) (i : nat)
    (textures : list (option GfxTexture)) (this : t)
  : result (list (option GfxTexture) * t) :=
  match ids with
  | [] => OK (textures, this)
  | resolveTextureID :: ids' =>
      let* (tex, this1) :=
        acquireResolveTextureInputTextureForID graph resolveTextureID this in
      acquireInputTextures graph ids' (S i) (JsArray.set textures i tex) this1
  end.

Fixpoint releaseRenderTargets (ids : list (option nat)) (this : t) : result t :=
  match ids with
  | [] => OK this
  | renderTargetID :: ids' =>
      let* this1 := releaseRenderTargetForID renderTargetID this in
      releaseRenderTargets ids' this1
  end.

Fixpoint releaseResolveTextureInputs (ids : list nat) (this : t) : result t :=
  match ids with
  | [] => OK this
  | resolveTextureID :: ids' =>
      let* this1 := releaseResolveTextureInputForID (Some resolveTextureID) this in
      releaseResolveTextureInputs ids' this1
  end.

Definition checkAttachmentsMatch (color0RenderTarget depthStencilRenderTarget
    : option RenderTarget.t) : result unit :=
  match color0RenderTarget, depthStencilRenderTarget with
  | Some c, Some d =>
      (* Parameters for all attachments must match. *)
      let* _ := assert (bool_decide (RenderTarget.width c = RenderTarget.width d)) in
      let* _ := assert (bool_decide (RenderTarget.height c = RenderTarget.height d)) in
      assert (bool_decide (RenderTarget.numSamples c = RenderTarget.numSamples d))
  | _, _ => OK tt
  end.

Definition attachmentSize (color0RenderTarget depthStencilRenderTarget
    : option RenderTarget.t) : Z * Z :=
  match color0RenderTarget, depthStencilRenderTarget with
  | Some c, _ => (RenderTarget.width c, RenderTarget.height c)
  | None, Some d => (RenderTarget.width d, RenderTarget.height d)
  | None, None => (0, 0)%Z
  end.

Definition scheduleViewport (attachmentWidth attachmentHeight : Z)
    (pass : SceneGraphPassImpl) : SceneGraphPassImpl :=
  if (0 <? attachmentWidth)%Z && (0 <? attachmentHeight)%Z then
    with_pixelViewport
      (PrimFloat.mul (double_of_Z attachmentWidth) (vp_x (viewport pass)))
      (PrimFloat.mul (double_of_Z attachmentHeight) (vp_y (viewport pass)))
      (PrimFloat.mul (double_of_Z attachmentWidth) (vp_w (viewport pass)))
      (PrimFloat.mul (double_of_Z attachmentHeight) (vp_h (viewport pass)))
      pass
  else pass.

Definition schedulePass (device : GfxDevice) (graph : SceneGraph)
    (pass : SceneGraphPassImpl) (presentColorTexture : option GfxTexture)
    (this : t) : result (SceneGraphPassImpl * GfxDevice * t) :=
  let color0RenderTargetID :=
    JsArray.get (renderTargetIDs pass) (slot_index Color0) in
  let depthStencilRenderTargetID :=
    JsArray.get (renderTargetIDs pass) (slot_index DepthStencil) in

  let* (color0RenderTarget, device1, this1) :=
    acquireRenderTargetForID device graph color0RenderTargetID this in
  let* colorClear :=
    clearValue graph color0RenderTargetID color0RenderTarget
               desc_colorClearColor in

  let* (depthStencilRenderTarget, device2, this2) :=
    acquireRenderTargetForID device1 graph depthStencilRenderTargetID this1 in
  let* depthClear :=
    clearValue graph depthStencilRenderTargetID depthStencilRenderTarget
               desc_depthClearValue in
  let* stencilClear :=
    clearValue graph depthStencilRenderTargetID depthStencilRenderTarget
               desc_stencilClearValue in

  let* (colorResolveTo, device3, this3) :=
    if doPresent pass then OK (presentColorTexture, device2, this2)
    else acquireResolveTextureOutputForID device2 graph color0RenderTargetID
           (JsArray.get (resolveTextureOutputIDs pass) (slot_index Color0)) this2 in
  let* (depthStencilResolveTo, device4, this4) :=
    acquireResolveTextureOutputForID device3 graph depthStencilRenderTargetID
      (JsArray.get (resolveTextureOutputIDs pass) (slot_index DepthStencil)) this3 in

  let pass1 :=
    with_descriptor
      (mkDescriptor (RenderTarget.attachment <$> color0RenderTarget)
                    colorResolveTo
                    (RenderTarget.attachment <$> depthStencilRenderTarget)
                    depthStencilResolveTo
                    colorClear depthClear stencilClear) pass in

  let this5 := markCleared color0RenderTargetID this4 in
  let this6 := markCleared depthStencilRenderTargetID this5 in

  let* _ := checkAttachmentsMatch color0RenderTarget depthStencilRenderTarget in

  let (attachmentWidth, attachmentHeight) :=
    attachmentSize color0RenderTarget depthStencilRenderTarget in
  let pass2 := scheduleViewport attachmentWidth attachmentHeight pass1 in

  let* (textures, this7) :=
    acquireInputTextures graph (resolveTextureInputIDs pass2) 0
                         (resolveTextureInputTextures pass2) this6 in
  let pass3 := with_resolveTextureInputTextures textures pass2 in

  (* Now that we're done with the pass, release our resources back to
     the pool. *)
  let* this8 := releaseRenderTargets (renderTargetIDs pass3) this7 in
  let* this9 := releaseResolveTextureInputs (resolveTextureInputIDs pass3) this8 in
  OK (pass3, device4, this9).

(** *** scheduleGraph, phase by phase *)

(* Go through and increment the age of everything in our dead pools to
   mark that it's old. *)
Definition agePools (this : t) : t :=
  with_resolveTextureDeadPool
    (map (fun rt => ResolveTexture.with_age (S (ResolveTexture.age rt)) rt)
         (resolveTextureDeadPool this))
    (with_renderTargetDeadPool
       (map (fun rt => RenderTarget.with_age (S (RenderTarget.age rt)) rt)
            (renderTargetDeadPool this))
       this).

(* Initialize our accumulators. *)
Definition initUseCounts (graph : SceneGraph) (this : t) : t :=
  with_resolveTextureUseCount
    (JsArray.fillArray (length (resolveTextureRenderTargetIDs graph)) (Num 0))
    (with_renderTargetUseCount
       (JsArray.fillArray (length (renderTargetDescriptions graph)) (Num 0))
       this).

(* Count. *)
Fixpoint countPasses (graph : SceneGraph) (ps : list SceneGraphPassImpl)
    (this : t) : t :=
  match ps with
  | [] => this
  | pass :: ps' => countPasses graph ps' (scheduleAddUseCount graph pass this)
  end.

(* Now hand out resources. *)
Fixpoint schedulePasses (device : GfxDevice) (graph : SceneGraph)
    (ps : list SceneGraphPassImpl) (presentColorTexture : option GfxTexture)
    (this : t) : result (list SceneGraphPassImpl * GfxDevice * t) :=
  match ps with
  | [] => OK ([], device, this)
  | pass :: ps' =>
      let* (pass', device1, this1) :=
        schedulePass device graph pass presentColorTexture this in
      let* (ps'', device2, this2) :=
        schedulePasses device1 graph ps' presentColorTexture this1 in
      OK (pass' :: ps'', device2, this2)
  end.

(* for (i = 0; i < l.length; i++) assert(test(l[i])) *)
Fixpoint assertAll {A} (test : option A -> bool) (l : list (option A))
  : result unit :=
  match l with
  | [] => OK tt
  | c :: l' => let* _ := assert (test c) in assertAll test l'
  end.

Definition is_undefined {A} (c : option A) : bool :=
  match c with
  | None => true
  | Some _ => false
  end.

(* Double-check that all resources were handed out. *)
Definition checkAllReleased (this : t) : result unit :=
  let* _ := assertAll jsnum_is0 (renderTargetUseCount this) in
  let* _ := assertAll jsnum_is0 (resolveTextureUseCount this) in
  assertAll is_undefined (renderTargetAliveForID this).

Definition ageThreshold : nat := 1.

(* Now go through and kill anything that's over our age threshold. *)
Definition sweepPools (device : GfxDevice) (this : t) : GfxDevice * t :=
  let (renderTargets, device1) :=
    pool_sweep RenderTarget.age RenderTarget.destroy ageThreshold
               [] (renderTargetDeadPool this) device in
  let (resolveTextures, device2) :=
    pool_sweep ResolveTexture.age ResolveTexture.destroy ageThreshold
               [] (resolveTextureDeadPool this) device1 in
  (device2,
   with_resolveTextureDeadPool resolveTextures
     (with_renderTargetDeadPool renderTargets this)).

(* Clear out our transient scheduling state. *)
Definition clearUseCounts (this : t) : t :=
  with_resolveTextureUseCount [] (with_renderTargetUseCount [] this).

Definition scheduleGraph (device : GfxDevice) (graph : SceneGraph)
    (presentColorTexture : option GfxTexture) (this : t)
  : result (SceneGraph * GfxDevice * t) :=
  let* _ := assert (bool_decide (length (renderTargetUseCount this) = 0)) in
  let* _ := assert (bool_decide (length (resolveTextureUseCount this) = 0)) in
  let this1 := agePools this in
  let this2 := initUseCounts graph this1 in
  let this3 := countPasses graph (passes graph) this2 in
  let* (ps, device1, this4) :=
    schedulePasses device graph (passes graph) presentColorTexture this3 in
  let* _ := checkAllReleased this4 in
  let (device2, this5) := sweepPools device1 this4 in
  OK (mkGraph (renderTargetDescriptions graph)
              (resolveTextureRenderTargetIDs graph) ps,
      device2, clearUseCounts this5).

(** *** Execution *)

Definition getResolveTextureForID (resolveTextureID : nat) (this : t)
  : result GfxTexture :=
  match currentGraphPass this with
  | None => Fatal TypeError
  | Some currentGraphPass =>
      let i := JsArray.indexOf (Some <$> resolveTextureInputIDs currentGraphPass)
                               resolveTextureID in
      (* assert(i >= 0) *)
      let* _ := assert (negb (is_undefined i)) in
      assertExists (at_id (resolveTextureInputTextures currentGraphPass) i)
  end.

Definition execPass (device : GfxDevice) (pass : SceneGraphPassImpl) (this : t)
  : result (GfxDevice * t) :=
  let* _ := assert (is_undefined (currentGraphPass this)) in
  let this1 := with_currentGraphPass (Some pass) this in
  let device1 := device_call device (CreateRenderPass (descriptor pass)) in
  let device2 :=
    device_call device1
      (SetViewport (viewportX pass) (viewportY pass)
                   (viewportW pass) (viewportH pass)) in
  let* device3 :=
    match func pass with
    | Some f =>
        let* drawn := f (fun id => getResolveTextureForID id this1) in
        OK (mkDevice (nextHandle device2) (calls device2 ++ drawn))
    | None => OK device2
    end in
  let device4 := device_call device3 SubmitPass in
  OK (device4, with_currentGraphPass None this1).

Fixpoint execPasses (device : GfxDevice) (ps : list SceneGraphPassImpl) (this : t)
  : result (GfxDevice * t) :=
  match ps with
  | [] => OK (device, this)
  | pass :: ps' =>
      let* (device1, this1) := execPass device pass this in
      execPasses device1 ps' this1
  end.

Definition execGraph (device : GfxDevice) (graph : SceneGraph)
    (presentColorTexture : option GfxTexture) (this : t)
  : result (SceneGraph * GfxDevice * t) :=
  (* Schedule our graph. *)
  let* (graph1, device1, this1) :=
    scheduleGraph device graph presentColorTexture this in
  let* _ := assert (is_undefined (currentGraph this1)) in
  let this2 := with_currentGraph (Some graph1) this1 in
  let* (device2, this3) := execPasses device1 (passes graph1) this2 in
  let this4 := with_currentGraph None this3 in
  (* Clear our transient scope state. *)
  OK (graph1, device2, with_resolveTextureForID [] this4).

(** *** Teardown *)

Definition destroy (device : GfxDevice) (this : t) : result GfxDevice :=
  (* At the time this is called, we shouldn't have anything alive. *)
  let* _ := assertAll is_undefined (renderTargetAliveForID this) in
  let* _ := assertAll is_undefined (resolveTextureForID this) in
  let device1 :=
    destroy_each RenderTarget.destroy (renderTargetDeadPool this) device in
  OK (destroy_each ResolveTexture.destroy (resolveTextureDeadPool this) device1).

End SceneGraphExecutor.

(** * Vocabulary of the properties *)

(* the counter cell [i] of [a] holds the integer [z] *)
Definition count_is (a : list (option jsnum)) (i : nat) (z : Z) : Prop :=
  JsArray.get a i = Some (Num z).

(* [pass] binds the surface [id] in some attachment slot *)
Definition binds (pass : SceneGraphPassImpl) (id : nat) : Prop :=
  Some id ∈ renderTargetIDs pass.

Fixpoint count_if {A} (f : A -> bool) (l : list A) : nat :=
  match l with
  | [] => 0
  | x :: l' => (if f x then 1 else 0) + count_if f l'
  end.

(* the number of attachment slots of [pass] bound to the surface [id] *)
Definition slot_uses (pass : SceneGraphPassImpl) (id : nat) : nat :=
  count_if (fun c => bool_decide (c = Some id)) (renderTargetIDs pass).

(* the number of times [pass] lists the copy [id] as an input *)
Definition input_uses (pass : SceneGraphPassImpl) (id : nat) : nat :=
  count_if (fun c => bool_decide (c = id)) (resolveTextureInputIDs pass).

(* the number of inputs of [pass] that are copies of the surface [id] *)
Definition origin_uses (graph : SceneGraph) (pass : SceneGraphPassImpl) (id : nat)
  : nat :=
  count_if (fun c => bool_decide (resolveTextureRenderTargetIDs graph !! c = Some id))
           (resolveTextureInputIDs pass).

(** * A worked graph: the three-pass scenario

    Pass 1 writes Color0 of a 256x256 surface cleared to red; pass 2
    requests a copy of it, samples the copy and writes a second surface;
    pass 3 presents the second surface. *)

Definition red : Color := mkColor 1 0 0 1.

Definition surface256 (numSamples : Z) : RenderTargetDescription :=
  mkDescription "main" 7 256%Z 256%Z numSamples (Clear red) (Clear 1%Q) (Clear 0%Q).

Definition writer (id : nat) : SceneGraphPassImpl :=
  with_renderTargetIDs [Some id] newPass.

Definition scenario_builder (numSamples : Z) : result (SceneGraph * SceneGraphBuilder.t) :=
  let* builder := SceneGraphBuilder.begin (SceneGraphBuilder.mk None) in
  let* (first, builder) :=
    SceneGraphBuilder.createRenderTargetID (surface256 numSamples) builder in
  let* (second, builder) :=
    SceneGraphBuilder.createRenderTargetID (surface256 numSamples) builder in
  let* builder :=
    SceneGraphBuilder.pushPass
      (SceneGraphBuilder.setup_of_calls [CallAttachRenderTargetID Color0 first])
      builder in
  let* builder :=
    SceneGraphBuilder.pushPass
      (fun pass builder =>
         let* (copy, builder) :=
           SceneGraphBuilder.resolveRenderTargetToColorTexture first builder in
         let* pass :=
           run_calls [CallAttachResolveTexture copy;
                      CallAttachRenderTargetID Color0 second] pass in
         OK (pass, builder))
      builder in
  let* builder :=
    SceneGraphBuilder.pushPass
      (SceneGraphBuilder.setup_of_calls
         [CallAttachRenderTargetID Color0 second; CallPresent])
      builder in
  SceneGraphBuilder.end_ builder.

(* the graph the scenario builds, written out *)
Definition scenario_graph (numSamples : Z) : SceneGraph :=
  mkGraph [surface256 numSamples; surface256 numSamples] [0]
          [with_resolveTextureOutputIDs [Some 0] (writer 0);
           with_resolveTextureInputIDs [0] (writer 1);
           with_doPresent true (writer 1)].

Definition device0 : GfxDevice := mkDevice 0 [].

(** * Vocabulary of the use-count bookkeeping *)

(* the counter cell [i] holds a positive integer: [a[i] > 0] *)
Definition positive (a : list (option jsnum)) (i : nat) : Prop :=
  exists z, count_is a i z /\ (0 < z)%Z.

(* [a'] is [a] after [f i] references were released from each cell [i]:
   a cell is untouched, or it held an integer at least [f i] and now
   holds that integer less [f i] *)
Definition released_by (f : nat -> nat) (a a' : list (option jsnum)) : Prop :=
  length a' = length a /\
  forall i,
    (f i = 0 /\ JsArray.get a' i = JsArray.get a i)
    \/ (exists z, count_is a i z /\ (Z.of_nat (f i) <= z)%Z
                  /\ count_is a' i (z - Z.of_nat (f i))).

(* 1 at the id [o], 0 elsewhere (0 everywhere for an undefined id) *)
Definition at_most_one (o : option nat) (i : nat) : nat :=
  if bool_decide (o = Some i) then 1 else 0.

(* the references a pass holds on the surface [id] *)
Definition surface_uses (graph : SceneGraph) (pass : SceneGraphPassImpl) (id : nat)
  : nat :=
  slot_uses pass id + origin_uses graph pass id.

Fixpoint total_surface_uses (graph : SceneGraph) (ps : list SceneGraphPassImpl)
    (id : nat) : nat :=
  match ps with
  | [] => 0
  | pass :: ps' => surface_uses graph pass id + total_surface_uses graph ps' id
  end.

Fixpoint total_input_uses (ps : list SceneGraphPassImpl) (id : nat) : nat :=
  match ps with
  | [] => 0
  | pass :: ps' => input_uses pass id + total_input_uses ps' id
  end.

(* every surface in the alive table has a positive use-count *)
Definition alive_counted (this : SceneGraphExecutor.t) : Prop :=
  forall id renderTarget,
    JsArray.get (SceneGraphExecutor.renderTargetAliveForID this) id = Some renderTarget ->
    positive (SceneGraphExecutor.renderTargetUseCount this) id.

(* every cell of a counter array is exactly zero *)
Definition all_zero (a : list (option jsnum)) : Prop :=
  Forall (fun c => c = Some (Num 0)) a.

(* no surface is checked out *)
Definition alive_empty (this : SceneGraphExecutor.t) : Prop :=
  Forall (fun c => c = None) (SceneGraphExecutor.renderTargetAliveForID this).

(* what Pass A leaves of the counters of [this]: integers only where
   there were integers, and no new cells when every counted id has a cell *)
Definition counted_from (this this' : SceneGraphExecutor.t) : Prop :=
  (forall j z, count_is (SceneGraphExecutor.renderTargetUseCount this') j z ->
     exists z', count_is (SceneGraphExecutor.renderTargetUseCount this) j z') /\
  (forall j z, count_is (SceneGraphExecutor.resolveTextureUseCount this') j z ->
     exists z', count_is (SceneGraphExecutor.resolveTextureUseCount this) j z') /\
  length (SceneGraphExecutor.renderTargetUseCount this)
    <= length (SceneGraphExecutor.renderTargetUseCount this') /\
  length (SceneGraphExecutor.resolveTextureUseCount this)
    <= length (SceneGraphExecutor.resolveTextureUseCount this') /\
  SceneGraphExecutor.renderTargetAliveForID this'
    = SceneGraphExecutor.renderTargetAliveForID this /\
  SceneGraphExecutor.resolveTextureForID this'
    = SceneGraphExecutor.resolveTextureForID this /\
  SceneGraphExecutor.renderTargetDeadPool this'
    = SceneGraphExecutor.renderTargetDeadPool this /\
  SceneGraphExecutor.resolveTextureDeadPool this'
    = SceneGraphExecutor.resolveTextureDeadPool this.

(* the executor after the preparation and counting phases of
   [scheduleGraph] *)
Definition afterPassA (graph : SceneGraph) (this : SceneGraphExecutor.t)
  : SceneGraphExecutor.t :=
  SceneGraphExecutor.countPasses graph (passes graph)
    (SceneGraphExecutor.initUseCounts graph (SceneGraphExecutor.agePools this)).

(** A pass that presents and renders depth only. *)
Definition depth_only_present : SceneGraphPassImpl :=
  with_doPresent true (with_renderTargetIDs [None; Some 0] newPass).

Definition depth_only_graph : SceneGraph :=
  mkGraph [surface256 1] [] [depth_only_present].

(** A graph whose presenting pass carries a copy request: the first pass
    writes Color0 of a single-sampled surface and presents; the second
    requests a copy of that surface, samples it and writes a second
    surface. *)
Definition presented_copy_builder : result (SceneGraph * SceneGraphBuilder.t) :=
  let* builder := SceneGraphBuilder.begin (SceneGraphBuilder.mk None) in
  let* (first, builder) :=
    SceneGraphBuilder.createRenderTargetID (surface256 1) builder in
  let* (second, builder) :=
    SceneGraphBuilder.createRenderTargetID (surface256 1) builder in
  let* builder :=
    SceneGraphBuilder.pushPass
      (SceneGraphBuilder.setup_of_calls
         [CallAttachRenderTargetID Color0 first; CallPresent])
      builder in
  let* builder :=
    SceneGraphBuilder.pushPass
      (fun pass builder =>
         let* (copy, builder) :=
           SceneGraphBuilder.resolveRenderTargetToColorTexture first builder in
         let* pass :=
           run_calls [CallAttachResolveTexture copy;
                      CallAttachRenderTargetID Color0 second] pass in
         OK (pass, builder))
      builder in
  SceneGraphBuilder.end_ builder.

(* the graph it builds, written out *)
Definition presented_copy_graph : SceneGraph :=
  mkGraph [surface256 1; surface256 1] [0]
          [with_resolveTextureOutputIDs [Some 0] (with_doPresent true (writer 0));
           with_resolveTextureInputIDs [0] (writer 1)].

(** * Vocabulary of the pools *)

(* the device calls made by [RenderTarget.destroy] *)
Definition renderTarget_destroy_calls (rt : RenderTarget.t) : list GfxCall :=
  match RenderTarget.texture rt with
  | Some tex => [DestroyTexture tex]
  | None => []
  end ++ [DestroyAttachment (RenderTarget.attachment rt)].

(* the device calls made by [ResolveTexture.destroy] *)
Definition resolveTexture_destroy_calls (rt : ResolveTexture.t) : list GfxCall :=
  [DestroyTexture (ResolveTexture.texture rt)].

(* the pooled resource has sat unused for a whole scheduling cycle *)
Definition renderTarget_aged (rt : RenderTarget.t) : Prop :=
  SceneGraphExecutor.ageThreshold <= RenderTarget.age rt.

Definition resolveTexture_aged (rt : ResolveTexture.t) : Prop :=
  SceneGraphExecutor.ageThreshold <= ResolveTexture.age rt.

(** * Vocabulary of the alive table *)

(* two records for one physical render target: everything but the
   [needsClear] flag agrees (in particular the device handles) *)
Definition same_object (rt rt' : RenderTarget.t) : Prop :=
  RenderTarget.with_needsClear false rt = RenderTarget.with_needsClear false rt'.

(* the attachment a scheduled pass renders to in a slot *)
Definition slot_attachment (slot : RenderTargetAttachmentSlot)
    (d : GfxRenderPassDescriptor) : option GfxAttachment :=
  match slot with
  | Color0 => colorAttachment d
  | DepthStencil => depthStencilAttachment d
  end.

(* from [this] to [this'] counts were only released, and a surface that
   was checked out and still has a positive count afterwards is still
   checked out, with the same physical render target *)
Definition evolves (this this' : SceneGraphExecutor.t) : Prop :=
  (exists f, released_by f (SceneGraphExecutor.renderTargetUseCount this)
                           (SceneGraphExecutor.renderTargetUseCount this')) /\
  forall id rt,
    JsArray.get (SceneGraphExecutor.renderTargetAliveForID this) id = Some rt ->
    positive (SceneGraphExecutor.renderTargetUseCount this') id ->
    exists rt',
      JsArray.get (SceneGraphExecutor.renderTargetAliveForID this') id = Some rt' /\
      same_object rt rt'.

(** * Vocabulary of the clear flag *)

(* every pooled render target is flagged as needing a clear *)
Definition pool_clear (this : SceneGraphExecutor.t) : Prop :=
  forall rt, rt ∈ SceneGraphExecutor.renderTargetDeadPool this ->
             RenderTarget.needsClear rt = true.

(* every checked-out render target, but those of the ids in [except], has
   been cleared *)
Definition alive_clean_except (except : nat -> Prop) (this : SceneGraphExecutor.t)
  : Prop :=
  forall id rt,
    JsArray.get (SceneGraphExecutor.renderTargetAliveForID this) id = Some rt ->
    ~ except id -> RenderTarget.needsClear rt = false.

Definition alive_clean (this : SceneGraphExecutor.t) : Prop :=
  alive_clean_except (fun _ => False) this.

(** * Vocabulary of the resolve bookkeeping *)

(* a render target as its constructor builds it: backed by a texture
   exactly when it is not multi-sampled *)
Definition texture_backed_iff_single (rt : RenderTarget.t) : Prop :=
  RenderTarget.texture rt = None <-> (1 < RenderTarget.numSamples rt)%Z.

Definition pool_shape (this : SceneGraphExecutor.t) : Prop :=
  forall rt, rt ∈ SceneGraphExecutor.renderTargetDeadPool this ->
             texture_backed_iff_single rt.

(* the render target checked out for an id matches that id's description *)
Definition alive_shape (graph : SceneGraph) (this : SceneGraphExecutor.t) : Prop :=
  forall id rt,
    JsArray.get (SceneGraphExecutor.renderTargetAliveForID this) id = Some rt ->
    texture_backed_iff_single rt /\
    exists desc,
      renderTargetDescriptions graph !! id = Some desc /\
      RenderTarget.matchesDescription rt desc = true.

(* the copy [copy] is of a multi-sampled surface *)
Definition multisampled_origin (graph : SceneGraph) (copy : nat) : Prop :=
  exists id desc,
    resolveTextureRenderTargetIDs graph !! copy = Some id /\
    renderTargetDescriptions graph !! id = Some desc /\
    (1 < desc_numSamples desc)%Z.

(* the copy [copy] is of a single-sampled surface *)
Definition single_sampled_origin (graph : SceneGraph) (copy : nat) : Prop :=
  exists id desc,
    resolveTextureRenderTargetIDs graph !! copy = Some id /\
    renderTargetDescriptions graph !! id = Some desc /\
    ~ (1 < desc_numSamples desc)%Z.

(* physical copies are only registered for copies of multi-sampled
   surfaces *)
Definition table_shape (graph : SceneGraph) (this : SceneGraphExecutor.t) : Prop :=
  forall copy rtex,
    JsArray.get (SceneGraphExecutor.resolveTextureForID this) copy = Some rtex ->
    multisampled_origin graph copy.

(* every physical copy registered in [this] is still registered, for the
   same copy id, in [this'] *)
Definition table_kept (this this' : SceneGraphExecutor.t) : Prop :=
  forall copy rtex,
    JsArray.get (SceneGraphExecutor.resolveTextureForID this) copy = Some rtex ->
    JsArray.get (SceneGraphExecutor.resolveTextureForID this') copy = Some rtex.

(* what [scope.getResolveTextureForID(copy)] returns while [pass] is the
   pass being executed *)
Definition lookup_during (pass : SceneGraphPassImpl) (copy : nat) : result GfxTexture :=
  SceneGraphExecutor.getResolveTextureForID copy
    (SceneGraphExecutor.with_currentGraphPass (Some pass) SceneGraphExecutor.new).

(* the texture a consumer of [copy] is handed: that of the registered
   physical copy, or, for a copy of a single-sampled surface without one,
   the surface's own *)
Definition input_texture_of (graph : SceneGraph) (this : SceneGraphExecutor.t)
    (copy : nat) (tex : GfxTexture) : Prop :=
  (exists rtex,
      JsArray.get (SceneGraphExecutor.resolveTextureForID this) copy = Some rtex /\
      tex = ResolveTexture.texture rtex)
  \/ (JsArray.get (SceneGraphExecutor.resolveTextureForID this) copy = None /\
      single_sampled_origin graph copy).

(** * Vocabulary of what a scheduled pass sees of a surface *)

(* the resolve target a scheduled pass writes a slot to *)
Definition slot_resolveTo (slot : RenderTargetAttachmentSlot)
    (d : GfxRenderPassDescriptor) : option GfxTexture :=
  match slot with
  | Color0 => colorResolveTo d
  | DepthStencil => depthStencilResolveTo d
  end.

(* the scheduled pass mentions the surface [id]: it binds it, or it
   consumes a copy of it for which [final] has no physical copy *)
Definition references (graph : SceneGraph) (final : SceneGraphExecutor.t)
    (pass : SceneGraphPassImpl) (id : nat) : Prop :=
  (exists slot, JsArray.get (renderTargetIDs pass) (slot_index slot) = Some id)
  \/ (exists copy,
        copy ∈ resolveTextureInputIDs pass /\
        resolveTextureRenderTargetIDs graph !! copy = Some id /\
        JsArray.get (SceneGraphExecutor.resolveTextureForID final) copy = None).

(* all the scheduled pass sees of the surface [id] is the physical render
   target [rt]: its attachment in the slots bound to [id], its texture for
   the consumed copies of [id] without a physical copy *)
Definition observes (graph : SceneGraph) (final : SceneGraphExecutor.t)
    (pass : SceneGraphPassImpl) (id : nat) (rt : RenderTarget.t) : Prop :=
  (forall slot,
     JsArray.get (renderTargetIDs pass) (slot_index slot) = Some id ->
     slot_attachment slot (descriptor pass) = Some (RenderTarget.attachment rt))
  /\
  (forall copy,
     copy ∈ resolveTextureInputIDs pass ->
     resolveTextureRenderTargetIDs graph !! copy = Some id ->
     JsArray.get (SceneGraphExecutor.resolveTextureForID final) copy = None ->
     exists tex,
       RenderTarget.texture rt = Some tex /\ lookup_during pass copy = OK tex).

(* every surface checked out in [this'] was checked out in [this], as the
   same physical object *)
Definition alive_from (this this' : SceneGraphExecutor.t) : Prop :=
  forall id rt',
    JsArray.get (SceneGraphExecutor.renderTargetAliveForID this') id = Some rt' ->
    exists rt,
      JsArray.get (SceneGraphExecutor.renderTargetAliveForID this) id = Some rt /\
      same_object rt rt'.

(* the render targets checked out were taken or created in this cycle *)
Definition fresh_age (this : SceneGraphExecutor.t) : Prop :=
  forall id rt,
    JsArray.get (SceneGraphExecutor.renderTargetAliveForID this) id = Some rt ->
    RenderTarget.age rt = 0.

(* the executor holds, checked out or pooled, a render target used in this
   cycle whose attachment is [att] and whose texture is [tex] *)
Definition holds (this : SceneGraphExecutor.t) (att : GfxAttachment)
    (tex : option GfxTexture) : Prop :=
  exists rt,
    RenderTarget.attachment rt = att /\ RenderTarget.texture rt = tex /\
    RenderTarget.age rt = 0 /\
    (rt ∈ SceneGraphExecutor.renderTargetDeadPool this \/
     exists id,
       JsArray.get (SceneGraphExecutor.renderTargetAliveForID this) id = Some rt).

Definition keeps (this this' : SceneGraphExecutor.t) : Prop :=
  (fresh_age this -> fresh_age this') /\
  forall att tex, holds this att tex -> holds this' att tex.

(** * Worked executor states *)

(* a single-sampled 256x256 render target, texture 0 behind attachment 1 *)
Definition renderTarget0 : RenderTarget.t :=
  RenderTarget.mk "main" 7 256%Z 256%Z 1%Z true (Some 0) 1 0.

(* between frames: the render target sits in the dead pool *)
Definition pooled_surface0 : SceneGraphExecutor.t :=
  SceneGraphExecutor.mk None None [renderTarget0] [] [] [] [None] [].

(** * Proof support *)

Local Abbreviation Ex := SceneGraphExecutor.t (only parsing).
Local Abbreviation rtUC := SceneGraphExecutor.renderTargetUseCount (only parsing).
Local Abbreviation rsUC := SceneGraphExecutor.resolveTextureUseCount (only parsing).
Local Abbreviation rtAlive := SceneGraphExecutor.renderTargetAliveForID (only parsing).
Local Abbreviation rsForID := SceneGraphExecutor.resolveTextureForID (only parsing).
Local Abbreviation rtPool := SceneGraphExecutor.renderTargetDeadPool (only parsing).
Local Abbreviation rsPool := SceneGraphExecutor.resolveTextureDeadPool (only parsing).
(** * Vocabulary of the further properties *)

(* every id a pass of the graph mentions was handed out by the builder:
   a bound surface id has a description, a consumed copy id has an origin
   and that origin has a description *)
Definition ids_in_range (graph : SceneGraph) : Prop :=
  forall pass, pass ∈ passes graph ->
    (forall id, binds pass id -> id < length (renderTargetDescriptions graph)) /\
    (forall copy, copy ∈ resolveTextureInputIDs pass ->
       exists id, resolveTextureRenderTargetIDs graph !! copy = Some id /\
                  id < length (renderTargetDescriptions graph)).

(* a pass binding a surface that was never created *)
Definition dangling_graph : SceneGraph := mkGraph [] [] [writer 5].

(* one pass rendering to a colour and a depth surface *)
Definition color_depth_graph : SceneGraph :=
  mkGraph [surface256 1; surface256 1] []
          [with_renderTargetIDs [Some 0; Some 1] newPass].

(* a pass asked for a copy of its surface that no pass consumes *)
Definition unconsumed_graph : SceneGraph :=
  mkGraph [surface256 1] [0] [with_resolveTextureOutputIDs [Some 0] (writer 0)].

(* the surface whose render target gives a pass its attachment size: the
   one bound to Color0, else the one bound to DepthStencil *)
Definition sizing_surface (pass : SceneGraphPassImpl) : option nat :=
  match JsArray.get (renderTargetIDs pass) (slot_index Color0) with
  | Some id => Some id
  | None => JsArray.get (renderTargetIDs pass) (slot_index DepthStencil)
  end.

(* the setup state of a pass: what the setup callback declared *)
Definition same_setup (pass pass' : SceneGraphPassImpl) : Prop :=
  renderTargetIDs pass' = renderTargetIDs pass /\
  resolveTextureOutputIDs pass' = resolveTextureOutputIDs pass /\
  resolveTextureInputIDs pass' = resolveTextureInputIDs pass /\
  doPresent pass' = doPresent pass /\
  viewport pass' = viewport pass /\
  func pass' = func pass /\
  debugName pass' = debugName pass.

(* the pixel viewport of a pass *)
Definition pixelViewport (pass : SceneGraphPassImpl)
  : double * double * double * double :=
  (viewportX pass, viewportY pass, viewportW pass, viewportH pass).

(* one tenth, as a double *)
Definition tenth : double := PrimFloat.div PrimFloat.one (double_of_Z 10).

(* a pass that renders to a window of its surface, a tenth in from the
   left and the top and a tenth of the surface wide and high *)
Definition window_pass : SceneGraphPassImpl :=
  mkPass [Some 0] [] [] false (mkViewport tenth tenth tenth tenth) [] emptyDescriptor
         PrimFloat.zero PrimFloat.zero PrimFloat.zero PrimFloat.zero None None.

(* the pass on a surface 3 wide and 7 high *)
Definition window_graph : SceneGraph :=
  mkGraph [mkDescription "main" 7 3%Z 7%Z 1%Z (Clear red) (Clear 1%Q) (Clear 0%Q)] []
          [window_pass].

(* the three shape facts the allocation/release pass keeps *)
Definition shaped (graph : SceneGraph) (this : SceneGraphExecutor.t) : Prop :=
  pool_shape this /\ alive_shape graph this /\ table_shape graph this.

(** * Vocabulary of the device handles *)

(* the render targets the executor owns: pooled or checked out *)
Definition owned_renderTargets (this : SceneGraphExecutor.t) : list RenderTarget.t :=
  SceneGraphExecutor.renderTargetDeadPool this
  ++ omap id (SceneGraphExecutor.renderTargetAliveForID this).

(* the attachments of the render targets the executor owns *)
Definition owned_attachments (this : SceneGraphExecutor.t) : list GfxAttachment :=
  RenderTarget.attachment <$> owned_renderTargets this.

(* no two owned render targets share an attachment, and every owned
   attachment is a handle the device has already given out *)
Definition attachments_distinct (device : GfxDevice) (this : SceneGraphExecutor.t)
  : Prop :=
  NoDup (owned_attachments this) /\
  forall att, att ∈ owned_attachments this -> att < nextHandle device.

(* a call that creates a device resource *)
Definition is_creation (call : GfxCall) : Prop :=
  match call with
  | CreateTexture _ | CreateAttachment _ | CreateAttachmentFromTexture _ _ => True
  | _ => False
  end.

(* from [device] to [device'] resources were only created *)
Definition only_creates (device device' : GfxDevice) : Prop :=
  nextHandle device <= nextHandle device' /\
  exists created,
    calls device' = calls device ++ created /\ Forall is_creation created.

(** * Vocabulary of execution and teardown *)

(* the executor between two frames: nothing counted, nothing checked out,
   no scope state, and the pooled render targets as their constructor and
   the release leave them *)
Definition ready (this : SceneGraphExecutor.t) : Prop :=
  SceneGraphExecutor.currentGraph this = None /\
  SceneGraphExecutor.currentGraphPass this = None /\
  SceneGraphExecutor.renderTargetUseCount this = [] /\
  SceneGraphExecutor.resolveTextureUseCount this = [] /\
  alive_empty this /\
  SceneGraphExecutor.resolveTextureForID this = [] /\
  pool_shape this /\ pool_clear this.

(* the scope object a callback of [pass] is handed *)
Definition scope_during (this : SceneGraphExecutor.t) (pass : SceneGraphPassImpl)
  : SceneGraphPassScope :=
  fun id =>
    SceneGraphExecutor.getResolveTextureForID id
      (SceneGraphExecutor.with_currentGraphPass (Some pass) this).

(* what the callback of [pass] draws; nothing when the pass has none *)
Definition drawn_by (this : SceneGraphExecutor.t) (pass : SceneGraphPassImpl)
  : result (list GfxCall) :=
  match func pass with
  | Some f => f (scope_during this pass)
  | None => OK []
  end.

(* the device calls of one executed pass *)
Definition pass_calls (pass : SceneGraphPassImpl) (drawn : list GfxCall)
  : list GfxCall :=
  [CreateRenderPass (descriptor pass);
   SetViewport (viewportX pass) (viewportY pass) (viewportW pass) (viewportH pass)]
  ++ drawn ++ [SubmitPass].

(* an executor that still has a physical copy registered *)
Definition registered_copy : SceneGraphExecutor.t :=
  SceneGraphExecutor.with_resolveTextureForID
    [Some (ResolveTexture.mk "main" 7 256%Z 256%Z 3 0)] SceneGraphExecutor.new.

(* a pass whose callback looks up the copy 0 and draws nothing *)
Definition sampling_pass : SceneGraphPassImpl :=
  with_func (Some (fun scope => let* _ := scope 0 in OK []))
            (with_resolveTextureInputIDs [0] (writer 1)).

(* the debugging and scope state of the executor *)
Definition scope_state (this : SceneGraphExecutor.t)
  : option SceneGraph * option SceneGraphPassImpl :=
  (SceneGraphExecutor.currentGraph this, SceneGraphExecutor.currentGraphPass this).

(** * Vocabulary of the builder *)

(* every copy-output recorded on a pass sits on a slot bound to the
   surface the copy was requested of *)
Definition outputs_wired (graph : SceneGraph) : Prop :=
  forall pass, pass ∈ passes graph ->
    forall slot copy,
      JsArray.get (resolveTextureOutputIDs pass) slot = Some copy ->
      exists id,
        JsArray.get (renderTargetIDs pass) slot = Some id /\
        resolveTextureRenderTargetIDs graph !! copy = Some id.

(* a setup callback that records no copy-output on the pass it is given
   and keeps the graph under construction wired *)
Definition tidy_setup (setupFunc : SceneGraphBuilder.SceneGraphPassSetupFunc) : Prop :=
  forall pass this pass' this',
    setupFunc pass this = OK (pass', this') ->
    resolveTextureOutputIDs pass' = resolveTextureOutputIDs pass /\
    forall graph,
      SceneGraphBuilder.currentGraph this = Some graph -> outputs_wired graph ->
      exists graph',
        SceneGraphBuilder.currentGraph this' = Some graph' /\ outputs_wired graph'.

(* the usual setup of a pass that samples a copy: request the copy of
   [renderTargetID], then make the interface calls [calls copy] *)
Definition sampling_setup (renderTargetID : nat) (calls : nat -> list PassCall)
  : SceneGraphBuilder.SceneGraphPassSetupFunc :=
  fun pass builder =>
    let* (copy, builder) :=
      SceneGraphBuilder.resolveRenderTargetToColorTexture renderTargetID builder in
    let* pass := run_calls (calls copy) pass in
    OK (pass, builder).

(* what a script of interface calls asks for *)
Definition script_binds (calls : list PassCall)
  : list (RenderTargetAttachmentSlot * nat) :=
  omap (fun call => match call with
                    | CallAttachRenderTargetID slot id => Some (slot, id)
                    | _ => None
                    end) calls.

Definition script_inputs (calls : list PassCall) : list nat :=
  omap (fun call => match call with
                    | CallAttachResolveTexture id => Some id
                    | _ => None
                    end) calls.

Definition script_execs (calls : list PassCall) : nat :=
  count_if (fun call => match call with CallExec _ => true | _ => false end) calls.

Definition script_presents (calls : list PassCall) : bool :=
  existsb (fun call => match call with CallPresent => true | _ => false end) calls.

(* the script can run on [pass]: it binds no slot twice, none that [pass]
   has bound, and sets the callback at most once, not at all when [pass]
   has one *)
Definition script_fits (calls : list PassCall) (pass : SceneGraphPassImpl) : Prop :=
  NoDup (script_binds calls).*1 /\
  (forall slot, slot ∈ (script_binds calls).*1 ->
     JsArray.get (renderTargetIDs pass) (slot_index slot) = None) /\
  script_execs calls + match func pass with Some _ => 1 | None => 0 end <= 1.


(** * Vocabulary of the steady state *)

(* two descriptions that the same render target matches *)
Definition same_surface (desc other : RenderTargetDescription) : bool :=
  bool_decide (desc_pixelFormat desc = desc_pixelFormat other)
  && bool_decide (desc_width desc = desc_width other)
  && bool_decide (desc_height desc = desc_height other)
  && bool_decide (desc_numSamples desc = desc_numSamples other).

(* two descriptions that the same resolve texture matches *)
Definition same_texture (desc other : RenderTargetDescription) : bool :=
  bool_decide (desc_pixelFormat desc = desc_pixelFormat other)
  && bool_decide (desc_width desc = desc_width other)
  && bool_decide (desc_height desc = desc_height other).

(* the number of entries of [l] that [f] accepts together with their
   index, counted from [i] *)
Fixpoint count_from {A} (f : nat -> A -> bool) (i : nat) (l : list A) : nat :=
  match l with
  | [] => 0
  | x :: l' => (if f i x then 1 else 0) + count_from f (S i) l'
  end.

(* a render target is checked out for the surface [id] *)
Definition is_checked_out (this : SceneGraphExecutor.t) (id : nat) : bool :=
  negb (SceneGraphExecutor.is_undefined
          (JsArray.get (SceneGraphExecutor.renderTargetAliveForID this) id)).

(* the number of surfaces of [graph] that a render target matching [desc]
   is checked out for *)
Definition checked_out (graph : SceneGraph) (this : SceneGraphExecutor.t)
    (desc : RenderTargetDescription) : nat :=
  count_from (fun id d => is_checked_out this id && same_surface d desc) 0
             (renderTargetDescriptions graph).

(* a physical copy is registered for [copy] and not yet back in the pool:
   the copy still has consumers to come *)
Definition is_held (this : SceneGraphExecutor.t) (copy : nat) : bool :=
  jsnum_gt0 (JsArray.get (SceneGraphExecutor.resolveTextureUseCount this) copy)
  && negb (SceneGraphExecutor.is_undefined
             (JsArray.get (SceneGraphExecutor.resolveTextureForID this) copy)).

(* the number of copies of [graph] that hold a resolve texture matching
   [desc] *)
Definition held (graph : SceneGraph) (this : SceneGraphExecutor.t)
    (desc : RenderTargetDescription) : nat :=
  count_from (fun copy origin =>
                is_held this copy
                && match renderTargetDescriptions graph !! origin with
                   | Some d => same_texture d desc
                   | None => false
                   end) 0
             (resolveTextureRenderTargetIDs graph).

(* the render targets and resolve textures matching [desc] that the
   executor has, checked out or pooled *)
Definition have_renderTargets (graph : SceneGraph) (this : SceneGraphExecutor.t)
    (desc : RenderTargetDescription) : nat :=
  checked_out graph this desc
  + count_if (fun rt => RenderTarget.matchesDescription rt desc)
             (SceneGraphExecutor.renderTargetDeadPool this).

Definition have_resolveTextures (graph : SceneGraph) (this : SceneGraphExecutor.t)
    (desc : RenderTargetDescription) : nat :=
  held graph this desc
  + count_if (fun rt => ResolveTexture.matchesDescription rt desc)
             (SceneGraphExecutor.resolveTextureDeadPool this).

(* those of them used in this cycle: checked out, or pooled with age 0 *)
Definition used_renderTargets (graph : SceneGraph) (this : SceneGraphExecutor.t)
    (desc : RenderTargetDescription) : nat :=
  checked_out graph this desc
  + count_if (fun rt => RenderTarget.matchesDescription rt desc
                        && (RenderTarget.age rt =? 0))
             (SceneGraphExecutor.renderTargetDeadPool this).

Definition used_resolveTextures (graph : SceneGraph) (this : SceneGraphExecutor.t)
    (desc : RenderTargetDescription) : nat :=
  held graph this desc
  + count_if (fun rt => ResolveTexture.matchesDescription rt desc
                        && (ResolveTexture.age rt =? 0))
             (SceneGraphExecutor.resolveTextureDeadPool this).

(* a registered physical copy was taken or created in this cycle and
   matches the description of the surface the copy is of *)
Definition table_match (graph : SceneGraph) (this : SceneGraphExecutor.t) : Prop :=
  forall copy rtex,
    JsArray.get (SceneGraphExecutor.resolveTextureForID this) copy = Some rtex ->
    ResolveTexture.age rtex = 0 /\
    exists origin desc,
      resolveTextureRenderTargetIDs graph !! copy = Some origin /\
      renderTargetDescriptions graph !! origin = Some desc /\
      ResolveTexture.matchesDescription rtex desc = true.

(* the resources of the executor are as scheduling leaves them *)
Definition well_kept (graph : SceneGraph) (this : SceneGraphExecutor.t) : Prop :=
  pool_shape this /\ alive_shape graph this /\ fresh_age this /\
  table_match graph this.

(* from [this] to [this'] nothing used in this cycle was lost, and when
   [quiet] holds nothing was gained either *)
Definition ledger (graph : SceneGraph) (this this' : SceneGraphExecutor.t)
    (quiet : Prop) : Prop :=
  (forall desc,
     used_renderTargets graph this desc <= used_renderTargets graph this' desc /\
     used_resolveTextures graph this desc <= used_resolveTextures graph this' desc) /\
  (quiet ->
   forall desc,
     have_renderTargets graph this' desc = have_renderTargets graph this desc /\
     have_resolveTextures graph this' desc = have_resolveTextures graph this desc).

(* two executors at the same point of scheduling the same graph: the same
   counts, the same surfaces checked out, the same copies registered *)
Definition twin (this other : SceneGraphExecutor.t) : Prop :=
  SceneGraphExecutor.renderTargetUseCount this
    = SceneGraphExecutor.renderTargetUseCount other /\
  SceneGraphExecutor.resolveTextureUseCount this
    = SceneGraphExecutor.resolveTextureUseCount other /\
  (forall id, is_checked_out this id = is_checked_out other id) /\
  (forall copy,
     SceneGraphExecutor.is_undefined
       (JsArray.get (SceneGraphExecutor.resolveTextureForID this) copy)
     = SceneGraphExecutor.is_undefined
         (JsArray.get (SceneGraphExecutor.resolveTextureForID other) copy)).

(* [other] has what the cycle that ends in [final] used *)
Definition covers (graph : SceneGraph) (final other : SceneGraphExecutor.t) : Prop :=
  forall desc,
    used_renderTargets graph final desc <= have_renderTargets graph other desc /\
    used_resolveTextures graph final desc <= have_resolveTextures graph other desc.

(* [this'] has as many render targets and resolve textures of each kind
   as [this] *)
Definition same_stock (graph : SceneGraph) (this this' : SceneGraphExecutor.t) : Prop :=
  forall desc,
    have_renderTargets graph this' desc = have_renderTargets graph this desc /\
    have_resolveTextures graph this' desc = have_resolveTextures graph this desc.

(* a step of the second executor that follows a step of the first *)
Definition in_step (graph : SceneGraph) (first' other other' : SceneGraphExecutor.t)
  : Prop :=
  twin first' other' /\ well_kept graph other' /\ same_stock graph other other'.

(* what [acquireRenderTargetForID] returns for a slot: nothing for an
   unbound slot, a render target matching the description of the surface
   for a bound one *)
Definition acquired_for (graph : SceneGraph) (o : option nat)
    (acquired : option RenderTarget.t) : Prop :=
  match o, acquired with
  | None, None => True
  | Some id, Some rt =>
      exists desc,
        renderTargetDescriptions graph !! id = Some desc /\
        RenderTarget.matchesDescription rt desc = true
  | _, _ => False
  end.

(* two passes that ask the scheduler for the same things: the same
   surfaces in the same slots, the same copy-outputs, the same copy inputs
   and the same present flag (callback, viewport and name are free) *)
Definition same_requests (pass pass' : SceneGraphPassImpl) : Prop :=
  renderTargetIDs pass' = renderTargetIDs pass /\
  resolveTextureOutputIDs pass' = resolveTextureOutputIDs pass /\
  resolveTextureInputIDs pass' = resolveTextureInputIDs pass /\
  doPresent pass' = doPresent pass.

(* two graphs with the same surfaces and copies whose passes, in order,
   ask for the same things: what the builder returns frame after frame *)
Definition same_plan (graph graph' : SceneGraph) : Prop :=
  renderTargetDescriptions graph' = renderTargetDescriptions graph /\
  resolveTextureRenderTargetIDs graph' = resolveTextureRenderTargetIDs graph /\
  Forall2 same_requests (passes graph) (passes graph').

(** * Lemmas on the embedding's primitives *)

Lemma rbind_OK {A B} (m : result A) (k : A -> result B) (b : B) :
  rbind m k = OK b -> exists a, m = OK a /\ k a = OK b.
Proof. destruct m as [a|e]; simpl; [eauto | discriminate]. Qed.

(* turns a hypothesis [rbind m k = OK b] into its two halves *)
Tactic Notation "inv_bind" hyp(H) "as" simple_intropattern(x) ident(Hx) :=
  apply rbind_OK in H as (x & Hx & H).

Lemma assert_OK (c : bool) (u : unit) : assert c = OK u -> c = true.
Proof. destruct c; [reflexivity | discriminate]. Qed.

Lemma assertExists_OK {A} (v : option A) (x : A) :
  assertExists v = OK x -> v = Some x.
Proof. destruct v; simpl; congruence. Qed.

Example scenario_builds :
  scenario_builder 1 = OK (scenario_graph 1, SceneGraphBuilder.mk None).
Proof. reflexivity. Qed.

Section JsArrayFacts.
Context {A : Type}.
Implicit Types (l : list (option A)) (i j : nat) (v : A).

Lemma get_lookup l i v : JsArray.get l i = Some v <-> l !! i = Some (Some v).
Proof.
  unfold JsArray.get. destruct (l !! i) as [c|]; split; congruence.
Qed.

Lemma get_lt l i v : JsArray.get l i = Some v -> i < length l.
Proof. rewrite get_lookup. apply lookup_lt_Some. Qed.

Lemma get_ge l i : length l <= i -> JsArray.get l i = None.
Proof.
  intros H. unfold JsArray.get. now rewrite (lookup_ge_None_2 l i H).
Qed.

Lemma get_set_eq l i v : JsArray.get (JsArray.set l i v) i = Some v.
Proof.
  unfold JsArray.get, JsArray.set. destruct (decide (i < length l)) as [Hlt|Hge].
  - now rewrite list_lookup_insert_eq.
  - rewrite lookup_app_r by lia. rewrite lookup_app_r; rewrite length_replicate.
    + now replace (i - length l - (i - length l)) with 0 by lia.
    + lia.
Qed.

Lemma get_set_ne l i j v : i <> j -> JsArray.get (JsArray.set l i v) j = JsArray.get l j.
Proof.
  intros Hne. unfold JsArray.get, JsArray.set.
  destruct (decide (i < length l)) as [Hlt|Hge].
  - now rewrite list_lookup_insert_ne.
  - destruct (decide (j < length l)) as [Hj|Hj].
    + now rewrite lookup_app_l.
    + rewrite (lookup_ge_None_2 l j) by lia.
      rewrite lookup_app_r by lia.
      destruct (decide (j - length l < i - length l)) as [Hin|Hout].
      * rewrite lookup_app_l by (rewrite length_replicate; lia).
        now rewrite lookup_replicate_2.
      * rewrite lookup_app_r by (rewrite length_replicate; lia).
        rewrite length_replicate.
        destruct (j - length l - (i - length l)) as [|k] eqn:Hk; [lia|].
        reflexivity.
Qed.

Lemma length_set_lt l i v : i < length l -> length (JsArray.set l i v) = length l.
Proof.
  intros H. unfold JsArray.set. rewrite decide_True by assumption.
  apply length_insert.
Qed.

Lemma length_set_le l i v : length l <= length (JsArray.set l i v).
Proof.
  unfold JsArray.set. destruct (decide (i < length l)).
  - now rewrite length_insert.
  - rewrite length_app. lia.
Qed.

Lemma get_delete_eq l i : JsArray.get (JsArray.delete l i) i = None.
Proof.
  unfold JsArray.get, JsArray.delete.
  destruct (decide (i < length l)) as [Hlt|Hge].
  - now rewrite list_lookup_insert_eq.
  - rewrite list_insert_ge by lia. now rewrite lookup_ge_None_2 by lia.
Qed.

Lemma get_delete_ne l i j : i <> j -> JsArray.get (JsArray.delete l i) j = JsArray.get l j.
Proof.
  intros Hne. unfold JsArray.get, JsArray.delete.
  now rewrite list_lookup_insert_ne.
Qed.

Lemma length_delete l i : length (JsArray.delete l i) = length l.
Proof. apply length_insert. Qed.

Lemma get_fillArray n v i : i < n -> JsArray.get (JsArray.fillArray n v) i = Some v.
Proof.
  intros H. unfold JsArray.get, JsArray.fillArray.
  now rewrite lookup_replicate_2.
Qed.

End JsArrayFacts.

Lemma includes_true (l : list (option nat)) (v : nat) :
  JsArray.includes l v = true <-> Some v ∈ l.
Proof.
  unfold JsArray.includes. induction l as [|c l IH]; simpl.
  - split; [discriminate | intros H; inversion H].
  - rewrite orb_true_iff, IH, bool_decide_eq_true, elem_of_cons.
    split; intros [H|H]; auto.
Qed.

Lemma includes_false (l : list (option nat)) (v : nat) :
  JsArray.includes l v = false <-> Some v ∉ l.
Proof.
  rewrite <- includes_true. destruct (JsArray.includes l v); split; congruence.
Qed.

Lemma indexOf_Some (l : list (option nat)) (v s : nat) :
  JsArray.indexOf l v = Some s <->
  l !! s = Some (Some v) /\ forall s', s' < s -> l !! s' <> Some (Some v).
Proof.
  revert s. induction l as [|c l IH]; intros s; simpl.
  - split; [discriminate | intros [H _]; discriminate].
  - destruct (bool_decide (c = Some v)) eqn:Hc.
    + apply bool_decide_eq_true in Hc. subst c. split.
      * intros [= <-]. split; [reflexivity | intros s' Hs'; lia].
      * intros [Hs Hmin]. destruct s as [|s]; [reflexivity|].
        exfalso. apply (Hmin 0); [lia | reflexivity].
    + apply bool_decide_eq_false in Hc.
      destruct (JsArray.indexOf l v) as [k|].
      * split.
        -- intros [= <-]. destruct (proj1 (IH k) eq_refl) as [Hk Hmin].
           split; [exact Hk|].
           intros [|s'] Hs'; simpl; [congruence | apply Hmin; lia].
        -- intros [Hs Hmin]. destruct s as [|s]; simpl in Hs; [congruence|].
           assert (Some k = Some s) as Hks; [|congruence].
           apply (IH s). split; [exact Hs|]. intros s' Hs'.
           apply (Hmin (S s')). lia.
      * split; [discriminate|]. intros [Hs Hmin].
        destruct s as [|s]; simpl in Hs; [congruence|].
        assert (None = Some s) as Hks; [|discriminate].
        apply (IH s). split; [exact Hs|]. intros s' Hs'. apply (Hmin (S s')). lia.
Qed.

Lemma indexOf_None (l : list (option nat)) (v : nat) :
  JsArray.indexOf l v = None <-> Some v ∉ l.
Proof.
  induction l as [|c l IH]; simpl.
  - split; [intros _ H; inversion H | reflexivity].
  - rewrite not_elem_of_cons. destruct (bool_decide (c = Some v)) eqn:Hc.
    + apply bool_decide_eq_true in Hc. split; [discriminate | intros [H _]; congruence].
    + apply bool_decide_eq_false in Hc.
      destruct (JsArray.indexOf l v) as [k|].
      * split; [discriminate|]. intros [_ H]. apply IH in H. discriminate.
      * split; [|reflexivity]. intros _. split; [congruence | now apply IH].
Qed.

(** * The graph builder *)

Lemma binds_includes (pass : SceneGraphPassImpl) (id : nat) :
  JsArray.includes (renderTargetIDs pass) id = true <-> binds pass id.
Proof. apply includes_true. Qed.

Lemma scan_back_None (ps : list SceneGraphPassImpl) (id k : nat) :
  SceneGraphBuilder.scan_back ps id k = None <->
  forall i pass, i < k -> ps !! i = Some pass -> ~ binds pass id.
Proof.
  induction k as [|k IH]; simpl.
  - split; [intros _ i pass Hi; lia | reflexivity].
  - destruct (ps !! k) as [pass|] eqn:Hk.
    + destruct (JsArray.includes (renderTargetIDs pass) id) eqn:Hinc.
      * split; [discriminate|]. intros H. exfalso.
        apply (H k pass); [lia | exact Hk | now apply binds_includes].
      * rewrite IH. split; intros H i q Hi Hq.
        -- destruct (decide (i = k)) as [->|Hne].
           ++ rewrite Hk in Hq. injection Hq as <-.
              rewrite <- binds_includes. congruence.
           ++ apply (H i q); [lia | exact Hq].
        -- apply (H i q); [lia | exact Hq].
    + rewrite IH. split; intros H i q Hi Hq.
      * destruct (decide (i = k)) as [->|Hne]; [congruence|].
        apply (H i q); [lia | exact Hq].
      * apply (H i q); [lia | exact Hq].
Qed.

Lemma scan_back_Some (ps : list SceneGraphPassImpl) (id k i : nat)
    (pass : SceneGraphPassImpl) :
  SceneGraphBuilder.scan_back ps id k = Some (i, pass) ->
  i < k /\ ps !! i = Some pass /\ binds pass id /\
  forall j later, i < j -> j < k -> ps !! j = Some later -> ~ binds later id.
Proof.
  induction k as [|k IH]; simpl; [discriminate|].
  destruct (ps !! k) as [q|] eqn:Hk.
  - destruct (JsArray.includes (renderTargetIDs q) id) eqn:Hinc.
    + intros [= <- <-]. repeat split; [lia | exact Hk | now apply binds_includes |].
      intros j later Hij Hjk. lia.
    + intros H. destruct (IH H) as (Hi & Hp & Hb & Hlater).
      repeat split; [lia | exact Hp | exact Hb |].
      intros j later Hij Hjk Hj. destruct (decide (j = k)) as [->|Hne].
      * rewrite Hk in Hj. injection Hj as <-.
        rewrite <- binds_includes. congruence.
      * apply (Hlater j later); [lia | lia | exact Hj].
  - intros H. destruct (IH H) as (Hi & Hp & Hb & Hlater).
    repeat split; [lia | exact Hp | exact Hb |].
    intros j later Hij Hjk Hj. destruct (decide (j = k)) as [->|Hne]; [congruence|].
    apply (Hlater j later); [lia | lia | exact Hj].
Qed.

(* the copy-output written by the request, on the pass that was found *)
Lemma resolve_unfold (graph : SceneGraph) (id : nat) :
  SceneGraphBuilder.resolveRenderTargetToColorTexture id
    (SceneGraphBuilder.mk (Some graph)) =
  match SceneGraphBuilder.scan_back (passes graph) id (length (passes graph)) with
  | None => Fatal AssertFailed
  | Some (i, pass) =>
      OK (length (resolveTextureRenderTargetIDs graph),
          SceneGraphBuilder.mk
            (Some (mkGraph (renderTargetDescriptions graph)
                     (resolveTextureRenderTargetIDs graph ++ [id])
                     (<[i := with_resolveTextureOutputIDs
                               (JsArray.set_at (resolveTextureOutputIDs pass)
                                  (JsArray.indexOf (renderTargetIDs pass) id)
                                  (length (resolveTextureRenderTargetIDs graph)))
                               pass]> (passes graph)))))
  end.
Proof.
  unfold SceneGraphBuilder.resolveRenderTargetToColorTexture,
    SceneGraphBuilder.createResolveTextureID,
    SceneGraphBuilder.findLastPassForRenderTarget. simpl.
  destruct (SceneGraphBuilder.scan_back (passes graph) id (length (passes graph)))
    as [[i pass]|]; reflexivity.
Qed.

Lemma run_call_outputs (c : PassCall) (p p' : SceneGraphPassImpl) :
  run_call c p = OK p' -> resolveTextureOutputIDs p' = resolveTextureOutputIDs p.
Proof.
  destruct c; simpl; unfold setDebugName, attachRenderTargetID,
    attachResolveTexture, exec, present; intros H.
  - now injection H as <-.
  - apply rbind_OK in H as (u & _ & H). now injection H as <-.
  - now injection H as <-.
  - apply rbind_OK in H as (u & _ & H). now injection H as <-.
  - now injection H as <-.
Qed.

Lemma run_calls_outputs (cs : list PassCall) (p p' : SceneGraphPassImpl) :
  run_calls cs p = OK p' -> resolveTextureOutputIDs p' = resolveTextureOutputIDs p.
Proof.
  revert p. induction cs as [|c cs IH]; intros p; simpl.
  - now intros [= <-].
  - intros H. apply rbind_OK in H as (q & Hq & H).
    rewrite (IH _ H). now apply run_call_outputs with c.
Qed.

Lemma pushPass_calls (cs : list PassCall) (graph : SceneGraph)
    (pass : SceneGraphPassImpl) :
  run_calls cs newPass = OK pass ->
  SceneGraphBuilder.pushPass (SceneGraphBuilder.setup_of_calls cs)
    (SceneGraphBuilder.mk (Some graph)) =
  OK (SceneGraphBuilder.mk
        (Some (mkGraph (renderTargetDescriptions graph)
                       (resolveTextureRenderTargetIDs graph)
                       (passes graph ++ [pass])))).
Proof.
  intros H. unfold SceneGraphBuilder.pushPass, SceneGraphBuilder.setup_of_calls.
  now rewrite H.
Qed.

Lemma scan_back_last (ps : list SceneGraphPassImpl) (pass : SceneGraphPassImpl)
    (id : nat) :
  binds pass id ->
  SceneGraphBuilder.scan_back (ps ++ [pass]) id (length (ps ++ [pass])) =
  Some (length ps, pass).
Proof.
  intros Hb. rewrite length_app. simpl.
  replace (length ps + 1) with (S (length ps)) by lia. simpl.
  rewrite lookup_app_r by lia. replace (length ps - length ps) with 0 by lia.
  simpl. apply binds_includes in Hb. now rewrite Hb.
Qed.

(** C2.  A copy request on a graph under construction fails exactly when
    no appended pass binds the surface; otherwise it returns the next
    free copy id, registers it against the surface, and records it as
    copy-output of the last pass that binds the surface, at the first
    slot of that pass holding the surface.  A copy requested between two
    writers of the surface is attached to the earlier one and the later
    writer gets no copy-output. *)
Theorem resolveRenderTargetToColorTexture_last_writer
    (graph : SceneGraph) (renderTargetID : nat) :
  let this := SceneGraphBuilder.mk (Some graph) in
  (is_fatal (SceneGraphBuilder.resolveRenderTargetToColorTexture renderTargetID this)
   <-> forall pass, pass ∈ passes graph -> ~ binds pass renderTargetID)
  /\
  (forall copy this',
     SceneGraphBuilder.resolveRenderTargetToColorTexture renderTargetID this
       = OK (copy, this') ->
     copy = length (resolveTextureRenderTargetIDs graph) /\
     exists i pass slot,
       passes graph !! i = Some pass /\
       (forall j later, i < j -> passes graph !! j = Some later ->
                        ~ binds later renderTargetID) /\
       renderTargetIDs pass !! slot = Some (Some renderTargetID) /\
       (forall s, s < slot -> renderTargetIDs pass !! s <> Some (Some renderTargetID)) /\
       SceneGraphBuilder.currentGraph this' =
         Some (mkGraph (renderTargetDescriptions graph)
                 (resolveTextureRenderTargetIDs graph ++ [renderTargetID])
                 (<[i := with_resolveTextureOutputIDs
                           (JsArray.set (resolveTextureOutputIDs pass) slot copy)
                           pass]> (passes graph))))
  /\
  (forall calls1 calls2 first second,
     run_calls calls1 newPass = OK first -> binds first renderTargetID ->
     run_calls calls2 newPass = OK second -> binds second renderTargetID ->
     exists this1 copy this2 this3 slot,
       SceneGraphBuilder.pushPass (SceneGraphBuilder.setup_of_calls calls1) this
         = OK this1 /\
       SceneGraphBuilder.resolveRenderTargetToColorTexture renderTargetID this1
         = OK (copy, this2) /\
       SceneGraphBuilder.pushPass (SceneGraphBuilder.setup_of_calls calls2) this2
         = OK this3 /\
       renderTargetIDs first !! slot = Some (Some renderTargetID) /\
       passes <$> SceneGraphBuilder.currentGraph this3 =
         Some (passes graph ++
               [with_resolveTextureOutputIDs (JsArray.set [] slot copy) first;
                second]) /\
       resolveTextureOutputIDs second = []).
Proof.
  intros this. subst this. repeat split.
  - rewrite resolve_unfold.
    destruct (SceneGraphBuilder.scan_back _ _ _) as [[i pass]|] eqn:Hs;
      simpl; [tauto|]. intros _ pass Hin Hb.
    apply list_elem_of_lookup in Hin as [i Hi].
    rewrite scan_back_None in Hs.
    apply (Hs i pass); [now apply lookup_lt_Some with pass | exact Hi | exact Hb].
  - rewrite resolve_unfold. intros Hnone.
    destruct (SceneGraphBuilder.scan_back _ _ _) as [[i pass]|] eqn:Hs;
      simpl; [|exact I].
    apply scan_back_Some in Hs as (_ & Hi & Hb & _).
    apply (Hnone pass); [|exact Hb]. apply list_elem_of_lookup. eauto.
  - rewrite resolve_unfold in H.
    destruct (SceneGraphBuilder.scan_back _ _ _) as [[i pass]|]; congruence.
  - rewrite resolve_unfold in H.
    destruct (SceneGraphBuilder.scan_back _ _ _) as [[i pass]|] eqn:Hs;
      [|discriminate].
    injection H as <- <-.
    apply scan_back_Some in Hs as (Hik & Hi & Hb & Hlater).
    destruct (JsArray.indexOf (renderTargetIDs pass) renderTargetID) as [slot|] eqn:Hslot.
    + apply indexOf_Some in Hslot as [Hslot Hmin].
      exists i, pass, slot. repeat split; try assumption.
      intros j later Hij Hj. apply (Hlater j later); [exact Hij | | exact Hj].
      now apply lookup_lt_Some with later.
    + apply indexOf_None in Hslot. contradiction.
  - intros calls1 calls2 first second H1 Hb1 H2 Hb2.
    destruct (JsArray.indexOf (renderTargetIDs first) renderTargetID) as [slot|] eqn:Hslot;
      [|apply indexOf_None in Hslot; contradiction].
    eexists _, _, _, _, slot.
    rewrite (pushPass_calls calls1 graph first H1).
    split; [reflexivity|].
    rewrite resolve_unfold. cbn [passes renderTargetDescriptions
                                 resolveTextureRenderTargetIDs].
    rewrite (scan_back_last (passes graph) first renderTargetID Hb1).
    rewrite Hslot. cbn [JsArray.set_at].
    split; [reflexivity|].
    rewrite (run_calls_outputs calls1 newPass first H1). cbn [resolveTextureOutputIDs newPass].
    erewrite pushPass_calls by exact H2.
    split; [reflexivity|].
    split; [now apply indexOf_Some in Hslot as [? _]|].
    split.
    + cbn. f_equal. rewrite insert_app_r_alt by lia.
      replace (length (passes graph) - length (passes graph)) with 0 by lia.
      cbn. now rewrite <- app_assoc.
    + now rewrite (run_calls_outputs calls2 newPass second H2).
Qed.

(** C7.  [begin] carries no check: called while a graph is under
    construction it returns normally, dropping that graph for a new empty
    one.  [end] without a graph under construction is fatal. *)
Theorem begin_nested_not_checked (graph : SceneGraph) :
  SceneGraphBuilder.begin (SceneGraphBuilder.mk (Some graph))
    = OK (SceneGraphBuilder.mk (Some newSceneGraph))
  /\ SceneGraphBuilder.end_ (SceneGraphBuilder.mk None) = Fatal AssertFailed.
Proof. split; reflexivity. Qed.

(** * Pass A: counting *)

Lemma incr_at_eq (a : list (option jsnum)) (i : nat) (z : Z) :
  count_is a i z -> count_is (incr_at a i) i (z + 1).
Proof.
  unfold count_is, incr_at. intros H. rewrite get_set_eq, H. reflexivity.
Qed.

Lemma incr_at_ne (a : list (option jsnum)) (i j : nat) :
  i <> j -> JsArray.get (incr_at a i) j = JsArray.get a j.
Proof. intros H. unfold incr_at. now apply get_set_ne. Qed.

Lemma incr_at_count (a : list (option jsnum)) (i j : nat) (z : Z) :
  count_is a j z ->
  count_is (incr_at a i) j (z + (if bool_decide (i = j) then 1 else 0)).
Proof.
  intros H. destruct (bool_decide (i = j)) eqn:Hij.
  - apply bool_decide_eq_true in Hij. subst j. now apply incr_at_eq.
  - apply bool_decide_eq_false in Hij. unfold count_is.
    rewrite incr_at_ne by assumption. now rewrite Z.add_0_r.
Qed.

Lemma addRenderTargetUse_count (c : option nat) (this : SceneGraphExecutor.t)
    (id : nat) (z : Z) :
  count_is (SceneGraphExecutor.renderTargetUseCount this) id z ->
  count_is (SceneGraphExecutor.renderTargetUseCount
              (SceneGraphExecutor.addRenderTargetUse c this)) id
           (z + (if bool_decide (c = Some id) then 1 else 0)).
Proof.
  intros H. destruct c as [i|]; simpl.
  - replace (bool_decide (Some i = Some id)) with (bool_decide (i = id)).
    + now apply incr_at_count.
    + apply bool_decide_ext. split; congruence.
  - now rewrite Z.add_0_r.
Qed.

Lemma addRenderTargetUse_other (c : option nat) (this : SceneGraphExecutor.t) :
  SceneGraphExecutor.resolveTextureUseCount (SceneGraphExecutor.addRenderTargetUse c this)
  = SceneGraphExecutor.resolveTextureUseCount this.
Proof. destruct c; reflexivity. Qed.

Lemma addUseCount_renderTargets_count (ids : list (option nat))
    (this : SceneGraphExecutor.t) (id : nat) (z : Z) :
  count_is (SceneGraphExecutor.renderTargetUseCount this) id z ->
  count_is (SceneGraphExecutor.renderTargetUseCount
              (SceneGraphExecutor.addUseCount_renderTargets ids this)) id
           (z + Z.of_nat (count_if (fun c => bool_decide (c = Some id)) ids)).
Proof.
  revert this z. induction ids as [|c ids IH]; intros this z H; simpl.
  - now rewrite Z.add_0_r.
  - apply (addRenderTargetUse_count c) in H. apply IH in H.
    unfold count_is in *. rewrite H. do 2 f_equal.
    destruct (bool_decide (c = Some id)); lia.
Qed.

Lemma addUseCount_renderTargets_other (ids : list (option nat))
    (this : SceneGraphExecutor.t) :
  SceneGraphExecutor.resolveTextureUseCount
    (SceneGraphExecutor.addUseCount_renderTargets ids this)
  = SceneGraphExecutor.resolveTextureUseCount this.
Proof.
  revert this. induction ids as [|c ids IH]; intros this; simpl; [reflexivity|].
  rewrite IH. apply addRenderTargetUse_other.
Qed.

Lemma addUseCount_resolveTextures_count (graph : SceneGraph) (ids : list nat)
    (this : SceneGraphExecutor.t) :
  (forall surface zs,
     count_is (SceneGraphExecutor.renderTargetUseCount this) surface zs ->
     count_is (SceneGraphExecutor.renderTargetUseCount
                 (SceneGraphExecutor.addUseCount_resolveTextures graph ids this)) surface
              (zs + Z.of_nat (count_if
                      (fun c => bool_decide
                         (resolveTextureRenderTargetIDs graph !! c = Some surface)) ids)))
  /\
  (forall copy zc,
     count_is (SceneGraphExecutor.resolveTextureUseCount this) copy zc ->
     count_is (SceneGraphExecutor.resolveTextureUseCount
                 (SceneGraphExecutor.addUseCount_resolveTextures graph ids this)) copy
              (zc + Z.of_nat (count_if (fun c => bool_decide (c = copy)) ids))).
Proof.
  revert this. induction ids as [|c ids IH]; intros this; simpl.
  - split; intros i z H; now rewrite Z.add_0_r.
  - set (this1 := SceneGraphExecutor.with_resolveTextureUseCount _ this).
    destruct (IH (SceneGraphExecutor.addRenderTargetUse
                    (resolveTextureRenderTargetIDs graph !! c) this1)) as [IHs IHc].
    split.
    + intros surface zs Hs.
      assert (count_is (SceneGraphExecutor.renderTargetUseCount this1) surface zs)
        as Hs1 by exact Hs.
      apply (addRenderTargetUse_count (resolveTextureRenderTargetIDs graph !! c))
        in Hs1.
      apply IHs in Hs1. unfold count_is in *. rewrite Hs1. do 2 f_equal.
      destruct (bool_decide (_ = Some surface)); lia.
    + intros copy zc Hc.
      assert (count_is (SceneGraphExecutor.resolveTextureUseCount this1) copy
                (zc + (if bool_decide (c = copy) then 1 else 0))) as Hc1
        by (now apply incr_at_count).
      rewrite <- (addRenderTargetUse_other (resolveTextureRenderTargetIDs graph !! c))
        in Hc1.
      apply IHc in Hc1. unfold count_is in *. rewrite Hc1. do 2 f_equal.
      destruct (bool_decide (c = copy)); lia.
Qed.

Lemma scheduleAddUseCount_adds (graph : SceneGraph) (pass : SceneGraphPassImpl)
    (this : SceneGraphExecutor.t) :
  (forall surface zs,
     count_is (SceneGraphExecutor.renderTargetUseCount this) surface zs ->
     count_is (SceneGraphExecutor.renderTargetUseCount
                 (SceneGraphExecutor.scheduleAddUseCount graph pass this)) surface
              (zs + Z.of_nat (surface_uses graph pass surface)))
  /\
  (forall copy zc,
     count_is (SceneGraphExecutor.resolveTextureUseCount this) copy zc ->
     count_is (SceneGraphExecutor.resolveTextureUseCount
                 (SceneGraphExecutor.scheduleAddUseCount graph pass this)) copy
              (zc + Z.of_nat (input_uses pass copy))).
Proof.
  unfold SceneGraphExecutor.scheduleAddUseCount.
  destruct (addUseCount_resolveTextures_count graph (resolveTextureInputIDs pass)
              (SceneGraphExecutor.addUseCount_renderTargets (renderTargetIDs pass) this))
    as [Hs Hc].
  split.
  - intros surface zs H.
    apply (addUseCount_renderTargets_count (renderTargetIDs pass)) in H.
    apply Hs in H. unfold count_is in *. rewrite H. do 2 f_equal.
    unfold surface_uses, slot_uses, origin_uses. lia.
  - intros copy zc H. apply Hc. now rewrite addUseCount_renderTargets_other.
Qed.

Lemma count_if_none {A} (f : A -> bool) (l : list A) :
  (forall x, x ∈ l -> f x = false) -> count_if f l = 0.
Proof.
  induction l as [|x l IH]; intros H; simpl; [reflexivity|].
  rewrite (H x) by (apply elem_of_cons; now left).
  apply IH. intros y Hy. apply H, elem_of_cons. now right.
Qed.

(** C3.  Counting one pass adds to the use-count of every surface one for
    each attachment slot of the pass bound to it and one for each copy the
    pass consumes that originates from it, and adds to the use-count of
    every copy one for each time the pass consumes it; unbound slots add
    nothing, and the count of a surface that the pass neither binds nor
    consumes a copy of is left as it is.  The surface part holds whatever
    the copy counters are, also for a graph without copies. *)
Theorem scheduleAddUseCount_counts (graph : SceneGraph) (pass : SceneGraphPassImpl)
    (this : SceneGraphExecutor.t) :
  (forall surface zs,
     count_is (SceneGraphExecutor.renderTargetUseCount this) surface zs ->
     count_is (SceneGraphExecutor.renderTargetUseCount
                 (SceneGraphExecutor.scheduleAddUseCount graph pass this)) surface
              (zs + Z.of_nat (slot_uses pass surface)
                  + Z.of_nat (origin_uses graph pass surface)))
  /\
  (forall copy zc,
     count_is (SceneGraphExecutor.resolveTextureUseCount this) copy zc ->
     count_is (SceneGraphExecutor.resolveTextureUseCount
                 (SceneGraphExecutor.scheduleAddUseCount graph pass this)) copy
              (zc + Z.of_nat (input_uses pass copy)))
  /\
  (forall surface zs,
     Some surface ∉ renderTargetIDs pass ->
     (forall copy, copy ∈ resolveTextureInputIDs pass ->
        resolveTextureRenderTargetIDs graph !! copy <> Some surface) ->
     count_is (SceneGraphExecutor.renderTargetUseCount this) surface zs ->
     count_is (SceneGraphExecutor.renderTargetUseCount
                 (SceneGraphExecutor.scheduleAddUseCount graph pass this)) surface zs).
Proof.
  destruct (scheduleAddUseCount_adds graph pass this) as [H1 H2].
  assert (forall surface zs,
            count_is (SceneGraphExecutor.renderTargetUseCount this) surface zs ->
            count_is (SceneGraphExecutor.renderTargetUseCount
                        (SceneGraphExecutor.scheduleAddUseCount graph pass this)) surface
                     (zs + Z.of_nat (slot_uses pass surface)
                         + Z.of_nat (origin_uses graph pass surface))) as Hsurface.
  { intros surface zs Hs. apply H1 in Hs. unfold count_is in *. rewrite Hs.
    do 2 f_equal. unfold surface_uses. lia. }
  split; [exact Hsurface|]. split; [exact H2|].
  intros surface zs Hslots Hinputs Hs. apply Hsurface in Hs.
  unfold slot_uses, origin_uses in Hs.
  rewrite count_if_none in Hs.
  - rewrite count_if_none in Hs.
    + unfold count_is in *. rewrite Hs. do 2 f_equal. lia.
    + intros copy Hcopy. apply bool_decide_eq_false_2. now apply Hinputs.
  - intros c Hc. apply bool_decide_eq_false_2. intros ->. contradiction.
Qed.

(** * Pass B: inversion of the scheduling functions *)

Lemma jsnum_gt0_count (a : list (option jsnum)) (i : nat) :
  jsnum_gt0 (JsArray.get a i) = true <-> exists z, count_is a i z /\ (0 < z)%Z.
Proof.
  unfold count_is. destruct (JsArray.get a i) as [[z|]|]; simpl.
  - rewrite Z.ltb_lt. split; [eauto | intros (z' & [= <-] & H); exact H].
  - split; [discriminate | intros (z & H & _); discriminate].
  - split; [discriminate | intros (z & H & _); discriminate].
Qed.

Lemma decr_at_eq (a : list (option jsnum)) (i : nat) (z : Z) :
  count_is a i z -> count_is (decr_at a i) i (z - 1).
Proof.
  unfold count_is, decr_at. intros H. rewrite get_set_eq, H. reflexivity.
Qed.

Lemma decr_at_ne (a : list (option jsnum)) (i j : nat) :
  i <> j -> JsArray.get (decr_at a i) j = JsArray.get a j.
Proof. intros H. unfold decr_at. now apply get_set_ne. Qed.

Lemma decr_at_length (a : list (option jsnum)) (i : nat) (z : Z) :
  count_is a i z -> length (decr_at a i) = length a.
Proof.
  intros H. unfold decr_at. apply length_set_lt. now apply get_lt with (Num z).
Qed.

Lemma decr_at_count (a : list (option jsnum)) (i j : nat) (z : Z) :
  count_is a j z ->
  count_is (decr_at a i) j (z - (if bool_decide (i = j) then 1 else 0)).
Proof.
  intros H. destruct (bool_decide (i = j)) eqn:Hij.
  - apply bool_decide_eq_true in Hij. subst j. now apply decr_at_eq.
  - apply bool_decide_eq_false in Hij. unfold count_is.
    rewrite decr_at_ne by assumption. now rewrite Z.sub_0_r.
Qed.

Lemma pool_take_Some {A} (matches : A -> bool) (scanned rest : list A)
    (x : A) (pool' : list A) :
  pool_take matches scanned rest = Some (x, pool') ->
  exists before after,
    rest = before ++ x :: after /\ pool' = scanned ++ before ++ after /\
    matches x = true /\ forall y, y ∈ before -> matches y = false.
Proof.
  revert scanned. induction rest as [|y rest IH]; intros scanned; simpl.
  - discriminate.
  - destruct (matches y) eqn:Hy.
    + intros [= <- <-]. exists [], rest. repeat split; try assumption.
      intros z Hz. inversion Hz.
    + intros H. destruct (IH _ H) as (before & after & -> & -> & Hx & Hmin).
      exists (y :: before), after. repeat split.
      * now rewrite <- app_assoc.
      * exact Hx.
      * intros z Hz. apply elem_of_cons in Hz as [->|Hz]; auto.
Qed.

Lemma pool_take_None {A} (matches : A -> bool) (scanned rest : list A) :
  pool_take matches scanned rest = None <-> forall y, y ∈ rest -> matches y = false.
Proof.
  revert scanned. induction rest as [|y rest IH]; intros scanned; simpl.
  - split; [intros _ z Hz; inversion Hz | reflexivity].
  - destruct (matches y) eqn:Hy.
    + split; [discriminate|]. intros H. rewrite H in Hy; [discriminate|].
      apply elem_of_cons. now left.
    + rewrite IH. split; intros H z Hz.
      * apply elem_of_cons in Hz as [->|Hz]; auto.
      * apply H. apply elem_of_cons. now right.
Qed.

Lemma releaseRenderTargetForID_inv (id : nat) (this this' : Ex) :
  SceneGraphExecutor.releaseRenderTargetForID (Some id) this = OK this' ->
  exists z, count_is (rtUC this) id z /\ (0 < z)%Z /\
    let this1 :=
      SceneGraphExecutor.with_renderTargetUseCount (decr_at (rtUC this) id) this in
    if (z =? 1)%Z then
      exists renderTarget,
        JsArray.get (rtAlive this) id = Some renderTarget /\
        this' = SceneGraphExecutor.with_renderTargetDeadPool
                  (rtPool this ++ [RenderTarget.with_needsClear true renderTarget])
                  (SceneGraphExecutor.with_renderTargetAliveForID
                     (JsArray.delete (rtAlive this) id) this1)
    else this' = this1.
Proof.
  unfold SceneGraphExecutor.releaseRenderTargetForID. intros H.
  inv_bind H as [] Hgt. apply assert_OK, jsnum_gt0_count in Hgt as (z & Hz & Hpos).
  exists z. split; [exact Hz|]. split; [exact Hpos|].
  cbn [rtUC SceneGraphExecutor.with_renderTargetUseCount] in H.
  pose proof (decr_at_eq _ _ _ Hz) as Hz'. unfold count_is in Hz'.
  rewrite Hz' in H. cbn [jsnum_is0] in H.
  destruct (z =? 1)%Z eqn:Hz1.
  - apply Z.eqb_eq in Hz1. subst z. cbn in H.
    inv_bind H as rt Hrt. apply assertExists_OK in Hrt. injection H as <-.
    exists rt. split; [exact Hrt | reflexivity].
  - apply Z.eqb_neq in Hz1. replace (z - 1 =? 0)%Z with false in H.
    + now injection H as <-.
    + symmetry. apply Z.eqb_neq. lia.
Qed.

Lemma acquireRenderTargetForDescription_inv (device device' : GfxDevice)
    (desc : RenderTargetDescription) (this this' : Ex) (renderTarget : RenderTarget.t) :
  SceneGraphExecutor.acquireRenderTargetForDescription device desc this
    = OK (renderTarget, device', this') ->
  (exists free pool',
      pool_take (fun rt => RenderTarget.matchesDescription rt desc) [] (rtPool this)
        = Some (free, pool') /\
      renderTarget = RenderTarget.with_age 0 free /\ device' = device /\
      this' = SceneGraphExecutor.with_renderTargetDeadPool pool' this)
  \/ (pool_take (fun rt => RenderTarget.matchesDescription rt desc) [] (rtPool this)
        = None /\
      RenderTarget.new device desc = OK (renderTarget, device') /\ this' = this).
Proof.
  unfold SceneGraphExecutor.acquireRenderTargetForDescription.
  destruct (pool_take _ [] (rtPool this)) as [[free pool']|].
  - intros [= <- <- <-]. left. eauto 10.
  - intros H. inv_bind H as [rt dev1] Hnew. injection H as <- <- <-.
    right. auto.
Qed.

Lemma acquireRenderTargetForID_inv (device device' : GfxDevice) (graph : SceneGraph)
    (id : nat) (this this' : Ex) (acquired : option RenderTarget.t) :
  SceneGraphExecutor.acquireRenderTargetForID device graph (Some id) this
    = OK (acquired, device', this') ->
  (exists z, count_is (rtUC this) id z /\ (0 < z)%Z) /\
  ((exists renderTarget,
       JsArray.get (rtAlive this) id = Some renderTarget /\
       acquired = Some renderTarget /\ device' = device /\ this' = this)
   \/
   (exists desc renderTarget this1,
       JsArray.get (rtAlive this) id = None /\
       renderTargetDescriptions graph !! id = Some desc /\
       SceneGraphExecutor.acquireRenderTargetForDescription device desc this
         = OK (renderTarget, device', this1) /\
       acquired = Some renderTarget /\
       this' = SceneGraphExecutor.with_renderTargetAliveForID
                 (JsArray.set (rtAlive this1) id renderTarget) this1)).
Proof.
  unfold SceneGraphExecutor.acquireRenderTargetForID. intros H.
  inv_bind H as [] Hgt. apply assert_OK, jsnum_gt0_count in Hgt. split; [exact Hgt|].
  destruct (JsArray.get (rtAlive this) id) as [rt|] eqn:Halive.
  - injection H as <- <- <-. left. eauto.
  - inv_bind H as desc' Hd. unfold SceneGraphExecutor.description_at in Hd.
    destruct (renderTargetDescriptions graph !! id) as [desc|] eqn:Hdesc;
      [|discriminate].
    injection Hd as <-. inv_bind H as [[rt dev1] this1] Hacq.
    injection H as <- <- <-. right. exists desc, rt, this1. auto.
Qed.

(** * Release bookkeeping *)

Lemma count_is_inj (a : list (option jsnum)) (i : nat) (z z' : Z) :
  count_is a i z -> count_is a i z' -> z = z'.
Proof. unfold count_is. congruence. Qed.

Lemma released_by_refl (f : nat -> nat) (a : list (option jsnum)) :
  (forall i, f i = 0) -> released_by f a a.
Proof. intros Hf. split; [reflexivity|]. intros i. left. auto. Qed.

Lemma released_by_ext (f g : nat -> nat) (a a' : list (option jsnum)) :
  (forall i, f i = g i) -> released_by f a a' -> released_by g a a'.
Proof.
  intros Hfg [Hlen H]. split; [exact Hlen|]. intros i.
  rewrite <- (Hfg i). apply H.
Qed.

Lemma released_by_trans (f g : nat -> nat) (a a' a'' : list (option jsnum)) :
  released_by f a a' -> released_by g a' a'' ->
  released_by (fun i => f i + g i) a a''.
Proof.
  intros [Hlen1 H1] [Hlen2 H2]. split; [congruence|]. intros i.
  destruct (H1 i) as [[Hf Hsame1]|(z & Hz & Hle & Hz')];
    destruct (H2 i) as [[Hg Hsame2]|(y & Hy & Hle2 & Hy')].
  - left. split; [lia | congruence].
  - right. exists y. unfold count_is in *. rewrite <- Hsame1.
    rewrite Hf. simpl. auto.
  - right. exists z. unfold count_is in *. rewrite Hsame2, Hg.
    rewrite Nat.add_0_r. auto.
  - right. exists z. pose proof (count_is_inj _ _ _ _ Hz' Hy) as <-.
    repeat split; [exact Hz | lia |].
    unfold count_is in *. rewrite Hy'. do 2 f_equal. lia.
Qed.

Lemma released_by_decr (a : list (option jsnum)) (i : nat) (z : Z) :
  count_is a i z -> (0 < z)%Z ->
  released_by (at_most_one (Some i)) a (decr_at a i).
Proof.
  intros Hz Hpos. split; [now apply decr_at_length with z|]. intros j.
  unfold at_most_one. destruct (decide (i = j)) as [<-|Hne].
  - right. exists z. rewrite bool_decide_eq_true_2 by reflexivity.
    repeat split; [exact Hz | lia | now apply decr_at_eq].
  - left. rewrite bool_decide_eq_false_2 by congruence.
    split; [reflexivity | now apply decr_at_ne].
Qed.

Lemma released_by_count (f : nat -> nat) (a a' : list (option jsnum)) (i : nat) (z : Z) :
  released_by f a a' -> count_is a i z -> count_is a' i (z - Z.of_nat (f i)).
Proof.
  intros [_ H] Hz. destruct (H i) as [[Hf Hsame]|(y & Hy & _ & Hy')].
  - unfold count_is in *. rewrite Hsame, Hf, Z.sub_0_r. exact Hz.
  - now rewrite (count_is_inj _ _ _ _ Hz Hy).
Qed.

Lemma released_by_count_inv (f : nat -> nat) (a a' : list (option jsnum))
    (i : nat) (z : Z) :
  released_by f a a' -> count_is a' i z -> count_is a i (z + Z.of_nat (f i)).
Proof.
  intros [_ H] Hz. destruct (H i) as [[Hf Hsame]|(y & Hy & _ & Hy')].
  - unfold count_is in *. rewrite <- Hsame, Hf, Z.add_0_r. exact Hz.
  - pose proof (count_is_inj _ _ _ _ Hz Hy') as ->.
    unfold count_is in *. rewrite Hy. do 2 f_equal. lia.
Qed.

Lemma released_by_positive (f : nat -> nat) (a a' : list (option jsnum)) (i : nat) :
  released_by f a a' -> positive a' i -> positive a i.
Proof.
  intros H (z & Hz & Hpos). exists (z + Z.of_nat (f i))%Z.
  split; [now apply released_by_count_inv with a' | lia].
Qed.

Lemma released_by_used (f : nat -> nat) (a a' : list (option jsnum)) (i : nat) :
  released_by f a a' -> 0 < f i -> positive a i.
Proof.
  intros [_ H] Hf. destruct (H i) as [[Hf0 _]|(z & Hz & Hle & _)]; [lia|].
  exists z. split; [exact Hz | lia].
Qed.

Lemma released_by_untouched (f : nat -> nat) (a a' : list (option jsnum)) (i : nat) :
  released_by f a a' -> f i = 0 -> JsArray.get a' i = JsArray.get a i.
Proof.
  intros [_ H] Hf. destruct (H i) as [[_ Hsame]|(z & Hz & _ & Hz')]; [exact Hsame|].
  unfold count_is in *. rewrite Hz, Hz', Hf. do 2 f_equal. lia.
Qed.

Lemma released_by_length (f : nat -> nat) (a a' : list (option jsnum)) :
  released_by f a a' -> length a' = length a.
Proof. now intros [H _]. Qed.

Lemma at_most_one_None (i : nat) : at_most_one None i = 0.
Proof. reflexivity. Qed.

Lemma releaseRenderTargetForID_counts (o : option nat) (this this' : Ex) :
  SceneGraphExecutor.releaseRenderTargetForID o this = OK this' ->
  released_by (at_most_one o) (rtUC this) (rtUC this') /\
  rsUC this' = rsUC this /\
  rsForID this' = rsForID this /\
  rsPool this' = rsPool this.
Proof.
  destruct o as [id|].
  - intros H. apply releaseRenderTargetForID_inv in H as (z & Hz & Hpos & H).
    cbn zeta in H. destruct (z =? 1)%Z.
    + destruct H as (rt & _ & ->). cbn. repeat split.
      * now apply decr_at_length with z.
      * apply (released_by_decr _ _ _ Hz Hpos).
    + subst this'. cbn. repeat split.
      * now apply decr_at_length with z.
      * apply (released_by_decr _ _ _ Hz Hpos).
  - intros [= <-]. repeat split. intros i. left. auto.
Qed.

Lemma releaseRenderTargetForID_alive_counted (o : option nat) (this this' : Ex) :
  SceneGraphExecutor.releaseRenderTargetForID o this = OK this' ->
  alive_counted this -> alive_counted this'.
Proof.
  destruct o as [id|]; [|now intros [= <-]].
  intros H Hinv. apply releaseRenderTargetForID_inv in H as (z & Hz & Hpos & H).
  cbn zeta in H. intros r rt Hr. destruct (z =? 1)%Z eqn:Hz1.
  - destruct H as (rt0 & _ & ->). cbn in *.
    destruct (decide (id = r)) as [->|Hne].
    + now rewrite get_delete_eq in Hr.
    + rewrite get_delete_ne in Hr by assumption.
      destruct (Hinv r rt Hr) as (y & Hy & Hypos). exists y.
      unfold count_is. now rewrite decr_at_ne.
  - subst this'. cbn in *. destruct (decide (id = r)) as [->|Hne].
    + exists (z - 1)%Z. split; [now apply decr_at_eq|].
      apply Z.eqb_neq in Hz1. lia.
    + destruct (Hinv r rt Hr) as (y & Hy & Hypos). exists y.
      unfold count_is. now rewrite decr_at_ne.
Qed.

Lemma acquireRenderTargetForID_frame (device device' : GfxDevice) (graph : SceneGraph)
    (o : option nat) (this this' : Ex) (acquired : option RenderTarget.t) :
  SceneGraphExecutor.acquireRenderTargetForID device graph o this
    = OK (acquired, device', this') ->
  rtUC this' = rtUC this /\ rsUC this' = rsUC this /\
  rsForID this' = rsForID this /\ rsPool this' = rsPool this.
Proof.
  destruct o as [id|]; [|now intros [= <- <- <-]].
  intros H. apply acquireRenderTargetForID_inv in H as [_ [H|H]].
  - destruct H as (rt & _ & _ & _ & ->). auto.
  - destruct H as (desc & rt & this1 & _ & _ & Hacq & _ & ->).
    apply acquireRenderTargetForDescription_inv in Hacq as [H|H].
    + destruct H as (free & pool' & _ & _ & _ & ->). auto.
    + destruct H as (_ & _ & ->). auto.
Qed.

Lemma acquireRenderTargetForID_alive_counted (device device' : GfxDevice)
    (graph : SceneGraph) (o : option nat) (this this' : Ex)
    (acquired : option RenderTarget.t) :
  SceneGraphExecutor.acquireRenderTargetForID device graph o this
    = OK (acquired, device', this') ->
  alive_counted this -> alive_counted this'.
Proof.
  destruct o as [id|]; [|now intros [= <- <- <-]].
  intros H Hinv. apply acquireRenderTargetForID_inv in H as [Hpos [H|H]].
  - now destruct H as (rt & _ & _ & _ & ->).
  - destruct H as (desc & rt & this1 & _ & _ & Hacq & _ & ->).
    assert (rtUC this1 = rtUC this /\ rtAlive this1 = rtAlive this) as [Hc Ha].
    { apply acquireRenderTargetForDescription_inv in Hacq as [H|H].
      - destruct H as (free & pool' & _ & _ & _ & ->). auto.
      - destruct H as (_ & _ & ->). auto. }
    intros r rt' Hr. cbn in *. rewrite Hc. rewrite Ha in Hr.
    destruct (decide (id = r)) as [<-|Hne]; [exact Hpos|].
    rewrite get_set_ne in Hr by assumption. now apply Hinv with rt'.
Qed.

Lemma acquireResolveTextureForDescription_inv (device device' : GfxDevice)
    (desc : RenderTargetDescription) (this this' : Ex)
    (resolveTexture : ResolveTexture.t) :
  SceneGraphExecutor.acquireResolveTextureForDescription device desc this
    = OK (resolveTexture, device', this') ->
  (exists free pool',
      pool_take (fun rt => ResolveTexture.matchesDescription rt desc) []
                (rsPool this) = Some (free, pool') /\
      ResolveTexture.reset free desc = OK resolveTexture /\ device' = device /\
      this' = SceneGraphExecutor.with_resolveTextureDeadPool pool' this)
  \/ (pool_take (fun rt => ResolveTexture.matchesDescription rt desc) []
                (rsPool this) = None /\
      ResolveTexture.new device desc = (resolveTexture, device') /\ this' = this).
Proof.
  unfold SceneGraphExecutor.acquireResolveTextureForDescription.
  destruct (pool_take _ [] (rsPool this)) as [[free pool']|].
  - intros H. inv_bind H as rtex Hreset. injection H as <- <- <-. left. eauto 10.
  - destruct (ResolveTexture.new device desc) as [rtex dev1].
    intros [= <- <- <-]. right. auto.
Qed.

Lemma acquireResolveTextureOutputForID_inv (device device' : GfxDevice)
    (graph : SceneGraph) (src : option nat) (id : nat) (this this' : Ex)
    (out : option GfxTexture) :
  SceneGraphExecutor.acquireResolveTextureOutputForID device graph src (Some id) this
    = OK (out, device', this') ->
  src = resolveTextureRenderTargetIDs graph !! id /\
  positive (rsUC this) id /\
  exists renderTarget,
    SceneGraphExecutor.at_id (rtAlive this) src = Some renderTarget /\
    ((is_Some (RenderTarget.texture renderTarget) /\
      out = None /\ device' = device /\ this' = this)
     \/
     (RenderTarget.texture renderTarget = None /\
      exists resolveTexture,
        JsArray.get (rsForID this) id = Some resolveTexture /\
        out = Some (ResolveTexture.texture resolveTexture) /\
        device' = device /\ this' = this)
     \/
     (RenderTarget.texture renderTarget = None /\
      JsArray.get (rsForID this) id = None /\
      exists surface desc resolveTexture this1,
        src = Some surface /\
        renderTargetDescriptions graph !! surface = Some desc /\
        SceneGraphExecutor.acquireResolveTextureForDescription device desc this
          = OK (resolveTexture, device', this1) /\
        out = Some (ResolveTexture.texture resolveTexture) /\
        this' = SceneGraphExecutor.with_resolveTextureForID
                  (JsArray.set (rsForID this1) id resolveTexture) this1)).
Proof.
  unfold SceneGraphExecutor.acquireResolveTextureOutputForID. intros H.
  inv_bind H as [] Hsrc. apply assert_OK, bool_decide_eq_true in Hsrc.
  inv_bind H as [] Hgt. apply assert_OK, jsnum_gt0_count in Hgt.
  inv_bind H as rt Hrt. apply assertExists_OK in Hrt.
  split; [exact Hsrc|]. split; [exact Hgt|]. exists rt. split; [exact Hrt|].
  destruct (RenderTarget.texture rt) as [tex|] eqn:Htex.
  - injection H as <- <- <-. left. eauto.
  - right. destruct (JsArray.get (rsForID this) id) as [rtex|] eqn:Hfor.
    + injection H as <- <- <-. left. eauto 10.
    + right. inv_bind H as desc Hdesc. apply assertExists_OK in Hdesc.
      destruct src as [surface|]; [|discriminate].
      inv_bind H as [[rtex dev1] this1] Hacq. injection H as <- <- <-.
      split; [reflexivity|]. split; [reflexivity|].
      exists surface, desc, rtex, this1. auto.
Qed.

Lemma acquireResolveTextureOutputForID_frame (device device' : GfxDevice)
    (graph : SceneGraph) (src o : option nat) (this this' : Ex)
    (out : option GfxTexture) :
  SceneGraphExecutor.acquireResolveTextureOutputForID device graph src o this
    = OK (out, device', this') ->
  rtUC this' = rtUC this /\ rsUC this' = rsUC this /\
  rtAlive this' = rtAlive this /\ rtPool this' = rtPool this.
Proof.
  destruct o as [id|]; [|now intros [= <- <- <-]].
  intros H. apply acquireResolveTextureOutputForID_inv in H
    as (_ & _ & rt & _ & [H|[H|H]]).
  - now destruct H as (_ & _ & _ & ->).
  - now destruct H as (_ & rtex & _ & _ & _ & ->).
  - destruct H as (_ & _ & surface & desc & rtex & this1 & _ & _ & Hacq & _ & ->).
    apply acquireResolveTextureForDescription_inv in Hacq as [H|H].
    + destruct H as (free & pool' & _ & _ & _ & ->). auto.
    + destruct H as (_ & _ & ->). auto.
Qed.

Lemma markCleared_frame (o : option nat) (this : Ex) :
  let this' := SceneGraphExecutor.markCleared o this in
  rtUC this' = rtUC this /\ rsUC this' = rsUC this /\
  rsForID this' = rsForID this /\ rsPool this' = rsPool this /\
  rtPool this' = rtPool this.
Proof.
  unfold SceneGraphExecutor.markCleared.
  destruct (SceneGraphExecutor.at_id (rtAlive this) o), o; cbn; auto.
Qed.

Lemma markCleared_alive (o : option nat) (this : Ex) (id : nat) :
  JsArray.get (rtAlive (SceneGraphExecutor.markCleared o this)) id =
  if bool_decide (o = Some id)
  then RenderTarget.with_needsClear false <$> JsArray.get (rtAlive this) id
  else JsArray.get (rtAlive this) id.
Proof.
  unfold SceneGraphExecutor.markCleared. destruct o as [i|]; cbn; [|reflexivity].
  destruct (decide (i = id)) as [->|Hne].
  - rewrite bool_decide_eq_true_2 by reflexivity.
    destruct (JsArray.get (rtAlive this) id) as [rt|] eqn:Hrt; cbn.
    + now rewrite get_set_eq.
    + exact Hrt.
  - rewrite bool_decide_eq_false_2 by congruence.
    destruct (JsArray.get (rtAlive this) i) as [rt|]; cbn; [|reflexivity].
    now rewrite get_set_ne.
Qed.

Lemma markCleared_alive_counted (o : option nat) (this : Ex) :
  alive_counted this -> alive_counted (SceneGraphExecutor.markCleared o this).
Proof.
  intros Hinv id rt Hrt. rewrite markCleared_alive in Hrt.
  destruct (markCleared_frame o this) as (-> & _).
  destruct (bool_decide (o = Some id)).
  - destruct (JsArray.get (rtAlive this) id) as [rt0|] eqn:H0; [|discriminate].
    now apply Hinv with rt0.
  - now apply Hinv with rt.
Qed.

Lemma acquireResolveTextureInputTextureForID_inv (graph : SceneGraph) (id : nat)
    (this this' : Ex) (tex : GfxTexture) :
  SceneGraphExecutor.acquireResolveTextureInputTextureForID graph id this
    = OK (tex, this') ->
  SceneGraphExecutor.releaseRenderTargetForID
    (resolveTextureRenderTargetIDs graph !! id) this = OK this' /\
  ((exists resolveTexture,
       JsArray.get (rsForID this) id = Some resolveTexture /\
       tex = ResolveTexture.texture resolveTexture)
   \/
   (JsArray.get (rsForID this) id = None /\
    exists renderTarget,
      SceneGraphExecutor.at_id (rtAlive this)
        (resolveTextureRenderTargetIDs graph !! id) = Some renderTarget /\
      RenderTarget.texture renderTarget = Some tex)).
Proof.
  unfold SceneGraphExecutor.acquireResolveTextureInputTextureForID.
  destruct (JsArray.get (rsForID this) id) as [rtex|] eqn:Hfor; intros H.
  - inv_bind H as this1 Hrel. injection H as <- <-. split; [exact Hrel|].
    left. eauto.
  - inv_bind H as rt Hrt. apply assertExists_OK in Hrt.
    inv_bind H as this1 Hrel. inv_bind H as tex' Htex.
    apply assertExists_OK in Htex. injection H as <- <-. split; [exact Hrel|].
    right. eauto.
Qed.

Lemma releaseResolveTextureInputForID_inv (id : nat) (this this' : Ex) :
  SceneGraphExecutor.releaseResolveTextureInputForID (Some id) this = OK this' ->
  exists z, count_is (rsUC this) id z /\ (0 < z)%Z /\
    let this1 :=
      SceneGraphExecutor.with_resolveTextureUseCount (decr_at (rsUC this) id) this in
    this' =
      if (z =? 1)%Z then
        match JsArray.get (rsForID this) id with
        | Some resolveTexture =>
            SceneGraphExecutor.with_resolveTextureDeadPool
              (rsPool this ++ [resolveTexture]) this1
        | None => this1
        end
      else this1.
Proof.
  unfold SceneGraphExecutor.releaseResolveTextureInputForID. intros H.
  inv_bind H as [] Hgt. apply assert_OK, jsnum_gt0_count in Hgt as (z & Hz & Hpos).
  exists z. split; [exact Hz|]. split; [exact Hpos|].
  cbn [rsUC SceneGraphExecutor.with_resolveTextureUseCount] in H.
  pose proof (decr_at_eq _ _ _ Hz) as Hz'. unfold count_is in Hz'.
  rewrite Hz' in H. cbn [jsnum_is0] in H. cbn zeta.
  destruct (z =? 1)%Z eqn:Hz1.
  - apply Z.eqb_eq in Hz1. subst z. cbn in H.
    destruct (JsArray.get (rsForID this) id); now injection H as <-.
  - apply Z.eqb_neq in Hz1. replace (z - 1 =? 0)%Z with false in H.
    + now injection H as <-.
    + symmetry. apply Z.eqb_neq. lia.
Qed.

Lemma releaseResolveTextureInputForID_counts (id : nat) (this this' : Ex) :
  SceneGraphExecutor.releaseResolveTextureInputForID (Some id) this = OK this' ->
  released_by (at_most_one (Some id)) (rsUC this) (rsUC this') /\
  rtUC this' = rtUC this /\ rtAlive this' = rtAlive this /\
  rsForID this' = rsForID this /\ rtPool this' = rtPool this.
Proof.
  intros H. apply releaseResolveTextureInputForID_inv in H as (z & Hz & Hpos & ->).
  cbn zeta. pose proof (released_by_decr _ _ _ Hz Hpos) as Hrel.
  destruct (z =? 1)%Z; [destruct (JsArray.get (rsForID this) id)|]; cbn; auto.
Qed.

Lemma acquireInputTextures_counts (graph : SceneGraph) (ids : list nat) (i : nat)
    (textures textures' : list (option GfxTexture)) (this this' : Ex) :
  SceneGraphExecutor.acquireInputTextures graph ids i textures this
    = OK (textures', this') ->
  released_by
    (fun id => count_if
       (fun c => bool_decide (resolveTextureRenderTargetIDs graph !! c = Some id)) ids)
    (rtUC this) (rtUC this') /\
  rsUC this' = rsUC this /\ rsForID this' = rsForID this /\
  rsPool this' = rsPool this /\
  (alive_counted this -> alive_counted this').
Proof.
  revert i textures this. induction ids as [|c ids IH]; intros i textures this; simpl.
  - intros [= <- <-]. split; [now apply released_by_refl | auto].
  - intros H. inv_bind H as [tex this1] Hacq.
    apply acquireResolveTextureInputTextureForID_inv in Hacq as [Hrel _].
    destruct (releaseRenderTargetForID_counts _ _ _ Hrel) as (Hc & Hrs & Hfor & Hpool).
    pose proof (releaseRenderTargetForID_alive_counted _ _ _ Hrel) as Hinv.
    destruct (IH _ _ _ H) as (Hc' & Hrs' & Hfor' & Hpool' & Hinv').
    repeat split; try congruence; [| |auto].
    + rewrite (released_by_length _ _ _ Hc'). apply (released_by_length _ _ _ Hc).
    + apply (released_by_trans _ _ _ _ _ Hc Hc').
Qed.

Lemma releaseRenderTargets_counts (ids : list (option nat)) (this this' : Ex) :
  SceneGraphExecutor.releaseRenderTargets ids this = OK this' ->
  released_by (fun id => count_if (fun c => bool_decide (c = Some id)) ids)
              (rtUC this) (rtUC this') /\
  rsUC this' = rsUC this /\ rsForID this' = rsForID this /\
  rsPool this' = rsPool this /\
  (alive_counted this -> alive_counted this').
Proof.
  revert this. induction ids as [|c ids IH]; intros this; simpl.
  - intros [= <-]. split; [now apply released_by_refl | auto].
  - intros H. inv_bind H as this1 Hrel.
    destruct (releaseRenderTargetForID_counts _ _ _ Hrel) as (Hc & Hrs & Hfor & Hpool).
    pose proof (releaseRenderTargetForID_alive_counted _ _ _ Hrel) as Hinv.
    destruct (IH _ H) as (Hc' & Hrs' & Hfor' & Hpool' & Hinv').
    repeat split; try congruence; [| |auto].
    + rewrite (released_by_length _ _ _ Hc'). apply (released_by_length _ _ _ Hc).
    + apply (released_by_trans _ _ _ _ _ Hc Hc').
Qed.

Lemma releaseResolveTextureInputs_counts (ids : list nat) (this this' : Ex) :
  SceneGraphExecutor.releaseResolveTextureInputs ids this = OK this' ->
  released_by (fun id => count_if (fun c => bool_decide (c = id)) ids)
              (rsUC this) (rsUC this') /\
  rtUC this' = rtUC this /\ rtAlive this' = rtAlive this /\
  rsForID this' = rsForID this /\ rtPool this' = rtPool this.
Proof.
  revert this. induction ids as [|c ids IH]; intros this; simpl.
  - intros [= <-]. split; [now apply released_by_refl | auto].
  - intros H. inv_bind H as this1 Hrel.
    destruct (releaseResolveTextureInputForID_counts _ _ _ Hrel)
      as (Hc & Hrt & Halive & Hfor & Hpool).
    destruct (IH _ H) as (Hc' & Hrt' & Halive' & Hfor' & Hpool').
    repeat split; try congruence.
    + rewrite (released_by_length _ _ _ Hc'). apply (released_by_length _ _ _ Hc).
    + pose proof (released_by_trans _ _ _ _ _ Hc Hc') as [_ Ht]. intros j.
      specialize (Ht j). unfold at_most_one in Ht.
      replace (bool_decide (Some c = Some j)) with (bool_decide (c = j)) in Ht;
        [exact Ht|].
      apply bool_decide_ext. split; congruence.
Qed.

(** The steps of [schedulePass], in order. *)
Lemma schedulePass_inv (device device' : GfxDevice) (graph : SceneGraph)
    (pass pass' : SceneGraphPassImpl) (presentColorTexture : option GfxTexture)
    (this this' : Ex) :
  SceneGraphExecutor.schedulePass device graph pass presentColorTexture this
    = OK (pass', device', this') ->
  let color0ID := JsArray.get (renderTargetIDs pass) 0 in
  let depthStencilID := JsArray.get (renderTargetIDs pass) 1 in
  exists color0 device1 this1 colorClear depthStencil device2 this2
         depthClear stencilClear colorResolve device3 this3 depthResolve this4
         textures this7 this8,
    SceneGraphExecutor.acquireRenderTargetForID device graph color0ID this
      = OK (color0, device1, this1) /\
    SceneGraphExecutor.clearValue graph color0ID color0 desc_colorClearColor
      = OK colorClear /\
    SceneGraphExecutor.acquireRenderTargetForID device1 graph depthStencilID this1
      = OK (depthStencil, device2, this2) /\
    SceneGraphExecutor.clearValue graph depthStencilID depthStencil desc_depthClearValue
      = OK depthClear /\
    SceneGraphExecutor.clearValue graph depthStencilID depthStencil
      desc_stencilClearValue = OK stencilClear /\
    (if doPresent pass then OK (presentColorTexture, device2, this2)
     else SceneGraphExecutor.acquireResolveTextureOutputForID device2 graph color0ID
            (JsArray.get (resolveTextureOutputIDs pass) 0) this2)
      = OK (colorResolve, device3, this3) /\
    SceneGraphExecutor.acquireResolveTextureOutputForID device3 graph depthStencilID
      (JsArray.get (resolveTextureOutputIDs pass) 1) this3
      = OK (depthResolve, device', this4) /\
    SceneGraphExecutor.checkAttachmentsMatch color0 depthStencil = OK tt /\
    SceneGraphExecutor.acquireInputTextures graph (resolveTextureInputIDs pass) 0
      (resolveTextureInputTextures pass)
      (SceneGraphExecutor.markCleared depthStencilID
         (SceneGraphExecutor.markCleared color0ID this4))
      = OK (textures, this7) /\
    SceneGraphExecutor.releaseRenderTargets (renderTargetIDs pass) this7 = OK this8 /\
    SceneGraphExecutor.releaseResolveTextureInputs (resolveTextureInputIDs pass) this8
      = OK this' /\
    renderTargetIDs pass' = renderTargetIDs pass /\
    resolveTextureInputIDs pass' = resolveTextureInputIDs pass /\
    resolveTextureInputTextures pass' = textures /\
    descriptor pass' =
      mkDescriptor (RenderTarget.attachment <$> color0) colorResolve
                   (RenderTarget.attachment <$> depthStencil) depthResolve
                   colorClear depthClear stencilClear.
Proof.
  unfold SceneGraphExecutor.schedulePass. cbn [slot_index]. intros H.
  inv_bind H as [[color0 device1] this1] H1. inv_bind H as colorClear H2.
  inv_bind H as [[depthStencil device2] this2] H3. inv_bind H as depthClear H4.
  inv_bind H as stencilClear H5.
  inv_bind H as [[colorResolve device3] this3] H6.
  inv_bind H as [[depthResolve device4] this4] H7.
  inv_bind H as [] H8.
  destruct (SceneGraphExecutor.attachmentSize color0 depthStencil) as [w h].
  assert (forall q, renderTargetIDs (SceneGraphExecutor.scheduleViewport w h q)
                    = renderTargetIDs q
                    /\ resolveTextureInputIDs (SceneGraphExecutor.scheduleViewport w h q)
                       = resolveTextureInputIDs q
                    /\ resolveTextureInputTextures (SceneGraphExecutor.scheduleViewport w h q)
                       = resolveTextureInputTextures q
                    /\ descriptor (SceneGraphExecutor.scheduleViewport w h q)
                       = descriptor q) as Hvp.
  { intros q. unfold SceneGraphExecutor.scheduleViewport.
    destruct ((0 <? w)%Z && (0 <? h)%Z); auto. }
  inv_bind H as [textures this7] H9. inv_bind H as this8 H10.
  inv_bind H as this9 H11. injection H as <- <- <-.
  cbn [renderTargetIDs resolveTextureInputIDs resolveTextureInputTextures
       with_resolveTextureInputTextures descriptor] in *.
  destruct (Hvp (with_descriptor
                   (mkDescriptor (RenderTarget.attachment <$> color0) colorResolve
                      (RenderTarget.attachment <$> depthStencil) depthResolve
                      colorClear depthClear stencilClear) pass))
    as (Hv1 & Hv2 & Hv3 & Hv4).
  rewrite Hv1 in *. rewrite Hv2 in *. rewrite Hv3 in *. rewrite Hv4.
  cbn in *.
  exists color0, device1, this1, colorClear, depthStencil, device2, this2,
         depthClear, stencilClear, colorResolve, device3, this3, depthResolve, this4,
         textures, this7, this8.
  repeat split; assumption.
Qed.

Lemma colorResolve_frame (device device' : GfxDevice) (graph : SceneGraph)
    (pass : SceneGraphPassImpl) (presentColorTexture : option GfxTexture)
    (src : option nat) (this this' : Ex) (out : option GfxTexture) :
  (if doPresent pass then OK (presentColorTexture, device, this)
   else SceneGraphExecutor.acquireResolveTextureOutputForID device graph src
          (JsArray.get (resolveTextureOutputIDs pass) 0) this)
    = OK (out, device', this') ->
  rtUC this' = rtUC this /\ rsUC this' = rsUC this /\
  rtAlive this' = rtAlive this /\ rtPool this' = rtPool this.
Proof.
  destruct (doPresent pass).
  - now intros [= <- <- <-].
  - apply acquireResolveTextureOutputForID_frame.
Qed.

Lemma alive_counted_frame (this this' : Ex) :
  rtUC this' = rtUC this -> rtAlive this' = rtAlive this ->
  alive_counted this -> alive_counted this'.
Proof. unfold alive_counted. intros -> ->. auto. Qed.

Lemma schedulePass_counts (device device' : GfxDevice) (graph : SceneGraph)
    (pass pass' : SceneGraphPassImpl) (presentColorTexture : option GfxTexture)
    (this this' : Ex) :
  SceneGraphExecutor.schedulePass device graph pass presentColorTexture this
    = OK (pass', device', this') ->
  released_by (surface_uses graph pass) (rtUC this) (rtUC this') /\
  released_by (input_uses pass) (rsUC this) (rsUC this') /\
  (alive_counted this -> alive_counted this').
Proof.
  intros H. apply schedulePass_inv in H. cbn zeta in H.
  destruct H as (color0 & device1 & this1 & colorClear & depthStencil & device2
                 & this2 & depthClear & stencilClear & colorResolve & device3
                 & this3 & depthResolve & this4 & textures & this7 & this8
                 & H1 & _ & H3 & _ & _ & H6 & H7 & _ & H9 & H10 & H11 & _).
  destruct (acquireRenderTargetForID_frame _ _ _ _ _ _ _ H1) as (Hc1 & Hs1 & _).
  pose proof (acquireRenderTargetForID_alive_counted _ _ _ _ _ _ _ H1) as Hi1.
  destruct (acquireRenderTargetForID_frame _ _ _ _ _ _ _ H3) as (Hc2 & Hs2 & _).
  pose proof (acquireRenderTargetForID_alive_counted _ _ _ _ _ _ _ H3) as Hi2.
  destruct (colorResolve_frame _ _ _ _ _ _ _ _ _ H6) as (Hc3 & Hs3 & Ha3 & _).
  destruct (acquireResolveTextureOutputForID_frame _ _ _ _ _ _ _ _ H7)
    as (Hc4 & Hs4 & Ha4 & _).
  set (this5 := SceneGraphExecutor.markCleared _ this4) in *.
  set (this6 := SceneGraphExecutor.markCleared _ this5) in *.
  destruct (markCleared_frame (JsArray.get (renderTargetIDs pass) 0) this4)
    as (Hc5 & Hs5 & _).
  destruct (markCleared_frame (JsArray.get (renderTargetIDs pass) 1) this5)
    as (Hc6 & Hs6 & _).
  fold this5 in Hc5, Hs5. fold this6 in Hc6, Hs6.
  destruct (acquireInputTextures_counts _ _ _ _ _ _ _ H9) as (Hc7 & Hs7 & _ & _ & Hi7).
  destruct (releaseRenderTargets_counts _ _ _ H10) as (Hc8 & Hs8 & _ & _ & Hi8).
  destruct (releaseResolveTextureInputs_counts _ _ _ H11) as (Hs9 & Hc9 & Ha9 & _).
  assert (rtUC this6 = rtUC this) as Hc by congruence.
  assert (rsUC this8 = rsUC this) as Hs by congruence.
  repeat split.
  - rewrite Hc9, (released_by_length _ _ _ Hc8), (released_by_length _ _ _ Hc7).
    now rewrite Hc.
  - rewrite Hc9, <- Hc.
    pose proof (released_by_trans _ _ _ _ _ Hc7 Hc8) as [_ Ht]. intros i.
    specialize (Ht i). unfold surface_uses, slot_uses, origin_uses.
    rewrite (Nat.add_comm (count_if _ (renderTargetIDs pass))). exact Ht.
  - rewrite (released_by_length _ _ _ Hs9). now rewrite Hs.
  - rewrite <- Hs. apply Hs9.
  - intros Hinv. apply (alive_counted_frame this8 this' Hc9 Ha9).
    apply Hi8, Hi7. unfold this6, this5.
    apply markCleared_alive_counted, markCleared_alive_counted.
    apply (alive_counted_frame this3 this4 Hc4 Ha4).
    apply (alive_counted_frame this2 this3 Hc3 Ha3). auto.
Qed.

(** * The whole graph: Pass A followed by Pass B *)

Lemma countPasses_adds (graph : SceneGraph) (ps : list SceneGraphPassImpl)
    (this : Ex) :
  (forall surface zs,
     count_is (rtUC this) surface zs ->
     count_is (rtUC (SceneGraphExecutor.countPasses graph ps this)) surface
              (zs + Z.of_nat (total_surface_uses graph ps surface)))
  /\
  (forall copy zc,
     count_is (rsUC this) copy zc ->
     count_is (rsUC (SceneGraphExecutor.countPasses graph ps this)) copy
              (zc + Z.of_nat (total_input_uses ps copy))).
Proof.
  revert this. induction ps as [|pass ps IH]; intros this; simpl.
  - split; intros i z H; now rewrite Z.add_0_r.
  - destruct (scheduleAddUseCount_adds graph pass this) as [H1 H2].
    destruct (IH (SceneGraphExecutor.scheduleAddUseCount graph pass this))
      as [H3 H4].
    split.
    + intros surface zs H. apply H1, H3 in H. unfold count_is in *.
      rewrite H. do 2 f_equal. lia.
    + intros copy zc H. apply H2, H4 in H. unfold count_is in *.
      rewrite H. do 2 f_equal. lia.
Qed.

(* a counter cell that holds an integer after [a[i]++] held one before *)
Lemma incr_at_num_inv (a : list (option jsnum)) (i j : nat) (z : Z) :
  count_is (incr_at a i) j z -> exists z', count_is a j z'.
Proof.
  unfold count_is, incr_at. destruct (decide (i = j)) as [->|Hne].
  - rewrite get_set_eq. destruct (JsArray.get a j) as [[y|]|]; simpl; try discriminate.
    eauto.
  - rewrite get_set_ne by assumption. eauto.
Qed.

Lemma incr_at_length (a : list (option jsnum)) (i : nat) :
  i < length a -> length (incr_at a i) = length a.
Proof. intros H. unfold incr_at. now apply length_set_lt. Qed.

Lemma incr_at_length_le (a : list (option jsnum)) (i : nat) :
  length a <= length (incr_at a i).
Proof. unfold incr_at. apply length_set_le. Qed.

Lemma counted_from_refl (this : Ex) : counted_from this this.
Proof. unfold counted_from. repeat split; eauto. Qed.

Lemma counted_from_trans (this this' this'' : Ex) :
  counted_from this this' -> counted_from this' this'' -> counted_from this this''.
Proof.
  intros (A1 & A2 & A3 & A4 & A5 & A6 & A7 & A8)
         (B1 & B2 & B3 & B4 & B5 & B6 & B7 & B8).
  unfold counted_from. repeat split; try congruence; try lia.
  - intros j z H. destruct (B1 j z H) as [z' H']. eauto.
  - intros j z H. destruct (B2 j z H) as [z' H']. eauto.
Qed.

Lemma addRenderTargetUse_counted (o : option nat) (this : Ex) :
  counted_from this (SceneGraphExecutor.addRenderTargetUse o this).
Proof.
  destruct o as [i|]; [|apply counted_from_refl].
  unfold counted_from. cbn. repeat split; eauto.
  - intros j z. apply incr_at_num_inv.
  - apply incr_at_length_le.
Qed.

Lemma addUseCount_renderTargets_counted (ids : list (option nat)) (this : Ex) :
  counted_from this (SceneGraphExecutor.addUseCount_renderTargets ids this).
Proof.
  revert this. induction ids as [|c ids IH]; intros this; simpl.
  - apply counted_from_refl.
  - eapply counted_from_trans; [apply addRenderTargetUse_counted | apply IH].
Qed.

Lemma addUseCount_resolveTextures_counted (graph : SceneGraph) (ids : list nat)
    (this : Ex) :
  counted_from this (SceneGraphExecutor.addUseCount_resolveTextures graph ids this).
Proof.
  revert this. induction ids as [|c ids IH]; intros this; simpl.
  - apply counted_from_refl.
  - eapply counted_from_trans; [|apply IH].
    eapply counted_from_trans; [|apply addRenderTargetUse_counted].
    unfold counted_from. cbn. repeat split; eauto.
    + intros j z. apply incr_at_num_inv.
    + apply incr_at_length_le.
Qed.

Lemma countPasses_counted (graph : SceneGraph) (ps : list SceneGraphPassImpl)
    (this : Ex) :
  counted_from this (SceneGraphExecutor.countPasses graph ps this).
Proof.
  revert this. induction ps as [|pass ps IH]; intros this; simpl.
  - apply counted_from_refl.
  - eapply counted_from_trans; [|apply IH].
    unfold SceneGraphExecutor.scheduleAddUseCount.
    eapply counted_from_trans;
      [apply addUseCount_renderTargets_counted
      |apply addUseCount_resolveTextures_counted].
Qed.

Lemma count_if_pos {A} (f : A -> bool) (l : list A) (x : A) :
  x ∈ l -> f x = true -> 0 < count_if f l.
Proof.
  induction l as [|y l IH]; intros Hin Hf; [inversion Hin|]. simpl.
  apply elem_of_cons in Hin as [<-|Hin]; [rewrite Hf; lia|].
  specialize (IH Hin Hf). lia.
Qed.

Lemma schedulePasses_counts (device device' : GfxDevice) (graph : SceneGraph)
    (ps ps' : list SceneGraphPassImpl) (presentColorTexture : option GfxTexture)
    (this this' : Ex) :
  SceneGraphExecutor.schedulePasses device graph ps presentColorTexture this
    = OK (ps', device', this') ->
  released_by (total_surface_uses graph ps) (rtUC this) (rtUC this') /\
  released_by (total_input_uses ps) (rsUC this) (rsUC this') /\
  (alive_counted this -> alive_counted this').
Proof.
  revert device this ps'. induction ps as [|pass ps IH]; intros device this ps'; simpl.
  - intros [= <- <- <-]. repeat split; auto; intros i; left; auto.
  - intros H. inv_bind H as [[pass' device1] this1] Hp.
    inv_bind H as [[ps'' device2] this2] Hps. injection H as <- <- <-.
    destruct (schedulePass_counts _ _ _ _ _ _ _ _ Hp) as (A1 & A2 & A3).
    destruct (IH _ _ _ Hps) as (B1 & B2 & B3).
    split; [apply (released_by_trans _ _ _ _ _ A1 B1)|].
    split; [apply (released_by_trans _ _ _ _ _ A2 B2)|]. auto.
Qed.

Lemma addUseCount_renderTargets_length (ids : list (option nat)) (this : Ex) :
  (forall id, Some id ∈ ids -> id < length (rtUC this)) ->
  length (rtUC (SceneGraphExecutor.addUseCount_renderTargets ids this))
    = length (rtUC this).
Proof.
  revert this. induction ids as [|c ids IH]; intros this Hin; simpl; [reflexivity|].
  assert (length (rtUC (SceneGraphExecutor.addRenderTargetUse c this))
          = length (rtUC this)) as Hlen.
  { destruct c as [i|]; [|reflexivity]. cbn. apply incr_at_length.
    apply Hin. apply elem_of_cons. now left. }
  rewrite IH; [exact Hlen|]. intros id Hid. rewrite Hlen. apply Hin.
  apply elem_of_cons. now right.
Qed.

Lemma addUseCount_resolveTextures_length (graph : SceneGraph) (ids : list nat)
    (this : Ex) :
  (forall c, c ∈ ids -> c < length (rsUC this)) ->
  (forall c id, c ∈ ids -> resolveTextureRenderTargetIDs graph !! c = Some id ->
                id < length (rtUC this)) ->
  length (rtUC (SceneGraphExecutor.addUseCount_resolveTextures graph ids this))
    = length (rtUC this) /\
  length (rsUC (SceneGraphExecutor.addUseCount_resolveTextures graph ids this))
    = length (rsUC this).
Proof.
  revert this. induction ids as [|c ids IH]; intros this Hc Hid; simpl; [auto|].
  set (this1 := SceneGraphExecutor.with_resolveTextureUseCount _ this).
  set (this2 := SceneGraphExecutor.addRenderTargetUse _ this1).
  assert (length (rsUC this2) = length (rsUC this)) as Hrs.
  { unfold this2. rewrite addRenderTargetUse_other. unfold this1. cbn.
    apply incr_at_length, Hc. apply elem_of_cons. now left. }
  assert (length (rtUC this2) = length (rtUC this)) as Hrt.
  { unfold this2.
    destruct (resolveTextureRenderTargetIDs graph !! c) as [id|] eqn:Ho; [|reflexivity].
    cbn. apply incr_at_length. apply (Hid c id); [|exact Ho].
    apply elem_of_cons. now left. }
  destruct (IH this2) as [H1 H2].
  - intros c' Hc'. rewrite Hrs. apply Hc. apply elem_of_cons. now right.
  - intros c' id Hc' Ho. rewrite Hrt. apply (Hid c' id); [|exact Ho].
    apply elem_of_cons. now right.
  - split; congruence.
Qed.

Lemma countPasses_length (graph : SceneGraph) (ps : list SceneGraphPassImpl)
    (this : Ex) :
  (forall pass id, pass ∈ ps -> binds pass id -> id < length (rtUC this)) ->
  (forall pass c, pass ∈ ps -> c ∈ resolveTextureInputIDs pass ->
                  c < length (rsUC this)) ->
  (forall pass c id, pass ∈ ps -> c ∈ resolveTextureInputIDs pass ->
                     resolveTextureRenderTargetIDs graph !! c = Some id ->
                     id < length (rtUC this)) ->
  length (rtUC (SceneGraphExecutor.countPasses graph ps this)) = length (rtUC this) /\
  length (rsUC (SceneGraphExecutor.countPasses graph ps this)) = length (rsUC this).
Proof.
  revert this. induction ps as [|pass ps IH]; intros this Hb Hc Ho; simpl; [auto|].
  assert (pass ∈ pass :: ps) as Hhead by (apply elem_of_cons; now left).
  set (this1 := SceneGraphExecutor.addUseCount_renderTargets (renderTargetIDs pass) this).
  assert (length (rtUC this1) = length (rtUC this)) as Hrt1.
  { apply addUseCount_renderTargets_length. intros id Hid. now apply (Hb pass). }
  assert (rsUC this1 = rsUC this) as Hrs1
    by apply addUseCount_renderTargets_other.
  destruct (addUseCount_resolveTextures_length graph (resolveTextureInputIDs pass) this1)
    as [Hrt2 Hrs2].
  { intros c Hin. rewrite Hrs1. now apply (Hc pass). }
  { intros c id Hin Hid. rewrite Hrt1. now apply (Ho pass c). }
  unfold SceneGraphExecutor.scheduleAddUseCount. fold this1.
  destruct (IH (SceneGraphExecutor.addUseCount_resolveTextures graph
                  (resolveTextureInputIDs pass) this1)) as [H1 H2].
  - intros q id Hq Hid. rewrite Hrt2, Hrt1. apply (Hb q); [|exact Hid].
    apply elem_of_cons. now right.
  - intros q c Hq Hin. rewrite Hrs2, Hrs1. apply (Hc q); [|exact Hin].
    apply elem_of_cons. now right.
  - intros q c id Hq Hin Hid. rewrite Hrt2, Hrt1. apply (Ho q c); auto.
    apply elem_of_cons. now right.
  - split; congruence.
Qed.

Lemma total_surface_uses_member (graph : SceneGraph) (ps : list SceneGraphPassImpl)
    (pass : SceneGraphPassImpl) (id : nat) :
  pass ∈ ps -> surface_uses graph pass id <= total_surface_uses graph ps id.
Proof.
  induction ps as [|q ps IH]; intros Hin; [inversion Hin|]. simpl.
  apply elem_of_cons in Hin as [<-|Hin]; [lia|]. specialize (IH Hin). lia.
Qed.

Lemma total_input_uses_member (ps : list SceneGraphPassImpl)
    (pass : SceneGraphPassImpl) (id : nat) :
  pass ∈ ps -> input_uses pass id <= total_input_uses ps id.
Proof.
  induction ps as [|q ps IH]; intros Hin; [inversion Hin|]. simpl.
  apply elem_of_cons in Hin as [<-|Hin]; [lia|]. specialize (IH Hin). lia.
Qed.

Lemma binds_slot_uses (pass : SceneGraphPassImpl) (id : nat) :
  binds pass id -> 0 < slot_uses pass id.
Proof.
  intros H. apply count_if_pos with (Some id); [exact H|].
  now apply bool_decide_eq_true.
Qed.

Lemma input_input_uses (pass : SceneGraphPassImpl) (c : nat) :
  c ∈ resolveTextureInputIDs pass -> 0 < input_uses pass c.
Proof.
  intros H. apply count_if_pos with c; [exact H|]. now apply bool_decide_eq_true.
Qed.

Lemma input_origin_uses (graph : SceneGraph) (pass : SceneGraphPassImpl) (c id : nat) :
  c ∈ resolveTextureInputIDs pass ->
  resolveTextureRenderTargetIDs graph !! c = Some id ->
  0 < origin_uses graph pass id.
Proof.
  intros H Ho. apply count_if_pos with c; [exact H|]. now apply bool_decide_eq_true.
Qed.

Lemma assertAll_OK {A} (test : option A -> bool) (P : option A -> Prop)
    (l : list (option A)) :
  (forall c, test c = true <-> P c) ->
  SceneGraphExecutor.assertAll test l = OK tt <-> Forall P l.
Proof.
  intros HP. induction l as [|c l IH]; simpl.
  - split; [constructor | reflexivity].
  - rewrite Forall_cons, <- HP. destruct (test c); simpl.
    + rewrite IH. tauto.
    + split; [discriminate | intros [H _]; discriminate].
Qed.

Lemma assertAll_Fatal {A} (test : option A -> bool) (l : list (option A)) :
  SceneGraphExecutor.assertAll test l = OK tt
  \/ SceneGraphExecutor.assertAll test l = Fatal AssertFailed.
Proof.
  induction l as [|c l IH]; simpl; [now left|].
  destruct (test c); simpl; [exact IH | now right].
Qed.

Lemma jsnum_is0_true (c : option jsnum) : jsnum_is0 c = true <-> c = Some (Num 0).
Proof.
  destruct c as [[z|]|]; simpl; try (split; discriminate).
  rewrite Z.eqb_eq. split; [now intros -> | now intros [= ->]].
Qed.

Lemma is_undefined_true {A} (c : option A) :
  SceneGraphExecutor.is_undefined c = true <-> c = None.
Proof. destruct c; simpl; split; congruence. Qed.

Lemma checkAllReleased_OK (this : Ex) :
  SceneGraphExecutor.checkAllReleased this = OK tt <->
  all_zero (rtUC this) /\ all_zero (rsUC this) /\ alive_empty this.
Proof.
  unfold SceneGraphExecutor.checkAllReleased, all_zero, alive_empty.
  rewrite <- (assertAll_OK jsnum_is0 _ (rtUC this) jsnum_is0_true).
  rewrite <- (assertAll_OK jsnum_is0 _ (rsUC this) jsnum_is0_true).
  rewrite <- (assertAll_OK SceneGraphExecutor.is_undefined _ (rtAlive this)
                is_undefined_true).
  destruct (SceneGraphExecutor.assertAll jsnum_is0 (rtUC this)) as [[]|e]; simpl;
    [|split; [discriminate | intros [H _]; discriminate]].
  destruct (SceneGraphExecutor.assertAll jsnum_is0 (rsUC this)) as [[]|e]; simpl;
    [|split; [discriminate | intros (_ & H & _); discriminate]].
  tauto.
Qed.


Lemma all_cells (a : list (option jsnum)) (v : jsnum) :
  (forall i, i < length a -> JsArray.get a i = Some v) -> Forall (fun c => c = Some v) a.
Proof.
  intros H. apply Forall_lookup_2. intros i c Hi.
  specialize (H i (lookup_lt_Some _ _ _ Hi)). unfold JsArray.get in H.
  now rewrite Hi in H.
Qed.

Lemma alive_empty_get (this : Ex) :
  alive_empty this <-> forall id, JsArray.get (rtAlive this) id = None.
Proof.
  unfold alive_empty. rewrite Forall_lookup. split.
  - intros H id. unfold JsArray.get.
    destruct (rtAlive this !! id) as [c|] eqn:Hc; [|reflexivity].
    now apply H with id.
  - intros H id c Hc. specialize (H id). unfold JsArray.get in H.
    now rewrite Hc in H.
Qed.

Lemma scheduleGraph_unfold (device : GfxDevice) (graph : SceneGraph)
    (presentColorTexture : option GfxTexture) (this : Ex) :
  SceneGraphExecutor.scheduleGraph device graph presentColorTexture this =
  (let* _ := assert (bool_decide (length (rtUC this) = 0)) in
   let* _ := assert (bool_decide (length (rsUC this) = 0)) in
   let* (ps, device1, this4) :=
     SceneGraphExecutor.schedulePasses device graph (passes graph)
       presentColorTexture (afterPassA graph this) in
   let* _ := SceneGraphExecutor.checkAllReleased this4 in
   let (device2, this5) := SceneGraphExecutor.sweepPools device1 this4 in
   OK (mkGraph (renderTargetDescriptions graph)
               (resolveTextureRenderTargetIDs graph) ps,
       device2, SceneGraphExecutor.clearUseCounts this5)).
Proof. reflexivity. Qed.

Lemma afterPassA_frame (graph : SceneGraph) (this : Ex) :
  rtAlive (afterPassA graph this) = rtAlive this /\
  rsForID (afterPassA graph this) = rsForID this.
Proof.
  unfold afterPassA.
  destruct (countPasses_counted graph (passes graph)
              (SceneGraphExecutor.initUseCounts graph (SceneGraphExecutor.agePools this)))
    as (_ & _ & _ & _ & Ha & Hf & _).
  rewrite Ha, Hf. split; reflexivity.
Qed.

Lemma afterPassB_released (device device1 : GfxDevice) (graph : SceneGraph)
    (presentColorTexture : option GfxTexture) (this this4 : Ex)
    (ps : list SceneGraphPassImpl) :
  alive_empty this ->
  SceneGraphExecutor.schedulePasses device graph (passes graph) presentColorTexture
    (afterPassA graph this) = OK (ps, device1, this4) ->
  all_zero (rtUC this4) /\ all_zero (rsUC this4) /\ alive_empty this4.
Proof.
  intros Hempty Hsched.
  set (this2 := SceneGraphExecutor.initUseCounts graph (SceneGraphExecutor.agePools this)).
  assert (afterPassA graph this
          = SceneGraphExecutor.countPasses graph (passes graph) this2) as Hthis3
    by reflexivity.
  set (this3 := afterPassA graph this) in *.
  set (n := length (renderTargetDescriptions graph)).
  set (m := length (resolveTextureRenderTargetIDs graph)).
  assert (rtUC this2 = JsArray.fillArray n (Num 0)) as Hrt2 by reflexivity.
  assert (rsUC this2 = JsArray.fillArray m (Num 0)) as Hrs2 by reflexivity.
  assert (length (rtUC this2) = n) as Hn
    by (rewrite Hrt2; apply length_replicate).
  assert (length (rsUC this2) = m) as Hm
    by (rewrite Hrs2; apply length_replicate).
  pose proof (countPasses_counted graph (passes graph) this2) as CF.
  rewrite <- Hthis3 in CF. destruct CF as (CF1 & CF2 & _).
  destruct (schedulePasses_counts _ _ _ _ _ _ _ _ Hsched) as (R1 & R2 & Hinv).
  (* every id that some pass uses has a counter cell *)
  assert (forall id, 0 < total_surface_uses graph (passes graph) id -> id < n) as Hs.
  { intros id Hid. destruct (released_by_used _ _ _ _ R1 Hid) as (z & Hz & _).
    destruct (CF1 id z Hz) as [z' Hz']. rewrite <- Hn.
    now apply get_lt with (Num z'). }
  assert (forall c, 0 < total_input_uses (passes graph) c -> c < m) as Hc.
  { intros c Hin. destruct (released_by_used _ _ _ _ R2 Hin) as (z & Hz & _).
    destruct (CF2 c z Hz) as [z' Hz']. rewrite <- Hm.
    now apply get_lt with (Num z'). }
  destruct (countPasses_length graph (passes graph) this2) as [Hlen1 Hlen2].
  { intros pass id Hp Hb. rewrite Hn. apply Hs.
    pose proof (total_surface_uses_member graph _ _ id Hp).
    pose proof (binds_slot_uses _ _ Hb). unfold surface_uses in *. lia. }
  { intros pass c Hp Hin. rewrite Hm. apply Hc.
    pose proof (total_input_uses_member _ _ c Hp).
    pose proof (input_input_uses _ _ Hin). lia. }
  { intros pass c id Hp Hin Ho. rewrite Hn. apply Hs.
    pose proof (total_surface_uses_member graph _ _ id Hp).
    pose proof (input_origin_uses graph _ _ _ Hin Ho). unfold surface_uses in *. lia. }
  rewrite <- Hthis3 in Hlen1, Hlen2.
  destruct (countPasses_adds graph (passes graph) this2) as [A1 A2].
  rewrite <- Hthis3 in A1, A2.
  assert (forall id, id < n -> count_is (rtUC this4) id 0) as Z1.
  { intros id Hid.
    assert (count_is (rtUC this2) id 0) as H0
      by (unfold count_is; rewrite Hrt2; now apply get_fillArray).
    apply A1 in H0. apply (released_by_count _ _ _ _ _ R1) in H0.
    unfold count_is in *. rewrite H0. do 2 f_equal. lia. }
  assert (forall c, c < m -> count_is (rsUC this4) c 0) as Z2.
  { intros c Hcm.
    assert (count_is (rsUC this2) c 0) as H0
      by (unfold count_is; rewrite Hrs2; now apply get_fillArray).
    apply A2 in H0. apply (released_by_count _ _ _ _ _ R2) in H0.
    unfold count_is in *. rewrite H0. do 2 f_equal. lia. }
  split; [|split].
  - apply all_cells. intros i Hi. apply Z1.
    rewrite (released_by_length _ _ _ R1), Hlen1, Hn in Hi. exact Hi.
  - apply all_cells. intros i Hi. apply Z2.
    rewrite (released_by_length _ _ _ R2), Hlen2, Hm in Hi. exact Hi.
  - apply alive_empty_get. intros id.
    destruct (JsArray.get (rtAlive this4) id) as [rt|] eqn:Hrt; [|reflexivity].
    exfalso. assert (alive_counted this3) as Hinv3.
    { intros r rt' Hr. destruct (afterPassA_frame graph this) as [Ha _].
      fold this3 in Ha. rewrite Ha in Hr.
      rewrite (proj1 (alive_empty_get this) Hempty r) in Hr. discriminate. }
    destruct (Hinv Hinv3 id rt Hrt) as (z & Hz & Hpos).
    assert (id < n) as Hid.
    { rewrite <- Hn, <- Hlen1, <- (released_by_length _ _ _ R1).
      now apply get_lt with (Num z). }
    pose proof (count_is_inj _ _ _ _ Hz (Z1 id Hid)). lia.
Qed.


Lemma scheduleGraph_fatal_iff (device : GfxDevice) (graph : SceneGraph)
    (presentColorTexture : option GfxTexture) (this : Ex) :
  alive_empty this -> rtUC this = [] -> rsUC this = [] ->
  (is_fatal (SceneGraphExecutor.scheduleGraph device graph presentColorTexture this)
   <-> is_fatal (SceneGraphExecutor.schedulePasses device graph (passes graph)
                   presentColorTexture (afterPassA graph this))).
Proof.
  intros Hempty Hrt Hrs. rewrite scheduleGraph_unfold, Hrt, Hrs. cbn [length].
  rewrite bool_decide_eq_true_2 by reflexivity. cbn [assert rbind].
  destruct (SceneGraphExecutor.schedulePasses device graph (passes graph)
              presentColorTexture (afterPassA graph this))
    as [[[ps device1] this4]|e] eqn:Hsched; cbn [rbind]; [|tauto].
  destruct (afterPassB_released _ _ _ _ _ _ _ Hempty Hsched) as (H1 & H2 & H3).
  assert (SceneGraphExecutor.checkAllReleased this4 = OK tt) as ->
    by (now apply checkAllReleased_OK).
  cbn [rbind]. destruct (SceneGraphExecutor.sweepPools device1 this4). simpl. tauto.
Qed.


(** * Resolve targets *)

Lemma rest_of_pass_keeps_resolveTextureForID (graph : SceneGraph)
    (pass : SceneGraphPassImpl) (o1 o2 : option nat)
    (textures : list (option GfxTexture)) (this4 this7 this8 this' : Ex) :
  SceneGraphExecutor.acquireInputTextures graph (resolveTextureInputIDs pass) 0
    (resolveTextureInputTextures pass)
    (SceneGraphExecutor.markCleared o2 (SceneGraphExecutor.markCleared o1 this4))
    = OK (textures, this7) ->
  SceneGraphExecutor.releaseRenderTargets (renderTargetIDs pass) this7 = OK this8 ->
  SceneGraphExecutor.releaseResolveTextureInputs (resolveTextureInputIDs pass) this8
    = OK this' ->
  rsForID this' = rsForID this4.
Proof.
  intros H9 H10 H11.
  destruct (acquireInputTextures_counts _ _ _ _ _ _ _ H9) as (_ & _ & E7 & _).
  destruct (releaseRenderTargets_counts _ _ _ H10) as (_ & _ & E8 & _).
  destruct (releaseResolveTextureInputs_counts _ _ _ H11) as (_ & _ & _ & E9 & _).
  destruct (markCleared_frame o1 this4) as (_ & _ & E5 & _).
  destruct (markCleared_frame o2 (SceneGraphExecutor.markCleared o1 this4))
    as (_ & _ & E6 & _).
  congruence.
Qed.

Lemma acquireResolveTextureOutputForID_result (device device' : GfxDevice)
    (graph : SceneGraph) (src o : option nat) (this this' : Ex)
    (out : option GfxTexture) :
  SceneGraphExecutor.acquireResolveTextureOutputForID device graph src o this
    = OK (out, device', this') ->
  (o = None -> out = None) /\
  (forall tex, out = Some tex ->
     exists copy resolveTexture,
       o = Some copy /\
       JsArray.get (rsForID this') copy = Some resolveTexture /\
       ResolveTexture.texture resolveTexture = tex).
Proof.
  destruct o as [copy|]; [|intros [= <- <- <-]; split; [reflexivity | discriminate]].
  intros H. split; [discriminate|].
  apply acquireResolveTextureOutputForID_inv in H
    as (_ & _ & rt & _ & [H|[H|H]]); intros tex Hout.
  - destruct H as (_ & -> & _). discriminate.
  - destruct H as (_ & rtex & Hfor & -> & _ & ->). injection Hout as <-. eauto.
  - destruct H as (_ & _ & surface & desc & rtex & this1 & _ & _ & _ & -> & ->).
    injection Hout as <-. exists copy, rtex. cbn. now rewrite get_set_eq.
Qed.

(** C6 (as amended).  For a pass flagged present, the Color0 resolve
    target is the presentation texture supplied by the caller.  The
    DepthStencil resolve target is not redirected by the flag: it is null
    when no copy-output was requested for that slot, and otherwise null
    or the texture of the physical copy registered for the requested
    copy id. *)
Theorem present_redirects_color_only (device device' : GfxDevice)
    (graph : SceneGraph) (pass pass' : SceneGraphPassImpl)
    (presentColorTexture : option GfxTexture) (this this' : SceneGraphExecutor.t) :
  SceneGraphExecutor.schedulePass device graph pass presentColorTexture this
    = OK (pass', device', this') ->
  doPresent pass = true ->
  colorResolveTo (descriptor pass') = presentColorTexture /\
  (JsArray.get (resolveTextureOutputIDs pass) (slot_index DepthStencil) = None ->
   depthStencilResolveTo (descriptor pass') = None) /\
  (forall tex, depthStencilResolveTo (descriptor pass') = Some tex ->
     exists copy resolveTexture,
       JsArray.get (resolveTextureOutputIDs pass) (slot_index DepthStencil)
         = Some copy /\
       JsArray.get (SceneGraphExecutor.resolveTextureForID this') copy
         = Some resolveTexture /\
       ResolveTexture.texture resolveTexture = tex).
Proof.
  intros H Hpresent. apply schedulePass_inv in H. cbn zeta in H.
  destruct H as (color0 & device1 & this1 & colorClear & depthStencil & device2
                 & this2 & depthClear & stencilClear & colorResolve & device3
                 & this3 & depthResolve & this4 & textures & this7 & this8
                 & _ & _ & _ & _ & _ & H6 & H7 & _ & H9 & H10 & H11
                 & _ & _ & _ & Hdesc).
  rewrite Hdesc. cbn [colorResolveTo depthStencilResolveTo slot_index].
  rewrite Hpresent in H6. injection H6 as <- <- <-.
  destruct (acquireResolveTextureOutputForID_result _ _ _ _ _ _ _ _ H7) as [Hnone Hsome].
  rewrite (rest_of_pass_keeps_resolveTextureForID _ _ _ _ _ _ _ _ _ H9 H10 H11).
  auto.
Qed.

(** C6, the claim as stated fails for the DepthStencil slot: a present
    pass with a bound DepthStencil slot resolves that slot to nothing,
    not to the presentation texture. *)
Lemma present_depthStencil_not_redirected :
  exists pass' device' this',
    SceneGraphExecutor.schedulePass device0 depth_only_graph depth_only_present
      (Some 99) (afterPassA depth_only_graph SceneGraphExecutor.new)
      = OK (pass', device', this') /\
    doPresent depth_only_present = true /\
    JsArray.get (renderTargetIDs depth_only_present) (slot_index DepthStencil)
      = Some 0 /\
    depthStencilResolveTo (descriptor pass') = None /\
    depthStencilResolveTo (descriptor pass') <> Some 99.
Proof.
  eexists _, _, _. split; [vm_compute; reflexivity|].
  repeat split; discriminate.
Qed.

Lemma releaseRenderTargetForID_OK (id : nat) (this : Ex) (z : Z)
    (renderTarget : RenderTarget.t) :
  count_is (rtUC this) id z -> (0 < z)%Z ->
  JsArray.get (rtAlive this) id = Some renderTarget ->
  exists this',
    SceneGraphExecutor.releaseRenderTargetForID (Some id) this = OK this' /\
    count_is (rtUC this') id (z - 1) /\
    (forall other, other <> id ->
       JsArray.get (rtUC this') other = JsArray.get (rtUC this) other) /\
    rsUC this' = rsUC this /\ rsForID this' = rsForID this /\
    rsPool this' = rsPool this.
Proof.
  intros Hz Hpos Halive.
  unfold SceneGraphExecutor.releaseRenderTargetForID.
  assert (jsnum_gt0 (JsArray.get (rtUC this) id) = true) as Hgt
    by (apply jsnum_gt0_count; eauto).
  rewrite Hgt. cbn [assert rbind].
  cbn [rtUC SceneGraphExecutor.with_renderTargetUseCount].
  pose proof (decr_at_eq _ _ _ Hz) as Hz'.
  destruct (jsnum_is0 (JsArray.get (decr_at (rtUC this) id) id)).
  - cbn [rtAlive SceneGraphExecutor.with_renderTargetUseCount].
    rewrite Halive. cbn [assertExists rbind]. eexists. split; [reflexivity|].
    cbn. repeat split; [exact Hz'|]. intros other Hne. now apply decr_at_ne.
  - eexists. split; [reflexivity|]. cbn.
    repeat split; [exact Hz'|]. intros other Hne. now apply decr_at_ne.
Qed.

(* a copy-output requested of a texture-backed surface does nothing and
   returns null *)
Lemma copy_request_of_texture_backed_surface (device : GfxDevice)
    (graph : SceneGraph) (surface copy : nat) (producer : Ex)
    (renderTarget : RenderTarget.t) (tex : GfxTexture) :
  resolveTextureRenderTargetIDs graph !! copy = Some surface ->
  JsArray.get (rtAlive producer) surface = Some renderTarget ->
  RenderTarget.texture renderTarget = Some tex ->
  positive (rsUC producer) copy ->
  SceneGraphExecutor.acquireResolveTextureOutputForID device graph (Some surface)
    (Some copy) producer = OK (None, device, producer).
Proof.
  intros Horigin Halive Htex Hpos.
  unfold SceneGraphExecutor.acquireResolveTextureOutputForID.
  rewrite Horigin, bool_decide_eq_true_2 by reflexivity.
  apply jsnum_gt0_count in Hpos. rewrite Hpos. cbn.
  rewrite Halive. cbn. now rewrite Htex.
Qed.

(* consuming a copy returns the registered physical copy's texture or else
   the surface's own, and takes one off the surface's use-count either way *)
Lemma consumed_copy_releases_surface (graph : SceneGraph) (surface copy : nat)
    (consumer : Ex) (renderTarget : RenderTarget.t) (z : Z) :
  resolveTextureRenderTargetIDs graph !! copy = Some surface ->
  JsArray.get (rtAlive consumer) surface = Some renderTarget ->
  count_is (rtUC consumer) surface z -> (0 < z)%Z ->
  exists consumer',
    count_is (rtUC consumer') surface (z - 1) /\
    (JsArray.get (rsForID consumer) copy = None ->
     forall tex,
       RenderTarget.texture renderTarget = Some tex ->
       SceneGraphExecutor.acquireResolveTextureInputTextureForID graph copy consumer
         = OK (tex, consumer')) /\
    (forall resolveTexture,
       JsArray.get (rsForID consumer) copy = Some resolveTexture ->
       SceneGraphExecutor.acquireResolveTextureInputTextureForID graph copy consumer
         = OK (ResolveTexture.texture resolveTexture, consumer')).
Proof.
  intros Horigin Halive Hz Hzpos.
  destruct (releaseRenderTargetForID_OK surface consumer z renderTarget Hz Hzpos Halive)
    as (consumer' & Hrel & Hz' & _).
  exists consumer'. split; [exact Hz'|]. split.
  - intros Hnone tex Htex.
    unfold SceneGraphExecutor.acquireResolveTextureInputTextureForID.
    rewrite Hnone, Horigin. cbn [SceneGraphExecutor.at_id].
    rewrite Halive. cbn [assertExists rbind]. rewrite Hrel. cbn [rbind].
    now rewrite Htex.
  - intros rtex Hsome.
    unfold SceneGraphExecutor.acquireResolveTextureInputTextureForID.
    now rewrite Hsome, Horigin, Hrel.
Qed.

(** * Pools: aging, sweeping, reuse *)

Lemma pool_sweep_spec {A} (age : A -> nat) (destroy : A -> GfxDevice -> GfxDevice)
    (calls_of : A -> list GfxCall) (threshold : nat) (kept rest : list A)
    (device : GfxDevice) :
  (forall x d, destroy x d = mkDevice (nextHandle d) (calls d ++ calls_of x)) ->
  pool_sweep age destroy threshold kept rest device =
  (kept ++ filter (fun x => ~ threshold <= age x) rest,
   mkDevice (nextHandle device)
            (calls device
             ++ flat_map calls_of (filter (fun x => threshold <= age x) rest))).
Proof.
  intros Hdestroy. revert kept device.
  induction rest as [|x rest IH]; intros kept device; simpl.
  - rewrite !app_nil_r. now destruct device.
  - rewrite !filter_cons. destruct (decide (threshold <= age x)) as [Hold|Hyoung].
    + rewrite bool_decide_eq_true_2 by assumption.
      rewrite decide_False by tauto.
      rewrite IH, Hdestroy. cbn. now rewrite <- app_assoc.
    + rewrite bool_decide_eq_false_2 by assumption.
      rewrite decide_True by assumption.
      rewrite IH. now rewrite <- app_assoc.
Qed.

Lemma renderTarget_destroy_calls_spec (rt : RenderTarget.t) (d : GfxDevice) :
  RenderTarget.destroy rt d
  = mkDevice (nextHandle d) (calls d ++ renderTarget_destroy_calls rt).
Proof.
  unfold RenderTarget.destroy, renderTarget_destroy_calls, device_call.
  destruct (RenderTarget.texture rt); cbn; [|reflexivity].
  now rewrite <- app_assoc.
Qed.

Lemma resolveTexture_destroy_calls_spec (rt : ResolveTexture.t) (d : GfxDevice) :
  ResolveTexture.destroy rt d
  = mkDevice (nextHandle d) (calls d ++ resolveTexture_destroy_calls rt).
Proof. reflexivity. Qed.

Lemma sweepPools_spec (device : GfxDevice) (this : Ex) :
  SceneGraphExecutor.sweepPools device this =
  (mkDevice (nextHandle device)
     (calls device
      ++ flat_map renderTarget_destroy_calls (filter renderTarget_aged (rtPool this))
      ++ flat_map resolveTexture_destroy_calls
           (filter resolveTexture_aged (rsPool this))),
   SceneGraphExecutor.with_resolveTextureDeadPool
     (filter (fun rt => ~ resolveTexture_aged rt) (rsPool this))
     (SceneGraphExecutor.with_renderTargetDeadPool
        (filter (fun rt => ~ renderTarget_aged rt) (rtPool this)) this)).
Proof.
  unfold SceneGraphExecutor.sweepPools.
  rewrite (pool_sweep_spec _ _ renderTarget_destroy_calls _ _ _ _
             renderTarget_destroy_calls_spec).
  rewrite (pool_sweep_spec _ _ resolveTexture_destroy_calls _ _ _ _
             resolveTexture_destroy_calls_spec).
  cbn. now rewrite <- app_assoc.
Qed.

Lemma pool_take_hit {A} (matches : A -> bool) (scanned rest : list A) (x : A) :
  x ∈ rest -> matches x = true ->
  exists free before after,
    rest = before ++ free :: after /\ matches free = true /\
    (forall y, y ∈ before -> matches y = false) /\
    pool_take matches scanned rest = Some (free, scanned ++ before ++ after).
Proof.
  intros Hin Hx.
  destruct (pool_take matches scanned rest) as [[free pool']|] eqn:Htake.
  - destruct (pool_take_Some _ _ _ _ _ Htake) as (before & after & -> & -> & Hf & Hmin).
    exists free, before, after. auto.
  - rewrite pool_take_None in Htake. rewrite (Htake x Hin) in Hx. discriminate.
Qed.

Lemma afterPassA_pools (graph : SceneGraph) (this : Ex) :
  rtPool (afterPassA graph this) = rtPool (SceneGraphExecutor.agePools this) /\
  rsPool (afterPassA graph this) = rsPool (SceneGraphExecutor.agePools this).
Proof.
  unfold afterPassA.
  destruct (countPasses_counted graph (passes graph)
              (SceneGraphExecutor.initUseCounts graph (SceneGraphExecutor.agePools this)))
    as (_ & _ & _ & _ & _ & _ & Hp1 & Hp2).
  rewrite Hp1, Hp2. split; reflexivity.
Qed.

(** * One physical render target per surface id *)

Lemma same_object_refl (rt : RenderTarget.t) : same_object rt rt.
Proof. reflexivity. Qed.

Lemma same_object_trans (rt1 rt2 rt3 : RenderTarget.t) :
  same_object rt1 rt2 -> same_object rt2 rt3 -> same_object rt1 rt3.
Proof. unfold same_object. congruence. Qed.

Lemma same_object_sym (rt1 rt2 : RenderTarget.t) :
  same_object rt1 rt2 -> same_object rt2 rt1.
Proof. unfold same_object. congruence. Qed.

Lemma same_object_needsClear (rt : RenderTarget.t) (v : bool) :
  same_object rt (RenderTarget.with_needsClear v rt).
Proof. reflexivity. Qed.

Lemma same_object_handles (rt rt' : RenderTarget.t) :
  same_object rt rt' ->
  RenderTarget.attachment rt = RenderTarget.attachment rt' /\
  RenderTarget.texture rt = RenderTarget.texture rt' /\
  RenderTarget.numSamples rt = RenderTarget.numSamples rt' /\
  RenderTarget.width rt = RenderTarget.width rt' /\
  RenderTarget.height rt = RenderTarget.height rt' /\
  RenderTarget.pixelFormat rt = RenderTarget.pixelFormat rt'.
Proof.
  unfold same_object, RenderTarget.with_needsClear. intros H.
  injection H as H1 H2 H3 H4 H5 H6 H7 H8. repeat split; assumption.
Qed.

Lemma evolves_refl (this : Ex) : evolves this this.
Proof.
  split.
  - exists (fun _ => 0). now apply released_by_refl.
  - intros id rt H _. exists rt. split; [exact H | apply same_object_refl].
Qed.

Lemma evolves_trans (this this' this'' : Ex) :
  evolves this this' -> evolves this' this'' -> evolves this this''.
Proof.
  intros [[f Hf] H1] [[g Hg] H2]. split.
  - exists (fun i => f i + g i). now apply released_by_trans with (rtUC this').
  - intros id rt Hrt Hpos.
    destruct (H1 id rt Hrt (released_by_positive _ _ _ _ Hg Hpos)) as (rt' & Hrt' & Hs).
    destruct (H2 id rt' Hrt' Hpos) as (rt'' & Hrt'' & Hs').
    exists rt''. split; [exact Hrt''|]. now apply same_object_trans with rt'.
Qed.

Lemma evolves_frame (this this' : Ex) :
  rtUC this' = rtUC this -> rtAlive this' = rtAlive this -> evolves this this'.
Proof.
  intros Hc Ha. split.
  - exists (fun _ => 0). rewrite Hc. now apply released_by_refl.
  - intros id rt H _. rewrite Ha. exists rt. split; [exact H | apply same_object_refl].
Qed.

Lemma releaseRenderTargetForID_evolves (o : option nat) (this this' : Ex) :
  SceneGraphExecutor.releaseRenderTargetForID o this = OK this' -> evolves this this'.
Proof.
  intros H. pose proof (releaseRenderTargetForID_counts _ _ _ H) as (Hc & _).
  split; [eauto|]. destruct o as [id|]; [|injection H as <-; intros r rt Hr _; eauto using same_object_refl].
  apply releaseRenderTargetForID_inv in H as (z & Hz & Hpos & H). cbn zeta in H.
  intros r rt Hr Hposr. destruct (z =? 1)%Z eqn:Hz1.
  - destruct H as (rt0 & _ & ->). cbn in *.
    destruct (decide (id = r)) as [->|Hne].
    + exfalso. apply Z.eqb_eq in Hz1. subst z.
      destruct Hposr as (y & Hy & Hypos).
      pose proof (count_is_inj _ _ _ _ Hy (decr_at_eq _ _ _ Hz)). lia.
    + exists rt. rewrite get_delete_ne by assumption.
      split; [exact Hr | apply same_object_refl].
  - subst this'. cbn. exists rt. split; [exact Hr | apply same_object_refl].
Qed.

Lemma acquireRenderTargetForID_alive (device device' : GfxDevice) (graph : SceneGraph)
    (id : nat) (this this' : Ex) (acquired : option RenderTarget.t) :
  SceneGraphExecutor.acquireRenderTargetForID device graph (Some id) this
    = OK (acquired, device', this') ->
  exists rt,
    acquired = Some rt /\
    JsArray.get (rtAlive this') id = Some rt /\
    (forall other, other <> id ->
       JsArray.get (rtAlive this') other = JsArray.get (rtAlive this) other) /\
    (forall rt0, JsArray.get (rtAlive this) id = Some rt0 -> rt = rt0).
Proof.
  intros H. apply acquireRenderTargetForID_inv in H as [_ [H|H]].
  - destruct H as (rt & Hrt & -> & _ & ->). exists rt.
    repeat split; auto. congruence.
  - destruct H as (desc & rt & this1 & Hnone & _ & Hacq & -> & ->).
    assert (rtAlive this1 = rtAlive this) as Ha.
    { apply acquireRenderTargetForDescription_inv in Hacq as [H|H].
      - destruct H as (free & pool' & _ & _ & _ & ->). auto.
      - destruct H as (_ & _ & ->). auto. }
    exists rt. cbn. rewrite Ha. repeat split.
    + apply get_set_eq.
    + intros other Hne. apply get_set_ne. congruence.
    + congruence.
Qed.

Lemma acquireRenderTargetForID_evolves (device device' : GfxDevice)
    (graph : SceneGraph) (o : option nat) (this this' : Ex)
    (acquired : option RenderTarget.t) :
  SceneGraphExecutor.acquireRenderTargetForID device graph o this
    = OK (acquired, device', this') ->
  evolves this this'.
Proof.
  intros H. destruct (acquireRenderTargetForID_frame _ _ _ _ _ _ _ H) as (Hc & _).
  destruct o as [id|]; [|injection H as <- <- <-; apply evolves_refl].
  destruct (acquireRenderTargetForID_alive _ _ _ _ _ _ _ H)
    as (rt & _ & Hid & Hother & Hsame).
  split.
  - exists (fun _ => 0). rewrite Hc. now apply released_by_refl.
  - intros r rt0 Hr _. destruct (decide (r = id)) as [->|Hne].
    + exists rt. split; [exact Hid|]. rewrite (Hsame rt0 Hr). apply same_object_refl.
    + exists rt0. rewrite (Hother r Hne). split; [exact Hr | apply same_object_refl].
Qed.

Lemma markCleared_evolves (o : option nat) (this : Ex) :
  evolves this (SceneGraphExecutor.markCleared o this).
Proof.
  destruct (markCleared_frame o this) as (Hc & _). split.
  - exists (fun _ => 0). rewrite Hc. now apply released_by_refl.
  - intros id rt Hrt _. rewrite markCleared_alive, Hrt.
    destruct (bool_decide (o = Some id)); cbn; eexists; split;
      try reflexivity; apply same_object_needsClear || apply same_object_refl.
Qed.

Lemma acquireInputTextures_evolves (graph : SceneGraph) (ids : list nat) (i : nat)
    (textures textures' : list (option GfxTexture)) (this this' : Ex) :
  SceneGraphExecutor.acquireInputTextures graph ids i textures this
    = OK (textures', this') ->
  evolves this this'.
Proof.
  revert i textures this. induction ids as [|c ids IH]; intros i textures this; simpl.
  - intros [= <- <-]. apply evolves_refl.
  - intros H. inv_bind H as [tex this1] Hacq.
    apply acquireResolveTextureInputTextureForID_inv in Hacq as [Hrel _].
    apply evolves_trans with this1; [|now apply IH with (S i) (JsArray.set textures i tex)].
    now apply releaseRenderTargetForID_evolves with (resolveTextureRenderTargetIDs graph !! c).
Qed.

Lemma releaseRenderTargets_evolves (ids : list (option nat)) (this this' : Ex) :
  SceneGraphExecutor.releaseRenderTargets ids this = OK this' -> evolves this this'.
Proof.
  revert this. induction ids as [|c ids IH]; intros this; simpl.
  - intros [= <-]. apply evolves_refl.
  - intros H. inv_bind H as this1 Hrel.
    apply evolves_trans with this1; [|now apply IH].
    now apply releaseRenderTargetForID_evolves with c.
Qed.

Lemma slot_bound_binds (pass : SceneGraphPassImpl) (slot : RenderTargetAttachmentSlot)
    (id : nat) :
  JsArray.get (renderTargetIDs pass) (slot_index slot) = Some id -> binds pass id.
Proof.
  intros H. apply get_lookup in H. unfold binds.
  apply list_elem_of_lookup. eauto.
Qed.

(* the part of [schedulePass] after the two acquisitions *)
Lemma schedulePass_tail_evolves (device3 device' : GfxDevice) (graph : SceneGraph)
    (pass : SceneGraphPassImpl) (presentColorTexture : option GfxTexture)
    (device2 : GfxDevice) (o1 o2 : option nat)
    (colorResolve depthResolve : option GfxTexture)
    (textures : list (option GfxTexture)) (this2 this3 this4 this7 this8 this' : Ex) :
  (if doPresent pass then OK (presentColorTexture, device2, this2)
   else SceneGraphExecutor.acquireResolveTextureOutputForID device2 graph o1
          (JsArray.get (resolveTextureOutputIDs pass) 0) this2)
    = OK (colorResolve, device3, this3) ->
  SceneGraphExecutor.acquireResolveTextureOutputForID device3 graph o2
    (JsArray.get (resolveTextureOutputIDs pass) 1) this3
    = OK (depthResolve, device', this4) ->
  SceneGraphExecutor.acquireInputTextures graph (resolveTextureInputIDs pass) 0
    (resolveTextureInputTextures pass)
    (SceneGraphExecutor.markCleared o2 (SceneGraphExecutor.markCleared o1 this4))
    = OK (textures, this7) ->
  SceneGraphExecutor.releaseRenderTargets (renderTargetIDs pass) this7 = OK this8 ->
  SceneGraphExecutor.releaseResolveTextureInputs (resolveTextureInputIDs pass) this8
    = OK this' ->
  evolves this2 this'.
Proof.
  intros H6 H7 H9 H10 H11.
  destruct (colorResolve_frame _ _ _ _ _ _ _ _ _ H6) as (Hc3 & _ & Ha3 & _).
  destruct (acquireResolveTextureOutputForID_frame _ _ _ _ _ _ _ _ H7)
    as (Hc4 & _ & Ha4 & _).
  destruct (releaseResolveTextureInputs_counts _ _ _ H11) as (_ & Hc9 & Ha9 & _).
  apply evolves_trans with this3; [now apply evolves_frame|].
  apply evolves_trans with this4; [now apply evolves_frame|].
  eapply evolves_trans; [apply (markCleared_evolves o1)|].
  eapply evolves_trans; [apply (markCleared_evolves o2)|].
  apply evolves_trans with this7; [now apply acquireInputTextures_evolves in H9|].
  apply evolves_trans with this8; [now apply releaseRenderTargets_evolves in H10|].
  now apply evolves_frame.
Qed.

Lemma schedulePass_evolves (device device' : GfxDevice) (graph : SceneGraph)
    (pass pass' : SceneGraphPassImpl) (presentColorTexture : option GfxTexture)
    (this this' : Ex) :
  SceneGraphExecutor.schedulePass device graph pass presentColorTexture this
    = OK (pass', device', this') ->
  evolves this this'.
Proof.
  intros H. apply schedulePass_inv in H. cbn zeta in H.
  destruct H as (color0 & device1 & this1 & colorClear & depthStencil & device2
                 & this2 & depthClear & stencilClear & colorResolve & device3
                 & this3 & depthResolve & this4 & textures & this7 & this8
                 & H1 & _ & H3 & _ & _ & H6 & H7 & _ & H9 & H10 & H11 & _).
  apply evolves_trans with this1; [now apply acquireRenderTargetForID_evolves in H1|].
  apply evolves_trans with this2; [now apply acquireRenderTargetForID_evolves in H3|].
  eapply schedulePass_tail_evolves; eassumption.
Qed.

Lemma schedulePass_attachment (device device' : GfxDevice) (graph : SceneGraph)
    (pass pass' : SceneGraphPassImpl) (presentColorTexture : option GfxTexture)
    (this this' : Ex) (id : nat) :
  SceneGraphExecutor.schedulePass device graph pass presentColorTexture this
    = OK (pass', device', this') ->
  (exists slot, JsArray.get (renderTargetIDs pass) (slot_index slot) = Some id) ->
  exists rt0,
    (forall slot,
       JsArray.get (renderTargetIDs pass) (slot_index slot) = Some id ->
       slot_attachment slot (descriptor pass') = Some (RenderTarget.attachment rt0)) /\
    (forall rt, JsArray.get (rtAlive this) id = Some rt -> rt = rt0) /\
    (positive (rtUC this') id ->
     exists rt', JsArray.get (rtAlive this') id = Some rt' /\ same_object rt0 rt') /\
    positive (rtUC this) id.
Proof.
  intros H Hbound.
  assert (positive (rtUC this) id) as Hpos.
  { destruct (schedulePass_counts _ _ _ _ _ _ _ _ H) as (R1 & _).
    apply (released_by_used _ _ _ _ R1). destruct Hbound as [slot Hslot].
    pose proof (binds_slot_uses _ _ (slot_bound_binds _ _ _ Hslot)).
    unfold surface_uses. lia. }
  apply schedulePass_inv in H. cbn zeta in H.
  destruct H as (color0 & device1 & this1 & colorClear & depthStencil & device2
                 & this2 & depthClear & stencilClear & colorResolve & device3
                 & this3 & depthResolve & this4 & textures & this7 & this8
                 & H1 & _ & H3 & _ & _ & H6 & H7 & _ & H9 & H10 & H11
                 & _ & _ & _ & Hdesc).
  pose proof (schedulePass_tail_evolves _ _ _ _ _ _ _ _ _ _ _ _ _ _ _ _ _
                H6 H7 H9 H10 H11) as [_ Htail].
  rewrite Hdesc.
  destruct (JsArray.get (renderTargetIDs pass) 0) as [c0|] eqn:Hc0.
  - destruct (acquireRenderTargetForID_alive _ _ _ _ _ _ _ H1)
      as (rtc & -> & Hid1 & Hother1 & Hsame1).
    destruct (JsArray.get (renderTargetIDs pass) 1) as [ds|] eqn:Hds.
    + destruct (acquireRenderTargetForID_alive _ _ _ _ _ _ _ H3)
        as (rtd & -> & Hid2 & Hother2 & Hsame2).
      destruct (decide (c0 = id)) as [->|Hne0].
      * exists rtc. split; [|split; [intros rt Hrt; symmetry; auto|split; [|exact Hpos]]].
        -- intros [] Hslot; cbn [slot_index] in Hslot; cbn; [reflexivity|].
           rewrite Hds in Hslot. injection Hslot as ->.
           now rewrite (Hsame2 rtc Hid1).
        -- intros Hafter. apply Htail; [|exact Hafter].
           destruct (decide (ds = id)) as [->|Hned].
           ++ now rewrite (Hsame2 rtc Hid1) in Hid2.
           ++ rewrite (Hother2 id) by congruence. exact Hid1.
      * exists rtd. destruct Hbound as [[] Hslot]; cbn [slot_index] in Hslot;
          [rewrite Hc0 in Hslot; congruence|].
        rewrite Hds in Hslot. injection Hslot as ->.
        split; [|split; [|split; [|exact Hpos]]].
        -- intros [] Hslot; cbn [slot_index] in Hslot; cbn; [|reflexivity].
           rewrite Hc0 in Hslot. congruence.
        -- intros rt Hrt. symmetry. apply Hsame2.
           now rewrite (Hother1 id) by congruence.
        -- intros Hafter. now apply Htail.
    + injection H3 as <- <- <-.
      destruct Hbound as [[] Hslot]; cbn [slot_index] in Hslot;
        [|rewrite Hds in Hslot; discriminate].
      rewrite Hc0 in Hslot. injection Hslot as ->.
      exists rtc. split; [|split; [intros rt Hrt; symmetry; auto|split; [|exact Hpos]]].
      * intros [] Hslot; cbn [slot_index] in Hslot; cbn; [reflexivity|].
        rewrite Hds in Hslot. discriminate.
      * intros Hafter. now apply Htail.
  - injection H1 as <- <- <-.
    destruct Hbound as [[] Hslot]; cbn [slot_index] in Hslot;
      [rewrite Hc0 in Hslot; discriminate|].
    rewrite Hslot in H3.
    destruct (acquireRenderTargetForID_alive _ _ _ _ _ _ _ H3)
      as (rtd & -> & Hid2 & Hother2 & Hsame2).
    exists rtd. split; [|split; [intros rt Hrt; symmetry; auto|split; [|exact Hpos]]].
    + intros [] Hslot'; cbn [slot_index] in Hslot'; cbn; [|reflexivity].
      rewrite Hc0 in Hslot'. discriminate.
    + intros Hafter. now apply Htail.
Qed.

Lemma schedulePass_ids (device device' : GfxDevice) (graph : SceneGraph)
    (pass pass' : SceneGraphPassImpl) (presentColorTexture : option GfxTexture)
    (this this' : Ex) :
  SceneGraphExecutor.schedulePass device graph pass presentColorTexture this
    = OK (pass', device', this') ->
  renderTargetIDs pass' = renderTargetIDs pass /\
  resolveTextureInputIDs pass' = resolveTextureInputIDs pass.
Proof.
  intros H. apply schedulePass_inv in H. cbn zeta in H.
  destruct H as (color0 & device1 & this1 & colorClear & depthStencil & device2
                 & this2 & depthClear & stencilClear & colorResolve & device3
                 & this3 & depthResolve & this4 & textures & this7 & this8
                 & _ & _ & _ & _ & _ & _ & _ & _ & _ & _ & _ & Hids & Hin & _).
  auto.
Qed.

Lemma schedulePasses_evolves (device device' : GfxDevice) (graph : SceneGraph)
    (ps ps' : list SceneGraphPassImpl) (presentColorTexture : option GfxTexture)
    (this this' : Ex) :
  SceneGraphExecutor.schedulePasses device graph ps presentColorTexture this
    = OK (ps', device', this') ->
  evolves this this'.
Proof.
  revert device this ps'. induction ps as [|pass ps IH]; intros device this ps'; simpl.
  - intros [= <- <- <-]. apply evolves_refl.
  - intros H. inv_bind H as [[pass' device1] this1] Hp.
    inv_bind H as [[ps'' device2] this2] Hps. injection H as <- <- <-.
    apply evolves_trans with this1; [now apply schedulePass_evolves in Hp|].
    now apply IH in Hps.
Qed.

Lemma schedulePasses_bound_positive (device device' : GfxDevice) (graph : SceneGraph)
    (ps ps' : list SceneGraphPassImpl) (presentColorTexture : option GfxTexture)
    (this this' : Ex) (j : nat) (pj : SceneGraphPassImpl)
    (slot : RenderTargetAttachmentSlot) (id : nat) :
  SceneGraphExecutor.schedulePasses device graph ps presentColorTexture this
    = OK (ps', device', this') ->
  ps' !! j = Some pj ->
  JsArray.get (renderTargetIDs pj) (slot_index slot) = Some id ->
  positive (rtUC this) id.
Proof.
  revert device this ps' j. induction ps as [|pass ps IH];
    intros device this ps' j; simpl.
  - intros [= <- <- <-] Hj. discriminate.
  - intros H Hj Hslot. inv_bind H as [[pass' device1] this1] Hp.
    inv_bind H as [[ps'' device2] this2] Hps. injection H as <- <- <-.
    destruct j as [|j]; simpl in Hj.
    + injection Hj as ->.
      destruct (schedulePass_ids _ _ _ _ _ _ _ _ Hp) as [Hids _].
      rewrite Hids in Hslot.
      destruct (schedulePass_attachment _ _ _ _ _ _ _ _ id Hp) as (_ & _ & _ & _ & Hpos);
        eauto.
    + specialize (IH _ _ _ _ Hps Hj Hslot).
      destruct (schedulePass_counts _ _ _ _ _ _ _ _ Hp) as (R1 & _).
      now apply (released_by_positive _ _ _ _ R1).
Qed.

Lemma schedulePasses_alive_attachment (device device' : GfxDevice)
    (graph : SceneGraph) (ps ps' : list SceneGraphPassImpl)
    (presentColorTexture : option GfxTexture) (this this' : Ex) (j : nat)
    (pj : SceneGraphPassImpl) (slot : RenderTargetAttachmentSlot) (id : nat)
    (rt : RenderTarget.t) :
  SceneGraphExecutor.schedulePasses device graph ps presentColorTexture this
    = OK (ps', device', this') ->
  JsArray.get (rtAlive this) id = Some rt ->
  ps' !! j = Some pj ->
  JsArray.get (renderTargetIDs pj) (slot_index slot) = Some id ->
  slot_attachment slot (descriptor pj) = Some (RenderTarget.attachment rt).
Proof.
  revert device this ps' j rt. induction ps as [|pass ps IH];
    intros device this ps' j rt; simpl.
  - intros [= <- <- <-] _ Hj. discriminate.
  - intros H Halive Hj Hslot. inv_bind H as [[pass' device1] this1] Hp.
    inv_bind H as [[ps'' device2] this2] Hps. injection H as <- <- <-.
    destruct j as [|j]; simpl in Hj.
    + injection Hj as ->.
      destruct (schedulePass_ids _ _ _ _ _ _ _ _ Hp) as [Hids _].
      rewrite Hids in Hslot.
      destruct (schedulePass_attachment _ _ _ _ _ _ _ _ id Hp)
        as (rt0 & Hatt & Hsame & _); [eauto|].
      rewrite (Hsame rt Halive). now apply Hatt.
    + pose proof (schedulePasses_bound_positive _ _ _ _ _ _ _ _ _ _ _ _ Hps Hj Hslot)
        as Hpos.
      destruct (schedulePass_evolves _ _ _ _ _ _ _ _ Hp) as [_ Hkeep].
      destruct (Hkeep id rt Halive Hpos) as (rt' & Hrt' & Hobj).
      rewrite (IH _ _ _ _ _ Hps Hrt' Hj Hslot).
      now destruct (same_object_handles _ _ Hobj) as (-> & _).
Qed.

Lemma schedulePasses_same_attachment (device device' : GfxDevice)
    (graph : SceneGraph) (ps ps' : list SceneGraphPassImpl)
    (presentColorTexture : option GfxTexture) (this this' : Ex) (i j : nat)
    (pi pj : SceneGraphPassImpl) (si sj : RenderTargetAttachmentSlot) (id : nat) :
  SceneGraphExecutor.schedulePasses device graph ps presentColorTexture this
    = OK (ps', device', this') ->
  i <= j ->
  ps' !! i = Some pi -> ps' !! j = Some pj ->
  JsArray.get (renderTargetIDs pi) (slot_index si) = Some id ->
  JsArray.get (renderTargetIDs pj) (slot_index sj) = Some id ->
  exists att,
    slot_attachment si (descriptor pi) = Some att /\
    slot_attachment sj (descriptor pj) = Some att.
Proof.
  revert device this ps' i j. induction ps as [|pass ps IH];
    intros device this ps' i j; simpl.
  - intros [= <- <- <-] _ Hi. discriminate.
  - intros H Hij Hi Hj Hsi Hsj. inv_bind H as [[pass' device1] this1] Hp.
    inv_bind H as [[ps'' device2] this2] Hps. injection H as <- <- <-.
    destruct i as [|i]; simpl in Hi.
    + injection Hi as ->.
      destruct (schedulePass_ids _ _ _ _ _ _ _ _ Hp) as [Hids _].
      rewrite Hids in Hsi.
      destruct (schedulePass_attachment _ _ _ _ _ _ _ _ id Hp)
        as (rt0 & Hatt & _ & Hafter & _); [eauto|].
      exists (RenderTarget.attachment rt0). split; [now apply Hatt|].
      destruct j as [|j]; simpl in Hj.
      * injection Hj as ->. rewrite Hids in Hsj. now apply Hatt.
      * pose proof (schedulePasses_bound_positive _ _ _ _ _ _ _ _ _ _ _ _ Hps Hj Hsj)
          as Hpos.
        destruct (Hafter Hpos) as (rt' & Hrt' & Hobj).
        rewrite (schedulePasses_alive_attachment _ _ _ _ _ _ _ _ _ _ _ _ _
                   Hps Hrt' Hj Hsj).
        now destruct (same_object_handles _ _ Hobj) as (-> & _).
    + destruct j as [|j]; [lia|]. simpl in Hj.
      apply (IH _ _ _ i j Hps); [lia | assumption..].
Qed.

Lemma released_by_zero (f : nat -> nat) (a a' : list (option jsnum)) (i : nat) (z : Z) :
  released_by f a a' -> count_is a i z -> (0 < z)%Z -> ~ positive a' i ->
  count_is a' i 0.
Proof.
  intros [_ H] Hz Hpos Hnot. destruct (H i) as [[Hf Hsame]|(y & Hy & Hle & Hy')].
  - exfalso. apply Hnot. exists z. unfold count_is in *. rewrite Hsame. auto.
  - pose proof (count_is_inj _ _ _ _ Hz Hy) as <-.
    destruct (decide (z - Z.of_nat (f i) = 0)%Z) as [E|E]; [now rewrite E in Hy'|].
    exfalso. apply Hnot. exists (z - Z.of_nat (f i))%Z. split; [exact Hy' | lia].
Qed.

Lemma releaseRenderTargetForID_last (id : nat) (this : Ex) (rt : RenderTarget.t) :
  count_is (rtUC this) id 1 ->
  JsArray.get (rtAlive this) id = Some rt ->
  exists this',
    SceneGraphExecutor.releaseRenderTargetForID (Some id) this = OK this' /\
    count_is (rtUC this') id 0 /\
    JsArray.get (rtAlive this') id = None /\
    rtPool this' = rtPool this ++ [RenderTarget.with_needsClear true rt].
Proof.
  intros Hz Halive. unfold SceneGraphExecutor.releaseRenderTargetForID.
  assert (jsnum_gt0 (JsArray.get (rtUC this) id) = true) as ->
    by (apply jsnum_gt0_count; exists 1%Z; split; [exact Hz | lia]).
  cbn [assert rbind rtUC SceneGraphExecutor.with_renderTargetUseCount].
  pose proof (decr_at_eq _ _ _ Hz) as Hz'. cbn in Hz'. unfold count_is in Hz'.
  rewrite Hz'. cbn [jsnum_is0 Z.eqb rtAlive SceneGraphExecutor.with_renderTargetUseCount].
  rewrite Halive. cbn [assertExists rbind]. eexists. split; [reflexivity|].
  cbn. repeat split; [exact Hz' | apply get_delete_eq].
Qed.

(** C9.  Within the allocation/release pass, any two passes that bind
    the same surface id render to the same physical attachment; a surface
    that is checked out beforehand serves every pass that binds its id;
    across the passes a checked-out surface either stays in the alive
    table as the same physical object or its use-count has reached zero
    and its id is vacant; and the release that brings the count to zero
    is what vacates the id and returns the object to the dead pool. *)
Theorem one_render_target_per_surface (device device' : GfxDevice)
    (graph : SceneGraph) (ps ps' : list SceneGraphPassImpl)
    (presentColorTexture : option GfxTexture)
    (this this' : SceneGraphExecutor.t) :
  SceneGraphExecutor.schedulePasses device graph ps presentColorTexture this
    = OK (ps', device', this') ->
  (forall i j pi pj si sj id,
     ps' !! i = Some pi -> ps' !! j = Some pj ->
     JsArray.get (renderTargetIDs pi) (slot_index si) = Some id ->
     JsArray.get (renderTargetIDs pj) (slot_index sj) = Some id ->
     exists att,
       slot_attachment si (descriptor pi) = Some att /\
       slot_attachment sj (descriptor pj) = Some att)
  /\
  (forall id rt j pj sj,
     JsArray.get (SceneGraphExecutor.renderTargetAliveForID this) id = Some rt ->
     ps' !! j = Some pj ->
     JsArray.get (renderTargetIDs pj) (slot_index sj) = Some id ->
     slot_attachment sj (descriptor pj) = Some (RenderTarget.attachment rt))
  /\
  (alive_counted this ->
   forall id rt,
     JsArray.get (SceneGraphExecutor.renderTargetAliveForID this) id = Some rt ->
     (exists rt',
         JsArray.get (SceneGraphExecutor.renderTargetAliveForID this') id = Some rt' /\
         same_object rt rt')
     \/ (count_is (SceneGraphExecutor.renderTargetUseCount this') id 0 /\
         JsArray.get (SceneGraphExecutor.renderTargetAliveForID this') id = None))
  /\
  (forall (held : SceneGraphExecutor.t) id rt,
     count_is (SceneGraphExecutor.renderTargetUseCount held) id 1 ->
     JsArray.get (SceneGraphExecutor.renderTargetAliveForID held) id = Some rt ->
     exists held',
       SceneGraphExecutor.releaseRenderTargetForID (Some id) held = OK held' /\
       count_is (SceneGraphExecutor.renderTargetUseCount held') id 0 /\
       JsArray.get (SceneGraphExecutor.renderTargetAliveForID held') id = None /\
       SceneGraphExecutor.renderTargetDeadPool held'
         = SceneGraphExecutor.renderTargetDeadPool held
           ++ [RenderTarget.with_needsClear true rt]).
Proof.
  intros H. split; [|split; [|split]].
  - intros i j pi pj si sj id Hi Hj Hsi Hsj.
    destruct (le_ge_dec i j) as [Hij|Hji].
    + now apply (schedulePasses_same_attachment _ _ _ _ _ _ _ _ i j pi pj si sj id H).
    + destruct (schedulePasses_same_attachment _ _ _ _ _ _ _ _ j i pj pi sj si id H)
        as (att & H1 & H2); try assumption; eauto.
  - intros id rt j pj sj Halive Hj Hsj.
    now apply (schedulePasses_alive_attachment _ _ _ _ _ _ _ _ j pj sj id rt H).
  - intros Hinv id rt Halive.
    destruct (schedulePasses_counts _ _ _ _ _ _ _ _ H) as (R1 & _ & Hinv').
    destruct (schedulePasses_evolves _ _ _ _ _ _ _ _ H) as [_ Hkeep].
    destruct (Hinv id rt Halive) as (z & Hz & Hpos).
    destruct (JsArray.get (rtAlive this') id) as [rt'|] eqn:Hrt'.
    + left. pose proof (Hinv' Hinv id rt' Hrt') as Hpos'.
      destruct (Hkeep id rt Halive Hpos') as (rt'' & Hrt'' & Hobj).
      exists rt'. split; [reflexivity|]. congruence.
    + right. split; [|reflexivity].
      apply (released_by_zero _ _ _ _ _ R1 Hz Hpos). intros Hpos'.
      destruct (Hkeep id rt Halive Hpos') as (rt'' & Hrt'' & _). congruence.
  - intros held id rt. apply releaseRenderTargetForID_last.
Qed.

(** * The clear flag *)

Lemma RenderTarget_new_fresh (device device' : GfxDevice)
    (desc : RenderTargetDescription) (rt : RenderTarget.t) :
  RenderTarget.new device desc = OK (rt, device') ->
  RenderTarget.needsClear rt = true /\
  RenderTarget.matchesDescription rt desc = true /\
  (RenderTarget.texture rt = None <-> (1 < RenderTarget.numSamples rt)%Z) /\
  RenderTarget.age rt = 0.
Proof.
  unfold RenderTarget.new. intros H. inv_bind H as [] Hge.
  assert (forall (rt0 : RenderTarget.t),
            RenderTarget.pixelFormat rt0 = desc_pixelFormat desc ->
            RenderTarget.width rt0 = desc_width desc ->
            RenderTarget.height rt0 = desc_height desc ->
            RenderTarget.numSamples rt0 = desc_numSamples desc ->
            RenderTarget.matchesDescription rt0 desc = true) as Hm.
  { intros rt0 E1 E2 E3 E4. unfold RenderTarget.matchesDescription.
    now rewrite !bool_decide_eq_true_2. }
  destruct (1 <? desc_numSamples desc)%Z eqn:Hms.
  - destruct (createAttachment device) as [att device1]. injection H as <- <-.
    cbn. apply Z.ltb_lt in Hms. repeat split; auto.
  - destruct (createTexture device) as [tex device1].
    destruct (createAttachmentFromTexture device1 tex) as [att device2].
    injection H as <- <-. cbn. apply Z.ltb_ge in Hms.
    repeat split; auto; [discriminate | lia].
Qed.

Lemma acquireRenderTargetForDescription_clear (device device' : GfxDevice)
    (desc : RenderTargetDescription) (this this' : Ex) (rt : RenderTarget.t) :
  SceneGraphExecutor.acquireRenderTargetForDescription device desc this
    = OK (rt, device', this') ->
  pool_clear this ->
  RenderTarget.needsClear rt = true /\ pool_clear this' /\
  rtAlive this' = rtAlive this.
Proof.
  intros H Hpool. apply acquireRenderTargetForDescription_inv in H as [H|H].
  - destruct H as (free & pool' & Htake & -> & _ & ->).
    apply pool_take_Some in Htake as (before & after & Hsplit & -> & _ & _).
    cbn. repeat split.
    + apply Hpool. rewrite Hsplit. rewrite elem_of_app, elem_of_cons. auto.
    + intros rt Hrt. cbn in Hrt. apply Hpool. rewrite Hsplit.
      rewrite elem_of_app, elem_of_cons. apply elem_of_app in Hrt. tauto.
  - destruct H as (_ & Hnew & ->). apply RenderTarget_new_fresh in Hnew as (Hc & _).
    auto.
Qed.

Lemma acquireRenderTargetForID_clear (device device' : GfxDevice) (graph : SceneGraph)
    (id : nat) (this this' : Ex) (acquired : option RenderTarget.t) :
  SceneGraphExecutor.acquireRenderTargetForID device graph (Some id) this
    = OK (acquired, device', this') ->
  pool_clear this ->
  pool_clear this' /\
  exists rt,
    acquired = Some rt /\
    JsArray.get (rtAlive this') id = Some rt /\
    (forall other, other <> id ->
       JsArray.get (rtAlive this') other = JsArray.get (rtAlive this) other) /\
    match JsArray.get (rtAlive this) id with
    | Some rt0 => rt = rt0
    | None => RenderTarget.needsClear rt = true
    end.
Proof.
  intros H Hpool.
  destruct (acquireRenderTargetForID_alive _ _ _ _ _ _ _ H)
    as (rt & -> & Hid & Hother & Hsame).
  apply acquireRenderTargetForID_inv in H as [_ [H|H]].
  - destruct H as (rt0 & Hrt0 & [= ->] & _ & ->). split; [exact Hpool|].
    exists rt0. rewrite Hrt0. auto.
  - destruct H as (desc & rt1 & this1 & Hnone & _ & Hacq & [= ->] & ->).
    destruct (acquireRenderTargetForDescription_clear _ _ _ _ _ _ Hacq Hpool)
      as (Hc & Hpool1 & _).
    split; [exact Hpool1|]. exists rt1. rewrite Hnone. auto.
Qed.

Lemma clearValue_inv {A} (graph : SceneGraph) (id : nat) (rt : RenderTarget.t)
    (f : RenderTargetDescription -> clear A) (v : clear A) :
  SceneGraphExecutor.clearValue graph (Some id) (Some rt) f = OK v ->
  if RenderTarget.needsClear rt
  then exists desc, renderTargetDescriptions graph !! id = Some desc /\ v = f desc
  else v = Load.
Proof.
  unfold SceneGraphExecutor.clearValue, SceneGraphExecutor.description_at.
  destruct (RenderTarget.needsClear rt).
  - destruct (renderTargetDescriptions graph !! id) as [desc|]; [|discriminate].
    intros [= <-]. eauto.
  - now intros [= <-].
Qed.

Lemma clearValue_unbound {A} (graph : SceneGraph)
    (acquired : option RenderTarget.t)
    (f : RenderTargetDescription -> clear A) (v : clear A) :
  SceneGraphExecutor.clearValue graph None acquired f = OK v -> v = Load.
Proof.
  unfold SceneGraphExecutor.clearValue. destruct acquired; now intros [= <-].
Qed.

Lemma releaseRenderTargetForID_clear (o : option nat) (P : nat -> Prop)
    (this this' : Ex) :
  SceneGraphExecutor.releaseRenderTargetForID o this = OK this' ->
  (pool_clear this -> pool_clear this') /\
  (alive_clean_except P this -> alive_clean_except P this').
Proof.
  destruct o as [id|]; [|intros [= <-]; auto].
  intros H. apply releaseRenderTargetForID_inv in H as (z & Hz & Hpos & H).
  cbn zeta in H. destruct (z =? 1)%Z.
  - destruct H as (rt & Hrt & ->). split.
    + intros Hpool x Hx. cbn in Hx. apply elem_of_app in Hx as [Hx|Hx]; [auto|].
      apply list_elem_of_singleton in Hx. now subst x.
    + intros Hclean r x Hx. cbn in Hx.
      destruct (decide (id = r)) as [->|Hne].
      * now rewrite get_delete_eq in Hx.
      * rewrite get_delete_ne in Hx by assumption. now apply Hclean.
  - subst this'. split; auto.
Qed.

Lemma acquireInputTextures_clear (graph : SceneGraph) (ids : list nat) (i : nat)
    (P : nat -> Prop) (textures textures' : list (option GfxTexture))
    (this this' : Ex) :
  SceneGraphExecutor.acquireInputTextures graph ids i textures this
    = OK (textures', this') ->
  (pool_clear this -> pool_clear this') /\
  (alive_clean_except P this -> alive_clean_except P this').
Proof.
  revert i textures this. induction ids as [|c ids IH]; intros i textures this; simpl.
  - intros [= <- <-]. auto.
  - intros H. inv_bind H as [tex this1] Hacq.
    apply acquireResolveTextureInputTextureForID_inv in Hacq as [Hrel _].
    destruct (releaseRenderTargetForID_clear _ P _ _ Hrel) as [A1 A2].
    destruct (IH _ _ _ H) as [B1 B2]. auto.
Qed.

Lemma releaseRenderTargets_clear (ids : list (option nat)) (P : nat -> Prop)
    (this this' : Ex) :
  SceneGraphExecutor.releaseRenderTargets ids this = OK this' ->
  (pool_clear this -> pool_clear this') /\
  (alive_clean_except P this -> alive_clean_except P this').
Proof.
  revert this. induction ids as [|c ids IH]; intros this; simpl.
  - intros [= <-]. auto.
  - intros H. inv_bind H as this1 Hrel.
    destruct (releaseRenderTargetForID_clear _ P _ _ Hrel) as [A1 A2].
    destruct (IH _ H) as [B1 B2]. auto.
Qed.

Lemma clean_frame (P : nat -> Prop) (this this' : Ex) :
  rtAlive this' = rtAlive this -> rtPool this' = rtPool this ->
  (pool_clear this -> pool_clear this') /\
  (alive_clean_except P this -> alive_clean_except P this').
Proof.
  unfold pool_clear, alive_clean_except. intros -> ->. auto.
Qed.

Lemma markCleared_clean (o1 o2 : option nat) (this : Ex) :
  alive_clean_except (fun id => o1 = Some id \/ o2 = Some id) this ->
  alive_clean (SceneGraphExecutor.markCleared o2 (SceneGraphExecutor.markCleared o1 this)).
Proof.
  intros Hclean id rt Hrt _. rewrite !markCleared_alive in Hrt.
  destruct (bool_decide (o2 = Some id)) eqn:H2.
  - destruct (bool_decide (o1 = Some id));
      destruct (JsArray.get (rtAlive this) id); cbn in Hrt; try discriminate;
      now injection Hrt as <-.
  - apply bool_decide_eq_false in H2.
    destruct (bool_decide (o1 = Some id)) eqn:H1.
    + destruct (JsArray.get (rtAlive this) id); cbn in Hrt; try discriminate.
      now injection Hrt as <-.
    + apply bool_decide_eq_false in H1. apply (Hclean id rt Hrt). tauto.
Qed.

(* the flag of the render target a slot acquires: set exactly when the
   surface id was not checked out when the pass began *)
Lemma schedulePass_acquired_flags (device device1 device2 : GfxDevice)
    (graph : SceneGraph) (o1 o2 : option nat) (this this1 this2 : Ex)
    (color0 depthStencil : option RenderTarget.t) :
  SceneGraphExecutor.acquireRenderTargetForID device graph o1 this
    = OK (color0, device1, this1) ->
  SceneGraphExecutor.acquireRenderTargetForID device1 graph o2 this1
    = OK (depthStencil, device2, this2) ->
  pool_clear this -> alive_clean this ->
  pool_clear this2 /\
  alive_clean_except (fun id => o1 = Some id \/ o2 = Some id) this2 /\
  (forall id, o1 = Some id ->
     exists rt, color0 = Some rt /\
       RenderTarget.needsClear rt
       = SceneGraphExecutor.is_undefined (JsArray.get (rtAlive this) id)) /\
  (forall id, o2 = Some id ->
     exists rt, depthStencil = Some rt /\
       RenderTarget.needsClear rt
       = SceneGraphExecutor.is_undefined (JsArray.get (rtAlive this) id)).
Proof.
  intros H1 H3 Hpool Hclean.
  assert (pool_clear this1 /\
          (forall id, o1 <> Some id ->
             JsArray.get (rtAlive this1) id = JsArray.get (rtAlive this) id) /\
          (forall id, o1 = Some id ->
             exists rt, color0 = Some rt /\
               JsArray.get (rtAlive this1) id = Some rt /\
               RenderTarget.needsClear rt
               = SceneGraphExecutor.is_undefined (JsArray.get (rtAlive this) id)))
    as (Hpool1 & Hother1 & Hflag1).
  { destruct o1 as [id0|].
    - destruct (acquireRenderTargetForID_clear _ _ _ _ _ _ _ H1 Hpool)
        as (Hp & rt & -> & Hid & Hother & Hcase).
      split; [exact Hp|]. split.
      + intros id Hne. apply Hother. congruence.
      + intros id [= <-]. exists rt. split; [reflexivity|]. split; [exact Hid|].
        destruct (JsArray.get (rtAlive this) id0) as [rt0|] eqn:Hrt0; cbn.
        * subst rt. apply (Hclean id0 rt0 Hrt0). tauto.
        * exact Hcase.
    - injection H1 as <- <- <-. split; [exact Hpool|]. split; [auto|].
      intros id Hid. discriminate. }
  destruct o2 as [idd|].
  - destruct (acquireRenderTargetForID_clear _ _ _ _ _ _ _ H3 Hpool1)
      as (Hp & rt & -> & Hid & Hother & Hcase).
    split; [exact Hp|]. split; [|split; [|]].
    + intros id x Hx Hnot.
      assert (id <> idd) as Hne by (intros ->; tauto).
      rewrite (Hother id Hne) in Hx.
      rewrite Hother1 in Hx by tauto. apply (Hclean id x Hx). tauto.
    + intros id Hid0. destruct (Hflag1 id Hid0) as (rtc & Hc & _ & Hf). eauto.
    + intros id [= <-]. exists rt. split; [reflexivity|].
      destruct (decide (o1 = Some idd)) as [Hsame|Hdiff].
      * destruct (Hflag1 idd Hsame) as (rtc & _ & Hrtc & Hf).
        rewrite Hrtc in Hcase. now subst rt.
      * rewrite (Hother1 idd Hdiff) in Hcase.
        destruct (JsArray.get (rtAlive this) idd) as [rt0|] eqn:Hrt0; cbn.
        -- subst rt. apply (Hclean idd rt0 Hrt0). tauto.
        -- exact Hcase.
  - injection H3 as <- <- <-. split; [exact Hpool1|]. split; [|split].
    + intros id x Hx Hnot. rewrite Hother1 in Hx by tauto.
      apply (Hclean id x Hx). tauto.
    + intros id Hid0. destruct (Hflag1 id Hid0) as (rtc & Hc & _ & Hf). eauto.
    + intros id Hid. discriminate.
Qed.

Lemma schedulePass_clear (device device' : GfxDevice) (graph : SceneGraph)
    (pass pass' : SceneGraphPassImpl) (presentColorTexture : option GfxTexture)
    (this this' : Ex) :
  SceneGraphExecutor.schedulePass device graph pass presentColorTexture this
    = OK (pass', device', this') ->
  pool_clear this -> alive_clean this ->
  (pool_clear this' /\ alive_clean this') /\
  (forall id,
     JsArray.get (renderTargetIDs pass) (slot_index Color0) = Some id ->
     if SceneGraphExecutor.is_undefined (JsArray.get (rtAlive this) id)
     then exists desc,
            renderTargetDescriptions graph !! id = Some desc /\
            colorClearColor (descriptor pass') = desc_colorClearColor desc
     else colorClearColor (descriptor pass') = Load) /\
  (forall id,
     JsArray.get (renderTargetIDs pass) (slot_index DepthStencil) = Some id ->
     if SceneGraphExecutor.is_undefined (JsArray.get (rtAlive this) id)
     then exists desc,
            renderTargetDescriptions graph !! id = Some desc /\
            depthClearValue (descriptor pass') = desc_depthClearValue desc /\
            stencilClearValue (descriptor pass') = desc_stencilClearValue desc
     else depthClearValue (descriptor pass') = Load /\
          stencilClearValue (descriptor pass') = Load) /\
  (JsArray.get (renderTargetIDs pass) (slot_index Color0) = None ->
   colorClearColor (descriptor pass') = Load) /\
  (JsArray.get (renderTargetIDs pass) (slot_index DepthStencil) = None ->
   depthClearValue (descriptor pass') = Load /\
   stencilClearValue (descriptor pass') = Load).
Proof.
  intros H Hpool Hclean. apply schedulePass_inv in H. cbn zeta in H.
  destruct H as (color0 & device1 & this1 & colorClear & depthStencil & device2
                 & this2 & depthClear & stencilClear & colorResolve & device3
                 & this3 & depthResolve & this4 & textures & this7 & this8
                 & H1 & H2 & H3 & H4 & H5 & H6 & H7 & _ & H9 & H10 & H11
                 & _ & _ & _ & Hdesc).
  cbn [slot_index]. rewrite Hdesc.
  cbn [colorClearColor depthClearValue stencilClearValue].
  destruct (schedulePass_acquired_flags _ _ _ _ _ _ _ _ _ _ _ H1 H3 Hpool Hclean)
    as (Hpool2 & Hclean2 & Hcolor & Hdepth).
  split; [|split; [|split; [|split]]].
  - destruct (colorResolve_frame _ _ _ _ _ _ _ _ _ H6) as (_ & _ & Ha3 & Hp3).
    destruct (acquireResolveTextureOutputForID_frame _ _ _ _ _ _ _ _ H7)
      as (_ & _ & Ha4 & Hp4).
    destruct (clean_frame (fun id => JsArray.get (renderTargetIDs pass) 0 = Some id
                                     \/ JsArray.get (renderTargetIDs pass) 1 = Some id)
                this2 this4) as [P4 C4]; [congruence | congruence |].
    pose proof (markCleared_clean _ _ _ (C4 Hclean2)) as Hclean6.
    set (this6 := SceneGraphExecutor.markCleared _ (SceneGraphExecutor.markCleared _ this4))
      in *.
    assert (pool_clear this6) as Hpool6.
    { intros rt Hrt. apply (P4 Hpool2). unfold this6 in Hrt.
      destruct (markCleared_frame (JsArray.get (renderTargetIDs pass) 1)
                  (SceneGraphExecutor.markCleared
                     (JsArray.get (renderTargetIDs pass) 0) this4))
        as (_ & _ & _ & _ & E6).
      destruct (markCleared_frame (JsArray.get (renderTargetIDs pass) 0) this4)
        as (_ & _ & _ & _ & E5).
      rewrite E6, E5 in Hrt. exact Hrt. }
    destruct (acquireInputTextures_clear _ _ _ (fun _ => False) _ _ _ _ H9) as [P7 C7].
    destruct (releaseRenderTargets_clear _ (fun _ => False) _ _ H10) as [P8 C8].
    destruct (releaseResolveTextureInputs_counts _ _ _ H11) as (_ & _ & Ha9 & _ & Hp9).
    destruct (clean_frame (fun _ => False) this8 this' Ha9 Hp9) as [P9 C9].
    split; [apply P9, P8, P7, Hpool6 | apply C9, C8, C7, Hclean6].
  - intros id Hid. destruct (Hcolor id Hid) as (rt & -> & Hflag).
    rewrite Hid in H2. apply clearValue_inv in H2. rewrite Hflag in H2. exact H2.
  - intros id Hid. destruct (Hdepth id Hid) as (rt & -> & Hflag).
    rewrite Hid in H4, H5. apply clearValue_inv in H4, H5. rewrite Hflag in H4, H5.
    destruct (SceneGraphExecutor.is_undefined (JsArray.get (rtAlive this) id)).
    + destruct H4 as (desc & Hd & ->). destruct H5 as (desc' & Hd' & ->).
      exists desc. split; [exact Hd|]. split; [reflexivity | congruence].
    + auto.
  - intros Hnone. rewrite Hnone in H2. now apply clearValue_unbound in H2.
  - intros Hnone. rewrite Hnone in H4, H5.
    apply clearValue_unbound in H4, H5. auto.
Qed.

Lemma schedulePasses_clear (device device' : GfxDevice) (graph : SceneGraph)
    (ps ps' : list SceneGraphPassImpl) (presentColorTexture : option GfxTexture)
    (this this' : Ex) :
  SceneGraphExecutor.schedulePasses device graph ps presentColorTexture this
    = OK (ps', device', this') ->
  pool_clear this -> alive_clean this ->
  pool_clear this' /\ alive_clean this'.
Proof.
  revert device this ps'. induction ps as [|pass ps IH]; intros device this ps'; simpl.
  - intros [= <- <- <-]. auto.
  - intros H Hpool Hclean. inv_bind H as [[pass' device1] this1] Hp.
    inv_bind H as [[ps'' device2] this2] Hps. injection H as <- <- <-.
    destruct (schedulePass_clear _ _ _ _ _ _ _ _ Hp Hpool Hclean) as ((P1 & C1) & _).
    now apply (IH _ _ _ Hps).
Qed.

Lemma afterPassA_clear (graph : SceneGraph) (this : Ex) :
  pool_clear this -> alive_clean this ->
  pool_clear (afterPassA graph this) /\ alive_clean (afterPassA graph this).
Proof.
  intros Hpool Hclean.
  destruct (afterPassA_pools graph this) as [Hp _].
  destruct (afterPassA_frame graph this) as [Ha _]. split.
  - intros rt Hrt. rewrite Hp in Hrt. cbn in Hrt.
    apply list_elem_of_In, in_map_iff in Hrt as (rt0 & <- & Hin). cbn.
    now apply Hpool, list_elem_of_In.
  - intros id rt Hrt Hn. rewrite Ha in Hrt. now apply (Hclean id rt).
Qed.

Lemma scheduleGraph_clear (device device' : GfxDevice) (graph graph' : SceneGraph)
    (presentColorTexture : option GfxTexture) (this this' : Ex) :
  SceneGraphExecutor.scheduleGraph device graph presentColorTexture this
    = OK (graph', device', this') ->
  pool_clear this -> alive_clean this ->
  pool_clear this' /\ alive_clean this'.
Proof.
  rewrite scheduleGraph_unfold. intros H Hpool Hclean.
  inv_bind H as [] Ha1. inv_bind H as [] Ha2.
  inv_bind H as [[ps device1] this4] Hps. inv_bind H as [] Hcheck.
  rewrite sweepPools_spec in H. injection H as <- <- <-.
  destruct (afterPassA_clear graph this Hpool Hclean) as [P3 C3].
  destruct (schedulePasses_clear _ _ _ _ _ _ _ _ Hps P3 C3) as [P4 C4]. split.
  - intros rt Hrt. cbn in Hrt. apply list_elem_of_filter in Hrt as [_ Hrt]. auto.
  - intros id rt Hrt Hn. cbn in Hrt. now apply (C4 id rt).
Qed.

(** C5.  Pooled render targets carry [needsClear = true] and checked-out
    ones, between passes, [needsClear = false]; both facts hold for a
    new executor and are kept by every scheduled pass and every
    scheduled graph.  Hence the pass that binds a surface id which is not
    checked out (the first to touch it since its count last reached zero)
    gets the description's clear values for color, depth and stencil in
    its descriptor, and a pass that binds an id that is still checked out
    gets 'load'. *)
Theorem needsClear_on_first_touch (device device' : GfxDevice) (graph : SceneGraph)
    (pass pass' : SceneGraphPassImpl) (presentColorTexture : option GfxTexture)
    (this this' : SceneGraphExecutor.t) :
  SceneGraphExecutor.schedulePass device graph pass presentColorTexture this
    = OK (pass', device', this') ->
  pool_clear this -> alive_clean this ->
  (pool_clear this' /\ alive_clean this') /\
  (forall id,
     JsArray.get (renderTargetIDs pass) (slot_index Color0) = Some id ->
     if SceneGraphExecutor.is_undefined
          (JsArray.get (SceneGraphExecutor.renderTargetAliveForID this) id)
     then exists desc,
            renderTargetDescriptions graph !! id = Some desc /\
            colorClearColor (descriptor pass') = desc_colorClearColor desc
     else colorClearColor (descriptor pass') = Load) /\
  (forall id,
     JsArray.get (renderTargetIDs pass) (slot_index DepthStencil) = Some id ->
     if SceneGraphExecutor.is_undefined
          (JsArray.get (SceneGraphExecutor.renderTargetAliveForID this) id)
     then exists desc,
            renderTargetDescriptions graph !! id = Some desc /\
            depthClearValue (descriptor pass') = desc_depthClearValue desc /\
            stencilClearValue (descriptor pass') = desc_stencilClearValue desc
     else depthClearValue (descriptor pass') = Load /\
          stencilClearValue (descriptor pass') = Load) /\
  (pool_clear SceneGraphExecutor.new /\ alive_clean SceneGraphExecutor.new) /\
  (forall device0 device1 graph0 graph1 present0 (before after : SceneGraphExecutor.t),
     SceneGraphExecutor.scheduleGraph device0 graph0 present0 before
       = OK (graph1, device1, after) ->
     pool_clear before -> alive_clean before ->
     pool_clear after /\ alive_clean after).
Proof.
  intros H Hpool Hclean.
  destruct (schedulePass_clear _ _ _ _ _ _ _ _ H Hpool Hclean)
    as (Hinv & Hcolor & Hdepth & _).
  split; [exact Hinv|]. split; [exact Hcolor|]. split; [exact Hdepth|]. split.
  - split; [intros rt Hrt; inversion Hrt | intros id rt Hrt; discriminate].
  - intros device0 device1 graph0 graph1 present0 before after.
    apply scheduleGraph_clear.
Qed.

(** * Resolve textures outlive their use-count *)

Lemma matchesDescription_numSamples (rt : RenderTarget.t)
    (desc : RenderTargetDescription) :
  RenderTarget.matchesDescription rt desc = true ->
  RenderTarget.numSamples rt = desc_numSamples desc.
Proof.
  unfold RenderTarget.matchesDescription. rewrite !andb_true_iff.
  intros (_ & H). now apply bool_decide_eq_true in H.
Qed.

Lemma acquireRenderTargetForDescription_shape (device device' : GfxDevice)
    (desc : RenderTargetDescription) (this this' : Ex) (rt : RenderTarget.t) :
  SceneGraphExecutor.acquireRenderTargetForDescription device desc this
    = OK (rt, device', this') ->
  pool_shape this ->
  texture_backed_iff_single rt /\ RenderTarget.matchesDescription rt desc = true /\
  pool_shape this' /\ rtAlive this' = rtAlive this /\ rsForID this' = rsForID this.
Proof.
  intros H Hpool. apply acquireRenderTargetForDescription_inv in H as [H|H].
  - destruct H as (free & pool' & Htake & -> & _ & ->).
    apply pool_take_Some in Htake as (before & after & Hsplit & -> & Hm & _).
    assert (free ∈ rtPool this) as Hfree
      by (rewrite Hsplit, elem_of_app, elem_of_cons; auto).
    split; [exact (Hpool free Hfree)|]. split; [exact Hm|].
    split; [|split; reflexivity].
    intros x Hx. cbn in Hx. apply Hpool. rewrite Hsplit.
    rewrite elem_of_app, elem_of_cons. apply elem_of_app in Hx. tauto.
  - destruct H as (_ & Hnew & ->).
    apply RenderTarget_new_fresh in Hnew as (_ & Hm & Hok & _). auto.
Qed.

Lemma acquireRenderTargetForID_shape (device device' : GfxDevice) (graph : SceneGraph)
    (o : option nat) (this this' : Ex) (acquired : option RenderTarget.t) :
  SceneGraphExecutor.acquireRenderTargetForID device graph o this
    = OK (acquired, device', this') ->
  pool_shape this -> alive_shape graph this ->
  pool_shape this' /\ alive_shape graph this' /\ rsForID this' = rsForID this.
Proof.
  destruct o as [id|]; [|intros [= <- <- <-]; auto].
  intros H Hpool Halive. apply acquireRenderTargetForID_inv in H as [_ [H|H]].
  - destruct H as (rt0 & _ & _ & _ & ->). auto.
  - destruct H as (desc & rt & this1 & Hnone & Hdesc & Hacq & _ & ->).
    destruct (acquireRenderTargetForDescription_shape _ _ _ _ _ _ Hacq Hpool)
      as (Hok & Hm & Hpool1 & Ha & Hf).
    split; [exact Hpool1|]. split; [|exact Hf].
    intros r x Hx. cbn in Hx. rewrite Ha in Hx.
    destruct (decide (id = r)) as [<-|Hne].
    + rewrite get_set_eq in Hx. injection Hx as <-. eauto.
    + rewrite get_set_ne in Hx by assumption. now apply Halive.
Qed.

Lemma acquireResolveTextureOutputForID_shape (device device' : GfxDevice)
    (graph : SceneGraph) (src o : option nat) (this this' : Ex)
    (out : option GfxTexture) :
  SceneGraphExecutor.acquireResolveTextureOutputForID device graph src o this
    = OK (out, device', this') ->
  alive_shape graph this -> table_shape graph this ->
  table_shape graph this' /\ table_kept this this'.
Proof.
  destruct o as [id|]; [|intros [= <- <- <-]; unfold table_kept; auto].
  intros H Halive Htable. apply acquireResolveTextureOutputForID_inv in H
    as (Hsrc & _ & rt & Hrt & [H|[H|H]]).
  - destruct H as (_ & _ & _ & ->). unfold table_kept. auto.
  - destruct H as (_ & rtex & _ & _ & _ & ->). unfold table_kept. auto.
  - destruct H as (Htex & Hnone & surface & desc & rtex & this1 & -> & Hdesc
                   & Hacq & _ & ->).
    assert (rsForID this1 = rsForID this) as Hf.
    { apply acquireResolveTextureForDescription_inv in Hacq as [H|H].
      - destruct H as (free & pool' & _ & _ & _ & ->). auto.
      - destruct H as (_ & _ & ->). auto. }
    cbn [SceneGraphExecutor.at_id] in Hrt.
    destruct (Halive surface rt Hrt) as (Hok & desc' & Hdesc' & Hm).
    assert (desc' = desc) as -> by congruence.
    split.
    + intros c x Hx. cbn in Hx. rewrite Hf in Hx.
      destruct (decide (id = c)) as [<-|Hne].
      * exists surface, desc. split; [now symmetry|]. split; [exact Hdesc|].
        rewrite <- (matchesDescription_numSamples _ _ Hm). now apply Hok.
      * rewrite get_set_ne in Hx by assumption. now apply Htable with x.
    + intros c x Hx. cbn. rewrite Hf.
      destruct (decide (id = c)) as [<-|Hne]; [congruence|].
      now rewrite get_set_ne.
Qed.

Lemma shape_frame (graph : SceneGraph) (this this' : Ex) :
  rtAlive this' = rtAlive this -> rtPool this' = rtPool this ->
  (pool_shape this -> pool_shape this') /\
  (alive_shape graph this -> alive_shape graph this').
Proof. unfold pool_shape, alive_shape. intros -> ->. auto. Qed.

Lemma table_frame (graph : SceneGraph) (this this' : Ex) :
  rsForID this' = rsForID this ->
  (table_shape graph this -> table_shape graph this') /\ table_kept this this'.
Proof. unfold table_shape, table_kept. intros ->. auto. Qed.

Lemma table_kept_trans (this this' this'' : Ex) :
  table_kept this this' -> table_kept this' this'' -> table_kept this this''.
Proof. unfold table_kept. auto. Qed.

Lemma markCleared_shape (graph : SceneGraph) (o : option nat) (this : Ex) :
  pool_shape this -> alive_shape graph this ->
  pool_shape (SceneGraphExecutor.markCleared o this) /\
  alive_shape graph (SceneGraphExecutor.markCleared o this).
Proof.
  intros Hpool Halive. destruct (markCleared_frame o this) as (_ & _ & _ & _ & Hp).
  split.
  - intros rt Hrt. rewrite Hp in Hrt. now apply Hpool.
  - intros id rt Hrt. rewrite markCleared_alive in Hrt.
    destruct (bool_decide (o = Some id)); [|now apply Halive].
    destruct (JsArray.get (rtAlive this) id) as [rt0|] eqn:Hrt0; [|discriminate].
    cbn in Hrt. injection Hrt as <-. exact (Halive id rt0 Hrt0).
Qed.

Lemma releaseRenderTargetForID_shape (graph : SceneGraph) (o : option nat)
    (this this' : Ex) :
  SceneGraphExecutor.releaseRenderTargetForID o this = OK this' ->
  pool_shape this -> alive_shape graph this ->
  pool_shape this' /\ alive_shape graph this'.
Proof.
  destruct o as [id|]; [|intros [= <-]; auto].
  intros H Hpool Halive. apply releaseRenderTargetForID_inv in H as (z & Hz & Hpos & H).
  cbn zeta in H. destruct (z =? 1)%Z.
  - destruct H as (rt & Hrt & ->). split.
    + intros x Hx. cbn in Hx. apply elem_of_app in Hx as [Hx|Hx]; [auto|].
      apply list_elem_of_singleton in Hx. subst x.
      exact (proj1 (Halive id rt Hrt)).
    + intros r x Hx. cbn in Hx. destruct (decide (id = r)) as [->|Hne].
      * now rewrite get_delete_eq in Hx.
      * rewrite get_delete_ne in Hx by assumption. now apply Halive.
  - subst this'. auto.
Qed.

Lemma releaseRenderTargets_shape (graph : SceneGraph) (ids : list (option nat))
    (this this' : Ex) :
  SceneGraphExecutor.releaseRenderTargets ids this = OK this' ->
  pool_shape this -> alive_shape graph this ->
  pool_shape this' /\ alive_shape graph this'.
Proof.
  revert this. induction ids as [|c ids IH]; intros this; simpl.
  - intros [= <-]. auto.
  - intros H Hpool Halive. inv_bind H as this1 Hrel.
    destruct (releaseRenderTargetForID_shape graph _ _ _ Hrel Hpool Halive).
    now apply (IH this1).
Qed.

Lemma input_texture_of_frame (graph : SceneGraph) (this this' : Ex) (c : nat)
    (tex : GfxTexture) :
  rsForID this' = rsForID this ->
  input_texture_of graph this c tex -> input_texture_of graph this' c tex.
Proof. unfold input_texture_of. now intros ->. Qed.

Lemma acquireResolveTextureInputTextureForID_texture (graph : SceneGraph) (c : nat)
    (this this' : Ex) (tex : GfxTexture) :
  SceneGraphExecutor.acquireResolveTextureInputTextureForID graph c this
    = OK (tex, this') ->
  alive_shape graph this ->
  input_texture_of graph this c tex.
Proof.
  intros H Halive.
  apply acquireResolveTextureInputTextureForID_inv in H as [_ [H|H]].
  - destruct H as (rtex & Hfor & ->). left. eauto.
  - destruct H as (Hnone & rt & Hrt & Htex). right. split; [exact Hnone|].
    destruct (resolveTextureRenderTargetIDs graph !! c) as [id|] eqn:Ho;
      [|discriminate].
    cbn in Hrt. destruct (Halive id rt Hrt) as (Hok & desc & Hdesc & Hm).
    exists id, desc. split; [exact Ho|]. split; [exact Hdesc|].
    rewrite <- (matchesDescription_numSamples _ _ Hm). intros Hms.
    apply Hok in Hms. congruence.
Qed.

Lemma acquireInputTextures_lookup (graph : SceneGraph) (ids : list nat) (i : nat)
    (textures textures' : list (option GfxTexture)) (this this' : Ex) :
  SceneGraphExecutor.acquireInputTextures graph ids i textures this
    = OK (textures', this') ->
  pool_shape this -> alive_shape graph this ->
  (pool_shape this' /\ alive_shape graph this') /\
  (forall j, j < i -> JsArray.get textures' j = JsArray.get textures j) /\
  (forall k c, ids !! k = Some c ->
     exists tex, JsArray.get textures' (i + k) = Some tex /\
                 input_texture_of graph this c tex).
Proof.
  revert i textures this. induction ids as [|c ids IH]; intros i textures this; simpl.
  - intros [= <- <-] Hpool Halive. split; [auto|]. split; [auto|].
    intros k c Hk. discriminate.
  - intros H Hpool Halive. inv_bind H as [tex this1] Hacq.
    pose proof (acquireResolveTextureInputTextureForID_texture _ _ _ _ _ Hacq Halive)
      as Htex.
    apply acquireResolveTextureInputTextureForID_inv in Hacq as [Hrel _].
    destruct (releaseRenderTargetForID_shape graph _ _ _ Hrel Hpool Halive)
      as [Hpool1 Halive1].
    destruct (releaseRenderTargetForID_counts _ _ _ Hrel) as (_ & _ & Hfor & _).
    destruct (IH _ _ _ H Hpool1 Halive1) as (Hshape & Hbelow & Hat).
    split; [exact Hshape|]. split.
    + intros j Hj. rewrite Hbelow by lia. apply get_set_ne. lia.
    + intros [|k] c' Hk; simpl in Hk.
      * injection Hk as <-. exists tex. rewrite Nat.add_0_r.
        rewrite Hbelow by lia. split; [apply get_set_eq | exact Htex].
      * destruct (Hat k c' Hk) as (tex' & Hget & Hof). exists tex'.
        replace (i + S k) with (S i + k) by lia. split; [exact Hget|].
        now apply (input_texture_of_frame graph this1 this c' tex' (eq_sym Hfor)).
Qed.

Lemma lookup_during_spec (pass : SceneGraphPassImpl) (c : nat) :
  c ∈ resolveTextureInputIDs pass ->
  exists i,
    resolveTextureInputIDs pass !! i = Some c /\
    lookup_during pass c
    = assertExists (JsArray.get (resolveTextureInputTextures pass) i).
Proof.
  intros Hin. unfold lookup_during, SceneGraphExecutor.getResolveTextureForID.
  cbn [SceneGraphExecutor.currentGraphPass SceneGraphExecutor.with_currentGraphPass].
  destruct (JsArray.indexOf (Some <$> resolveTextureInputIDs pass) c) as [i|] eqn:Hidx.
  - apply indexOf_Some in Hidx as [Hi _]. exists i. split; [|reflexivity].
    rewrite list_lookup_fmap in Hi.
    destruct (resolveTextureInputIDs pass !! i) as [c'|]; [|discriminate].
    cbn in Hi. congruence.
  - apply indexOf_None in Hidx. exfalso. apply Hidx.
    apply list_elem_of_fmap. eauto.
Qed.

Lemma colorResolve_shape (device device' : GfxDevice) (graph : SceneGraph)
    (pass : SceneGraphPassImpl) (presentColorTexture : option GfxTexture)
    (src : option nat) (this this' : Ex) (out : option GfxTexture) :
  (if doPresent pass then OK (presentColorTexture, device, this)
   else SceneGraphExecutor.acquireResolveTextureOutputForID device graph src
          (JsArray.get (resolveTextureOutputIDs pass) 0) this)
    = OK (out, device', this') ->
  alive_shape graph this -> table_shape graph this ->
  table_shape graph this' /\ table_kept this this'.
Proof.
  destruct (doPresent pass).
  - intros [= <- <- <-]. unfold table_kept. auto.
  - apply acquireResolveTextureOutputForID_shape.
Qed.

Lemma schedulePass_lookup (device device' : GfxDevice) (graph : SceneGraph)
    (pass pass' : SceneGraphPassImpl) (presentColorTexture : option GfxTexture)
    (this this' : Ex) :
  SceneGraphExecutor.schedulePass device graph pass presentColorTexture this
    = OK (pass', device', this') ->
  pool_shape this -> alive_shape graph this -> table_shape graph this ->
  (pool_shape this' /\ alive_shape graph this' /\ table_shape graph this') /\
  table_kept this this' /\
  (forall c, c ∈ resolveTextureInputIDs pass' ->
     exists tex, lookup_during pass' c = OK tex /\
                 input_texture_of graph this' c tex).
Proof.
  intros H Hpool Halive Htable. apply schedulePass_inv in H. cbn zeta in H.
  destruct H as (color0 & device1 & this1 & colorClear & depthStencil & device2
                 & this2 & depthClear & stencilClear & colorResolve & device3
                 & this3 & depthResolve & this4 & textures & this7 & this8
                 & H1 & _ & H3 & _ & _ & H6 & H7 & _ & H9 & H10 & H11
                 & _ & Hin & Htextures & _).
  destruct (acquireRenderTargetForID_shape _ _ _ _ _ _ _ H1 Hpool Halive)
    as (Hpool1 & Halive1 & Hf1).
  destruct (acquireRenderTargetForID_shape _ _ _ _ _ _ _ H3 Hpool1 Halive1)
    as (Hpool2 & Halive2 & Hf2).
  destruct (table_frame graph this this2) as [T2 K2]; [congruence|].
  destruct (colorResolve_frame _ _ _ _ _ _ _ _ _ H6) as (_ & _ & Ha3 & Hp3).
  destruct (shape_frame graph this2 this3 Ha3 Hp3) as [P3 A3].
  destruct (colorResolve_shape _ _ _ _ _ _ _ _ _ H6 Halive2 (T2 Htable)) as [T3 K3].
  destruct (acquireResolveTextureOutputForID_frame _ _ _ _ _ _ _ _ H7)
    as (_ & _ & Ha4 & Hp4).
  destruct (shape_frame graph this3 this4 Ha4 Hp4) as [P4 A4].
  destruct (acquireResolveTextureOutputForID_shape _ _ _ _ _ _ _ _ H7
              (A3 Halive2) T3) as [T4 K4].
  pose proof (rest_of_pass_keeps_resolveTextureForID _ _ _ _ _ _ _ _ _ H9 H10 H11)
    as Hrest.
  destruct (markCleared_shape graph (JsArray.get (renderTargetIDs pass) 0) this4
              (P4 (P3 Hpool2)) (A4 (A3 Halive2))) as [Hpool5 Halive5].
  destruct (markCleared_shape graph (JsArray.get (renderTargetIDs pass) 1) _
              Hpool5 Halive5) as [Hpool6 Halive6].
  destruct (acquireInputTextures_lookup _ _ _ _ _ _ _ H9 Hpool6 Halive6)
    as ((Hpool7 & Halive7) & _ & Hat).
  destruct (releaseRenderTargets_shape graph _ _ _ H10 Hpool7 Halive7)
    as [Hpool8 Halive8].
  destruct (releaseResolveTextureInputs_counts _ _ _ H11) as (_ & _ & Ha9 & _ & Hp9).
  destruct (shape_frame graph this8 this' Ha9 Hp9) as [P9 A9].
  destruct (table_frame graph this4 this' Hrest) as [T9 K9].
  split; [auto|]. split.
  - apply table_kept_trans with this2; [exact K2|].
    apply table_kept_trans with this3; [exact K3|].
    apply table_kept_trans with this4; [exact K4 | exact K9].
  - intros c Hc. destruct (lookup_during_spec pass' c Hc) as (i & Hi & ->).
    rewrite Hin in Hi. rewrite Htextures.
    destruct (Hat i c Hi) as (tex & Hget & Hof). cbn in Hget. rewrite Hget.
    exists tex. split; [reflexivity|].
    apply (input_texture_of_frame graph _ this' c tex) in Hof; [exact Hof|].
    rewrite Hrest.
    destruct (markCleared_frame (JsArray.get (renderTargetIDs pass) 0) this4)
      as (_ & _ & E5 & _).
    destruct (markCleared_frame (JsArray.get (renderTargetIDs pass) 1)
                (SceneGraphExecutor.markCleared
                   (JsArray.get (renderTargetIDs pass) 0) this4))
      as (_ & _ & E6 & _).
    congruence.
Qed.

Lemma single_not_multisampled (graph : SceneGraph) (c : nat) :
  single_sampled_origin graph c -> multisampled_origin graph c -> False.
Proof.
  intros (id & desc & Ho & Hd & Hs) (id' & desc' & Ho' & Hd' & Hm).
  assert (id' = id) as -> by congruence.
  assert (desc' = desc) as -> by congruence. contradiction.
Qed.

Lemma input_texture_of_later (graph : SceneGraph) (this this' : Ex) (c : nat)
    (tex : GfxTexture) :
  table_kept this this' -> table_shape graph this' ->
  input_texture_of graph this c tex -> input_texture_of graph this' c tex.
Proof.
  intros Hkept Hshape [(rtex & Hfor & ->)|[Hnone Hsingle]].
  - left. exists rtex. split; [now apply Hkept | reflexivity].
  - right. split; [|exact Hsingle].
    destruct (JsArray.get (rsForID this') c) as [rtex|] eqn:Hfor; [|reflexivity].
    exfalso. apply (single_not_multisampled graph c Hsingle).
    now apply Hshape with rtex.
Qed.

Lemma schedulePasses_lookup (device device' : GfxDevice) (graph : SceneGraph)
    (ps ps' : list SceneGraphPassImpl) (presentColorTexture : option GfxTexture)
    (this this' : Ex) :
  SceneGraphExecutor.schedulePasses device graph ps presentColorTexture this
    = OK (ps', device', this') ->
  pool_shape this -> alive_shape graph this -> table_shape graph this ->
  (pool_shape this' /\ alive_shape graph this' /\ table_shape graph this') /\
  table_kept this this' /\
  (forall j pj c,
     ps' !! j = Some pj -> c ∈ resolveTextureInputIDs pj ->
     exists tex, lookup_during pj c = OK tex /\
                 input_texture_of graph this' c tex).
Proof.
  revert device this ps'. induction ps as [|pass ps IH]; intros device this ps'; simpl.
  - intros [= <- <- <-] Hpool Halive Htable. split; [auto|].
    split; [unfold table_kept; auto|]. intros j pj c Hj. discriminate.
  - intros H Hpool Halive Htable. inv_bind H as [[pass' device1] this1] Hp.
    inv_bind H as [[ps'' device2] this2] Hps. injection H as <- <- <-.
    destruct (schedulePass_lookup _ _ _ _ _ _ _ _ Hp Hpool Halive Htable)
      as ((Hpool1 & Halive1 & Htable1) & Hkept1 & Hlook1).
    destruct (IH _ _ _ Hps Hpool1 Halive1 Htable1)
      as ((Hpool2 & Halive2 & Htable2) & Hkept2 & Hlook2).
    split; [auto|]. split; [now apply table_kept_trans with this1|].
    intros [|j] pj c Hj Hc; simpl in Hj.
    + injection Hj as <-. destruct (Hlook1 c Hc) as (tex & Hl & Hof).
      exists tex. split; [exact Hl|].
      now apply (input_texture_of_later graph this1 this2).
    + now apply (Hlook2 j pj c).
Qed.

Lemma afterPassA_shape (graph : SceneGraph) (this : Ex) :
  pool_shape this -> alive_empty this -> rsForID this = [] ->
  pool_shape (afterPassA graph this) /\ alive_shape graph (afterPassA graph this)
  /\ table_shape graph (afterPassA graph this).
Proof.
  intros Hpool Hempty Htable.
  destruct (afterPassA_pools graph this) as [Hp _].
  destruct (afterPassA_frame graph this) as [Ha Hf]. split; [|split].
  - intros rt Hrt. rewrite Hp in Hrt. cbn in Hrt.
    apply list_elem_of_In, in_map_iff in Hrt as (rt0 & <- & Hin).
    apply list_elem_of_In in Hin. exact (Hpool rt0 Hin).
  - intros id rt Hrt. rewrite Ha in Hrt.
    rewrite (proj1 (alive_empty_get this) Hempty id) in Hrt. discriminate.
  - intros c rtex Hc. rewrite Hf, Htable in Hc. discriminate.
Qed.

Lemma scheduleGraph_lookup (device device' : GfxDevice) (graph graph' : SceneGraph)
    (presentColorTexture : option GfxTexture) (this this' : Ex) :
  SceneGraphExecutor.scheduleGraph device graph presentColorTexture this
    = OK (graph', device', this') ->
  pool_shape this -> alive_empty this -> rsForID this = [] ->
  rtUC this' = [] /\ rsUC this' = [] /\
  pool_shape this' /\ alive_empty this' /\
  forall j pj c,
    passes graph' !! j = Some pj -> c ∈ resolveTextureInputIDs pj ->
    exists tex, lookup_during pj c = OK tex /\
                input_texture_of graph this' c tex.
Proof.
  rewrite scheduleGraph_unfold. intros H Hpool Hempty Htable.
  inv_bind H as [] Ha1. inv_bind H as [] Ha2.
  inv_bind H as [[ps device1] this4] Hps. inv_bind H as [] Hcheck.
  rewrite sweepPools_spec in H. injection H as <- <- <-.
  destruct (afterPassA_shape graph this Hpool Hempty Htable) as (P3 & A3 & T3).
  destruct (schedulePasses_lookup _ _ _ _ _ _ _ _ Hps P3 A3 T3)
    as ((P4 & A4 & T4) & _ & Hlook).
  apply checkAllReleased_OK in Hcheck as (_ & _ & Hempty4).
  split; [reflexivity|]. split; [reflexivity|]. split; [|split].
  - intros rt Hrt. cbn in Hrt. apply list_elem_of_filter in Hrt as [_ Hrt]. auto.
  - exact Hempty4.
  - intros j pj c Hj Hc. cbn in Hj. destruct (Hlook j pj c Hj Hc) as (tex & Hl & Hof).
    exists tex. split; [exact Hl | exact Hof].
Qed.

Lemma execPass_frame (device device' : GfxDevice) (pass : SceneGraphPassImpl)
    (this this' : Ex) :
  SceneGraphExecutor.execPass device pass this = OK (device', this') ->
  this' = SceneGraphExecutor.with_currentGraphPass None this.
Proof.
  unfold SceneGraphExecutor.execPass. intros H. inv_bind H as [] Hnull.
  inv_bind H as device3 Hf. now injection H as <- <-.
Qed.

Lemma execPasses_frame (device device' : GfxDevice) (ps : list SceneGraphPassImpl)
    (this this' : Ex) :
  SceneGraphExecutor.execPasses device ps this = OK (device', this') ->
  rsForID this' = rsForID this /\ rtPool this' = rtPool this /\
  rsPool this' = rsPool this /\ rtAlive this' = rtAlive this /\
  rtUC this' = rtUC this /\ rsUC this' = rsUC this.
Proof.
  revert device this. induction ps as [|pass ps IH]; intros device this; simpl.
  - intros [= <- <-]. auto 10.
  - intros H. inv_bind H as [device1 this1] Hp. apply execPass_frame in Hp. subst this1.
    apply IH in H. cbn in H. exact H.
Qed.

Lemma releaseResolveTextureInputForID_last (c : nat) (this : Ex)
    (rtex : ResolveTexture.t) :
  count_is (rsUC this) c 1 ->
  JsArray.get (rsForID this) c = Some rtex ->
  exists this',
    SceneGraphExecutor.releaseResolveTextureInputForID (Some c) this = OK this' /\
    count_is (rsUC this') c 0 /\
    rsPool this' = rsPool this ++ [rtex] /\
    rsForID this' = rsForID this.
Proof.
  intros Hz Hfor. unfold SceneGraphExecutor.releaseResolveTextureInputForID.
  assert (jsnum_gt0 (JsArray.get (rsUC this) c) = true) as ->
    by (apply jsnum_gt0_count; exists 1%Z; split; [exact Hz | lia]).
  cbn [assert rbind rsUC SceneGraphExecutor.with_resolveTextureUseCount].
  pose proof (decr_at_eq _ _ _ Hz) as Hz'. cbn in Hz'. unfold count_is in Hz'.
  rewrite Hz'. cbn [jsnum_is0 Z.eqb rsForID SceneGraphExecutor.with_resolveTextureUseCount].
  rewrite Hfor. eexists. split; [reflexivity|]. cbn. auto.
Qed.

(** C10.  The release that brings a copy's use-count to zero appends
    the registered resolve texture to the dead pool and leaves the
    per-copy-id table as it is.  After a graph has been scheduled, when
    all use-counts are gone, a lookup made during the execution of a
    pass that declared the copy id as an input returns the texture of
    the resolve texture still registered for that id.  Executing passes
    does not touch the table; [execGraph] empties it after the last
    pass. *)
Theorem resolve_texture_outlives_its_count :
  (forall (held : SceneGraphExecutor.t) copy rtex,
     count_is (SceneGraphExecutor.resolveTextureUseCount held) copy 1 ->
     JsArray.get (SceneGraphExecutor.resolveTextureForID held) copy = Some rtex ->
     exists held',
       SceneGraphExecutor.releaseResolveTextureInputForID (Some copy) held
         = OK held' /\
       count_is (SceneGraphExecutor.resolveTextureUseCount held') copy 0 /\
       SceneGraphExecutor.resolveTextureDeadPool held'
         = SceneGraphExecutor.resolveTextureDeadPool held ++ [rtex] /\
       SceneGraphExecutor.resolveTextureForID held'
         = SceneGraphExecutor.resolveTextureForID held)
  /\
  (forall device graph presentColorTexture (this : SceneGraphExecutor.t)
          graph' device' this',
     pool_shape this -> alive_empty this ->
     SceneGraphExecutor.resolveTextureForID this = [] ->
     SceneGraphExecutor.scheduleGraph device graph presentColorTexture this
       = OK (graph', device', this') ->
     SceneGraphExecutor.resolveTextureUseCount this' = [] /\
     forall j pj copy rtex,
       passes graph' !! j = Some pj ->
       copy ∈ resolveTextureInputIDs pj ->
       JsArray.get (SceneGraphExecutor.resolveTextureForID this') copy = Some rtex ->
       lookup_during pj copy = OK (ResolveTexture.texture rtex))
  /\
  (forall pass copy (during : SceneGraphExecutor.t),
     SceneGraphExecutor.getResolveTextureForID copy
       (SceneGraphExecutor.with_currentGraphPass (Some pass) during)
     = lookup_during pass copy)
  /\
  (forall device ps (before : SceneGraphExecutor.t) device' after,
     SceneGraphExecutor.execPasses device ps before = OK (device', after) ->
     SceneGraphExecutor.resolveTextureForID after
       = SceneGraphExecutor.resolveTextureForID before)
  /\
  (forall device graph presentColorTexture (this : SceneGraphExecutor.t)
          graph' device' final,
     SceneGraphExecutor.execGraph device graph presentColorTexture this
       = OK (graph', device', final) ->
     SceneGraphExecutor.resolveTextureForID final = []).
Proof.
  split; [|split; [|split; [|split]]].
  - intros held copy rtex. apply releaseResolveTextureInputForID_last.
  - intros device graph present this graph' device' this' Hpool Hempty Htable H.
    destruct (scheduleGraph_lookup _ _ _ _ _ _ _ H Hpool Hempty Htable)
      as (_ & Hrs & _ & _ & Hlook).
    split; [exact Hrs|]. intros j pj copy rtex Hj Hc Hfor.
    destruct (Hlook j pj copy Hj Hc) as (tex & -> & [(x & Hx & ->)|[Hnone _]]);
      congruence.
  - reflexivity.
  - intros device ps before device' after H. now apply execPasses_frame in H.
  - intros device graph present this graph' device' final H.
    unfold SceneGraphExecutor.execGraph in H.
    inv_bind H as [[graph1 device1] this1] Hs. inv_bind H as [] Hnull.
    inv_bind H as [device2 this3] Hexec. now injection H as <- <- <-.
Qed.

(** * A copy of a single-sampled surface is the surface itself *)

Lemma alive_from_refl (this : Ex) : alive_from this this.
Proof. intros id rt H. exists rt. split; [exact H | apply same_object_refl]. Qed.

Lemma alive_from_trans (this this' this'' : Ex) :
  alive_from this this' -> alive_from this' this'' -> alive_from this this''.
Proof.
  intros H1 H2 id rt'' Hrt''. destruct (H2 id rt'' Hrt'') as (rt' & Hrt' & Hs').
  destruct (H1 id rt' Hrt') as (rt & Hrt & Hs). exists rt.
  split; [exact Hrt | now apply same_object_trans with rt'].
Qed.

Lemma alive_from_frame (this this' : Ex) :
  rtAlive this' = rtAlive this -> alive_from this this'.
Proof. intros Ha id rt H. rewrite Ha in H. exists rt. split; [exact H | reflexivity]. Qed.

Lemma markCleared_alive_from (o : option nat) (this : Ex) :
  alive_from this (SceneGraphExecutor.markCleared o this).
Proof.
  intros id rt' Hrt'. rewrite markCleared_alive in Hrt'.
  destruct (bool_decide (o = Some id)).
  - destruct (JsArray.get (rtAlive this) id) as [rt|]; [|discriminate].
    cbn in Hrt'. injection Hrt' as <-. exists rt.
    split; [reflexivity | apply same_object_needsClear].
  - exists rt'. split; [exact Hrt' | reflexivity].
Qed.

Lemma releaseRenderTargetForID_alive_from (o : option nat) (this this' : Ex) :
  SceneGraphExecutor.releaseRenderTargetForID o this = OK this' ->
  alive_from this this'.
Proof.
  destruct o as [id|]; [|intros [= <-]; apply alive_from_refl].
  intros H. apply releaseRenderTargetForID_inv in H as (z & Hz & Hpos & H).
  cbn zeta in H. destruct (z =? 1)%Z.
  - destruct H as (rt & _ & ->). intros r x Hx. cbn in Hx.
    destruct (decide (id = r)) as [->|Hne].
    + now rewrite get_delete_eq in Hx.
    + rewrite get_delete_ne in Hx by assumption. exists x. split; [exact Hx | reflexivity].
  - subst this'. apply alive_from_frame. reflexivity.
Qed.

(* what a consumed copy without a physical copy is served from: the
   render target checked out for its surface when the inputs are acquired *)
Lemma acquireInputTextures_source (graph : SceneGraph) (ids : list nat) (i : nat)
    (textures textures' : list (option GfxTexture)) (this this' : Ex) :
  SceneGraphExecutor.acquireInputTextures graph ids i textures this
    = OK (textures', this') ->
  forall k c,
    ids !! k = Some c -> JsArray.get (rsForID this) c = None ->
    exists id rt tex,
      resolveTextureRenderTargetIDs graph !! c = Some id /\
      JsArray.get (rtAlive this) id = Some rt /\
      RenderTarget.texture rt = Some tex /\
      JsArray.get textures' (i + k) = Some tex.
Proof.
  revert i textures this. induction ids as [|c0 ids IH]; intros i textures this; simpl.
  - intros _ k c Hk. discriminate.
  - intros H k c Hk Hnone. inv_bind H as [tex0 this1] Hacq.
    apply acquireResolveTextureInputTextureForID_inv in Hacq as [Hrel Hcase].
    destruct (releaseRenderTargetForID_counts _ _ _ Hrel) as (_ & _ & Hfor & _).
    destruct k as [|k]; simpl in Hk.
    + injection Hk as ->. destruct Hcase as [(rtex & Hsome & _)|(_ & rt & Hrt & Htex)];
        [congruence|].
      destruct (resolveTextureRenderTargetIDs graph !! c) as [id|] eqn:Ho;
        [|discriminate].
      exists id, rt, tex0. split; [reflexivity|]. split; [exact Hrt|].
      split; [exact Htex|]. rewrite Nat.add_0_r.
      clear IH.
      (* later iterations write above index i *)
      assert (forall ids' j tx tx' s s',
                SceneGraphExecutor.acquireInputTextures graph ids' j tx s = OK (tx', s') ->
                forall l, l < j -> JsArray.get tx' l = JsArray.get tx l) as Hbelow.
      { induction ids' as [|c' ids' IH']; intros j tx tx' s s'; simpl.
        - now intros [= <- <-].
        - intros H' l Hl. inv_bind H' as [t1 s1] Ha1.
          rewrite (IH' _ _ _ _ _ H') by lia. apply get_set_ne. lia. }
      rewrite (Hbelow _ _ _ _ _ _ H) by lia. apply get_set_eq.
    + rewrite <- Hfor in Hnone.
      destruct (IH _ _ _ H k c Hk Hnone) as (id & rt1 & tex & Ho & Hrt1 & Htex & Hget).
      destruct (releaseRenderTargetForID_alive_from _ _ _ Hrel id rt1 Hrt1)
        as (rt & Hrt & Hobj).
      exists id, rt, tex. split; [exact Ho|]. split; [exact Hrt|]. split.
      * destruct (same_object_handles _ _ Hobj) as (_ & -> & _). exact Htex.
      * now replace (i + S k) with (S i + k) by lia.
Qed.

(* the two acquisitions of [schedulePass] *)
Lemma schedulePass_acquired (device device1 device2 : GfxDevice)
    (graph : SceneGraph) (o1 o2 : option nat) (this this1 this2 : Ex)
    (color0 depthStencil : option RenderTarget.t) :
  SceneGraphExecutor.acquireRenderTargetForID device graph o1 this
    = OK (color0, device1, this1) ->
  SceneGraphExecutor.acquireRenderTargetForID device1 graph o2 this1
    = OK (depthStencil, device2, this2) ->
  (forall id rt0, JsArray.get (rtAlive this) id = Some rt0 ->
                  JsArray.get (rtAlive this2) id = Some rt0) /\
  (forall id, o1 = Some id ->
     exists rt, color0 = Some rt /\ JsArray.get (rtAlive this2) id = Some rt) /\
  (forall id, o2 = Some id ->
     exists rt, depthStencil = Some rt /\ JsArray.get (rtAlive this2) id = Some rt).
Proof.
  intros H1 H3.
  assert ((forall id rt0, JsArray.get (rtAlive this) id = Some rt0 ->
                          JsArray.get (rtAlive this1) id = Some rt0) /\
          (forall id, o1 = Some id ->
             exists rt, color0 = Some rt /\ JsArray.get (rtAlive this1) id = Some rt))
    as [K1 A1].
  { destruct o1 as [id1|].
    - destruct (acquireRenderTargetForID_alive _ _ _ _ _ _ _ H1)
        as (rt & -> & Hid & Hother & Hsame). split.
      + intros id rt0 Hrt0. destruct (decide (id = id1)) as [->|Hne].
        * now rewrite (Hsame rt0 Hrt0) in Hid.
        * now rewrite (Hother id Hne).
      + intros id [= <-]. eauto.
    - injection H1 as <- <- <-. split; [auto|]. intros id Hid. discriminate. }
  assert ((forall id rt0, JsArray.get (rtAlive this1) id = Some rt0 ->
                          JsArray.get (rtAlive this2) id = Some rt0) /\
          (forall id, o2 = Some id ->
             exists rt, depthStencil = Some rt /\
                        JsArray.get (rtAlive this2) id = Some rt))
    as [K2 A2].
  { destruct o2 as [id2|].
    - destruct (acquireRenderTargetForID_alive _ _ _ _ _ _ _ H3)
        as (rt & -> & Hid & Hother & Hsame). split.
      + intros id rt0 Hrt0. destruct (decide (id = id2)) as [->|Hne].
        * now rewrite (Hsame rt0 Hrt0) in Hid.
        * now rewrite (Hother id Hne).
      + intros id [= <-]. eauto.
    - injection H3 as <- <- <-. split; [auto|]. intros id Hid. discriminate. }
  split; [auto|]. split; [|exact A2].
  intros id Hid. destruct (A1 id Hid) as (rt & Hc & Hrt). eauto.
Qed.

Lemma keeps_refl (this : Ex) : keeps this this.
Proof. split; auto. Qed.

Lemma keeps_trans (this this' this'' : Ex) :
  keeps this this' -> keeps this' this'' -> keeps this this''.
Proof. intros [F1 H1] [F2 H2]. split; auto. Qed.

Lemma keeps_frame (this this' : Ex) :
  rtAlive this' = rtAlive this -> rtPool this' = rtPool this -> keeps this this'.
Proof.
  intros Ha Hp. split.
  - intros Hfresh id rt Hrt. rewrite Ha in Hrt. eauto.
  - intros att tex (rt & Hatt & Htex & Hage & Hin). exists rt.
    rewrite Ha, Hp. auto.
Qed.

Lemma acquireRenderTargetForID_keeps (device device' : GfxDevice) (graph : SceneGraph)
    (o : option nat) (this this' : Ex) (acquired : option RenderTarget.t) :
  SceneGraphExecutor.acquireRenderTargetForID device graph o this
    = OK (acquired, device', this') ->
  keeps this this'.
Proof.
  destruct o as [id|]; [|intros [= <- <- <-]; apply keeps_refl].
  intros H. apply acquireRenderTargetForID_inv in H as [_ [H|H]].
  - destruct H as (rt0 & _ & _ & _ & ->). apply keeps_refl.
  - destruct H as (desc & rt & this1 & Hnone & Hdesc & Hacq & _ & ->).
    apply acquireRenderTargetForDescription_inv in Hacq as [H|H].
    + destruct H as (free & pool' & Htake & -> & _ & ->).
      apply pool_take_Some in Htake as (before & after & Hsplit & -> & _).
      cbn. split.
      * intros Hfresh r x Hx. cbn in Hx.
        destruct (decide (id = r)) as [<-|Hne].
        -- rewrite get_set_eq in Hx. now injection Hx as <-.
        -- rewrite get_set_ne in Hx by assumption. eauto.
      * intros att tex (rt0 & Hatt & Htex & Hage & [Hin|[r Hr]]).
        -- rewrite Hsplit, elem_of_app, elem_of_cons in Hin.
           destruct Hin as [Hin|[->|Hin]].
           ++ exists rt0. repeat split; try assumption. left. cbn.
              rewrite elem_of_app. auto.
           ++ exists (RenderTarget.with_age 0 free). repeat split; try assumption.
              right. exists id. cbn. apply get_set_eq.
           ++ exists rt0. repeat split; try assumption. left. cbn.
              rewrite elem_of_app. auto.
        -- exists rt0. repeat split; try assumption. right. exists r. cbn.
           rewrite get_set_ne by congruence. exact Hr.
    + destruct H as (_ & Hnew & ->).
      apply RenderTarget_new_fresh in Hnew as (_ & _ & _ & Hage0). split.
      * intros Hfresh r x Hx. cbn in Hx.
        destruct (decide (id = r)) as [<-|Hne].
        -- rewrite get_set_eq in Hx. now injection Hx as <-.
        -- rewrite get_set_ne in Hx by assumption. eauto.
      * intros att tex (rt0 & Hatt & Htex & Hage & [Hin|[r Hr]]).
        -- exists rt0. repeat split; try assumption. now left.
        -- exists rt0. repeat split; try assumption. right. exists r. cbn.
           rewrite get_set_ne by congruence. exact Hr.
Qed.

Lemma markCleared_keeps (o : option nat) (this : Ex) :
  keeps this (SceneGraphExecutor.markCleared o this).
Proof.
  destruct (markCleared_frame o this) as (_ & _ & _ & _ & Hp). split.
  - intros Hfresh id rt' Hrt'. rewrite markCleared_alive in Hrt'.
    destruct (bool_decide (o = Some id)); [|eauto].
    destruct (JsArray.get (rtAlive this) id) as [rt|] eqn:Hrt; [|discriminate].
    cbn in Hrt'. injection Hrt' as <-. cbn. eauto.
  - intros att tex (rt0 & Hatt & Htex & Hage & [Hin|[r Hr]]).
    + exists rt0. repeat split; try assumption. left. now rewrite Hp.
    + pose proof (markCleared_alive o this r) as Hr'. rewrite Hr in Hr'.
      destruct (bool_decide (o = Some r)).
      * exists (RenderTarget.with_needsClear false rt0).
        repeat split; try assumption. right. eauto.
      * exists rt0. repeat split; try assumption. right. eauto.
Qed.

Lemma releaseRenderTargetForID_keeps (o : option nat) (this this' : Ex) :
  SceneGraphExecutor.releaseRenderTargetForID o this = OK this' -> keeps this this'.
Proof.
  destruct o as [id|]; [|intros [= <-]; apply keeps_refl].
  intros H. apply releaseRenderTargetForID_inv in H as (z & Hz & Hpos & H).
  cbn zeta in H. destruct (z =? 1)%Z.
  - destruct H as (rt & Hrt & ->). split.
    + intros Hfresh r x Hx. cbn in Hx.
      destruct (decide (id = r)) as [->|Hne].
      * now rewrite get_delete_eq in Hx.
      * rewrite get_delete_ne in Hx by assumption. eauto.
    + intros att tex (rt0 & Hatt & Htex & Hage & [Hin|[r Hr]]).
      * exists rt0. repeat split; try assumption. left. cbn.
        rewrite elem_of_app. auto.
      * destruct (decide (id = r)) as [->|Hne].
        -- assert (rt0 = rt) as -> by congruence.
           exists (RenderTarget.with_needsClear true rt).
           repeat split; try assumption. left. cbn.
           rewrite elem_of_app, list_elem_of_singleton. auto.
        -- exists rt0. repeat split; try assumption. right. exists r. cbn.
           now rewrite get_delete_ne.
  - subst this'. now apply keeps_frame.
Qed.

Lemma acquireInputTextures_keeps (graph : SceneGraph) (ids : list nat) (i : nat)
    (textures textures' : list (option GfxTexture)) (this this' : Ex) :
  SceneGraphExecutor.acquireInputTextures graph ids i textures this
    = OK (textures', this') ->
  keeps this this'.
Proof.
  revert i textures this. induction ids as [|c ids IH]; intros i textures this; simpl.
  - intros [= <- <-]. apply keeps_refl.
  - intros H. inv_bind H as [tex this1] Hacq.
    apply acquireResolveTextureInputTextureForID_inv in Hacq as [Hrel _].
    apply keeps_trans with this1; [|now apply IH with (S i) (JsArray.set textures i tex)].
    now apply releaseRenderTargetForID_keeps
      with (resolveTextureRenderTargetIDs graph !! c).
Qed.

Lemma releaseRenderTargets_keeps (ids : list (option nat)) (this this' : Ex) :
  SceneGraphExecutor.releaseRenderTargets ids this = OK this' -> keeps this this'.
Proof.
  revert this. induction ids as [|c ids IH]; intros this; simpl.
  - intros [= <-]. apply keeps_refl.
  - intros H. inv_bind H as this1 Hrel.
    apply keeps_trans with this1; [|now apply IH].
    now apply releaseRenderTargetForID_keeps with c.
Qed.

(* the part of [schedulePass] after the two acquisitions *)
Lemma schedulePass_tail_keeps (device3 device' : GfxDevice) (graph : SceneGraph)
    (pass : SceneGraphPassImpl) (presentColorTexture : option GfxTexture)
    (device2 : GfxDevice) (o1 o2 : option nat)
    (colorResolve depthResolve : option GfxTexture)
    (textures : list (option GfxTexture)) (this2 this3 this4 this7 this8 this' : Ex) :
  (if doPresent pass then OK (presentColorTexture, device2, this2)
   else SceneGraphExecutor.acquireResolveTextureOutputForID device2 graph o1
          (JsArray.get (resolveTextureOutputIDs pass) 0) this2)
    = OK (colorResolve, device3, this3) ->
  SceneGraphExecutor.acquireResolveTextureOutputForID device3 graph o2
    (JsArray.get (resolveTextureOutputIDs pass) 1) this3
    = OK (depthResolve, device', this4) ->
  SceneGraphExecutor.acquireInputTextures graph (resolveTextureInputIDs pass) 0
    (resolveTextureInputTextures pass)
    (SceneGraphExecutor.markCleared o2 (SceneGraphExecutor.markCleared o1 this4))
    = OK (textures, this7) ->
  SceneGraphExecutor.releaseRenderTargets (renderTargetIDs pass) this7 = OK this8 ->
  SceneGraphExecutor.releaseResolveTextureInputs (resolveTextureInputIDs pass) this8
    = OK this' ->
  keeps this2 this'.
Proof.
  intros H6 H7 H9 H10 H11.
  destruct (colorResolve_frame _ _ _ _ _ _ _ _ _ H6) as (_ & _ & Ha3 & Hp3).
  destruct (acquireResolveTextureOutputForID_frame _ _ _ _ _ _ _ _ H7)
    as (_ & _ & Ha4 & Hp4).
  destruct (releaseResolveTextureInputs_counts _ _ _ H11) as (_ & _ & Ha9 & _ & Hp9).
  apply keeps_trans with this3; [now apply keeps_frame|].
  apply keeps_trans with this4; [now apply keeps_frame|].
  eapply keeps_trans; [apply (markCleared_keeps o1)|].
  eapply keeps_trans; [apply (markCleared_keeps o2)|].
  apply keeps_trans with this7; [now apply acquireInputTextures_keeps in H9|].
  apply keeps_trans with this8; [now apply releaseRenderTargets_keeps in H10|].
  now apply keeps_frame.
Qed.

Lemma schedulePass_keeps (device device' : GfxDevice)
    (graph : SceneGraph) (pass pass' : SceneGraphPassImpl)
    (presentColorTexture : option GfxTexture) (this this' : Ex) :
  SceneGraphExecutor.schedulePass device graph pass presentColorTexture this
    = OK (pass', device', this') ->
  keeps this this'.
Proof.
  intros H. apply schedulePass_inv in H. cbn zeta in H.
  destruct H as (color0 & device1 & this1 & colorClear & depthStencil & device2
                 & this2 & depthClear & stencilClear & colorResolve & device3
                 & this3 & depthResolve & this4 & textures & this7 & this8
                 & H1 & _ & H3 & _ & _ & H6 & H7 & _ & H9 & H10 & H11 & _).
  apply keeps_trans with this1; [now apply acquireRenderTargetForID_keeps in H1|].
  apply keeps_trans with this2; [now apply acquireRenderTargetForID_keeps in H3|].
  eapply schedulePass_tail_keeps; eassumption.
Qed.

Lemma schedulePasses_keeps (device device' : GfxDevice) (graph : SceneGraph)
    (ps ps' : list SceneGraphPassImpl) (presentColorTexture : option GfxTexture)
    (this this' : Ex) :
  SceneGraphExecutor.schedulePasses device graph ps presentColorTexture this
    = OK (ps', device', this') ->
  keeps this this'.
Proof.
  revert device this ps'. induction ps as [|pass ps IH]; intros device this ps'; simpl.
  - intros [= <- <- <-]. apply keeps_refl.
  - intros H. inv_bind H as [[pass' device1] this1] Hp.
    inv_bind H as [[ps'' device2] this2] Hps. injection H as <- <- <-.
    apply keeps_trans with this1; [now apply schedulePass_keeps in Hp|].
    now apply IH in Hps.
Qed.

Lemma references_positive (device device' : GfxDevice) (graph : SceneGraph)
    (pass pass' : SceneGraphPassImpl) (presentColorTexture : option GfxTexture)
    (this this' final : Ex) (id : nat) :
  SceneGraphExecutor.schedulePass device graph pass presentColorTexture this
    = OK (pass', device', this') ->
  references graph final pass' id ->
  positive (rtUC this) id.
Proof.
  intros H Href. destruct (schedulePass_ids _ _ _ _ _ _ _ _ H) as [Hids Hin].
  destruct (schedulePass_counts _ _ _ _ _ _ _ _ H) as (R1 & _).
  apply (released_by_used _ _ _ _ R1). unfold surface_uses.
  destruct Href as [[slot Hslot]|(c & Hc & Ho & _)].
  - rewrite Hids in Hslot.
    pose proof (binds_slot_uses _ _ (slot_bound_binds _ _ _ Hslot)). lia.
  - rewrite Hin in Hc. pose proof (input_origin_uses graph pass c id Hc Ho). lia.
Qed.

(* one pass: everything it sees of a surface it mentions is one render
   target, the one checked out for the surface once the slots are acquired *)
Lemma schedulePass_observes (device device' : GfxDevice) (graph : SceneGraph)
    (pass pass' : SceneGraphPassImpl) (presentColorTexture : option GfxTexture)
    (this this' final : Ex) (id : nat) :
  SceneGraphExecutor.schedulePass device graph pass presentColorTexture this
    = OK (pass', device', this') ->
  table_kept this' final ->
  references graph final pass' id ->
  exists rt,
    observes graph final pass' id rt /\
    (forall rt0, JsArray.get (rtAlive this) id = Some rt0 -> rt0 = rt) /\
    (positive (rtUC this') id ->
     exists rt', JsArray.get (rtAlive this') id = Some rt' /\ same_object rt rt') /\
    positive (rtUC this) id /\
    (fresh_age this ->
     holds this' (RenderTarget.attachment rt) (RenderTarget.texture rt)).
Proof.
  intros H Hkept Href.
  pose proof (references_positive _ _ _ _ _ _ _ _ _ _ H Href) as Hpos.
  apply schedulePass_inv in H. cbn zeta in H.
  destruct H as (color0 & device1 & this1 & colorClear & depthStencil & device2
                 & this2 & depthClear & stencilClear & colorResolve & device3
                 & this3 & depthResolve & this4 & textures & this7 & this8
                 & H1 & _ & H3 & _ & _ & H6 & H7 & _ & H9 & H10 & H11
                 & Hids & Hin & Htextures & Hdesc).
  pose proof (schedulePass_tail_evolves _ _ _ _ _ _ _ _ _ _ _ _ _ _ _ _ _
                H6 H7 H9 H10 H11) as [_ Htail].
  pose proof (rest_of_pass_keeps_resolveTextureForID _ _ _ _ _ _ _ _ _ H9 H10 H11)
    as Hrest.
  destruct (schedulePass_acquired _ _ _ _ _ _ _ _ _ _ _ H1 H3) as (K & A1 & A2).
  destruct (colorResolve_frame _ _ _ _ _ _ _ _ _ H6) as (_ & _ & Ha3 & _).
  destruct (acquireResolveTextureOutputForID_frame _ _ _ _ _ _ _ _ H7)
    as (_ & _ & Ha4 & _).
  set (this6 := SceneGraphExecutor.markCleared (JsArray.get (renderTargetIDs pass) 1)
                  (SceneGraphExecutor.markCleared
                     (JsArray.get (renderTargetIDs pass) 0) this4)) in *.
  assert (alive_from this2 this6) as Hfrom.
  { apply alive_from_trans with this3; [now apply alive_from_frame|].
    apply alive_from_trans with this4; [now apply alive_from_frame|].
    eapply alive_from_trans; apply markCleared_alive_from. }
  assert (rsForID this6 = rsForID this') as Htable6.
  { rewrite Hrest. unfold this6.
    destruct (markCleared_frame (JsArray.get (renderTargetIDs pass) 0) this4)
      as (_ & _ & E5 & _).
    destruct (markCleared_frame (JsArray.get (renderTargetIDs pass) 1)
                (SceneGraphExecutor.markCleared
                   (JsArray.get (renderTargetIDs pass) 0) this4))
      as (_ & _ & E6 & _).
    congruence. }
  (* what a consumed copy of [id] without a physical copy is served from *)
  assert (forall c,
            c ∈ resolveTextureInputIDs pass' ->
            resolveTextureRenderTargetIDs graph !! c = Some id ->
            JsArray.get (rsForID final) c = None ->
            exists rt tex,
              JsArray.get (rtAlive this2) id = Some rt /\
              RenderTarget.texture rt = Some tex /\
              lookup_during pass' c = OK tex) as Hserved.
  { intros c Hc Ho Hnone.
    destruct (lookup_during_spec pass' c Hc) as (i & Hi & ->).
    rewrite Hin in Hi. rewrite Htextures.
    assert (JsArray.get (rsForID this6) c = None) as Hnone6.
    { rewrite Htable6.
      destruct (JsArray.get (rsForID this') c) as [rtex|] eqn:Hfor; [|reflexivity].
      apply Hkept in Hfor. congruence. }
    destruct (acquireInputTextures_source _ _ _ _ _ _ _ H9 i c Hi Hnone6)
      as (id' & rt6 & tex & Ho' & Hrt6 & Htex & Hget).
    assert (id' = id) as -> by congruence.
    destruct (Hfrom id rt6 Hrt6) as (rt & Hrt & Hobj). exists rt, tex.
    split; [exact Hrt|]. split.
    - destruct (same_object_handles _ _ Hobj) as (_ & -> & _). exact Htex.
    - cbn in Hget. now rewrite Hget. }
  assert (exists rt, JsArray.get (rtAlive this2) id = Some rt) as [rt Hrt].
  { destruct Href as [[slot Hslot]|(c & Hc & Ho & Hnone)].
    - rewrite Hids in Hslot. destruct slot; cbn [slot_index] in Hslot.
      + destruct (A1 id Hslot) as (rt & _ & Hrt). eauto.
      + destruct (A2 id Hslot) as (rt & _ & Hrt). eauto.
    - destruct (Hserved c Hc Ho Hnone) as (rt & _ & Hrt & _). eauto. }
  exists rt. split; [split|split; [|split; [|split; [exact Hpos|]]]].
  - intros slot Hslot. rewrite Hids in Hslot. rewrite Hdesc.
    destruct slot; cbn [slot_index] in Hslot; cbn.
    + destruct (A1 id Hslot) as (rt' & -> & Hrt'). cbn. congruence.
    + destruct (A2 id Hslot) as (rt' & -> & Hrt'). cbn. congruence.
  - intros c Hc Ho Hnone.
    destruct (Hserved c Hc Ho Hnone) as (rt' & tex & Hrt' & Htex & Hlook).
    exists tex. split; [congruence | exact Hlook].
  - intros rt0 Hrt0. apply K in Hrt0. congruence.
  - intros Hafter. now apply Htail.
  - intros Hfresh.
    destruct (acquireRenderTargetForID_keeps _ _ _ _ _ _ _ H1) as [F1 _].
    destruct (acquireRenderTargetForID_keeps _ _ _ _ _ _ _ H3) as [F2 _].
    destruct (schedulePass_tail_keeps _ _ _ _ _ _ _ _ _ _ _ _ _ _ _ _ _
                H6 H7 H9 H10 H11) as [_ Hholds].
    apply Hholds. exists rt. repeat split; [|right; eauto].
    exact (F2 (F1 Hfresh) id rt Hrt).
Qed.

Lemma schedulePasses_references_positive (device device' : GfxDevice)
    (graph : SceneGraph) (ps ps' : list SceneGraphPassImpl)
    (presentColorTexture : option GfxTexture) (this this' final : Ex) (j : nat)
    (pj : SceneGraphPassImpl) (id : nat) :
  SceneGraphExecutor.schedulePasses device graph ps presentColorTexture this
    = OK (ps', device', this') ->
  ps' !! j = Some pj ->
  references graph final pj id ->
  positive (rtUC this) id.
Proof.
  revert device this ps' j. induction ps as [|pass ps IH];
    intros device this ps' j; simpl.
  - intros [= <- <- <-] Hj. discriminate.
  - intros H Hj Href. inv_bind H as [[pass' device1] this1] Hp.
    inv_bind H as [[ps'' device2] this2] Hps. injection H as <- <- <-.
    destruct j as [|j]; simpl in Hj.
    + injection Hj as ->. now apply (references_positive _ _ _ _ _ _ _ _ _ _ Hp Href).
    + specialize (IH _ _ _ _ Hps Hj Href).
      destruct (schedulePass_counts _ _ _ _ _ _ _ _ Hp) as (R1 & _).
      now apply (released_by_positive _ _ _ _ R1).
Qed.

Lemma observes_same_object (graph : SceneGraph) (final : Ex)
    (pass : SceneGraphPassImpl) (id : nat) (rt rt' : RenderTarget.t) :
  same_object rt rt' ->
  observes graph final pass id rt' -> observes graph final pass id rt.
Proof.
  intros Hobj [Hslots Hinputs].
  destruct (same_object_handles _ _ Hobj) as (Hatt & Htex & _).
  split.
  - intros slot Hslot. rewrite Hatt. now apply Hslots.
  - intros c Hc Ho Hnone. rewrite Htex. now apply Hinputs.
Qed.

(* a surface checked out when the passes start is what every one of them
   sees of it *)
Lemma schedulePasses_alive_observes (device device' : GfxDevice)
    (graph : SceneGraph) (ps ps' : list SceneGraphPassImpl)
    (presentColorTexture : option GfxTexture) (this this' final : Ex) (j : nat)
    (pj : SceneGraphPassImpl) (id : nat) (rt : RenderTarget.t) :
  SceneGraphExecutor.schedulePasses device graph ps presentColorTexture this
    = OK (ps', device', this') ->
  pool_shape this -> alive_shape graph this -> table_shape graph this ->
  table_kept this' final ->
  JsArray.get (rtAlive this) id = Some rt ->
  ps' !! j = Some pj ->
  observes graph final pj id rt.
Proof.
  revert device this ps' j rt. induction ps as [|pass ps IH];
    intros device this ps' j rt; simpl.
  - intros [= <- <- <-] _ _ _ _ _ Hj. discriminate.
  - intros H Hpool Hshape Htable Hkept Halive Hj.
    inv_bind H as [[pass' device1] this1] Hp.
    inv_bind H as [[ps'' device2] this2] Hps. injection H as <- <- <-.
    destruct (schedulePass_lookup _ _ _ _ _ _ _ _ Hp Hpool Hshape Htable)
      as ((Hpool1 & Hshape1 & Htable1) & _ & _).
    destruct (schedulePasses_lookup _ _ _ _ _ _ _ _ Hps Hpool1 Hshape1 Htable1)
      as (_ & Hkept1 & _).
    assert (references graph final pj id -> observes graph final pj id rt) as Hall.
    { intros Href. destruct j as [|j]; simpl in Hj.
      - injection Hj as ->.
        destruct (schedulePass_observes _ _ _ _ _ _ _ _ final id Hp)
          as (rt1 & Hobs & Hsame & _);
          [now apply table_kept_trans with this2 | exact Href |].
        now rewrite (Hsame rt Halive).
      - pose proof (schedulePasses_references_positive _ _ _ _ _ _ _ _ _ _ _ _
                      Hps Hj Href) as Hpos.
        destruct (schedulePass_evolves _ _ _ _ _ _ _ _ Hp) as [_ Hkeep].
        destruct (Hkeep id rt Halive Hpos) as (rt' & Hrt' & Hobj).
        apply (observes_same_object _ _ _ _ _ _ Hobj).
        now apply (IH _ _ _ j rt' Hps). }
    split.
    + intros slot Hslot. apply Hall; [left; eauto | exact Hslot].
    + intros c Hc Ho Hnone. apply Hall; [right; eauto | assumption..].
Qed.

(* any two passes of a run see one and the same render target of a
   surface both mention, and the executor still holds it after the run *)
Lemma schedulePasses_observes (device device' : GfxDevice)
    (graph : SceneGraph) (ps ps' : list SceneGraphPassImpl)
    (presentColorTexture : option GfxTexture) (this this' final : Ex) (i j : nat)
    (pi pj : SceneGraphPassImpl) (id : nat) :
  SceneGraphExecutor.schedulePasses device graph ps presentColorTexture this
    = OK (ps', device', this') ->
  pool_shape this -> alive_shape graph this -> table_shape graph this ->
  fresh_age this ->
  table_kept this' final ->
  i <= j ->
  ps' !! i = Some pi -> ps' !! j = Some pj ->
  references graph final pi id -> references graph final pj id ->
  exists rt,
    observes graph final pi id rt /\ observes graph final pj id rt /\
    holds this' (RenderTarget.attachment rt) (RenderTarget.texture rt).
Proof.
  revert device this ps' i j. induction ps as [|pass ps IH];
    intros device this ps' i j; simpl.
  - intros [= <- <- <-] _ _ _ _ _ _ Hi. discriminate.
  - intros H Hpool Hshape Htable Hfresh Hkept Hij Hi Hj Hri Hrj.
    inv_bind H as [[pass' device1] this1] Hp.
    inv_bind H as [[ps'' device2] this2] Hps. injection H as <- <- <-.
    destruct (schedulePass_lookup _ _ _ _ _ _ _ _ Hp Hpool Hshape Htable)
      as ((Hpool1 & Hshape1 & Htable1) & _ & _).
    destruct (schedulePasses_lookup _ _ _ _ _ _ _ _ Hps Hpool1 Hshape1 Htable1)
      as (_ & Hkept1 & _).
    destruct i as [|i]; simpl in Hi.
    + injection Hi as ->.
      destruct (schedulePass_observes _ _ _ _ _ _ _ _ final id Hp)
        as (rt & Hobs & _ & Hafter & _ & Hholds);
        [now apply table_kept_trans with this2 | exact Hri |].
      exists rt. split; [exact Hobs|]. split.
      * destruct j as [|j]; simpl in Hj.
        -- now injection Hj as <-.
        -- pose proof (schedulePasses_references_positive _ _ _ _ _ _ _ _ _ _ _ _
                         Hps Hj Hrj) as Hpos.
           destruct (Hafter Hpos) as (rt' & Hrt' & Hobj).
           apply (observes_same_object _ _ _ _ _ _ Hobj).
           eapply schedulePasses_alive_observes; eassumption.
      * destruct (schedulePasses_keeps _ _ _ _ _ _ _ _ Hps) as [_ Hrest]. auto.
    + destruct j as [|j]; [lia|]. simpl in Hj.
      destruct (schedulePass_keeps _ _ _ _ _ _ _ _ Hp) as [Hfresh1 _].
      apply (IH _ _ _ i j Hps); try assumption; [auto | lia].
Qed.

(* a copy-output requested of a single-sampled surface *)
Lemma acquireResolveTextureOutputForID_single (device device' : GfxDevice)
    (graph : SceneGraph) (id : nat) (o : option nat) (this this' : Ex)
    (out : option GfxTexture) (desc : RenderTargetDescription) :
  SceneGraphExecutor.acquireResolveTextureOutputForID device graph (Some id) o this
    = OK (out, device', this') ->
  alive_shape graph this ->
  renderTargetDescriptions graph !! id = Some desc ->
  ~ (1 < desc_numSamples desc)%Z ->
  out = None /\ device' = device /\ this' = this.
Proof.
  destruct o as [c|]; [|now intros [= <- <- <-]].
  intros H Hshape Hdesc Hsingle.
  apply acquireResolveTextureOutputForID_inv in H as (_ & _ & rt & Hrt & H).
  cbn in Hrt. destruct (Hshape id rt Hrt) as (Hiff & desc' & Hdesc' & Hm).
  assert (desc' = desc) as -> by congruence.
  apply matchesDescription_numSamples in Hm.
  assert (RenderTarget.texture rt <> None) as Htex
    by (intros Hnone; apply Hiff in Hnone; congruence).
  destruct H as [H|[H|H]].
  - destruct H as (_ & -> & -> & ->). auto.
  - now destruct H as (Hnone & _).
  - now destruct H as (Hnone & _).
Qed.

Lemma schedulePass_flags (device device' : GfxDevice) (graph : SceneGraph)
    (pass pass' : SceneGraphPassImpl) (presentColorTexture : option GfxTexture)
    (this this' : Ex) :
  SceneGraphExecutor.schedulePass device graph pass presentColorTexture this
    = OK (pass', device', this') ->
  doPresent pass' = doPresent pass /\
  resolveTextureOutputIDs pass' = resolveTextureOutputIDs pass.
Proof.
  unfold SceneGraphExecutor.schedulePass. cbn [slot_index]. intros H.
  inv_bind H as [[color0 device1] this1] H1. inv_bind H as colorClear H2.
  inv_bind H as [[depthStencil device2] this2] H3. inv_bind H as depthClear H4.
  inv_bind H as stencilClear H5.
  inv_bind H as [[colorResolve device3] this3] H6.
  inv_bind H as [[depthResolve device4] this4] H7.
  inv_bind H as [] H8.
  destruct (SceneGraphExecutor.attachmentSize color0 depthStencil) as [w h].
  inv_bind H as [textures this7] H9. inv_bind H as this8 H10.
  inv_bind H as this9 H11. injection H as <- <- <-.
  unfold SceneGraphExecutor.scheduleViewport.
  destruct ((0 <? w)%Z && (0 <? h)%Z); auto.
Qed.

(* the resolve target of a slot bound to a single-sampled surface *)
Lemma schedulePass_resolveTo_single (device device' : GfxDevice) (graph : SceneGraph)
    (pass pass' : SceneGraphPassImpl) (presentColorTexture : option GfxTexture)
    (this this' : Ex) (slot : RenderTargetAttachmentSlot) (id : nat)
    (desc : RenderTargetDescription) :
  SceneGraphExecutor.schedulePass device graph pass presentColorTexture this
    = OK (pass', device', this') ->
  pool_shape this -> alive_shape graph this ->
  JsArray.get (renderTargetIDs pass) (slot_index slot) = Some id ->
  renderTargetDescriptions graph !! id = Some desc ->
  ~ (1 < desc_numSamples desc)%Z ->
  slot_resolveTo slot (descriptor pass') =
  match slot with
  | Color0 => if doPresent pass then presentColorTexture else None
  | DepthStencil => None
  end.
Proof.
  intros H Hpool Hshape Hslot Hdesc Hsingle. apply schedulePass_inv in H.
  cbn zeta in H.
  destruct H as (color0 & device1 & this1 & colorClear & depthStencil & device2
                 & this2 & depthClear & stencilClear & colorResolve & device3
                 & this3 & depthResolve & this4 & textures & this7 & this8
                 & H1 & _ & H3 & _ & _ & H6 & H7 & _ & _ & _ & _
                 & _ & _ & _ & Hd).
  destruct (acquireRenderTargetForID_shape _ _ _ _ _ _ _ H1 Hpool Hshape)
    as (Hpool1 & Hshape1 & _).
  destruct (acquireRenderTargetForID_shape _ _ _ _ _ _ _ H3 Hpool1 Hshape1)
    as (Hpool2 & Hshape2 & _).
  destruct (colorResolve_frame _ _ _ _ _ _ _ _ _ H6) as (_ & _ & Ha3 & Hp3).
  destruct (shape_frame graph this2 this3 Ha3 Hp3) as [_ A3].
  rewrite Hd. destruct slot; cbn [slot_index] in Hslot; cbn.
  - rewrite Hslot in H6. destruct (doPresent pass).
    + now injection H6 as <- _ _.
    + now destruct (acquireResolveTextureOutputForID_single _ _ _ _ _ _ _ _ _
                      H6 Hshape2 Hdesc Hsingle) as (-> & _).
  - rewrite Hslot in H7.
    now destruct (acquireResolveTextureOutputForID_single _ _ _ _ _ _ _ _ _
                    H7 (A3 Hshape2) Hdesc Hsingle) as (-> & _).
Qed.

Lemma schedulePasses_resolveTo_single (device device' : GfxDevice)
    (graph : SceneGraph) (ps ps' : list SceneGraphPassImpl)
    (presentColorTexture : option GfxTexture) (this this' : Ex) (j : nat)
    (pj : SceneGraphPassImpl) (slot : RenderTargetAttachmentSlot) (id : nat)
    (desc : RenderTargetDescription) :
  SceneGraphExecutor.schedulePasses device graph ps presentColorTexture this
    = OK (ps', device', this') ->
  pool_shape this -> alive_shape graph this -> table_shape graph this ->
  ps' !! j = Some pj ->
  JsArray.get (renderTargetIDs pj) (slot_index slot) = Some id ->
  renderTargetDescriptions graph !! id = Some desc ->
  ~ (1 < desc_numSamples desc)%Z ->
  slot_resolveTo slot (descriptor pj) =
  match slot with
  | Color0 => if doPresent pj then presentColorTexture else None
  | DepthStencil => None
  end.
Proof.
  revert device this ps' j. induction ps as [|pass ps IH];
    intros device this ps' j; simpl.
  - intros [= <- <- <-] _ _ _ Hj. discriminate.
  - intros H Hpool Hshape Htable Hj Hslot Hdesc Hsingle.
    inv_bind H as [[pass' device1] this1] Hp.
    inv_bind H as [[ps'' device2] this2] Hps. injection H as <- <- <-.
    destruct j as [|j]; simpl in Hj.
    + injection Hj as ->.
      destruct (schedulePass_ids _ _ _ _ _ _ _ _ Hp) as [Hids _].
      destruct (schedulePass_flags _ _ _ _ _ _ _ _ Hp) as [-> _].
      rewrite Hids in Hslot.
      eapply schedulePass_resolveTo_single; eassumption.
    + destruct (schedulePass_lookup _ _ _ _ _ _ _ _ Hp Hpool Hshape Htable)
        as ((Hpool1 & Hshape1 & Htable1) & _ & _).
      now apply (IH _ _ _ j Hps).
Qed.

Lemma references_table (graph : SceneGraph) (final final' : Ex)
    (pass : SceneGraphPassImpl) (id : nat) :
  rsForID final' = rsForID final ->
  references graph final pass id -> references graph final' pass id.
Proof. unfold references. now intros ->. Qed.

(* a whole scheduling: the passes, the table of physical copies and the
   pool *)
Lemma scheduleGraph_observes (device device' : GfxDevice) (graph graph' : SceneGraph)
    (presentColorTexture : option GfxTexture) (this this' : Ex) :
  SceneGraphExecutor.scheduleGraph device graph presentColorTexture this
    = OK (graph', device', this') ->
  pool_shape this -> alive_empty this -> rsForID this = [] ->
  table_shape graph this' /\
  (forall j pj slot id desc,
     passes graph' !! j = Some pj ->
     JsArray.get (renderTargetIDs pj) (slot_index slot) = Some id ->
     renderTargetDescriptions graph !! id = Some desc ->
     ~ (1 < desc_numSamples desc)%Z ->
     slot_resolveTo slot (descriptor pj) =
     match slot with
     | Color0 => if doPresent pj then presentColorTexture else None
     | DepthStencil => None
     end) /\
  (forall i j pi pj id,
     i <= j ->
     passes graph' !! i = Some pi -> passes graph' !! j = Some pj ->
     references graph this' pi id -> references graph this' pj id ->
     exists rt,
       rt ∈ rtPool this' /\
       observes graph this' pi id rt /\ observes graph this' pj id rt).
Proof.
  rewrite scheduleGraph_unfold. intros H Hpool Hempty Htable.
  inv_bind H as [] Ha1. inv_bind H as [] Ha2.
  inv_bind H as [[ps device1] this4] Hps. inv_bind H as [] Hcheck.
  rewrite sweepPools_spec in H. injection H as <- <- <-.
  destruct (afterPassA_shape graph this Hpool Hempty Htable) as (P3 & A3 & T3).
  destruct (schedulePasses_lookup _ _ _ _ _ _ _ _ Hps P3 A3 T3)
    as ((P4 & A4 & T4) & _ & _).
  apply checkAllReleased_OK in Hcheck as (_ & _ & Hempty4).
  assert (fresh_age (afterPassA graph this)) as F3.
  { intros id rt Hrt. destruct (afterPassA_frame graph this) as [Ha _].
    rewrite Ha in Hrt.
    rewrite (proj1 (alive_empty_get this) Hempty id) in Hrt. discriminate. }
  split; [exact T4|]. split.
  - intros j pj slot id desc Hj. cbn in Hj.
    now apply (schedulePasses_resolveTo_single _ _ _ _ _ _ _ _ j pj slot id desc Hps).
  - intros i j pi pj id Hij Hi Hj Hri Hrj. cbn in Hi, Hj.
    assert (table_kept this4 this4) as Hkept by (unfold table_kept; auto).
    destruct (schedulePasses_observes _ _ _ _ _ _ _ _ this4 i j pi pj id
                Hps P3 A3 T3 F3 Hkept Hij Hi Hj)
      as (rt & Hoi & Hoj & rt' & Hatt & Htex & Hage & Hin).
    + now apply (references_table graph _ this4) in Hri.
    + now apply (references_table graph _ this4) in Hrj.
    + assert (forall pass, observes graph this4 pass id rt ->
                           observes graph this4 pass id rt') as Hsame.
      { intros pass [Hslots Hinputs]. split.
        - intros slot Hslot. rewrite Hatt. now apply Hslots.
        - intros c Hc Ho Hnone. rewrite Htex. now apply Hinputs. }
      exists rt'. split; [|split; [exact (Hsame pi Hoi) | exact (Hsame pj Hoj)]].
      cbn. apply list_elem_of_filter. split.
      * unfold renderTarget_aged, SceneGraphExecutor.ageThreshold. lia.
      * destruct Hin as [Hin|[r Hr]]; [exact Hin|].
        rewrite (proj1 (alive_empty_get this4) Hempty4 r) in Hr. discriminate.
Qed.

(** C4 (as amended).  In a scheduled graph, let [copy] be a copy of the surface
    [surface], whose description is single-sampled.  Then no physical copy
    is registered for [copy]; every pass binding [surface] to a slot has a
    null resolve target for that slot (for Color0 of a pass flagged present
    the resolve target is the presentation texture, as for every such pass);
    and every pass consuming [copy] reads, when it looks [copy] up during its
    execution, the texture of a render target of the pool, which is the one
    whose attachment the passes binding [surface] render to.  At the level
    of the two functions: with a texture-backed render target checked out
    for [surface], the request for the copy-output returns null and changes
    neither the executor nor the device, and consuming [copy] returns the
    render target's texture and takes exactly one off the use-count of
    [surface]. *)
Theorem single_sampled_copy_is_passthrough (device device' : GfxDevice)
    (graph graph' : SceneGraph) (presentColorTexture : option GfxTexture)
    (this this' : SceneGraphExecutor.t) (surface copy : nat)
    (desc : RenderTargetDescription) :
  pool_shape this -> alive_empty this ->
  SceneGraphExecutor.resolveTextureForID this = [] ->
  SceneGraphExecutor.scheduleGraph device graph presentColorTexture this
    = OK (graph', device', this') ->
  resolveTextureRenderTargetIDs graph !! copy = Some surface ->
  renderTargetDescriptions graph !! surface = Some desc ->
  ~ (1 < desc_numSamples desc)%Z ->
  (* no physical copy *)
  JsArray.get (SceneGraphExecutor.resolveTextureForID this') copy = None
  /\
  (* the resolve target of the passes writing the surface *)
  (forall i producer slot,
     passes graph' !! i = Some producer ->
     JsArray.get (renderTargetIDs producer) (slot_index slot) = Some surface ->
     slot_resolveTo slot (descriptor producer) =
     match slot with
     | Color0 => if doPresent producer then presentColorTexture else None
     | DepthStencil => None
     end)
  /\
  (* what the passes reading the copy receive *)
  (forall j consumer,
     passes graph' !! j = Some consumer ->
     copy ∈ resolveTextureInputIDs consumer ->
     exists tex,
       lookup_during consumer copy = OK tex /\
       (exists renderTarget,
          renderTarget ∈ SceneGraphExecutor.renderTargetDeadPool this' /\
          RenderTarget.texture renderTarget = Some tex) /\
       forall i producer slot,
         passes graph' !! i = Some producer ->
         JsArray.get (renderTargetIDs producer) (slot_index slot) = Some surface ->
         exists renderTarget,
           renderTarget ∈ SceneGraphExecutor.renderTargetDeadPool this' /\
           RenderTarget.texture renderTarget = Some tex /\
           slot_attachment slot (descriptor producer)
             = Some (RenderTarget.attachment renderTarget))
  /\
  (* the request, at any state holding the surface in a texture-backed
     render target *)
  (forall device1 producer renderTarget tex,
     JsArray.get (SceneGraphExecutor.renderTargetAliveForID producer) surface
       = Some renderTarget ->
     RenderTarget.texture renderTarget = Some tex ->
     positive (SceneGraphExecutor.resolveTextureUseCount producer) copy ->
     SceneGraphExecutor.acquireResolveTextureOutputForID device1 graph (Some surface)
       (Some copy) producer = OK (None, device1, producer))
  /\
  (* the consumption, at any such state without a physical copy *)
  (forall consumer renderTarget tex z,
     JsArray.get (SceneGraphExecutor.renderTargetAliveForID consumer) surface
       = Some renderTarget ->
     RenderTarget.texture renderTarget = Some tex ->
     JsArray.get (SceneGraphExecutor.resolveTextureForID consumer) copy = None ->
     count_is (SceneGraphExecutor.renderTargetUseCount consumer) surface z ->
     (0 < z)%Z ->
     exists consumer',
       SceneGraphExecutor.acquireResolveTextureInputTextureForID graph copy consumer
         = OK (tex, consumer') /\
       count_is (SceneGraphExecutor.renderTargetUseCount consumer') surface (z - 1)).
Proof.
  intros Hpool Hempty Htable Hrun Horigin Hdesc Hsingle.
  destruct (scheduleGraph_observes _ _ _ _ _ _ _ Hrun Hpool Hempty Htable)
    as (Hshape & Hresolve & Hobs).
  assert (JsArray.get (rsForID this') copy = None) as Hnone.
  { destruct (JsArray.get (rsForID this') copy) as [rtex|] eqn:Hfor; [|reflexivity].
    exfalso. apply (single_not_multisampled graph copy).
    - exists surface, desc. auto.
    - now apply Hshape with rtex. }
  split; [exact Hnone|]. split; [|split; [|split]].
  - intros i producer slot Hi Hslot. now apply (Hresolve i producer slot surface desc).
  - intros j consumer Hj Hin.
    assert (references graph this' consumer surface) as Hrj by (right; eauto).
    destruct (Hobs j j consumer consumer surface (le_n j) Hj Hj Hrj Hrj)
      as (rt & Hpooled & [_ Hinputs] & _).
    destruct (Hinputs copy Hin Horigin Hnone) as (tex & Htex & Hlook).
    exists tex. split; [exact Hlook|]. split; [eauto|].
    intros i producer slot Hi Hslot.
    assert (references graph this' producer surface) as Hri by (left; eauto).
    assert (exists rt', rt' ∈ rtPool this' /\
                        observes graph this' producer surface rt' /\
                        observes graph this' consumer surface rt')
      as (rt' & Hpooled' & [Hslots _] & [_ Hinputs']).
    { destruct (Nat.le_ge_cases i j) as [Hij|Hji].
      - exact (Hobs i j producer consumer surface Hij Hi Hj Hri Hrj).
      - destruct (Hobs j i consumer producer surface Hji Hj Hi Hrj Hri)
          as (rt' & Hp' & Hc' & Hp''). eauto. }
    destruct (Hinputs' copy Hin Horigin Hnone) as (tex' & Htex' & Hlook').
    exists rt'. split; [exact Hpooled'|]. split; [congruence|].
    now apply Hslots.
  - intros device1 producer rt tex Halive Htex Hpos.
    now apply (copy_request_of_texture_backed_surface device1 graph surface copy
                 producer rt tex).
  - intros consumer rt tex z Halive Htex Hnone' Hz Hzpos.
    destruct (consumed_copy_releases_surface graph surface copy consumer rt z
                Horigin Halive Hz Hzpos) as (consumer' & Hz' & Hget & _).
    exists consumer'. split; [now apply Hget | exact Hz'].
Qed.

(** C4, the claim as stated fails for the Color0 slot of a pass flagged
    present: with a copy-output requested for that slot of a single-sampled
    surface, the resolve target of the pass is the presentation texture,
    not null. *)
Lemma present_single_sampled_copy_resolves :
  presented_copy_builder = OK (presented_copy_graph, SceneGraphBuilder.mk None) /\
  exists graph' device' this' producer,
    SceneGraphExecutor.scheduleGraph device0 presented_copy_graph (Some 99)
      SceneGraphExecutor.new = OK (graph', device', this') /\
    resolveTextureRenderTargetIDs presented_copy_graph !! 0 = Some 0 /\
    renderTargetDescriptions presented_copy_graph !! 0 = Some (surface256 1) /\
    ~ (1 < desc_numSamples (surface256 1))%Z /\
    passes graph' !! 0 = Some producer /\
    JsArray.get (renderTargetIDs producer) (slot_index Color0) = Some 0 /\
    JsArray.get (resolveTextureOutputIDs producer) (slot_index Color0) = Some 0 /\
    JsArray.get (SceneGraphExecutor.resolveTextureForID this') 0 = None /\
    slot_resolveTo Color0 (descriptor producer) = Some 99 /\
    slot_resolveTo Color0 (descriptor producer) <> None.
Proof.
  split; [vm_compute; reflexivity|].
  eexists _, _, _, _. split; [vm_compute; reflexivity|].
  split; [reflexivity|]. split; [reflexivity|].
  split; [vm_compute; discriminate|].
  split; [reflexivity|]. split; [reflexivity|]. split; [reflexivity|].
  split; [reflexivity|]. split; [reflexivity|discriminate].
Qed.
(** * Further properties of the scheduler

    What the counting phase leaves, and what a graph must satisfy for the
    allocation/release pass to go through. *)

Lemma afterPassA_counts (graph : SceneGraph) (this : Ex) :
  (forall id, id < length (renderTargetDescriptions graph) ->
     count_is (rtUC (afterPassA graph this)) id
              (Z.of_nat (total_surface_uses graph (passes graph) id))) /\
  (forall c, c < length (resolveTextureRenderTargetIDs graph) ->
     count_is (rsUC (afterPassA graph this)) c
              (Z.of_nat (total_input_uses (passes graph) c))) /\
  (forall id z, count_is (rtUC (afterPassA graph this)) id z ->
     id < length (renderTargetDescriptions graph)) /\
  (forall c z, count_is (rsUC (afterPassA graph this)) c z ->
     c < length (resolveTextureRenderTargetIDs graph)).
Proof.
  unfold afterPassA.
  set (this2 := SceneGraphExecutor.initUseCounts graph (SceneGraphExecutor.agePools this)).
  set (n := length (renderTargetDescriptions graph)).
  set (m := length (resolveTextureRenderTargetIDs graph)).
  assert (rtUC this2 = JsArray.fillArray n (Num 0)) as Hrt2 by reflexivity.
  assert (rsUC this2 = JsArray.fillArray m (Num 0)) as Hrs2 by reflexivity.
  assert (length (rtUC this2) = n) as Hn by (rewrite Hrt2; apply length_replicate).
  assert (length (rsUC this2) = m) as Hm by (rewrite Hrs2; apply length_replicate).
  destruct (countPasses_counted graph (passes graph) this2) as (CF1 & CF2 & _).
  destruct (countPasses_adds graph (passes graph) this2) as [A1 A2].
  split; [|split; [|split]].
  - intros id Hid.
    assert (count_is (rtUC this2) id 0) as H0
      by (unfold count_is; rewrite Hrt2; now apply get_fillArray).
    apply A1 in H0. now rewrite Z.add_0_l in H0.
  - intros c Hc.
    assert (count_is (rsUC this2) c 0) as H0
      by (unfold count_is; rewrite Hrs2; now apply get_fillArray).
    apply A2 in H0. now rewrite Z.add_0_l in H0.
  - intros id z Hz. destruct (CF1 id z Hz) as [z' Hz']. rewrite <- Hn.
    now apply get_lt with (Num z').
  - intros c z Hz. destruct (CF2 c z Hz) as [z' Hz']. rewrite <- Hm.
    now apply get_lt with (Num z').
Qed.

Lemma count_if_exists {A} (f : A -> bool) (l : list A) :
  0 < count_if f l -> exists x, x ∈ l /\ f x = true.
Proof.
  induction l as [|y l IH]; simpl; [lia|]. intros H.
  destruct (f y) eqn:Hy.
  - exists y. split; [apply elem_of_cons; now left | exact Hy].
  - destruct IH as (x & Hx & Hfx); [lia|]. exists x.
    split; [apply elem_of_cons; now right | exact Hfx].
Qed.

Lemma total_surface_uses_exists (graph : SceneGraph) (ps : list SceneGraphPassImpl)
    (id : nat) :
  0 < total_surface_uses graph ps id ->
  exists pass, pass ∈ ps /\ 0 < surface_uses graph pass id.
Proof.
  induction ps as [|q ps IH]; simpl; [lia|]. intros H.
  destruct (decide (0 < surface_uses graph q id)) as [Hq|Hq].
  - exists q. split; [apply elem_of_cons; now left | exact Hq].
  - destruct IH as (pass & Hp & Hu); [lia|]. exists pass.
    split; [apply elem_of_cons; now right | exact Hu].
Qed.

Lemma total_input_uses_exists (ps : list SceneGraphPassImpl) (c : nat) :
  0 < total_input_uses ps c ->
  exists pass, pass ∈ ps /\ c ∈ resolveTextureInputIDs pass.
Proof.
  induction ps as [|q ps IH]; simpl; [lia|]. intros H.
  destruct (decide (0 < input_uses q c)) as [Hq|Hq].
  - exists q. split; [apply elem_of_cons; now left|].
    apply count_if_exists in Hq as (x & Hx & Hfx).
    apply bool_decide_eq_true in Hfx. now subst x.
  - destruct IH as (pass & Hp & Hu); [lia|]. exists pass.
    split; [apply elem_of_cons; now right | exact Hu].
Qed.

(* what the allocation/release pass needs of the counts it starts from *)
Lemma schedulePasses_used_in_range (device device' : GfxDevice) (graph : SceneGraph)
    (presentColorTexture : option GfxTexture) (this this' : Ex)
    (ps : list SceneGraphPassImpl) :
  SceneGraphExecutor.schedulePasses device graph (passes graph) presentColorTexture
    (afterPassA graph this) = OK (ps, device', this') ->
  (forall id, 0 < total_surface_uses graph (passes graph) id ->
              id < length (renderTargetDescriptions graph)) /\
  (forall c, 0 < total_input_uses (passes graph) c ->
             c < length (resolveTextureRenderTargetIDs graph)).
Proof.
  intros Hsched.
  destruct (schedulePasses_counts _ _ _ _ _ _ _ _ Hsched) as (R1 & R2 & _).
  destruct (afterPassA_counts graph this) as (_ & _ & B1 & B2). split.
  - intros id Hid. destruct (released_by_used _ _ _ _ R1 Hid) as (z & Hz & _).
    now apply B1 with z.
  - intros c Hc. destruct (released_by_used _ _ _ _ R2 Hc) as (z & Hz & _).
    now apply B2 with z.
Qed.

Lemma scheduleGraph_OK_inv (device device' : GfxDevice) (graph graph' : SceneGraph)
    (presentColorTexture : option GfxTexture) (this this' : Ex) :
  SceneGraphExecutor.scheduleGraph device graph presentColorTexture this
    = OK (graph', device', this') ->
  rtUC this = [] /\ rsUC this = [] /\
  exists ps device1 this4,
    SceneGraphExecutor.schedulePasses device graph (passes graph) presentColorTexture
      (afterPassA graph this) = OK (ps, device1, this4) /\
    SceneGraphExecutor.checkAllReleased this4 = OK tt /\
    graph' = mkGraph (renderTargetDescriptions graph)
                     (resolveTextureRenderTargetIDs graph) ps /\
    (device', this') =
      (let (device2, this5) := SceneGraphExecutor.sweepPools device1 this4 in
       (device2, SceneGraphExecutor.clearUseCounts this5)).
Proof.
  rewrite scheduleGraph_unfold. intros H.
  inv_bind H as [] Ha1. inv_bind H as [] Ha2.
  apply assert_OK, bool_decide_eq_true, nil_length_inv in Ha1.
  apply assert_OK, bool_decide_eq_true, nil_length_inv in Ha2.
  inv_bind H as [[ps device1] this4] Hps. inv_bind H as [] Hcheck.
  split; [exact Ha1|]. split; [exact Ha2|].
  exists ps, device1, this4. split; [exact Hps|]. split; [exact Hcheck|].
  destruct (SceneGraphExecutor.sweepPools device1 this4) as [device2 this5].
  injection H as <- <- <-. auto.
Qed.

Lemma ids_in_range_of_run (device device' : GfxDevice) (graph : SceneGraph)
    (presentColorTexture : option GfxTexture) (this this' : Ex)
    (ps : list SceneGraphPassImpl) :
  SceneGraphExecutor.schedulePasses device graph (passes graph) presentColorTexture
    (afterPassA graph this) = OK (ps, device', this') ->
  ids_in_range graph.
Proof.
  intros Hsched.
  destruct (schedulePasses_used_in_range _ _ _ _ _ _ _ Hsched) as [Hs Hc].
  intros pass Hp. split.
  - intros id Hb. apply Hs.
    pose proof (total_surface_uses_member graph _ _ id Hp).
    pose proof (binds_slot_uses _ _ Hb). unfold surface_uses in *. lia.
  - intros c Hin.
    assert (c < length (resolveTextureRenderTargetIDs graph)) as Hlt.
    { apply Hc. pose proof (total_input_uses_member _ _ c Hp).
      pose proof (input_input_uses _ _ Hin). lia. }
    destruct (lookup_lt_is_Some_2 _ _ Hlt) as [id Ho]. exists id.
    split; [exact Ho|]. apply Hs.
    pose proof (total_surface_uses_member graph _ _ id Hp).
    pose proof (input_origin_uses graph _ _ _ Hin Ho). unfold surface_uses in *. lia.
Qed.

(** X1.  After the counting phase of [scheduleGraph] the use-count of a
    created surface id is the number of attachment slots bound to it plus
    the number of consumed copies that originate from it, summed over all
    the passes of the graph; the use-count of a created copy id is the
    number of times the passes consume it; and the cell of an id that was
    never created holds no number. *)
Theorem countPasses_totals (graph : SceneGraph) (this : SceneGraphExecutor.t) :
  (forall id, id < length (renderTargetDescriptions graph) ->
     count_is (SceneGraphExecutor.renderTargetUseCount (afterPassA graph this)) id
              (Z.of_nat (total_surface_uses graph (passes graph) id))) /\
  (forall copy, copy < length (resolveTextureRenderTargetIDs graph) ->
     count_is (SceneGraphExecutor.resolveTextureUseCount (afterPassA graph this)) copy
              (Z.of_nat (total_input_uses (passes graph) copy))) /\
  (forall id, length (renderTargetDescriptions graph) <= id ->
     forall z,
       ~ count_is (SceneGraphExecutor.renderTargetUseCount (afterPassA graph this))
                  id z) /\
  (forall copy, length (resolveTextureRenderTargetIDs graph) <= copy ->
     forall z,
       ~ count_is (SceneGraphExecutor.resolveTextureUseCount (afterPassA graph this))
                  copy z).
Proof.
  destruct (afterPassA_counts graph this) as (A1 & A2 & B1 & B2).
  split; [exact A1|]. split; [exact A2|]. split.
  - intros id Hid z Hz. apply B1 in Hz. lia.
  - intros c Hc z Hz. apply B2 in Hz. lia.
Qed.

(** X2.  A graph that mentions an id the builder never handed out cannot
    be scheduled: when [scheduleGraph] returns, every surface id bound by a
    pass has a description, and every copy id consumed by a pass has an
    origin surface, which has a description; otherwise [scheduleGraph] is
    fatal. *)
Theorem scheduleGraph_needs_created_ids (device : GfxDevice) (graph : SceneGraph)
    (presentColorTexture : option GfxTexture) (this : SceneGraphExecutor.t) :
  (forall graph' device' this',
     SceneGraphExecutor.scheduleGraph device graph presentColorTexture this
       = OK (graph', device', this') ->
     ids_in_range graph) /\
  (~ ids_in_range graph ->
   is_fatal (SceneGraphExecutor.scheduleGraph device graph presentColorTexture this)).
Proof.
  assert (forall graph' device' this',
            SceneGraphExecutor.scheduleGraph device graph presentColorTexture this
              = OK (graph', device', this') ->
            ids_in_range graph) as Hok.
  { intros graph' device' this' H.
    apply scheduleGraph_OK_inv in H as (_ & _ & ps & device1 & this4 & Hps & _).
    now apply ids_in_range_of_run in Hps. }
  split; [exact Hok|]. intros Hbad.
  destruct (SceneGraphExecutor.scheduleGraph device graph presentColorTexture this)
    as [[[graph' device'] this']|e] eqn:Hrun; [|exact I].
  exfalso. apply Hbad. now apply (Hok graph' device' this').
Qed.

(* a pass that is asked for a copy-output *)
Lemma schedulePass_output (device device' : GfxDevice) (graph : SceneGraph)
    (pass pass' : SceneGraphPassImpl) (presentColorTexture : option GfxTexture)
    (this this' : Ex) (slot : RenderTargetAttachmentSlot) (c : nat) :
  SceneGraphExecutor.schedulePass device graph pass presentColorTexture this
    = OK (pass', device', this') ->
  JsArray.get (resolveTextureOutputIDs pass) (slot_index slot) = Some c ->
  (slot = Color0 -> doPresent pass = false) ->
  positive (rsUC this) c /\
  exists id,
    JsArray.get (renderTargetIDs pass) (slot_index slot) = Some id /\
    resolveTextureRenderTargetIDs graph !! c = Some id.
Proof.
  intros H Hout Hpresent. apply schedulePass_inv in H. cbn zeta in H.
  destruct H as (color0 & device1 & this1 & colorClear & depthStencil & device2
                 & this2 & depthClear & stencilClear & colorResolve & device3
                 & this3 & depthResolve & this4 & textures & this7 & this8
                 & H1 & _ & H3 & _ & _ & H6 & H7 & _).
  destruct (acquireRenderTargetForID_frame _ _ _ _ _ _ _ H1) as (_ & Hs1 & _).
  destruct (acquireRenderTargetForID_frame _ _ _ _ _ _ _ H3) as (_ & Hs2 & _).
  destruct (colorResolve_frame _ _ _ _ _ _ _ _ _ H6) as (_ & Hs3 & _).
  destruct slot; cbn [slot_index] in *.
  - rewrite (Hpresent eq_refl), Hout in H6.
    apply acquireResolveTextureOutputForID_inv in H6 as (Hsrc & Hpos & rt & Hrt & _).
    split; [now rewrite <- Hs1, <- Hs2|].
    destruct (JsArray.get (renderTargetIDs pass) 0) as [id|]; [|discriminate].
    exists id. auto.
  - rewrite Hout in H7.
    apply acquireResolveTextureOutputForID_inv in H7 as (Hsrc & Hpos & rt & Hrt & _).
    split; [now rewrite <- Hs1, <- Hs2, <- Hs3|].
    destruct (JsArray.get (renderTargetIDs pass) 1) as [id|]; [|discriminate].
    exists id. auto.
Qed.

Lemma schedulePasses_output (device device' : GfxDevice) (graph : SceneGraph)
    (ps ps' : list SceneGraphPassImpl) (presentColorTexture : option GfxTexture)
    (this this' : Ex) (pass : SceneGraphPassImpl)
    (slot : RenderTargetAttachmentSlot) (c : nat) :
  SceneGraphExecutor.schedulePasses device graph ps presentColorTexture this
    = OK (ps', device', this') ->
  pass ∈ ps ->
  JsArray.get (resolveTextureOutputIDs pass) (slot_index slot) = Some c ->
  (slot = Color0 -> doPresent pass = false) ->
  positive (rsUC this) c /\
  exists id,
    JsArray.get (renderTargetIDs pass) (slot_index slot) = Some id /\
    resolveTextureRenderTargetIDs graph !! c = Some id.
Proof.
  revert device this ps'. induction ps as [|q ps IH]; intros device this ps'; simpl.
  - intros _ Hin. inversion Hin.
  - intros H Hin Hout Hpresent. inv_bind H as [[q' device1] this1] Hq.
    inv_bind H as [[ps'' device2] this2] Hps. injection H as <- <- <-.
    apply elem_of_cons in Hin as [->|Hin].
    + now apply (schedulePass_output _ _ _ _ _ _ _ _ _ _ Hq).
    + destruct (IH _ _ _ Hps Hin Hout Hpresent) as [Hpos Hid].
      split; [|exact Hid].
      destruct (schedulePass_counts _ _ _ _ _ _ _ _ Hq) as (_ & R2 & _).
      now apply (released_by_positive _ _ _ _ R2).
Qed.

(** X3.  A copy-output only goes through scheduling when it is wired up:
    if [scheduleGraph] returns and a pass carries a copy-output request for
    a slot (Color0 of a pass flagged present apart, where the request is
    not looked at), then that slot of the pass is bound to the surface the
    copy was requested of, and some pass of the graph consumes the copy.
    A requested copy that no pass consumes makes [scheduleGraph] fatal. *)
Theorem scheduleGraph_outputs_consumed (device : GfxDevice) (graph : SceneGraph)
    (presentColorTexture : option GfxTexture) (this : SceneGraphExecutor.t)
    (pass : SceneGraphPassImpl) (slot : RenderTargetAttachmentSlot) (copy : nat) :
  pass ∈ passes graph ->
  JsArray.get (resolveTextureOutputIDs pass) (slot_index slot) = Some copy ->
  (slot = Color0 -> doPresent pass = false) ->
  (forall graph' device' this',
     SceneGraphExecutor.scheduleGraph device graph presentColorTexture this
       = OK (graph', device', this') ->
     (exists id,
        JsArray.get (renderTargetIDs pass) (slot_index slot) = Some id /\
        resolveTextureRenderTargetIDs graph !! copy = Some id) /\
     exists consumer,
       consumer ∈ passes graph /\ copy ∈ resolveTextureInputIDs consumer) /\
  ((forall consumer, consumer ∈ passes graph ->
                     copy ∉ resolveTextureInputIDs consumer) ->
   is_fatal (SceneGraphExecutor.scheduleGraph device graph presentColorTexture this)).
Proof.
  intros Hp Hout Hpresent.
  assert (forall graph' device' this',
            SceneGraphExecutor.scheduleGraph device graph presentColorTexture this
              = OK (graph', device', this') ->
            (exists id,
               JsArray.get (renderTargetIDs pass) (slot_index slot) = Some id /\
               resolveTextureRenderTargetIDs graph !! copy = Some id) /\
            exists consumer,
              consumer ∈ passes graph /\ copy ∈ resolveTextureInputIDs consumer)
    as Hok.
  { intros graph' device' this' H.
    apply scheduleGraph_OK_inv in H as (_ & _ & ps & device1 & this4 & Hps & _).
    destruct (schedulePasses_output _ _ _ _ _ _ _ _ _ _ _ Hps Hp Hout Hpresent)
      as [(z & Hz & Hpos) Hid].
    split; [exact Hid|]. apply total_input_uses_exists.
    destruct (afterPassA_counts graph this) as (_ & A2 & _ & B2).
    pose proof (count_is_inj _ _ _ _ Hz (A2 copy (B2 copy z Hz))). lia. }
  split; [exact Hok|]. intros Hnone.
  destruct (SceneGraphExecutor.scheduleGraph device graph presentColorTexture this)
    as [[[graph' device'] this']|e] eqn:Hrun; [|exact I].
  exfalso. destruct (Hok graph' device' this' eq_refl) as (_ & consumer & Hc & Hin).
  exact (Hnone consumer Hc Hin).
Qed.

(** * The allocation/release pass, pass by pass *)

Section RunDecomposition.

Variable graph : SceneGraph.
Variable presentColorTexture : option GfxTexture.
Variable Inv : GfxDevice -> SceneGraphExecutor.t -> Prop.
Variable Rel : SceneGraphExecutor.t -> SceneGraphExecutor.t -> Prop.
Hypothesis Rel_refl : forall this, Rel this this.
Hypothesis Rel_trans : forall a b c, Rel a b -> Rel b c -> Rel a c.
Hypothesis step :
  forall device pass pass' device' this this',
    SceneGraphExecutor.schedulePass device graph pass presentColorTexture this
      = OK (pass', device', this') ->
    Inv device this -> Inv device' this' /\ Rel this this'.

(* every pass of a run was scheduled from a state the invariant holds at *)
Lemma schedulePasses_each (device device' : GfxDevice)
    (ps ps' : list SceneGraphPassImpl) (this this' : Ex) :
  SceneGraphExecutor.schedulePasses device graph ps presentColorTexture this
    = OK (ps', device', this') ->
  Inv device this ->
  Inv device' this' /\ Rel this this' /\ length ps' = length ps /\
  forall j pass,
    ps !! j = Some pass ->
    exists pass' dj tj dj' tj',
      ps' !! j = Some pass' /\
      SceneGraphExecutor.schedulePass dj graph pass presentColorTexture tj
        = OK (pass', dj', tj') /\
      Inv dj tj /\ Rel this tj /\ Inv dj' tj' /\ Rel tj' this'.
Proof.
  revert device this ps'. induction ps as [|q ps IH]; intros device this ps'; simpl.
  - intros [= <- <- <-] Hinv. split; [exact Hinv|]. split; [apply Rel_refl|].
    split; [reflexivity|]. intros j pass Hj. discriminate.
  - intros H Hinv. inv_bind H as [[q' device1] this1] Hq.
    inv_bind H as [[ps'' device2] this2] Hps. injection H as <- <- <-.
    destruct (step _ _ _ _ _ _ Hq Hinv) as [Hinv1 Hrel1].
    destruct (IH _ _ _ Hps Hinv1) as (Hinv2 & Hrel2 & Hlen & Heach).
    split; [exact Hinv2|]. split; [now apply Rel_trans with this1|].
    split; [simpl; now rewrite Hlen|].
    intros [|j] pass Hj; simpl in Hj.
    + injection Hj as ->. exists q', device, this, device1, this1.
      split; [reflexivity|]. split; [exact Hq|]. split; [exact Hinv|].
      split; [apply Rel_refl|]. split; [exact Hinv1 | exact Hrel2].
    + destruct (Heach j pass Hj)
        as (pass' & dj & tj & dj' & tj' & Hj' & Hrun & Hi & Hr & Hi' & Hr').
      exists pass', dj, tj, dj', tj'. split; [exact Hj'|]. split; [exact Hrun|].
      split; [exact Hi|]. split; [now apply Rel_trans with this1|]. auto.
Qed.

End RunDecomposition.

Lemma schedulePass_shaped (device device' : GfxDevice) (graph : SceneGraph)
    (pass pass' : SceneGraphPassImpl) (presentColorTexture : option GfxTexture)
    (this this' : Ex) :
  SceneGraphExecutor.schedulePass device graph pass presentColorTexture this
    = OK (pass', device', this') ->
  shaped graph this -> shaped graph this' /\ table_kept this this'.
Proof.
  intros H (Hpool & Halive & Htable).
  destruct (schedulePass_lookup _ _ _ _ _ _ _ _ H Hpool Halive Htable)
    as (Hshaped & Hkept & _).
  split; [exact Hshaped | exact Hkept].
Qed.

Lemma table_kept_refl (this : Ex) : table_kept this this.
Proof. unfold table_kept. auto. Qed.

(* a scheduled graph, pass by pass *)
Lemma scheduleGraph_each (device device' : GfxDevice) (graph graph' : SceneGraph)
    (presentColorTexture : option GfxTexture) (this this' : Ex) :
  SceneGraphExecutor.scheduleGraph device graph presentColorTexture this
    = OK (graph', device', this') ->
  pool_shape this -> alive_empty this -> rsForID this = [] ->
  length (passes graph') = length (passes graph) /\
  forall j pass,
    passes graph !! j = Some pass ->
    exists pass' dj tj dj' tj',
      passes graph' !! j = Some pass' /\
      SceneGraphExecutor.schedulePass dj graph pass presentColorTexture tj
        = OK (pass', dj', tj') /\
      shaped graph tj /\ shaped graph tj' /\ table_kept tj' this'.
Proof.
  intros H Hpool Hempty Htable.
  apply scheduleGraph_OK_inv in H
    as (_ & _ & ps & device1 & this4 & Hps & _ & -> & Hfinal).
  destruct (afterPassA_shape graph this Hpool Hempty Htable) as (P3 & A3 & T3).
  destruct (schedulePasses_each graph presentColorTexture
              (fun _ this => shaped graph this) table_kept
              table_kept_refl table_kept_trans
              (fun device pass pass' device' this this' =>
                 schedulePass_shaped device device' graph pass pass'
                   presentColorTexture this this')
              _ _ _ _ _ _ Hps (conj P3 (conj A3 T3)))
    as (_ & _ & Hlen & Heach).
  split; [exact Hlen|].
  intros j pass Hj.
  destruct (Heach j pass Hj)
    as (pass' & dj & tj & dj' & tj' & Hj' & Hrun & Hi & _ & Hi' & Hr').
  exists pass', dj, tj, dj', tj'. split; [exact Hj'|]. split; [exact Hrun|].
  split; [exact Hi|]. split; [exact Hi'|].
  rewrite sweepPools_spec in Hfinal. injection Hfinal as -> ->. exact Hr'.
Qed.

(** * What scheduling writes into a pass *)

(* the scheduled pass is the pass with its descriptor, pixel viewport and
   input textures filled in *)
Lemma schedulePass_result (device device' : GfxDevice) (graph : SceneGraph)
    (pass pass' : SceneGraphPassImpl) (presentColorTexture : option GfxTexture)
    (this this' : Ex) :
  SceneGraphExecutor.schedulePass device graph pass presentColorTexture this
    = OK (pass', device', this') ->
  exists color0 device1 this1 depthStencil device2 this2 descriptor' textures,
    SceneGraphExecutor.acquireRenderTargetForID device graph
      (JsArray.get (renderTargetIDs pass) 0) this = OK (color0, device1, this1) /\
    SceneGraphExecutor.acquireRenderTargetForID device1 graph
      (JsArray.get (renderTargetIDs pass) 1) this1
      = OK (depthStencil, device2, this2) /\
    SceneGraphExecutor.checkAttachmentsMatch color0 depthStencil = OK tt /\
    pass' =
      with_resolveTextureInputTextures textures
        (SceneGraphExecutor.scheduleViewport
           (fst (SceneGraphExecutor.attachmentSize color0 depthStencil))
           (snd (SceneGraphExecutor.attachmentSize color0 depthStencil))
           (with_descriptor descriptor' pass)).
Proof.
  unfold SceneGraphExecutor.schedulePass. cbn [slot_index]. intros H.
  inv_bind H as [[color0 device1] this1] H1. inv_bind H as colorClear H2.
  inv_bind H as [[depthStencil device2] this2] H3. inv_bind H as depthClear H4.
  inv_bind H as stencilClear H5.
  inv_bind H as [[colorResolve device3] this3] H6.
  inv_bind H as [[depthResolve device4] this4] H7.
  inv_bind H as [] H8.
  destruct (SceneGraphExecutor.attachmentSize color0 depthStencil) as [w h] eqn:Hsize.
  inv_bind H as [textures this7] H9. inv_bind H as this8 H10.
  inv_bind H as this9 H11. injection H as <- <- <-.
  eexists color0, device1, this1, depthStencil, device2, this2, _, textures.
  split; [exact H1|]. split; [exact H3|]. split; [exact H8|].
  rewrite Hsize. reflexivity.
Qed.

Lemma scheduleViewport_setup (w h : Z) (pass : SceneGraphPassImpl) :
  same_setup pass (SceneGraphExecutor.scheduleViewport w h pass).
Proof.
  unfold SceneGraphExecutor.scheduleViewport, same_setup.
  destruct ((0 <? w)%Z && (0 <? h)%Z); cbn; auto 10.
Qed.

Lemma schedulePass_setup (device device' : GfxDevice) (graph : SceneGraph)
    (pass pass' : SceneGraphPassImpl) (presentColorTexture : option GfxTexture)
    (this this' : Ex) :
  SceneGraphExecutor.schedulePass device graph pass presentColorTexture this
    = OK (pass', device', this') ->
  same_setup pass pass'.
Proof.
  intros H. apply schedulePass_result in H
    as (color0 & device1 & this1 & depthStencil & device2 & this2 & d & textures
        & _ & _ & _ & ->).
  destruct (scheduleViewport_setup
              (fst (SceneGraphExecutor.attachmentSize color0 depthStencil))
              (snd (SceneGraphExecutor.attachmentSize color0 depthStencil))
              (with_descriptor d pass)) as (E1 & E2 & E3 & E4 & E5 & E6 & E7).
  unfold same_setup. cbn in *. auto 10.
Qed.

(** X4.  Scheduling fills in the computed state of the passes and nothing
    else: the scheduled graph has the same surface descriptions and copy
    origins, as many passes in the same order, and each pass keeps the
    slots, copy-output requests, copy inputs, present flag, normalized
    viewport, callback and debug name its setup gave it. *)
Theorem scheduleGraph_keeps_setup (device device' : GfxDevice)
    (graph graph' : SceneGraph) (presentColorTexture : option GfxTexture)
    (this this' : SceneGraphExecutor.t) :
  SceneGraphExecutor.scheduleGraph device graph presentColorTexture this
    = OK (graph', device', this') ->
  renderTargetDescriptions graph' = renderTargetDescriptions graph /\
  resolveTextureRenderTargetIDs graph' = resolveTextureRenderTargetIDs graph /\
  length (passes graph') = length (passes graph) /\
  forall j pass pass',
    passes graph !! j = Some pass -> passes graph' !! j = Some pass' ->
    same_setup pass pass'.
Proof.
  intros H.
  apply scheduleGraph_OK_inv in H
    as (_ & _ & ps & device1 & this4 & Hps & _ & -> & _).
  destruct (schedulePasses_each graph presentColorTexture
              (fun _ _ => True) (fun _ _ => True)
              (fun _ => I) (fun _ _ _ _ _ => I)
              (fun _ _ _ _ _ _ _ _ => conj I I)
              _ _ _ _ _ _ Hps I)
    as (_ & _ & Hlen & Heach).
  split; [reflexivity|]. split; [reflexivity|]. split; [exact Hlen|].
  intros j pass pass' Hj Hj'. cbn in Hj'.
  destruct (Heach j pass Hj) as (q & dj & tj & dj' & tj' & Hq & Hrun & _).
  assert (q = pass') as -> by congruence.
  now apply schedulePass_setup in Hrun.
Qed.

Lemma matchesDescription_fields (rt : RenderTarget.t) (desc : RenderTargetDescription) :
  RenderTarget.matchesDescription rt desc = true ->
  RenderTarget.pixelFormat rt = desc_pixelFormat desc /\
  RenderTarget.width rt = desc_width desc /\
  RenderTarget.height rt = desc_height desc /\
  RenderTarget.numSamples rt = desc_numSamples desc.
Proof.
  unfold RenderTarget.matchesDescription. rewrite !andb_true_iff.
  intros (((H1 & H2) & H3) & H4).
  apply bool_decide_eq_true in H1, H2, H3, H4. auto.
Qed.

(* the render targets a pass is given match the descriptions of the
   surfaces it binds *)
Lemma schedulePass_acquired_match (device device1 device2 : GfxDevice)
    (graph : SceneGraph) (o1 o2 : option nat) (this this1 this2 : Ex)
    (color0 depthStencil : option RenderTarget.t) :
  SceneGraphExecutor.acquireRenderTargetForID device graph o1 this
    = OK (color0, device1, this1) ->
  SceneGraphExecutor.acquireRenderTargetForID device1 graph o2 this1
    = OK (depthStencil, device2, this2) ->
  pool_shape this -> alive_shape graph this ->
  (forall id, o1 = Some id ->
     exists rt desc,
       color0 = Some rt /\ renderTargetDescriptions graph !! id = Some desc /\
       RenderTarget.matchesDescription rt desc = true) /\
  (forall id, o2 = Some id ->
     exists rt desc,
       depthStencil = Some rt /\ renderTargetDescriptions graph !! id = Some desc /\
       RenderTarget.matchesDescription rt desc = true) /\
  (o1 = None -> color0 = None) /\ (o2 = None -> depthStencil = None).
Proof.
  intros H1 H3 Hpool Hshape.
  destruct (acquireRenderTargetForID_shape _ _ _ _ _ _ _ H1 Hpool Hshape)
    as (Hpool1 & Hshape1 & _).
  destruct (acquireRenderTargetForID_shape _ _ _ _ _ _ _ H3 Hpool1 Hshape1)
    as (Hpool2 & Hshape2 & _).
  destruct (schedulePass_acquired _ _ _ _ _ _ _ _ _ _ _ H1 H3) as (_ & A1 & A2).
  split; [|split; [|split]].
  - intros id Hid. destruct (A1 id Hid) as (rt & Hc & Hrt).
    destruct (Hshape2 id rt Hrt) as (_ & desc & Hdesc & Hm). eauto.
  - intros id Hid. destruct (A2 id Hid) as (rt & Hc & Hrt).
    destruct (Hshape2 id rt Hrt) as (_ & desc & Hdesc & Hm). eauto.
  - intros ->. now injection H1 as <- _ _.
  - intros ->. now injection H3 as <- _ _.
Qed.

(** X5.  The two slots of a pass must agree in size and sample count: if
    [scheduleGraph] returns and a pass binds both Color0 and DepthStencil,
    the descriptions of the two surfaces have the same width, height and
    number of samples (their pixel formats are free). *)
Theorem scheduleGraph_slots_agree (device device' : GfxDevice)
    (graph graph' : SceneGraph) (presentColorTexture : option GfxTexture)
    (this this' : SceneGraphExecutor.t) (pass : SceneGraphPassImpl)
    (color depth : nat) (colorDesc depthDesc : RenderTargetDescription) :
  pool_shape this -> alive_empty this ->
  SceneGraphExecutor.resolveTextureForID this = [] ->
  SceneGraphExecutor.scheduleGraph device graph presentColorTexture this
    = OK (graph', device', this') ->
  pass ∈ passes graph ->
  JsArray.get (renderTargetIDs pass) (slot_index Color0) = Some color ->
  JsArray.get (renderTargetIDs pass) (slot_index DepthStencil) = Some depth ->
  renderTargetDescriptions graph !! color = Some colorDesc ->
  renderTargetDescriptions graph !! depth = Some depthDesc ->
  desc_width colorDesc = desc_width depthDesc /\
  desc_height colorDesc = desc_height depthDesc /\
  desc_numSamples colorDesc = desc_numSamples depthDesc.
Proof.
  intros Hpool Hempty Htable Hrun Hp Hc Hd Hcd Hdd.
  destruct (scheduleGraph_each _ _ _ _ _ _ _ Hrun Hpool Hempty Htable) as [_ Heach].
  apply list_elem_of_lookup in Hp as [j Hj].
  destruct (Heach j pass Hj)
    as (pass' & dj & tj & dj' & tj' & _ & Hpass & (Pj & Aj & _) & _).
  apply schedulePass_result in Hpass
    as (color0 & device1 & this1 & depthStencil & device2 & this2 & d & textures
        & H1 & H3 & H8 & _).
  destruct (schedulePass_acquired_match _ _ _ _ _ _ _ _ _ _ _ H1 H3 Pj Aj)
    as (M1 & M2 & _).
  destruct (M1 color Hc) as (rtc & dc & -> & Hdc & Hmc).
  destruct (M2 depth Hd) as (rtd & dd & -> & Hdd' & Hmd).
  assert (dc = colorDesc) as -> by congruence.
  assert (dd = depthDesc) as -> by congruence.
  apply matchesDescription_fields in Hmc as (_ & Wc & Hc' & Nc).
  apply matchesDescription_fields in Hmd as (_ & Wd & Hd' & Nd).
  cbn in H8. inv_bind H8 as [] Hw. inv_bind H8 as [] Hh.
  apply assert_OK, bool_decide_eq_true in Hw, Hh, H8.
  repeat split; congruence.
Qed.

Lemma attachmentSize_sizing (graph : SceneGraph) (pass : SceneGraphPassImpl)
    (device device1 device2 : GfxDevice) (this this1 this2 : Ex)
    (color0 depthStencil : option RenderTarget.t) :
  SceneGraphExecutor.acquireRenderTargetForID device graph
    (JsArray.get (renderTargetIDs pass) 0) this = OK (color0, device1, this1) ->
  SceneGraphExecutor.acquireRenderTargetForID device1 graph
    (JsArray.get (renderTargetIDs pass) 1) this1 = OK (depthStencil, device2, this2) ->
  pool_shape this -> alive_shape graph this ->
  match sizing_surface pass with
  | Some id =>
      exists desc,
        renderTargetDescriptions graph !! id = Some desc /\
        SceneGraphExecutor.attachmentSize color0 depthStencil
          = (desc_width desc, desc_height desc)
  | None => SceneGraphExecutor.attachmentSize color0 depthStencil = (0, 0)%Z
  end.
Proof.
  intros H1 H3 Hpool Hshape.
  destruct (schedulePass_acquired_match _ _ _ _ _ _ _ _ _ _ _ H1 H3 Hpool Hshape)
    as (M1 & M2 & N1 & N2).
  unfold sizing_surface. cbn [slot_index].
  destruct (JsArray.get (renderTargetIDs pass) 0) as [c0|].
  - destruct (M1 c0 eq_refl) as (rt & desc & -> & Hdesc & Hm).
    apply matchesDescription_fields in Hm as (_ & Hw & Hh & _).
    exists desc. split; [exact Hdesc|]. cbn. now rewrite Hw, Hh.
  - rewrite (N1 eq_refl).
    destruct (JsArray.get (renderTargetIDs pass) 1) as [ds|].
    + destruct (M2 ds eq_refl) as (rt & desc & -> & Hdesc & Hm).
      apply matchesDescription_fields in Hm as (_ & Hw & Hh & _).
      exists desc. split; [exact Hdesc|]. cbn. now rewrite Hw, Hh.
    + now rewrite (N2 eq_refl).
Qed.

(** X6.  The pixel viewport of a scheduled pass is the normalized
    viewport of the pass scaled by the described size of the surface bound
    to Color0, or of the one bound to DepthStencil when Color0 is unbound:
    x and w are the products, in double arithmetic, of the width with the
    normalized x and w, y and h those of the height with the normalized y
    and h.  When the width or the height is not positive, and when the
    pass binds no surface, the pass keeps the pixel viewport it had. *)
Theorem scheduleGraph_viewport (device device' : GfxDevice)
    (graph graph' : SceneGraph) (presentColorTexture : option GfxTexture)
    (this this' : SceneGraphExecutor.t) (j : nat) (pass pass' : SceneGraphPassImpl) :
  pool_shape this -> alive_empty this ->
  SceneGraphExecutor.resolveTextureForID this = [] ->
  SceneGraphExecutor.scheduleGraph device graph presentColorTexture this
    = OK (graph', device', this') ->
  passes graph !! j = Some pass -> passes graph' !! j = Some pass' ->
  match sizing_surface pass with
  | Some id =>
      exists desc,
        renderTargetDescriptions graph !! id = Some desc /\
        pixelViewport pass' =
        if (0 <? desc_width desc)%Z && (0 <? desc_height desc)%Z
        then (PrimFloat.mul (double_of_Z (desc_width desc)) (vp_x (viewport pass)),
              PrimFloat.mul (double_of_Z (desc_height desc)) (vp_y (viewport pass)),
              PrimFloat.mul (double_of_Z (desc_width desc)) (vp_w (viewport pass)),
              PrimFloat.mul (double_of_Z (desc_height desc)) (vp_h (viewport pass)))
        else pixelViewport pass
  | None => pixelViewport pass' = pixelViewport pass
  end.
Proof.
  intros Hpool Hempty Htable Hrun Hj Hj'.
  destruct (scheduleGraph_each _ _ _ _ _ _ _ Hrun Hpool Hempty Htable) as [_ Heach].
  destruct (Heach j pass Hj)
    as (q & dj & tj & dj' & tj' & Hq & Hpass & (Pj & Aj & _) & _).
  assert (q = pass') as -> by congruence.
  apply schedulePass_result in Hpass
    as (color0 & device1 & this1 & depthStencil & device2 & this2 & d & textures
        & H1 & H3 & _ & ->).
  pose proof (attachmentSize_sizing graph pass _ _ _ _ _ _ _ _ H1 H3 Pj Aj) as Hsize.
  destruct (sizing_surface pass) as [id|].
  - destruct Hsize as (desc & Hdesc & ->). exists desc. split; [exact Hdesc|].
    unfold pixelViewport, SceneGraphExecutor.scheduleViewport. cbn [fst snd].
    destruct ((0 <? desc_width desc)%Z && (0 <? desc_height desc)%Z); reflexivity.
  - rewrite Hsize. reflexivity.
Qed.

(* a copy-output requested of a multi-sampled surface *)
Lemma acquireResolveTextureOutputForID_multi (device device' : GfxDevice)
    (graph : SceneGraph) (id c : nat) (this this' : Ex)
    (out : option GfxTexture) (desc : RenderTargetDescription) :
  SceneGraphExecutor.acquireResolveTextureOutputForID device graph (Some id) (Some c)
    this = OK (out, device', this') ->
  alive_shape graph this ->
  renderTargetDescriptions graph !! id = Some desc ->
  (1 < desc_numSamples desc)%Z ->
  exists rtex,
    JsArray.get (rsForID this') c = Some rtex /\
    out = Some (ResolveTexture.texture rtex).
Proof.
  intros H Hshape Hdesc Hmulti.
  apply acquireResolveTextureOutputForID_inv in H as (_ & _ & rt & Hrt & H).
  cbn in Hrt. destruct (Hshape id rt Hrt) as (Hiff & desc' & Hdesc' & Hm).
  assert (desc' = desc) as -> by congruence.
  apply matchesDescription_numSamples in Hm.
  assert (RenderTarget.texture rt = None) as Htex by (apply Hiff; congruence).
  destruct H as [H|[H|H]].
  - destruct H as ([tex Hsome] & _). congruence.
  - destruct H as (_ & rtex & Hfor & -> & _ & ->). eauto.
  - destruct H as (_ & _ & surface & d & rtex & this1 & _ & _ & _ & -> & ->).
    exists rtex. cbn. split; [apply get_set_eq | reflexivity].
Qed.

Lemma schedulePass_resolveTo_multi (device device' : GfxDevice) (graph : SceneGraph)
    (pass pass' : SceneGraphPassImpl) (presentColorTexture : option GfxTexture)
    (this this' : Ex) (slot : RenderTargetAttachmentSlot) (id c : nat)
    (desc : RenderTargetDescription) :
  SceneGraphExecutor.schedulePass device graph pass presentColorTexture this
    = OK (pass', device', this') ->
  shaped graph this ->
  JsArray.get (resolveTextureOutputIDs pass) (slot_index slot) = Some c ->
  (slot = Color0 -> doPresent pass = false) ->
  resolveTextureRenderTargetIDs graph !! c = Some id ->
  renderTargetDescriptions graph !! id = Some desc ->
  (1 < desc_numSamples desc)%Z ->
  exists rtex,
    JsArray.get (rsForID this') c = Some rtex /\
    slot_resolveTo slot (descriptor pass') = Some (ResolveTexture.texture rtex).
Proof.
  intros H (Hpool & Hshape & Htable) Hout Hpresent Horigin Hdesc Hmulti.
  destruct (schedulePass_output _ _ _ _ _ _ _ _ _ _ H Hout Hpresent)
    as (_ & id' & Hslot & Ho').
  assert (id' = id) as -> by congruence.
  apply schedulePass_inv in H. cbn zeta in H.
  destruct H as (color0 & device1 & this1 & colorClear & depthStencil & device2
                 & this2 & depthClear & stencilClear & colorResolve & device3
                 & this3 & depthResolve & this4 & textures & this7 & this8
                 & H1 & _ & H3 & _ & _ & H6 & H7 & _ & H9 & H10 & H11
                 & _ & _ & _ & Hd).
  destruct (acquireRenderTargetForID_shape _ _ _ _ _ _ _ H1 Hpool Hshape)
    as (Hpool1 & Hshape1 & Hf1).
  destruct (acquireRenderTargetForID_shape _ _ _ _ _ _ _ H3 Hpool1 Hshape1)
    as (Hpool2 & Hshape2 & Hf2).
  destruct (table_frame graph this this2) as [T2 _]; [congruence|].
  destruct (colorResolve_frame _ _ _ _ _ _ _ _ _ H6) as (_ & _ & Ha3 & Hp3).
  destruct (shape_frame graph this2 this3 Ha3 Hp3) as [_ A3].
  destruct (colorResolve_shape _ _ _ _ _ _ _ _ _ H6 Hshape2 (T2 Htable)) as [T3 _].
  destruct (acquireResolveTextureOutputForID_shape _ _ _ _ _ _ _ _ H7
              (A3 Hshape2) T3) as [_ K4].
  pose proof (rest_of_pass_keeps_resolveTextureForID _ _ _ _ _ _ _ _ _ H9 H10 H11)
    as Hrest.
  rewrite Hd, Hrest. destruct slot; cbn [slot_index] in *; cbn.
  - rewrite (Hpresent eq_refl), Hslot, Hout in H6.
    destruct (acquireResolveTextureOutputForID_multi _ _ _ _ _ _ _ _ _
                H6 Hshape2 Hdesc Hmulti) as (rtex & Hfor & ->).
    exists rtex. split; [now apply K4 | reflexivity].
  - rewrite Hslot, Hout in H7.
    destruct (acquireResolveTextureOutputForID_multi _ _ _ _ _ _ _ _ _
                H7 (A3 Hshape2) Hdesc Hmulti) as (rtex & Hfor & ->).
    exists rtex. split; [exact Hfor | reflexivity].
Qed.

(** X7.  A copy of a multi-sampled surface is resolved into a physical
    copy that its consumers sample: in a scheduled graph, the pass that
    carries the copy-output request (Color0 of a pass flagged present
    apart) has the texture of the resolve texture registered for the copy
    id as resolve target of that slot, and every pass consuming the copy id
    reads that same texture when it looks the copy up. *)
Theorem multisampled_copy_is_resolved (device device' : GfxDevice)
    (graph graph' : SceneGraph) (presentColorTexture : option GfxTexture)
    (this this' : SceneGraphExecutor.t) (surface copy : nat)
    (desc : RenderTargetDescription) (i : nat) (producer : SceneGraphPassImpl)
    (slot : RenderTargetAttachmentSlot) :
  pool_shape this -> alive_empty this ->
  SceneGraphExecutor.resolveTextureForID this = [] ->
  SceneGraphExecutor.scheduleGraph device graph presentColorTexture this
    = OK (graph', device', this') ->
  resolveTextureRenderTargetIDs graph !! copy = Some surface ->
  renderTargetDescriptions graph !! surface = Some desc ->
  (1 < desc_numSamples desc)%Z ->
  passes graph !! i = Some producer ->
  JsArray.get (resolveTextureOutputIDs producer) (slot_index slot) = Some copy ->
  (slot = Color0 -> doPresent producer = false) ->
  exists resolveTexture producer',
    JsArray.get (SceneGraphExecutor.resolveTextureForID this') copy
      = Some resolveTexture /\
    passes graph' !! i = Some producer' /\
    slot_resolveTo slot (descriptor producer')
      = Some (ResolveTexture.texture resolveTexture) /\
    forall j consumer,
      passes graph' !! j = Some consumer ->
      copy ∈ resolveTextureInputIDs consumer ->
      lookup_during consumer copy = OK (ResolveTexture.texture resolveTexture).
Proof.
  intros Hpool Hempty Htable Hrun Horigin Hdesc Hmulti Hi Hout Hpresent.
  destruct (scheduleGraph_each _ _ _ _ _ _ _ Hrun Hpool Hempty Htable) as [_ Heach].
  destruct (Heach i producer Hi)
    as (producer' & dj & tj & dj' & tj' & Hi' & Hpass & Hshaped & _ & Hkept).
  destruct (schedulePass_resolveTo_multi _ _ _ _ _ _ _ _ _ _ _ _ Hpass Hshaped
              Hout Hpresent Horigin Hdesc Hmulti) as (rtex & Hfor & Hresolve).
  exists rtex, producer'. split; [now apply Hkept|]. split; [exact Hi'|].
  split; [exact Hresolve|]. intros j consumer Hj Hin.
  destruct (scheduleGraph_lookup _ _ _ _ _ _ _ Hrun Hpool Hempty Htable)
    as (_ & _ & _ & _ & Hlook).
  destruct (Hlook j consumer copy Hj Hin) as (tex & -> & [(rtex' & Hfor' & ->)|[Hnone _]]).
  - apply Hkept in Hfor. congruence.
  - apply Hkept in Hfor. congruence.
Qed.

(** * Device handles: no attachment is shared, none in use is destroyed *)

Lemma omap_id_replicate_None {A} (n : nat) :
  omap id (replicate n (@None A)) = [].
Proof. induction n as [|n IH]; [reflexivity | exact IH]. Qed.

Lemma omap_id_set_hole {A} (l : list (option A)) (i : nat) (v : A) :
  JsArray.get l i = None ->
  omap id (JsArray.set l i v) ≡ₚ v :: omap id l.
Proof.
  unfold JsArray.set. destruct (decide (i < length l)) as [Hlt|Hge].
  - revert i Hlt. induction l as [|c l IH]; intros i Hlt Hget; [simpl in Hlt; lia|].
    destruct i as [|i].
    + unfold JsArray.get in Hget. simpl in Hget. subst c. reflexivity.
    + simpl in Hlt. assert (JsArray.get l i = None) as Hget' by exact Hget.
      specialize (IH i ltac:(lia) Hget'). simpl.
      destruct c as [x|]; simpl.
      * rewrite IH. apply Permutation_swap.
      * exact IH.
  - intros _. rewrite !omap_app, omap_id_replicate_None. simpl.
    symmetry. apply Permutation_cons_append.
Qed.

Lemma omap_id_set_same {A B} (f : A -> B) (l : list (option A)) (i : nat) (v v' : A) :
  JsArray.get l i = Some v -> f v' = f v ->
  f <$> omap id (JsArray.set l i v') = f <$> omap id l.
Proof.
  intros Hget Hf. unfold JsArray.set.
  rewrite decide_True by (now apply get_lt with v).
  revert i Hget. induction l as [|c l IH]; intros i Hget.
  - unfold JsArray.get in Hget. now rewrite lookup_nil in Hget.
  - destruct i as [|i].
    + unfold JsArray.get in Hget. simpl in Hget. subst c. simpl. now rewrite Hf.
    + assert (JsArray.get l i = Some v) as Hget' by exact Hget.
      specialize (IH i Hget'). destruct c as [x|]; simpl; [f_equal|]; exact IH.
Qed.

Lemma omap_id_delete {A} (l : list (option A)) (i : nat) (v : A) :
  JsArray.get l i = Some v ->
  omap id l ≡ₚ v :: omap id (JsArray.delete l i).
Proof.
  unfold JsArray.delete. revert i. induction l as [|c l IH]; intros i Hget.
  - unfold JsArray.get in Hget. now rewrite lookup_nil in Hget.
  - destruct i as [|i].
    + unfold JsArray.get in Hget. simpl in Hget. subst c. reflexivity.
    + assert (JsArray.get l i = Some v) as Hget' by exact Hget.
      specialize (IH i Hget'). simpl. destruct c as [x|]; simpl.
      * rewrite IH. apply Permutation_swap.
      * exact IH.
Qed.

Lemma elem_of_omap_id_get {A} (l : list (option A)) (v : A) :
  v ∈ omap id l <-> exists i, JsArray.get l i = Some v.
Proof.
  rewrite list_elem_of_omap. split.
  - intros (c & Hc & Hv). simpl in Hv. subst c.
    apply list_elem_of_lookup in Hc as [i Hi]. exists i.
    unfold JsArray.get. now rewrite Hi.
  - intros [i Hi]. exists (Some v). split; [|reflexivity].
    apply get_lookup in Hi. apply list_elem_of_lookup. eauto.
Qed.

Lemma NoDup_fmap_eq {A B} (f : A -> B) (l : list A) (x y : A) :
  NoDup (f <$> l) -> x ∈ l -> y ∈ l -> f x = f y -> x = y.
Proof.
  induction l as [|z l IH]; intros Hnd Hx Hy Hf; [inversion Hx|].
  simpl in Hnd. apply NoDup_cons in Hnd as [Hz Hnd].
  apply elem_of_cons in Hx as [->|Hx]; apply elem_of_cons in Hy as [->|Hy].
  - reflexivity.
  - exfalso. apply Hz. rewrite Hf. now apply list_elem_of_fmap_2.
  - exfalso. apply Hz. rewrite <- Hf. now apply list_elem_of_fmap_2.
  - now apply IH.
Qed.

Lemma only_creates_refl (device : GfxDevice) : only_creates device device.
Proof. split; [lia|]. exists []. split; [now rewrite app_nil_r | constructor]. Qed.

Lemma only_creates_trans (d1 d2 d3 : GfxDevice) :
  only_creates d1 d2 -> only_creates d2 d3 -> only_creates d1 d3.
Proof.
  intros [L1 (c1 & E1 & F1)] [L2 (c2 & E2 & F2)]. split; [lia|].
  exists (c1 ++ c2). split; [now rewrite E2, E1, app_assoc|].
  apply Forall_app. auto.
Qed.

Lemma RenderTarget_new_handles (device device' : GfxDevice)
    (desc : RenderTargetDescription) (rt : RenderTarget.t) :
  RenderTarget.new device desc = OK (rt, device') ->
  only_creates device device' /\
  nextHandle device <= RenderTarget.attachment rt < nextHandle device'.
Proof.
  unfold RenderTarget.new. intros H. inv_bind H as [] Hge.
  destruct (1 <? desc_numSamples desc)%Z.
  - injection H as <- <-. cbn. split; [|lia]. split; [cbn; lia|].
    eexists. split; [reflexivity|]. repeat constructor.
  - injection H as <- <-. cbn. split; [|lia]. split; [cbn; lia|].
    eexists. split; [now rewrite <- app_assoc|]. repeat constructor.
Qed.

Lemma acquireResolveTextureOutputForID_creates (device device' : GfxDevice)
    (graph : SceneGraph) (src o : option nat) (this this' : Ex)
    (out : option GfxTexture) :
  SceneGraphExecutor.acquireResolveTextureOutputForID device graph src o this
    = OK (out, device', this') ->
  only_creates device device'.
Proof.
  destruct o as [id|]; [|intros [= <- <- <-]; apply only_creates_refl].
  intros H. apply acquireResolveTextureOutputForID_inv in H
    as (_ & _ & rt & _ & [H|[H|H]]).
  - destruct H as (_ & _ & -> & _). apply only_creates_refl.
  - destruct H as (_ & rtex & _ & _ & -> & _). apply only_creates_refl.
  - destruct H as (_ & _ & surface & desc & rtex & this1 & _ & _ & Hacq & _).
    apply acquireResolveTextureForDescription_inv in Hacq as [H|H].
    + destruct H as (free & pool' & _ & _ & -> & _). apply only_creates_refl.
    + destruct H as (_ & Hnew & _). unfold ResolveTexture.new in Hnew. cbn in Hnew.
      injection Hnew as _ <-. split; [cbn; lia|].
      eexists. split; [reflexivity|]. repeat constructor.
Qed.

Lemma attachments_distinct_frame (device device' : GfxDevice) (this this' : Ex) :
  owned_attachments this' ≡ₚ owned_attachments this ->
  nextHandle device <= nextHandle device' ->
  attachments_distinct device this -> attachments_distinct device' this'.
Proof.
  intros Hperm Hle [Hnd Hbound]. split.
  - now rewrite Hperm.
  - intros att Hatt. rewrite Hperm in Hatt. apply Hbound in Hatt. lia.
Qed.

Ltac owned_unfold :=
  unfold owned_attachments, owned_renderTargets;
  cbn [SceneGraphExecutor.renderTargetDeadPool
       SceneGraphExecutor.renderTargetAliveForID
       SceneGraphExecutor.with_renderTargetAliveForID
       SceneGraphExecutor.with_renderTargetDeadPool
       SceneGraphExecutor.with_renderTargetUseCount].

Lemma acquireRenderTargetForID_handles (device device' : GfxDevice)
    (graph : SceneGraph) (o : option nat) (this this' : Ex)
    (acquired : option RenderTarget.t) :
  SceneGraphExecutor.acquireRenderTargetForID device graph o this
    = OK (acquired, device', this') ->
  attachments_distinct device this ->
  attachments_distinct device' this' /\ only_creates device device'.
Proof.
  destruct o as [id|];
    [|intros [= <- <- <-] Hok; split; [exact Hok | apply only_creates_refl]].
  intros H Hok. apply acquireRenderTargetForID_inv in H as [_ [H|H]].
  - destruct H as (rt0 & _ & _ & -> & ->).
    split; [exact Hok | apply only_creates_refl].
  - destruct H as (desc & rt & this1 & Hnone & Hdesc & Hacq & _ & ->).
    apply acquireRenderTargetForDescription_inv in Hacq as [H|H].
    + destruct H as (free & pool' & Htake & -> & -> & ->).
      apply pool_take_Some in Htake as (before & after & Hsplit & -> & _).
      split; [|apply only_creates_refl].
      apply (attachments_distinct_frame device device this); [|lia | exact Hok].
      owned_unfold. rewrite (omap_id_set_hole _ _ _ Hnone), Hsplit.
      cbn [app]. rewrite !fmap_app, !fmap_cons.
      cbn [RenderTarget.attachment RenderTarget.with_age].
      rewrite <- !app_assoc. apply Permutation_app_head.
      cbn [app]. symmetry. apply Permutation_middle.
    + destruct H as (_ & Hnew & ->).
      apply RenderTarget_new_handles in Hnew as [Hcreates Hfresh].
      split; [|exact Hcreates]. destruct Hok as [Hnd Hbound].
      assert (owned_attachments
                (SceneGraphExecutor.with_renderTargetAliveForID
                   (JsArray.set (rtAlive this) id rt) this)
              ≡ₚ RenderTarget.attachment rt :: owned_attachments this) as Hperm.
      { owned_unfold. rewrite (omap_id_set_hole _ _ _ Hnone).
        rewrite !fmap_app, fmap_cons. symmetry. apply Permutation_middle. }
      split.
      * rewrite Hperm. apply NoDup_cons. split; [|exact Hnd].
        intros Hin. apply Hbound in Hin. lia.
      * intros att Hatt. rewrite Hperm in Hatt.
        apply elem_of_cons in Hatt as [->|Hatt]; [lia|].
        apply Hbound in Hatt. destruct Hcreates as [Hle _]. lia.
Qed.

Lemma markCleared_owned (o : option nat) (this : Ex) :
  owned_attachments (SceneGraphExecutor.markCleared o this) = owned_attachments this.
Proof.
  unfold SceneGraphExecutor.markCleared.
  destruct o as [id|]; cbn [SceneGraphExecutor.at_id]; [|reflexivity].
  destruct (JsArray.get (rtAlive this) id) as [rt|] eqn:Hrt; [|reflexivity].
  owned_unfold. rewrite !fmap_app. f_equal.
  now apply omap_id_set_same with rt.
Qed.

Lemma releaseRenderTargetForID_owned (o : option nat) (this this' : Ex) :
  SceneGraphExecutor.releaseRenderTargetForID o this = OK this' ->
  owned_attachments this' ≡ₚ owned_attachments this.
Proof.
  destruct o as [id|]; [|now intros [= <-]].
  intros H. apply releaseRenderTargetForID_inv in H as (z & Hz & Hpos & H).
  cbn zeta in H. destruct (z =? 1)%Z.
  - destruct H as (rt & Hrt & ->).
    owned_unfold. rewrite (omap_id_delete _ _ _ Hrt).
    rewrite !fmap_app, !fmap_cons.
    cbn [fmap list_fmap RenderTarget.attachment RenderTarget.with_needsClear].
    rewrite <- app_assoc. apply Permutation_app_head. reflexivity.
  - now subst this'.
Qed.

Lemma acquireInputTextures_owned (graph : SceneGraph) (ids : list nat) (i : nat)
    (textures textures' : list (option GfxTexture)) (this this' : Ex) :
  SceneGraphExecutor.acquireInputTextures graph ids i textures this
    = OK (textures', this') ->
  owned_attachments this' ≡ₚ owned_attachments this.
Proof.
  revert i textures this. induction ids as [|c ids IH]; intros i textures this; simpl.
  - now intros [= <- <-].
  - intros H. inv_bind H as [tex this1] Hacq.
    apply acquireResolveTextureInputTextureForID_inv in Hacq as [Hrel _].
    rewrite (IH _ _ _ H). now apply releaseRenderTargetForID_owned in Hrel.
Qed.

Lemma releaseRenderTargets_owned (ids : list (option nat)) (this this' : Ex) :
  SceneGraphExecutor.releaseRenderTargets ids this = OK this' ->
  owned_attachments this' ≡ₚ owned_attachments this.
Proof.
  revert this. induction ids as [|c ids IH]; intros this; simpl.
  - now intros [= <-].
  - intros H. inv_bind H as this1 Hrel.
    rewrite (IH _ H). now apply releaseRenderTargetForID_owned in Hrel.
Qed.

Lemma owned_frame (this this' : Ex) :
  rtAlive this' = rtAlive this -> rtPool this' = rtPool this ->
  owned_attachments this' = owned_attachments this.
Proof. unfold owned_attachments, owned_renderTargets. now intros -> ->. Qed.

(* one pass keeps the attachments apart and only creates resources *)
Lemma schedulePass_handles (device device' : GfxDevice) (graph : SceneGraph)
    (pass pass' : SceneGraphPassImpl) (presentColorTexture : option GfxTexture)
    (this this' : Ex) :
  SceneGraphExecutor.schedulePass device graph pass presentColorTexture this
    = OK (pass', device', this') ->
  attachments_distinct device this ->
  attachments_distinct device' this' /\ only_creates device device'.
Proof.
  intros H Hok. apply schedulePass_inv in H. cbn zeta in H.
  destruct H as (color0 & device1 & this1 & colorClear & depthStencil & device2
                 & this2 & depthClear & stencilClear & colorResolve & device3
                 & this3 & depthResolve & this4 & textures & this7 & this8
                 & H1 & _ & H3 & _ & _ & H6 & H7 & _ & H9 & H10 & H11 & _).
  destruct (acquireRenderTargetForID_handles _ _ _ _ _ _ _ H1 Hok) as [Hok1 C1].
  destruct (acquireRenderTargetForID_handles _ _ _ _ _ _ _ H3 Hok1) as [Hok2 C2].
  destruct (colorResolve_frame _ _ _ _ _ _ _ _ _ H6) as (_ & _ & Ha3 & Hp3).
  destruct (acquireResolveTextureOutputForID_frame _ _ _ _ _ _ _ _ H7)
    as (_ & _ & Ha4 & Hp4).
  destruct (releaseResolveTextureInputs_counts _ _ _ H11) as (_ & _ & Ha9 & _ & Hp9).
  assert (only_creates device2 device3) as C3.
  { destruct (doPresent pass).
    - injection H6 as _ <- _. apply only_creates_refl.
    - now apply acquireResolveTextureOutputForID_creates in H6. }
  pose proof (acquireResolveTextureOutputForID_creates _ _ _ _ _ _ _ _ H7) as C4.
  assert (only_creates device2 device') as C24
    by (now apply only_creates_trans with device3).
  split; [|apply only_creates_trans with device1; [exact C1|];
           now apply only_creates_trans with device2].
  apply (attachments_distinct_frame device2 device' this2);
    [|destruct C24; lia | exact Hok2].
  rewrite (owned_frame this8 this' Ha9 Hp9).
  rewrite (releaseRenderTargets_owned _ _ _ H10).
  rewrite (acquireInputTextures_owned _ _ _ _ _ _ _ H9).
  rewrite !markCleared_owned.
  rewrite (owned_frame this3 this4 Ha4 Hp4).
  now rewrite (owned_frame this2 this3 Ha3 Hp3).
Qed.

Lemma alive_distinct (device : GfxDevice) (this : Ex) (i j : nat)
    (a b : RenderTarget.t) :
  attachments_distinct device this ->
  JsArray.get (rtAlive this) i = Some a ->
  JsArray.get (rtAlive this) j = Some b ->
  i <> j ->
  RenderTarget.attachment a <> RenderTarget.attachment b.
Proof.
  intros [Hnd _] Ha Hb Hij. unfold owned_attachments, owned_renderTargets in Hnd.
  rewrite fmap_app in Hnd. apply NoDup_app in Hnd as (_ & _ & Hnd).
  rewrite (omap_id_delete _ _ _ Ha), fmap_cons in Hnd.
  apply NoDup_cons in Hnd as [Hnotin _]. intros Heq. apply Hnotin.
  rewrite Heq. apply list_elem_of_fmap_2. apply elem_of_omap_id_get. exists j.
  now rewrite get_delete_ne.
Qed.

Lemma afterPassA_owned (graph : SceneGraph) (this : Ex) :
  owned_attachments (afterPassA graph this) = owned_attachments this.
Proof.
  destruct (afterPassA_frame graph this) as [Ha _].
  destruct (afterPassA_pools graph this) as [Hp _].
  unfold owned_attachments, owned_renderTargets. rewrite Ha, Hp. cbn.
  rewrite !fmap_app. f_equal. rewrite <- list_fmap_compose.
  now apply list_fmap_ext.
Qed.

(* the allocation/release pass from the device's side *)
Lemma schedulePasses_handles (device device' : GfxDevice) (graph : SceneGraph)
    (ps ps' : list SceneGraphPassImpl) (presentColorTexture : option GfxTexture)
    (this this' : Ex) :
  SceneGraphExecutor.schedulePasses device graph ps presentColorTexture this
    = OK (ps', device', this') ->
  attachments_distinct device this ->
  (attachments_distinct device' this' /\ only_creates device device') /\
  forall j pass,
    ps !! j = Some pass ->
    exists pass' dj tj dj' tj',
      ps' !! j = Some pass' /\
      SceneGraphExecutor.schedulePass dj graph pass presentColorTexture tj
        = OK (pass', dj', tj') /\
      attachments_distinct dj tj.
Proof.
  intros Hps Hok.
  assert (forall d pass pass' d' t t',
            SceneGraphExecutor.schedulePass d graph pass presentColorTexture t
              = OK (pass', d', t') ->
            attachments_distinct d t /\ only_creates device d ->
            (attachments_distinct d' t' /\ only_creates device d') /\ True) as Hstep.
  { intros d pass pass' d' t t' Hpass [Hd Hc].
    destruct (schedulePass_handles _ _ _ _ _ _ _ _ Hpass Hd) as [Hd' Hc'].
    split; [|exact I]. split; [exact Hd'|]. now apply only_creates_trans with d. }
  destruct (schedulePasses_each graph presentColorTexture
              (fun d t => attachments_distinct d t /\ only_creates device d)
              (fun _ _ => True) (fun _ => I) (fun _ _ _ _ _ => I) Hstep
              _ _ _ _ _ _ Hps (conj Hok (only_creates_refl device)))
    as (Hinv & _ & _ & Heach).
  split; [exact Hinv|]. intros j pass Hj.
  destruct (Heach j pass Hj)
    as (pass' & dj & tj & dj' & tj' & Hj' & Hrun & [Hi _] & _).
  exists pass', dj, tj, dj', tj'. auto.
Qed.

Lemma schedulePass_two_attachments (device device' : GfxDevice) (graph : SceneGraph)
    (pass pass' : SceneGraphPassImpl) (presentColorTexture : option GfxTexture)
    (this this' : Ex) (color depth : nat) :
  SceneGraphExecutor.schedulePass device graph pass presentColorTexture this
    = OK (pass', device', this') ->
  attachments_distinct device this ->
  JsArray.get (renderTargetIDs pass) (slot_index Color0) = Some color ->
  JsArray.get (renderTargetIDs pass) (slot_index DepthStencil) = Some depth ->
  color <> depth ->
  exists a b,
    colorAttachment (descriptor pass') = Some a /\
    depthStencilAttachment (descriptor pass') = Some b /\ a <> b.
Proof.
  intros H Hok Hc Hd Hne. apply schedulePass_inv in H. cbn zeta in H.
  destruct H as (color0 & device1 & this1 & colorClear & depthStencil & device2
                 & this2 & depthClear & stencilClear & colorResolve & device3
                 & this3 & depthResolve & this4 & textures & this7 & this8
                 & H1 & _ & H3 & _ & _ & _ & _ & _ & _ & _ & _
                 & _ & _ & _ & Hdesc).
  destruct (acquireRenderTargetForID_handles _ _ _ _ _ _ _ H1 Hok) as [Hok1 _].
  destruct (acquireRenderTargetForID_handles _ _ _ _ _ _ _ H3 Hok1) as [Hok2 _].
  destruct (schedulePass_acquired _ _ _ _ _ _ _ _ _ _ _ H1 H3) as (_ & A1 & A2).
  destruct (A1 color Hc) as (rtc & -> & Hrtc).
  destruct (A2 depth Hd) as (rtd & -> & Hrtd).
  rewrite Hdesc. cbn. eexists _, _. split; [reflexivity|]. split; [reflexivity|].
  now apply (alive_distinct device2 this2 color depth).
Qed.

Lemma sweepPools_handles (device : GfxDevice) (this : Ex) :
  attachments_distinct device this ->
  attachments_distinct (SceneGraphExecutor.sweepPools device this).1
    (SceneGraphExecutor.clearUseCounts (SceneGraphExecutor.sweepPools device this).2).
Proof.
  intros [Hnd Hbound]. rewrite sweepPools_spec. cbn [fst snd].
  unfold attachments_distinct, owned_attachments, owned_renderTargets in *. cbn.
  rewrite fmap_app in *. apply NoDup_app in Hnd as (Hp & Hdisj & Ha).
  assert (forall att,
            att ∈ RenderTarget.attachment
                    <$> filter (fun rt => ~ renderTarget_aged rt) (rtPool this) ->
            att ∈ RenderTarget.attachment <$> rtPool this) as Hsub.
  { intros att Hatt. apply list_elem_of_fmap in Hatt as (rt & -> & Hrt).
    apply list_elem_of_filter in Hrt as [_ Hrt]. now apply list_elem_of_fmap_2. }
  split.
  - apply NoDup_app. split; [|split; [|exact Ha]].
    + apply NoDup_fmap_2_strong; [|apply NoDup_filter; now apply NoDup_fmap_1 in Hp].
      intros x y Hx Hy. apply list_elem_of_filter in Hx as [_ Hx].
      apply list_elem_of_filter in Hy as [_ Hy]. intros Hf.
      now apply (NoDup_fmap_eq RenderTarget.attachment (rtPool this)).
    + intros att Hatt. apply Hdisj. now apply Hsub.
  - intros att Hatt. apply Hbound. apply elem_of_app in Hatt as [Hatt|Hatt].
    + apply elem_of_app. left. now apply Hsub.
    + apply elem_of_app. now right.
Qed.

(** X8.  No physical attachment serves two surfaces at once.  On an
    executor whose render targets have pairwise different attachments,
    all of them handles the device has given out (a new executor is one),
    scheduling a graph keeps it so, and a scheduled pass that binds two
    different surfaces to Color0 and DepthStencil renders to two
    different attachments. *)
Theorem scheduleGraph_attachments_distinct (device device' : GfxDevice)
    (graph graph' : SceneGraph) (presentColorTexture : option GfxTexture)
    (this this' : SceneGraphExecutor.t) :
  attachments_distinct device this ->
  SceneGraphExecutor.scheduleGraph device graph presentColorTexture this
    = OK (graph', device', this') ->
  attachments_distinct device' this' /\
  (forall j pass color depth,
     passes graph' !! j = Some pass ->
     JsArray.get (renderTargetIDs pass) (slot_index Color0) = Some color ->
     JsArray.get (renderTargetIDs pass) (slot_index DepthStencil) = Some depth ->
     color <> depth ->
     exists a b,
       colorAttachment (descriptor pass) = Some a /\
       depthStencilAttachment (descriptor pass) = Some b /\ a <> b) /\
  (forall anyDevice, attachments_distinct anyDevice SceneGraphExecutor.new).
Proof.
  intros Hok H.
  apply scheduleGraph_OK_inv in H
    as (_ & _ & ps & device1 & this4 & Hps & _ & -> & Hfinal).
  assert (attachments_distinct device (afterPassA graph this)) as Hok3.
  { apply (attachments_distinct_frame device device this); [|lia | exact Hok].
    now rewrite afterPassA_owned. }
  destruct (schedulePasses_handles _ _ _ _ _ _ _ _ Hps Hok3) as [[Hok4 _] Heach].
  destruct (schedulePasses_each graph presentColorTexture
              (fun _ _ => True) (fun _ _ => True)
              (fun _ => I) (fun _ _ _ _ _ => I)
              (fun _ _ _ _ _ _ _ _ => conj I I)
              _ _ _ _ _ _ Hps I) as (_ & _ & Hlen & _).
  split; [|split].
  - pose proof (sweepPools_handles device1 this4 Hok4) as Hswept.
    destruct (SceneGraphExecutor.sweepPools device1 this4) as [device2 this5].
    now injection Hfinal as -> ->.
  - intros j pass' color depth Hj Hc Hd Hne. cbn in Hj.
    destruct (lookup_lt_is_Some_2 (passes graph) j) as [pass Hpass].
    { rewrite <- Hlen. now apply lookup_lt_Some with pass'. }
    destruct (Heach j pass Hpass) as (q & dj & tj & dj' & tj' & Hq & Hrun & Hokj).
    assert (q = pass') as -> by congruence.
    destruct (schedulePass_ids _ _ _ _ _ _ _ _ Hrun) as [Hids _].
    rewrite Hids in Hc, Hd.
    now apply (schedulePass_two_attachments _ _ _ _ _ _ _ _ color depth Hrun Hokj).
  - intros anyDevice. split; [constructor|]. intros att Hatt. inversion Hatt.
Qed.

(** X9.  Scheduling never destroys an attachment it has just handed out:
    the device calls issued by a [scheduleGraph] that returns contain no
    [destroyAttachment] of an attachment that one of the scheduled passes
    renders to (the age sweep only removes render targets that no pass of
    this graph used). *)
Theorem scheduleGraph_spares_attachments_in_use (device device' : GfxDevice)
    (graph graph' : SceneGraph) (presentColorTexture : option GfxTexture)
    (this this' : SceneGraphExecutor.t) :
  attachments_distinct device this ->
  pool_shape this -> alive_empty this ->
  SceneGraphExecutor.resolveTextureForID this = [] ->
  SceneGraphExecutor.scheduleGraph device graph presentColorTexture this
    = OK (graph', device', this') ->
  exists issued,
    calls device' = calls device ++ issued /\
    forall j pass slot id att,
      passes graph' !! j = Some pass ->
      JsArray.get (renderTargetIDs pass) (slot_index slot) = Some id ->
      slot_attachment slot (descriptor pass) = Some att ->
      DestroyAttachment att ∉ issued.
Proof.
  intros Hok Hpool Hempty Htable Hrun.
  destruct (scheduleGraph_observes _ _ _ _ _ _ _ Hrun Hpool Hempty Htable)
    as (_ & _ & Hobs).
  apply scheduleGraph_OK_inv in Hrun
    as (_ & _ & ps & device1 & this4 & Hps & _ & -> & Hfinal).
  assert (attachments_distinct device (afterPassA graph this)) as Hok3.
  { apply (attachments_distinct_frame device device this); [|lia | exact Hok].
    now rewrite afterPassA_owned. }
  destruct (schedulePasses_handles _ _ _ _ _ _ _ _ Hps Hok3)
    as [[[Hnd _] [_ (created & Hcalls & Hcreated)]] _].
  rewrite sweepPools_spec in Hfinal. injection Hfinal as -> ->.
  cbn [calls]. rewrite Hcalls, <- app_assoc. eexists. split; [reflexivity|].
  intros j pass slot id att Hj Hslot Hatt Hin.
  assert (references graph
            (SceneGraphExecutor.clearUseCounts
               (SceneGraphExecutor.with_resolveTextureDeadPool
                  (filter (fun rt => ~ resolveTexture_aged rt) (rsPool this4))
                  (SceneGraphExecutor.with_renderTargetDeadPool
                     (filter (fun rt => ~ renderTarget_aged rt) (rtPool this4))
                     this4)))
            pass id) as Href by (left; eauto).
  destruct (Hobs j j pass pass id (le_n j) Hj Hj Href Href)
    as (rt & Hpooled & [Hslots _] & _).
  rewrite (Hslots slot Hslot) in Hatt. injection Hatt as <-.
  cbn in Hpooled. apply list_elem_of_filter in Hpooled as [Hyoung Hrt].
  apply elem_of_app in Hin as [Hin|Hin].
  - rewrite Forall_forall in Hcreated. exact (Hcreated _ Hin).
  - apply elem_of_app in Hin as [Hin|Hin].
    + apply list_elem_of_In, in_flat_map in Hin as (old & Hold & Hcall).
      apply list_elem_of_In, list_elem_of_filter in Hold as [Haged Hold].
      assert (RenderTarget.attachment old = RenderTarget.attachment rt) as Heq.
      { unfold renderTarget_destroy_calls in Hcall.
        apply in_app_or in Hcall as [Hcall|Hcall].
        - destruct (RenderTarget.texture old); [|inversion Hcall].
          destruct Hcall as [Hcall|[]]. discriminate.
        - destruct Hcall as [Hcall|[]]. now injection Hcall. }
      unfold owned_attachments, owned_renderTargets in Hnd.
      rewrite fmap_app in Hnd. apply NoDup_app in Hnd as (Hp & _).
      assert (old = rt) as ->
        by (now apply (NoDup_fmap_eq RenderTarget.attachment (rtPool this4))).
      contradiction.
    + apply list_elem_of_In, in_flat_map in Hin as (old & _ & Hcall).
      destruct Hcall as [Hcall|[]]. discriminate.
Qed.

(** * Execution and teardown *)

Lemma with_currentGraphPass_reset (this : Ex) (v : option SceneGraphPassImpl) :
  SceneGraphExecutor.currentGraphPass this = None ->
  SceneGraphExecutor.with_currentGraphPass None
    (SceneGraphExecutor.with_currentGraphPass v this) = this.
Proof. destruct this. cbn. now intros ->. Qed.

Lemma execPass_spec (device : GfxDevice) (pass : SceneGraphPassImpl) (this : Ex) :
  SceneGraphExecutor.currentGraphPass this = None ->
  SceneGraphExecutor.execPass device pass this =
  (let* drawn := drawn_by this pass in
   OK (mkDevice (nextHandle device) (calls device ++ pass_calls pass drawn), this)).
Proof.
  intros Hnone. unfold SceneGraphExecutor.execPass, drawn_by, pass_calls.
  rewrite Hnone. cbn [SceneGraphExecutor.is_undefined assert rbind].
  rewrite (with_currentGraphPass_reset this (Some pass) Hnone).
  destruct (func pass) as [f|]; cbn [rbind].
  - fold (scope_during this pass).
    destruct (f (scope_during this pass)) as [drawn|e]; cbn [rbind]; [|reflexivity].
    unfold device_call. cbn [nextHandle calls]. now rewrite <- !app_assoc.
  - unfold device_call. cbn [nextHandle calls]. now rewrite <- !app_assoc.
Qed.

(* a run of [execPasses] that returns *)
Lemma execPasses_returns (device : GfxDevice) (ps : list SceneGraphPassImpl)
    (this : Ex) :
  SceneGraphExecutor.currentGraphPass this = None ->
  forall device' this',
    SceneGraphExecutor.execPasses device ps this = OK (device', this') ->
    this' = this /\ nextHandle device' = nextHandle device /\
    exists drawns,
      Forall2 (fun pass drawn => drawn_by this pass = OK drawn) ps drawns /\
      calls device' = calls device ++ concat (zip_with pass_calls ps drawns).
Proof.
  intros Hnone.
  revert device. induction ps as [|pass ps IH]; intros device device' this'; simpl.
  - intros [= <- <-]. split; [reflexivity|]. split; [reflexivity|].
    exists []. split; [constructor | now rewrite app_nil_r].
  - rewrite (execPass_spec device pass this Hnone). intros H.
    destruct (drawn_by this pass) as [drawn|e] eqn:Hdrawn; [|discriminate].
    cbn [rbind] in H.
    destruct (IH _ _ _ H) as (-> & Hnext & drawns & Hall & Hcalls).
    split; [reflexivity|]. split; [exact Hnext|].
    exists (drawn :: drawns). split; [now constructor|].
    rewrite Hcalls. cbn [calls zip_with concat]. now rewrite <- app_assoc.
Qed.

(** X10.  The passes of a graph are executed strictly in the order in
    which they were appended: on an executor outside any pass,
    [execPasses] issues, for each pass in turn, [createRenderPass] with the
    pass's descriptor, [setViewport] with its pixel viewport, then whatever
    the callback draws, then [submitPass]; it leaves the executor as it was
    and makes the device hand out no handle.  It is fatal exactly when the
    callback of some pass is, and then nothing of the later passes is
    executed. *)
Theorem execPasses_in_order (device : GfxDevice) (ps : list SceneGraphPassImpl)
    (this : SceneGraphExecutor.t) :
  SceneGraphExecutor.currentGraphPass this = None ->
  (forall device' this',
     SceneGraphExecutor.execPasses device ps this = OK (device', this') ->
     this' = this /\ nextHandle device' = nextHandle device /\
     exists drawns,
       Forall2 (fun pass drawn => drawn_by this pass = OK drawn) ps drawns /\
       calls device' = calls device ++ concat (zip_with pass_calls ps drawns)) /\
  (is_fatal (SceneGraphExecutor.execPasses device ps this) <->
   exists pass, pass ∈ ps /\ is_fatal (drawn_by this pass)) /\
  (forall before pass after e,
     ps = before ++ pass :: after ->
     Forall (fun p => ~ is_fatal (drawn_by this p)) before ->
     drawn_by this pass = Fatal e ->
     SceneGraphExecutor.execPasses device ps this = Fatal e).
Proof.
  intros Hnone. split; [|split].
  - exact (execPasses_returns device ps this Hnone).
  - revert device. induction ps as [|pass ps IH]; intros device; simpl.
    + split; [intros [] | intros (pass & Hin & _); inversion Hin].
    + rewrite (execPass_spec device pass this Hnone).
      destruct (drawn_by this pass) as [drawn|e] eqn:Hdrawn; cbn [rbind].
      * rewrite IH. split; intros (p & Hp & Hf).
        -- exists p. split; [apply elem_of_cons; now right | exact Hf].
        -- apply elem_of_cons in Hp as [->|Hp]; [now rewrite Hdrawn in Hf|eauto].
      * split; [|intros _; exact I]. intros _. exists pass.
        split; [apply elem_of_cons; now left | now rewrite Hdrawn].
  - intros before pass after e -> Hbefore Hfail. revert device.
    induction before as [|q before IH]; intros device; simpl.
    + rewrite (execPass_spec device pass this Hnone), Hfail. reflexivity.
    + apply Forall_cons in Hbefore as [Hq Hbefore].
      rewrite (execPass_spec device q this Hnone).
      destruct (drawn_by this q) as [drawn|e'] eqn:Hdrawn; [|now exfalso; apply Hq].
      cbn [rbind]. now apply IH.
Qed.

(* scheduling does not touch the scope state *)
Lemma releaseRenderTargetForID_scope (o : option nat) (this this' : Ex) :
  SceneGraphExecutor.releaseRenderTargetForID o this = OK this' ->
  scope_state this' = scope_state this.
Proof.
  destruct o as [id|]; [|now intros [= <-]].
  intros H. apply releaseRenderTargetForID_inv in H as (z & _ & _ & H).
  cbn zeta in H. destruct (z =? 1)%Z.
  - now destruct H as (rt & _ & ->).
  - now subst this'.
Qed.

Lemma acquireRenderTargetForID_scope (device device' : GfxDevice) (graph : SceneGraph)
    (o : option nat) (this this' : Ex) (acquired : option RenderTarget.t) :
  SceneGraphExecutor.acquireRenderTargetForID device graph o this
    = OK (acquired, device', this') ->
  scope_state this' = scope_state this.
Proof.
  destruct o as [id|]; [|now intros [= <- <- <-]].
  intros H. apply acquireRenderTargetForID_inv in H as [_ [H|H]].
  - now destruct H as (rt0 & _ & _ & _ & ->).
  - destruct H as (desc & rt & this1 & _ & _ & Hacq & _ & ->).
    apply acquireRenderTargetForDescription_inv in Hacq as [H|H].
    + now destruct H as (free & pool' & _ & _ & _ & ->).
    + now destruct H as (_ & _ & ->).
Qed.

Lemma acquireResolveTextureOutputForID_scope (device device' : GfxDevice)
    (graph : SceneGraph) (src o : option nat) (this this' : Ex)
    (out : option GfxTexture) :
  SceneGraphExecutor.acquireResolveTextureOutputForID device graph src o this
    = OK (out, device', this') ->
  scope_state this' = scope_state this.
Proof.
  destruct o as [id|]; [|now intros [= <- <- <-]].
  intros H. apply acquireResolveTextureOutputForID_inv in H
    as (_ & _ & rt & _ & [H|[H|H]]).
  - now destruct H as (_ & _ & _ & ->).
  - now destruct H as (_ & rtex & _ & _ & _ & ->).
  - destruct H as (_ & _ & surface & desc & rtex & this1 & _ & _ & Hacq & _ & ->).
    apply acquireResolveTextureForDescription_inv in Hacq as [H|H].
    + now destruct H as (free & pool' & _ & _ & _ & ->).
    + now destruct H as (_ & _ & ->).
Qed.

Lemma markCleared_scope (o : option nat) (this : Ex) :
  scope_state (SceneGraphExecutor.markCleared o this) = scope_state this.
Proof.
  unfold SceneGraphExecutor.markCleared.
  destruct (SceneGraphExecutor.at_id (rtAlive this) o), o; reflexivity.
Qed.

Lemma acquireInputTextures_scope (graph : SceneGraph) (ids : list nat) (i : nat)
    (textures textures' : list (option GfxTexture)) (this this' : Ex) :
  SceneGraphExecutor.acquireInputTextures graph ids i textures this
    = OK (textures', this') ->
  scope_state this' = scope_state this.
Proof.
  revert i textures this. induction ids as [|c ids IH]; intros i textures this; simpl.
  - now intros [= <- <-].
  - intros H. inv_bind H as [tex this1] Hacq.
    apply acquireResolveTextureInputTextureForID_inv in Hacq as [Hrel _].
    rewrite (IH _ _ _ H). now apply releaseRenderTargetForID_scope in Hrel.
Qed.

Lemma releaseRenderTargets_scope (ids : list (option nat)) (this this' : Ex) :
  SceneGraphExecutor.releaseRenderTargets ids this = OK this' ->
  scope_state this' = scope_state this.
Proof.
  revert this. induction ids as [|c ids IH]; intros this; simpl.
  - now intros [= <-].
  - intros H. inv_bind H as this1 Hrel.
    rewrite (IH _ H). now apply releaseRenderTargetForID_scope in Hrel.
Qed.

Lemma releaseResolveTextureInputs_scope (ids : list nat) (this this' : Ex) :
  SceneGraphExecutor.releaseResolveTextureInputs ids this = OK this' ->
  scope_state this' = scope_state this.
Proof.
  revert this. induction ids as [|c ids IH]; intros this; simpl.
  - now intros [= <-].
  - intros H. inv_bind H as this1 Hrel. rewrite (IH _ H).
    apply releaseResolveTextureInputForID_inv in Hrel as (z & _ & _ & Hrel).
    cbn zeta in Hrel. subst this1.
    destruct (z =? 1)%Z; [|reflexivity].
    now destruct (JsArray.get (rsForID this) c).
Qed.

Lemma schedulePass_scope (device device' : GfxDevice) (graph : SceneGraph)
    (pass pass' : SceneGraphPassImpl) (presentColorTexture : option GfxTexture)
    (this this' : Ex) :
  SceneGraphExecutor.schedulePass device graph pass presentColorTexture this
    = OK (pass', device', this') ->
  scope_state this' = scope_state this.
Proof.
  intros H. apply schedulePass_inv in H. cbn zeta in H.
  destruct H as (color0 & device1 & this1 & colorClear & depthStencil & device2
                 & this2 & depthClear & stencilClear & colorResolve & device3
                 & this3 & depthResolve & this4 & textures & this7 & this8
                 & H1 & _ & H3 & _ & _ & H6 & H7 & _ & H9 & H10 & H11 & _).
  rewrite (releaseResolveTextureInputs_scope _ _ _ H11).
  rewrite (releaseRenderTargets_scope _ _ _ H10).
  rewrite (acquireInputTextures_scope _ _ _ _ _ _ _ H9).
  rewrite !markCleared_scope.
  rewrite (acquireResolveTextureOutputForID_scope _ _ _ _ _ _ _ _ H7).
  assert (scope_state this3 = scope_state this2) as ->.
  { destruct (doPresent pass).
    - now injection H6 as _ _ <-.
    - now apply acquireResolveTextureOutputForID_scope in H6. }
  rewrite (acquireRenderTargetForID_scope _ _ _ _ _ _ _ H3).
  now apply acquireRenderTargetForID_scope in H1.
Qed.

Lemma countPasses_scope (graph : SceneGraph) (ps : list SceneGraphPassImpl)
    (this : Ex) :
  scope_state (SceneGraphExecutor.countPasses graph ps this) = scope_state this.
Proof.
  assert (forall o t, scope_state (SceneGraphExecutor.addRenderTargetUse o t)
                      = scope_state t) as Hadd by (now intros [id|] t).
  assert (forall ids t, scope_state (SceneGraphExecutor.addUseCount_renderTargets ids t)
                        = scope_state t) as Hrts.
  { induction ids as [|o ids IH]; intros t; simpl; [reflexivity|].
    now rewrite IH, Hadd. }
  assert (forall ids t,
            scope_state (SceneGraphExecutor.addUseCount_resolveTextures graph ids t)
            = scope_state t) as Hrss.
  { induction ids as [|c ids IH]; intros t; simpl; [reflexivity|].
    now rewrite IH, Hadd. }
  revert this. induction ps as [|pass ps IH]; intros this; simpl; [reflexivity|].
  rewrite IH. unfold SceneGraphExecutor.scheduleAddUseCount. now rewrite Hrss, Hrts.
Qed.

Lemma scheduleGraph_scope (device device' : GfxDevice) (graph graph' : SceneGraph)
    (presentColorTexture : option GfxTexture) (this this' : Ex) :
  SceneGraphExecutor.scheduleGraph device graph presentColorTexture this
    = OK (graph', device', this') ->
  scope_state this' = scope_state this.
Proof.
  intros H.
  apply scheduleGraph_OK_inv in H
    as (_ & _ & ps & device1 & this4 & Hps & _ & _ & Hfinal).
  rewrite sweepPools_spec in Hfinal. injection Hfinal as -> ->.
  destruct (schedulePasses_each graph presentColorTexture
              (fun _ _ => True) (fun a b => scope_state b = scope_state a)
              (fun _ => eq_refl)
              (fun a b c Hab Hbc => eq_trans Hbc Hab)
              (fun device pass pass' device' this this' Hpass _ =>
                 conj I (schedulePass_scope device device' graph pass pass'
                           presentColorTexture this this' Hpass))
              _ _ _ _ _ _ Hps I) as (_ & Hscope & _).
  change (scope_state this4 = scope_state this).
  rewrite Hscope. unfold afterPassA. now rewrite countPasses_scope.
Qed.

Lemma ready_new : ready SceneGraphExecutor.new.
Proof.
  unfold ready, alive_empty, pool_shape, pool_clear. cbn.
  do 4 (split; [reflexivity|]). split; [apply Forall_nil_2|].
  split; [reflexivity|]. split; intros x Hx; inversion Hx.
Qed.

(** X11.  The executor can be used frame after frame: a new executor is
    ready (no scope state, empty counters, nothing checked out, no
    physical copy registered, the pooled render targets well formed and
    flagged for clearing), and an [execGraph] that returns on a ready
    executor leaves it ready. *)
Theorem execGraph_keeps_ready (device device' : GfxDevice)
    (graph graph' : SceneGraph) (presentColorTexture : option GfxTexture)
    (this this' : SceneGraphExecutor.t) :
  ready this ->
  SceneGraphExecutor.execGraph device graph presentColorTexture this
    = OK (graph', device', this') ->
  ready this' /\ ready SceneGraphExecutor.new.
Proof.
  intros (Hg & Hp & Hrt & Hrs & Hempty & Htable & Hpool & Hclear) H.
  split; [|exact ready_new].
  unfold SceneGraphExecutor.execGraph in H.
  inv_bind H as [[graph1 device1] this1] Hs. inv_bind H as [] Hnull.
  inv_bind H as [device2 this3] Hexec. injection H as <- <- <-.
  destruct (scheduleGraph_lookup _ _ _ _ _ _ _ Hs Hpool Hempty Htable)
    as (Hrt1 & Hrs1 & Hpool1 & Hempty1 & _).
  assert (alive_clean this) as Hclean.
  { intros id rt Hrt0. rewrite (proj1 (alive_empty_get this) Hempty id) in Hrt0.
    discriminate. }
  destruct (scheduleGraph_clear _ _ _ _ _ _ _ Hs Hclear Hclean) as [Hclear1 _].
  pose proof (scheduleGraph_scope _ _ _ _ _ _ _ Hs) as Hscope.
  unfold scope_state in Hscope. rewrite Hg, Hp in Hscope.
  injection Hscope as Hg1 Hp1.
  destruct (execPasses_returns device1 (passes graph1)
              (SceneGraphExecutor.with_currentGraph (Some graph1) this1) Hp1
              _ _ Hexec) as (-> & _).
  unfold ready. cbn. unfold alive_empty, pool_shape, pool_clear in *. cbn.
  auto 10.
Qed.

Lemma destroy_each_spec {A} (destroy : A -> GfxDevice -> GfxDevice)
    (calls_of : A -> list GfxCall) (pool : list A) (device : GfxDevice) :
  (forall x d, destroy x d = mkDevice (nextHandle d) (calls d ++ calls_of x)) ->
  destroy_each destroy pool device =
  mkDevice (nextHandle device) (calls device ++ flat_map calls_of pool).
Proof.
  intros Hdestroy. revert device. induction pool as [|x pool IH]; intros device; simpl.
  - rewrite app_nil_r. now destruct device.
  - rewrite IH, Hdestroy. cbn. now rewrite <- app_assoc.
Qed.

(** X12.  Teardown: [destroy] returns exactly when no surface is checked
    out and no physical copy is registered, and then it destroys every
    pooled render target (texture, if any, then attachment) and every
    pooled resolve texture, in pool order, and nothing else; otherwise it
    fails with an assertion.  A ready executor has nothing checked out and
    nothing registered, so [destroy] returns on it. *)
Theorem destroy_spec (device : GfxDevice) (this : SceneGraphExecutor.t) :
  let released :=
    alive_empty this /\
    Forall (fun c => c = None) (SceneGraphExecutor.resolveTextureForID this) in
  (released ->
   SceneGraphExecutor.destroy device this =
   OK (mkDevice (nextHandle device)
         (calls device
          ++ flat_map renderTarget_destroy_calls
               (SceneGraphExecutor.renderTargetDeadPool this)
          ++ flat_map resolveTexture_destroy_calls
               (SceneGraphExecutor.resolveTextureDeadPool this)))) /\
  (~ released -> SceneGraphExecutor.destroy device this = Fatal AssertFailed) /\
  (ready this -> released).
Proof.
  cbn zeta.
  assert (forall A (c : option A),
            SceneGraphExecutor.is_undefined c = true <-> c = None) as Hundef
    by (intros A [x|]; cbn; split; congruence).
  unfold SceneGraphExecutor.destroy. split; [|split].
  - intros [Hempty Htable].
    apply (assertAll_OK _ _ _ (Hundef _)) in Hempty, Htable.
    rewrite Hempty, Htable. cbn [rbind].
    rewrite (destroy_each_spec _ renderTarget_destroy_calls _ _
               renderTarget_destroy_calls_spec).
    rewrite (destroy_each_spec _ resolveTexture_destroy_calls _ _
               resolveTexture_destroy_calls_spec).
    cbn. now rewrite <- app_assoc.
  - intros Hnot.
    destruct (assertAll_Fatal SceneGraphExecutor.is_undefined (rtAlive this))
      as [H1|H1]; rewrite H1; [|reflexivity]. cbn [rbind].
    destruct (assertAll_Fatal SceneGraphExecutor.is_undefined (rsForID this))
      as [H2|H2]; rewrite H2; [|reflexivity].
    exfalso. apply Hnot.
    apply (assertAll_OK _ _ _ (Hundef _)) in H1, H2. split; assumption.
  - intros (_ & _ & _ & _ & Hempty & Htable & _). split; [exact Hempty|].
    rewrite Htable. constructor.
Qed.

(** X13.  What a callback can look up: outside a pass the lookup throws;
    during a pass a copy id the pass did not declare as an input is an
    assertion failure; and in a scheduled graph the lookup of a copy id
    returns a texture exactly when the pass declared it. *)
Theorem getResolveTextureForID_declared_only (device device' : GfxDevice)
    (graph graph' : SceneGraph) (presentColorTexture : option GfxTexture)
    (this this' : SceneGraphExecutor.t) :
  (forall copy (outside : SceneGraphExecutor.t),
     SceneGraphExecutor.currentGraphPass outside = None ->
     SceneGraphExecutor.getResolveTextureForID copy outside = Fatal TypeError) /\
  (forall pass copy,
     copy ∉ resolveTextureInputIDs pass ->
     lookup_during pass copy = Fatal AssertFailed) /\
  (pool_shape this -> alive_empty this ->
   SceneGraphExecutor.resolveTextureForID this = [] ->
   SceneGraphExecutor.scheduleGraph device graph presentColorTexture this
     = OK (graph', device', this') ->
   forall j pass copy,
     passes graph' !! j = Some pass ->
     (exists tex, lookup_during pass copy = OK tex)
     <-> copy ∈ resolveTextureInputIDs pass).
Proof.
  assert (forall pass copy,
            copy ∉ resolveTextureInputIDs pass ->
            lookup_during pass copy = Fatal AssertFailed) as Hundeclared.
  { intros pass copy Hnot.
    unfold lookup_during, SceneGraphExecutor.getResolveTextureForID.
    cbn [SceneGraphExecutor.currentGraphPass SceneGraphExecutor.with_currentGraphPass].
    destruct (JsArray.indexOf (Some <$> resolveTextureInputIDs pass) copy)
      as [i|] eqn:Hidx; [|reflexivity].
    exfalso. apply Hnot. apply indexOf_Some in Hidx as [Hi _].
    rewrite list_lookup_fmap in Hi.
    destruct (resolveTextureInputIDs pass !! i) as [c|] eqn:Hc; [|discriminate].
    cbn in Hi. injection Hi as ->. apply list_elem_of_lookup. eauto. }
  split; [|split; [exact Hundeclared|]].
  - intros copy outside Hnone. unfold SceneGraphExecutor.getResolveTextureForID.
    now rewrite Hnone.
  - intros Hpool Hempty Htable Hrun j pass copy Hj.
    destruct (scheduleGraph_lookup _ _ _ _ _ _ _ Hrun Hpool Hempty Htable)
      as (_ & _ & _ & _ & Hlook).
    split.
    + intros [tex Htex].
      destruct (decide (copy ∈ resolveTextureInputIDs pass)) as [Hin|Hnot];
        [exact Hin|].
      rewrite (Hundeclared pass copy Hnot) in Htex. discriminate.
    + intros Hin. destruct (Hlook j pass copy Hj Hin) as (tex & Htex & _). eauto.
Qed.

(** * The builder *)

Lemma resolve_wired (graph : SceneGraph) (id copy : nat)
    (this' : SceneGraphBuilder.t) :
  SceneGraphBuilder.resolveRenderTargetToColorTexture id
    (SceneGraphBuilder.mk (Some graph)) = OK (copy, this') ->
  outputs_wired graph ->
  exists graph',
    this' = SceneGraphBuilder.mk (Some graph') /\ outputs_wired graph'.
Proof.
  rewrite resolve_unfold.
  destruct (SceneGraphBuilder.scan_back (passes graph) id (length (passes graph)))
    as [[i writer]|] eqn:Hscan; [|discriminate].
  intros [= <- <-] Hwired. eexists. split; [reflexivity|].
  apply scan_back_Some in Hscan as (Hlt & Hi & Hbinds & _).
  intros pass Hpass slot c Hout. cbn [passes resolveTextureRenderTargetIDs] in *.
  apply list_elem_of_lookup in Hpass as [j Hj].
  destruct (decide (i = j)) as [<-|Hne].
  - rewrite list_lookup_insert_eq in Hj by (now apply lookup_lt_Some with writer).
    injection Hj as <-. cbn [resolveTextureOutputIDs renderTargetIDs
                             with_resolveTextureOutputIDs] in *.
    destruct (JsArray.indexOf (renderTargetIDs writer) id) as [s|] eqn:Hidx.
    + cbn [JsArray.set_at] in Hout. destruct (decide (s = slot)) as [->|Hs].
      * rewrite get_set_eq in Hout. injection Hout as <-.
        apply indexOf_Some in Hidx as [Hslot _]. exists id.
        split; [now apply get_lookup|]. now apply list_lookup_middle.
      * rewrite get_set_ne in Hout by assumption.
        destruct (Hwired writer (list_elem_of_lookup_2 _ _ _ Hi) slot c Hout)
          as (id' & Hslot & Ho).
        exists id'. split; [exact Hslot|]. now apply lookup_app_l_Some.
    + cbn [JsArray.set_at] in Hout.
      destruct (Hwired writer (list_elem_of_lookup_2 _ _ _ Hi) slot c Hout)
        as (id' & Hslot & Ho).
      exists id'. split; [exact Hslot|]. now apply lookup_app_l_Some.
  - rewrite list_lookup_insert_ne in Hj by assumption.
    destruct (Hwired pass (list_elem_of_lookup_2 _ _ _ Hj) slot c Hout)
      as (id' & Hslot & Ho).
    exists id'. split; [exact Hslot|]. now apply lookup_app_l_Some.
Qed.

Lemma setup_of_calls_tidy (cs : list PassCall) :
  tidy_setup (SceneGraphBuilder.setup_of_calls cs).
Proof.
  intros pass this pass' this' H. unfold SceneGraphBuilder.setup_of_calls in H.
  inv_bind H as p Hp. injection H as <- <-.
  split; [now apply run_calls_outputs in Hp|]. eauto.
Qed.

Lemma sampling_setup_tidy (id : nat) (cs : nat -> list PassCall) :
  tidy_setup (sampling_setup id cs).
Proof.
  intros pass this pass' this' H. unfold sampling_setup in H.
  inv_bind H as [copy this1] Hresolve. inv_bind H as p Hp. injection H as <- <-.
  split; [now apply run_calls_outputs in Hp|].
  intros graph Hg Hwired. destruct this as [g]. cbn in Hg. subst g.
  destruct (resolve_wired _ _ _ _ Hresolve Hwired) as (graph' & -> & Hwired').
  eauto.
Qed.

(** X14.  The builder keeps the copy-outputs wired: in every graph it
    builds, a copy-output recorded on a pass sits on a slot of that pass
    that is bound to the surface the copy was requested of.  This holds
    for the empty graph of [begin] and is kept by [createRenderTargetID],
    by [resolveRenderTargetToColorTexture] and by [pushPass] with a setup
    callback that makes interface calls on its pass, possibly after
    requesting a copy. *)
Theorem builder_keeps_outputs_wired (graph : SceneGraph) :
  outputs_wired graph ->
  outputs_wired newSceneGraph /\
  (forall desc id this',
     SceneGraphBuilder.createRenderTargetID desc (SceneGraphBuilder.mk (Some graph))
       = OK (id, this') ->
     exists graph', this' = SceneGraphBuilder.mk (Some graph') /\ outputs_wired graph') /\
  (forall id copy this',
     SceneGraphBuilder.resolveRenderTargetToColorTexture id
       (SceneGraphBuilder.mk (Some graph)) = OK (copy, this') ->
     exists graph', this' = SceneGraphBuilder.mk (Some graph') /\ outputs_wired graph') /\
  (forall setupFunc this',
     tidy_setup setupFunc ->
     SceneGraphBuilder.pushPass setupFunc (SceneGraphBuilder.mk (Some graph))
       = OK this' ->
     exists graph', this' = SceneGraphBuilder.mk (Some graph') /\ outputs_wired graph') /\
  (forall calls, tidy_setup (SceneGraphBuilder.setup_of_calls calls)) /\
  (forall id calls, tidy_setup (sampling_setup id calls)).
Proof.
  intros Hwired. split; [|split; [|split; [|split; [|split]]]].
  - intros pass Hpass. inversion Hpass.
  - intros desc id this' [= <- <-]. eexists. split; [reflexivity|].
    exact Hwired.
  - intros id copy this' H. exact (resolve_wired _ _ _ _ H Hwired).
  - intros setupFunc this' Htidy H. unfold SceneGraphBuilder.pushPass in H.
    inv_bind H as [pass this1] Hsetup. inv_bind H as graph1 Hg1.
    injection H as <-. eexists. split; [reflexivity|].
    destruct (Htidy _ _ _ _ Hsetup) as [Hout Hkeeps].
    destruct (Hkeeps graph eq_refl Hwired) as (g1 & Hg & Hwired1).
    unfold SceneGraphBuilder.graph_of in Hg1. rewrite Hg in Hg1.
    injection Hg1 as <-.
    intros q Hq slot c Hc. cbn [passes resolveTextureRenderTargetIDs] in *.
    apply elem_of_app in Hq as [Hq|Hq].
    + exact (Hwired1 q Hq slot c Hc).
    + apply list_elem_of_singleton in Hq. subst q. rewrite Hout in Hc.
      cbn in Hc. unfold JsArray.get in Hc. now rewrite lookup_nil in Hc.
  - exact setup_of_calls_tidy.
  - exact sampling_setup_tidy.
Qed.

Lemma slot_index_inj (s s' : RenderTargetAttachmentSlot) :
  slot_index s = slot_index s' -> s = s'.
Proof. destruct s, s'; cbn; congruence. Qed.

Lemma run_call_attach_inv (slot : RenderTargetAttachmentSlot) (id : nat)
    (p p1 : SceneGraphPassImpl) :
  run_call (CallAttachRenderTargetID slot id) p = OK p1 ->
  JsArray.get (renderTargetIDs p) (slot_index slot) = None /\
  p1 = with_renderTargetIDs
         (JsArray.set (renderTargetIDs p) (slot_index slot) id) p.
Proof.
  cbn. unfold attachRenderTargetID. intros H. inv_bind H as [] Hfree.
  apply assert_OK, bool_decide_eq_true in Hfree. injection H as <-. auto.
Qed.

(* what a script that ran has done to the pass *)
Lemma run_calls_fields (cs : list PassCall) (p0 p : SceneGraphPassImpl) :
  run_calls cs p0 = OK p ->
  script_fits cs p0 /\
  (forall slot id,
     JsArray.get (renderTargetIDs p) (slot_index slot) = Some id <->
     JsArray.get (renderTargetIDs p0) (slot_index slot) = Some id
     \/ (slot, id) ∈ script_binds cs) /\
  resolveTextureInputIDs p = resolveTextureInputIDs p0 ++ script_inputs cs /\
  doPresent p = doPresent p0 || script_presents cs /\
  viewport p = viewport p0 /\
  (func p = None <-> func p0 = None /\ script_execs cs = 0).
Proof.
  revert p0. induction cs as [|c cs IH]; intros p0; simpl.
  - intros [= <-]. split; [|split; [|split; [|split; [|split]]]].
    + split; [constructor|]. split; [intros slot Hin; inversion Hin|].
      cbn. destruct (func p0); lia.
    + intros slot id. split; [auto|]. intros [H|H]; [exact H | inversion H].
    + now rewrite app_nil_r.
    + now rewrite orb_false_r.
    + reflexivity.
    + tauto.
  - intros H. inv_bind H as p1 Hc.
    destruct c as [name|slot id|input|f|].
    + (* setDebugName *)
      injection Hc as <-. exact (IH _ H).
    + (* attachRenderTargetID *)
      apply run_call_attach_inv in Hc as [Hslot ->].
      destruct (IH _ H)
        as ((Hnd & Hfree & Hexec) & Hids & Hin & Hpres & Hvp & Hfunc).
      cbn [renderTargetIDs resolveTextureInputIDs doPresent viewport func
           with_renderTargetIDs] in *.
      assert (slot ∉ (script_binds cs).*1) as Hnotin.
      { intros Hin'. apply Hfree in Hin'. rewrite get_set_eq in Hin'. discriminate. }
      split; [split; [|split]|split; [|auto]].
      * cbn. now apply NoDup_cons.
      * intros s Hs. cbn in Hs. apply elem_of_cons in Hs as [->|Hs]; [exact Hslot|].
        pose proof (Hfree s Hs) as Hs'.
        rewrite get_set_ne in Hs'; [exact Hs'|].
        intros Heq. apply slot_index_inj in Heq. now subst s.
      * exact Hexec.
      * intros s id'. rewrite Hids. cbn [script_binds omap list_omap].
        rewrite elem_of_cons.
        destruct (decide (slot_index s = slot_index slot)) as [Heq|Hne];
          [apply slot_index_inj in Heq; subst s
          |assert (s <> slot) as Hne' by congruence].
        -- rewrite get_set_eq, Hslot. split.
           ++ intros [[= <-]|Hb]; [right; now left | right; now right].
           ++ intros [Hc|[[= <-]|Hb]]; [discriminate | now left | now right].
        -- rewrite get_set_ne by congruence.
           split; [intros [Hc|Hb]; auto|].
           intros [Hc|[[= -> _]|Hb]]; [now left | contradiction | now right].
    + (* attachResolveTexture *)
      injection Hc as <-. destruct (IH _ H) as (Hfit & Hids & Hin & Hrest).
      split; [exact Hfit|]. split; [exact Hids|]. split; [|exact Hrest].
      cbn in Hin |- *. now rewrite Hin, <- app_assoc.
    + (* exec *)
      cbn in Hc. unfold exec in Hc. inv_bind Hc as [] Hnone. injection Hc as <-.
      destruct (func p0) as [f0|] eqn:Hf0; [discriminate|].
      destruct (IH _ H)
        as ((Hnd & Hfree & Hexec) & Hids & Hin & Hpres & Hvp & Hfunc).
      unfold script_execs in *. cbn in Hexec, Hfunc.
      split; [split; [exact Hnd|split; [exact Hfree|]]|].
      * cbn. rewrite Hf0. lia.
      * split; [exact Hids|]. split; [exact Hin|]. split; [exact Hpres|].
        split; [exact Hvp|]. cbn. split.
        -- intros Hp. apply Hfunc in Hp as [Hp _]. discriminate.
        -- intros [_ Hp]. discriminate.
    + (* present *)
      injection Hc as <-. destruct (IH _ H) as (Hfit & Hids & Hin & Hpres & Hrest).
      split; [exact Hfit|]. split; [exact Hids|]. split; [exact Hin|].
      split; [|exact Hrest]. cbn in Hpres |- *. rewrite Hpres.
      now rewrite orb_true_r.
Qed.

(* a script that fits runs *)
Lemma run_calls_fits (cs : list PassCall) (p0 : SceneGraphPassImpl) :
  script_fits cs p0 -> exists p, run_calls cs p0 = OK p.
Proof.
  revert p0. induction cs as [|c cs IH]; intros p0 (Hnd & Hfree & Hexec); simpl.
  - eauto.
  - destruct c as [name|slot id|input|f|]; cbn in *.
    + apply IH. repeat split; assumption.
    + apply NoDup_cons in Hnd as [Hnotin Hnd].
      unfold attachRenderTargetID.
      rewrite (Hfree slot) by (apply elem_of_cons; now left).
      rewrite bool_decide_eq_true_2 by reflexivity. cbn [assert rbind].
      apply IH. split; [exact Hnd|]. split; [|exact Hexec].
      intros s Hs. cbn. rewrite get_set_ne.
      * apply Hfree. apply elem_of_cons. now right.
      * intros Heq. apply slot_index_inj in Heq. now subst s.
    + apply IH. repeat split; assumption.
    + unfold exec. unfold script_execs in Hexec. cbn in Hexec.
      destruct (func p0) as [f0|]; [lia|]. cbn [assert rbind].
      apply IH. split; [exact Hnd|]. split; [exact Hfree|].
      unfold script_execs. cbn. lia.
    + apply IH. repeat split; assumption.
Qed.

(** X15.  What a setup callback made of interface calls does to its pass.
    The calls go through exactly when no slot is attached twice and [exec]
    is called at most once; every other sequence is an assertion failure.
    When they go through, a slot of the pass is bound to a surface exactly
    when the callback attached it, the copy inputs are the attached copy
    ids in call order (repetitions kept), the pass is flagged present
    exactly when [present] was called, it carries a callback exactly when
    [exec] was called, and it has no copy-output and the identity
    viewport. *)
Theorem setup_interface_spec (calls : list PassCall) :
  ((exists pass, run_calls calls newPass = OK pass) <->
   NoDup (script_binds calls).*1 /\ script_execs calls <= 1) /\
  (forall e, run_calls calls newPass = Fatal e -> e = AssertFailed) /\
  (forall pass,
     run_calls calls newPass = OK pass ->
     (forall slot id,
        JsArray.get (renderTargetIDs pass) (slot_index slot) = Some id <->
        (slot, id) ∈ script_binds calls) /\
     resolveTextureInputIDs pass = script_inputs calls /\
     resolveTextureOutputIDs pass = [] /\
     doPresent pass = script_presents calls /\
     viewport pass = IdentityViewportCoords /\
     (func pass = None <-> script_execs calls = 0)).
Proof.
  split; [|split].
  - split.
    + intros [pass H]. apply run_calls_fields in H as ((Hnd & _ & Hexec) & _).
      cbn in Hexec. split; [exact Hnd | lia].
    + intros [Hnd Hexec]. apply run_calls_fits. split; [exact Hnd|].
      split; [|cbn; lia]. intros slot _. destruct slot; reflexivity.
  - generalize newPass. induction calls as [|c cs IH]; intros p0 e; simpl;
      [discriminate|].
    destruct (run_call c p0) as [p1|e1] eqn:Hc; cbn [rbind].
    + apply IH.
    + intros [= <-]. destruct c as [name|slot id|input|f|]; cbn in Hc;
        try discriminate.
      * unfold attachRenderTargetID in Hc.
        destruct (bool_decide _) in Hc; cbn in Hc; congruence.
      * unfold exec in Hc. destruct (func p0); cbn in Hc; congruence.
  - intros pass H. pose proof (run_calls_outputs _ _ _ H) as Hout.
    apply run_calls_fields in H as (_ & Hids & Hin & Hpres & Hvp & Hfunc).
    split; [|split; [exact Hin|split; [exact Hout|split; [exact Hpres|split;
              [exact Hvp|]]]]].
    + intros slot id. rewrite Hids. split; [|auto].
      intros [Hc|Hb]; [|exact Hb]. destruct slot; discriminate.
    + rewrite Hfunc. cbn. tauto.
Qed.


(** * The pool policy *)

Lemma matchesDescription_with_age (n : nat) (rt : RenderTarget.t)
    (desc : RenderTargetDescription) :
  RenderTarget.matchesDescription (RenderTarget.with_age n rt) desc
  = RenderTarget.matchesDescription rt desc.
Proof. reflexivity. Qed.

Lemma RenderTarget_new_matches (device device' : GfxDevice)
    (desc : RenderTargetDescription) (rt : RenderTarget.t) :
  RenderTarget.new device desc = OK (rt, device') ->
  RenderTarget.matchesDescription rt desc = true /\
  RenderTarget.age rt = 0 /\ RenderTarget.needsClear rt = true /\
  RenderTarget.debugName rt = desc_debugName desc.
Proof.
  unfold RenderTarget.new. intros H. inv_bind H as [] Hge.
  destruct (1 <? desc_numSamples desc)%Z; injection H as <- <-;
    unfold RenderTarget.matchesDescription; cbn;
    rewrite !bool_decide_eq_true_2 by reflexivity; auto.
Qed.

Lemma RenderTarget_new_fatal (device : GfxDevice) (desc : RenderTargetDescription) :
  is_fatal (RenderTarget.new device desc) <-> (desc_numSamples desc < 1)%Z.
Proof.
  unfold RenderTarget.new.
  destruct (1 <=? desc_numSamples desc)%Z eqn:Hge; cbn [assert rbind].
  - apply Z.leb_le in Hge.
    destruct (1 <? desc_numSamples desc)%Z; cbn; split; try lia; intros [].
  - apply Z.leb_gt in Hge. cbn. tauto.
Qed.

(** X16.  The pool of render targets is searched first-fit, and a miss
    allocates.  When [acquireRenderTargetForDescription] returns, the
    render target it returns matches the description and has age zero.
    Either it is the first pooled render target, in pool order, that
    matches the description: then it is taken out of the pool, the others
    keep their order, no device call is made and nothing of it but the age
    changes (it keeps its debug name).  Or no pooled render target matches:
    then the executor is left as it was and the render target is new,
    flagged for clearing, named by the description, behind an attachment
    handle the device had not given out, the device having only created
    resources.  The request fails exactly when no pooled render target
    matches and the description asks for fewer than one sample. *)
Theorem acquireRenderTargetForDescription_first_fit (device : GfxDevice)
    (desc : RenderTargetDescription) (this : SceneGraphExecutor.t) :
  (forall renderTarget device' this',
     SceneGraphExecutor.acquireRenderTargetForDescription device desc this
       = OK (renderTarget, device', this') ->
     RenderTarget.matchesDescription renderTarget desc = true /\
     RenderTarget.age renderTarget = 0 /\
     ((exists before free after,
         SceneGraphExecutor.renderTargetDeadPool this = before ++ free :: after /\
         (forall earlier, earlier ∈ before ->
            RenderTarget.matchesDescription earlier desc = false) /\
         renderTarget = RenderTarget.with_age 0 free /\
         this' = SceneGraphExecutor.with_renderTargetDeadPool (before ++ after) this /\
         device' = device)
      \/
      ((forall pooled, pooled ∈ SceneGraphExecutor.renderTargetDeadPool this ->
          RenderTarget.matchesDescription pooled desc = false) /\
       this' = this /\
       RenderTarget.needsClear renderTarget = true /\
       RenderTarget.debugName renderTarget = desc_debugName desc /\
       nextHandle device <= RenderTarget.attachment renderTarget < nextHandle device' /\
       only_creates device device'))) /\
  (is_fatal (SceneGraphExecutor.acquireRenderTargetForDescription device desc this) <->
   (forall pooled, pooled ∈ SceneGraphExecutor.renderTargetDeadPool this ->
      RenderTarget.matchesDescription pooled desc = false) /\
   (desc_numSamples desc < 1)%Z).
Proof.
  split.
  - intros renderTarget device' this' H.
    apply acquireRenderTargetForDescription_inv in H as [H|H].
    + destruct H as (free & pool' & Htake & -> & -> & ->).
      apply pool_take_Some in Htake as (before & after & Hsplit & -> & Hfree & Hfirst).
      rewrite matchesDescription_with_age.
      split; [exact Hfree|]. split; [reflexivity|]. left.
      exists before, free, after. auto.
    + destruct H as (Hnone & Hnew & ->).
      destruct (RenderTarget_new_matches _ _ _ _ Hnew) as (Hm & Hage & Hclear & Hname).
      destruct (RenderTarget_new_handles _ _ _ _ Hnew) as (Hcreates & Hhandle).
      split; [exact Hm|]. split; [exact Hage|]. right.
      split; [exact (proj1 (pool_take_None _ _ _) Hnone)|]. auto.
  - unfold SceneGraphExecutor.acquireRenderTargetForDescription.
    destruct (pool_take _ [] (rtPool this)) as [[free pool']|] eqn:Htake.
    + split; [intros []|]. intros [Hnone _].
      apply pool_take_Some in Htake as (before & after & Hsplit & _ & Hfree & _).
      rewrite Hnone in Hfree; [discriminate|].
      rewrite Hsplit. apply elem_of_app. right. apply elem_of_cons. now left.
    + pose proof (proj1 (pool_take_None _ _ _) Htake) as Hall.
      cbn beta in Hall. clear Htake. rename Hall into Htake.
      destruct (RenderTarget.new device desc) as [[rt dev1]|e] eqn:Hnew; cbn [rbind].
      * split; [intros []|]. intros [_ Hlt].
        apply (RenderTarget_new_fatal device) in Hlt. now rewrite Hnew in Hlt.
      * split; [|intros _; exact I]. intros _. split; [exact Htake|].
        apply (RenderTarget_new_fatal device). now rewrite Hnew.
Qed.

(** * The steady state *)

Lemma count_if_app {A} (f : A -> bool) (l k : list A) :
  count_if f (l ++ k) = count_if f l + count_if f k.
Proof. induction l as [|x l IH]; simpl; [reflexivity|]. rewrite IH. lia. Qed.

Lemma count_if_ext {A} (f g : A -> bool) (l : list A) :
  (forall x, x ∈ l -> f x = g x) -> count_if f l = count_if g l.
Proof.
  induction l as [|x l IH]; intros H; simpl; [reflexivity|].
  rewrite (H x) by (apply elem_of_cons; now left).
  rewrite IH; [reflexivity|]. intros y Hy. apply H, elem_of_cons. now right.
Qed.

Lemma count_if_map {A B} (f : B -> bool) (h : A -> B) (l : list A) :
  count_if f (map h l) = count_if (fun x => f (h x)) l.
Proof. induction l as [|x l IH]; simpl; [reflexivity|]. now rewrite IH. Qed.

Lemma count_if_filter {A} (f : A -> bool) (P : A -> Prop) `{forall x, Decision (P x)}
    (l : list A) :
  count_if f (filter P l) = count_if (fun x => f x && bool_decide (P x)) l.
Proof.
  induction l as [|x l IH]; simpl; [reflexivity|].
  rewrite filter_cons. destruct (decide (P x)) as [Hp|Hp].
  - rewrite (bool_decide_eq_true_2 _ Hp), andb_true_r. simpl. now rewrite IH.
  - rewrite (bool_decide_eq_false_2 _ Hp), andb_false_r. simpl. exact IH.
Qed.

Lemma count_if_exists_pos {A} (f : A -> bool) (l : list A) :
  0 < count_if f l -> exists x, x ∈ l /\ f x = true.
Proof.
  induction l as [|x l IH]; simpl; [lia|].
  destruct (f x) eqn:Hx.
  - intros _. exists x. split; [apply elem_of_cons; now left | exact Hx].
  - intros H. destruct (IH H) as (y & Hy & Hfy).
    exists y. split; [apply elem_of_cons; now right | exact Hfy].
Qed.

Lemma count_from_ext {A} (f g : nat -> A -> bool) (i : nat) (l : list A) :
  (forall k x, l !! k = Some x -> f (i + k) x = g (i + k) x) ->
  count_from f i l = count_from g i l.
Proof.
  revert i. induction l as [|x l IH]; intros i H; simpl; [reflexivity|].
  pose proof (H 0 x eq_refl) as H0. rewrite Nat.add_0_r in H0. rewrite H0.
  rewrite (IH (S i)); [reflexivity|].
  intros k y Hk. replace (S i + k) with (i + S k) by lia. now apply H.
Qed.

(* one entry changes its mind *)
Lemma count_from_flip {A} (f g : nat -> A -> bool) (i : nat) (l : list A)
    (j : nat) (x : A) :
  l !! j = Some x ->
  (forall k y, k <> j -> l !! k = Some y -> g (i + k) y = f (i + k) y) ->
  count_from g i l + (if f (i + j) x then 1 else 0)
  = count_from f i l + (if g (i + j) x then 1 else 0).
Proof.
  revert i j. induction l as [|y l IH]; intros i j Hj Hother; [discriminate|].
  destruct j as [|j]; simpl in *.
  - injection Hj as ->. rewrite Nat.add_0_r.
    rewrite (count_from_ext g f (S i) l).
    + destruct (f i x), (g i x); lia.
    + intros k z Hk. replace (S i + k) with (i + S k) by lia.
      apply Hother; [lia | exact Hk].
  - pose proof (Hother 0 y ltac:(lia) eq_refl) as H0.
    rewrite Nat.add_0_r in H0. rewrite H0.
    replace (i + S j) with (S i + j) by lia.
    pose proof (IH (S i) j Hj) as IH'.
    assert (forall k z, k <> j -> l !! k = Some z -> g (S i + k) z = f (S i + k) z)
      as Hrest.
    { intros k z Hk Hz. replace (S i + k) with (i + S k) by lia.
      apply Hother; [lia | exact Hz]. }
    specialize (IH' Hrest). lia.
Qed.

Lemma matches_same_surface (rt : RenderTarget.t) (desc other : RenderTargetDescription) :
  RenderTarget.matchesDescription rt desc = true ->
  RenderTarget.matchesDescription rt other = same_surface desc other.
Proof.
  intros H. apply matchesDescription_fields in H as (H1 & H2 & H3 & H4).
  unfold RenderTarget.matchesDescription, same_surface.
  now rewrite H1, H2, H3, H4.
Qed.

Lemma same_surface_refl (desc : RenderTargetDescription) : same_surface desc desc = true.
Proof. unfold same_surface. now rewrite !bool_decide_eq_true_2 by reflexivity. Qed.

Lemma same_texture_refl (desc : RenderTargetDescription) : same_texture desc desc = true.
Proof. unfold same_texture. now rewrite !bool_decide_eq_true_2 by reflexivity. Qed.

Lemma matches_same_texture (rt : ResolveTexture.t) (desc other : RenderTargetDescription) :
  ResolveTexture.matchesDescription rt desc = true ->
  ResolveTexture.matchesDescription rt other = same_texture desc other.
Proof.
  unfold ResolveTexture.matchesDescription, same_texture.
  rewrite !andb_true_iff. intros ((H1 & H2) & H3).
  apply bool_decide_eq_true in H1, H2, H3. now rewrite H1, H2, H3.
Qed.

Lemma ledger_refl (graph : SceneGraph) (this : Ex) (quiet : Prop) :
  ledger graph this this quiet.
Proof. split; [intros desc; lia | intros _ desc; auto]. Qed.

Lemma ledger_trans (graph : SceneGraph) (s1 s2 s3 : Ex) (q1 q2 q : Prop) :
  (q -> q1) -> (q -> q2) ->
  ledger graph s1 s2 q1 -> ledger graph s2 s3 q2 -> ledger graph s1 s3 q.
Proof.
  intros Hq1 Hq2 [U1 H1] [U2 H2]. split.
  - intros desc. destruct (U1 desc), (U2 desc). lia.
  - intros Hq desc. destruct (H1 (Hq1 Hq) desc), (H2 (Hq2 Hq) desc). split; congruence.
Qed.

Lemma checked_out_ext (graph : SceneGraph) (this this' : Ex)
    (desc : RenderTargetDescription) :
  (forall id, is_checked_out this' id = is_checked_out this id) ->
  checked_out graph this' desc = checked_out graph this desc.
Proof.
  intros H. unfold checked_out. apply count_from_ext. intros k d _. now rewrite H.
Qed.

Lemma held_ext (graph : SceneGraph) (this this' : Ex) (desc : RenderTargetDescription) :
  (forall copy, is_held this' copy = is_held this copy) ->
  held graph this' desc = held graph this desc.
Proof.
  intros H. unfold held. apply count_from_ext. intros k d _. now rewrite H.
Qed.

Lemma checked_out_flip (graph : SceneGraph) (this this' : Ex) (id : nat)
    (d desc : RenderTargetDescription) :
  renderTargetDescriptions graph !! id = Some d ->
  (forall other, other <> id -> is_checked_out this' other = is_checked_out this other) ->
  checked_out graph this' desc
  + (if is_checked_out this id && same_surface d desc then 1 else 0)
  = checked_out graph this desc
    + (if is_checked_out this' id && same_surface d desc then 1 else 0).
Proof.
  intros Hd Hother. unfold checked_out.
  apply (count_from_flip
           (fun id d => is_checked_out this id && same_surface d desc)
           (fun id d => is_checked_out this' id && same_surface d desc)
           0 _ id d Hd).
  intros k y Hk _. cbn. now rewrite Hother.
Qed.

Lemma held_flip (graph : SceneGraph) (this this' : Ex) (copy origin : nat)
    (d desc : RenderTargetDescription) :
  resolveTextureRenderTargetIDs graph !! copy = Some origin ->
  renderTargetDescriptions graph !! origin = Some d ->
  (forall other, other <> copy -> is_held this' other = is_held this other) ->
  held graph this' desc + (if is_held this copy && same_texture d desc then 1 else 0)
  = held graph this desc + (if is_held this' copy && same_texture d desc then 1 else 0).
Proof.
  intros Ho Hd Hother. unfold held.
  pose proof (count_from_flip
           (fun copy origin =>
              is_held this copy
              && match renderTargetDescriptions graph !! origin with
                 | Some d => same_texture d desc
                 | None => false
                 end)
           (fun copy origin =>
              is_held this' copy
              && match renderTargetDescriptions graph !! origin with
                 | Some d => same_texture d desc
                 | None => false
                 end)
           0 _ copy origin Ho) as H.
  cbn in H. rewrite Hd in H. apply H.
  intros k y Hk _. now rewrite Hother.
Qed.

(* an operation on the render targets only *)
Lemma resolve_side_frame (graph : SceneGraph) (this this' : Ex)
    (desc : RenderTargetDescription) :
  rsUC this' = rsUC this -> rsForID this' = rsForID this -> rsPool this' = rsPool this ->
  used_resolveTextures graph this' desc = used_resolveTextures graph this desc /\
  have_resolveTextures graph this' desc = have_resolveTextures graph this desc.
Proof.
  intros Huc Htab Hpool.
  unfold used_resolveTextures, have_resolveTextures. rewrite Hpool.
  rewrite (held_ext graph this this'); [auto|].
  intros copy. unfold is_held. now rewrite Huc, Htab.
Qed.

(* an operation on the resolve textures only *)
Lemma surface_side_frame (graph : SceneGraph) (this this' : Ex)
    (desc : RenderTargetDescription) :
  rtAlive this' = rtAlive this -> rtPool this' = rtPool this ->
  used_renderTargets graph this' desc = used_renderTargets graph this desc /\
  have_renderTargets graph this' desc = have_renderTargets graph this desc.
Proof.
  intros Halive Hpool.
  unfold used_renderTargets, have_renderTargets. rewrite Hpool.
  rewrite (checked_out_ext graph this this'); [auto|].
  intros id. unfold is_checked_out. now rewrite Halive.
Qed.

Lemma table_match_frame (graph : SceneGraph) (this this' : Ex) :
  rsForID this' = rsForID this -> table_match graph this -> table_match graph this'.
Proof. unfold table_match. now intros ->. Qed.

Lemma is_checked_out_Some (this : Ex) (id : nat) (rt : RenderTarget.t) :
  JsArray.get (rtAlive this) id = Some rt -> is_checked_out this id = true.
Proof. unfold is_checked_out. now intros ->. Qed.

Lemma is_checked_out_None (this : Ex) (id : nat) :
  JsArray.get (rtAlive this) id = None -> is_checked_out this id = false.
Proof. unfold is_checked_out. now intros ->. Qed.

Lemma is_checked_out_true (this : Ex) (id : nat) :
  is_checked_out this id = true ->
  exists rt, JsArray.get (rtAlive this) id = Some rt.
Proof.
  unfold is_checked_out. destruct (JsArray.get (rtAlive this) id) as [rt|]; [eauto|].
  discriminate.
Qed.

Lemma count_if_middle {A} (f : A -> bool) (before after : list A) (x : A) :
  count_if f (before ++ x :: after)
  = count_if f (before ++ after) + (if f x then 1 else 0).
Proof. rewrite !count_if_app. simpl. lia. Qed.

Lemma acquireRenderTargetForID_ledger (device device' : GfxDevice)
    (graph : SceneGraph) (o : option nat) (this this' : Ex)
    (acquired : option RenderTarget.t) :
  SceneGraphExecutor.acquireRenderTargetForID device graph o this
    = OK (acquired, device', this') ->
  well_kept graph this ->
  well_kept graph this' /\
  ledger graph this this' (nextHandle device' = nextHandle device).
Proof.
  intros H (Hpool & Halive & Hfresh & Htable).
  destruct (acquireRenderTargetForID_shape _ _ _ _ _ _ _ H Hpool Halive)
    as (Hpool' & Halive' & Htab).
  destruct (acquireRenderTargetForID_frame _ _ _ _ _ _ _ H)
    as (_ & Hrsuc & _ & Hrspool).
  split.
  { split; [exact Hpool'|]. split; [exact Halive'|].
    split; [exact (proj1 (acquireRenderTargetForID_keeps _ _ _ _ _ _ _ H) Hfresh)|].
    exact (table_match_frame _ _ _ Htab Htable). }
  destruct o as [id|]; [|injection H as <- <- <-; apply ledger_refl].
  pose proof H as Hinv. apply acquireRenderTargetForID_inv in Hinv as [_ [Hc|Hc]].
  { destruct Hc as (rt0 & _ & _ & _ & ->). apply ledger_refl. }
  destruct Hc as (d & rt & this1 & Hhole & Hd & Hacq & _ & ->).
  assert (forall desc,
            checked_out graph
              (SceneGraphExecutor.with_renderTargetAliveForID
                 (JsArray.set (rtAlive this1) id rt) this1) desc
            = checked_out graph this desc + (if same_surface d desc then 1 else 0))
    as Hout.
  { intros desc.
    pose proof (checked_out_flip graph this
                  (SceneGraphExecutor.with_renderTargetAliveForID
                     (JsArray.set (rtAlive this1) id rt) this1) id d desc Hd) as Hflip.
    rewrite (is_checked_out_None this id Hhole) in Hflip.
    rewrite (is_checked_out_Some _ id rt) in Hflip by (cbn; apply get_set_eq).
    cbn [andb] in Hflip. rewrite Nat.add_0_r in Hflip. apply Hflip.
    intros other Hother. unfold is_checked_out. cbn.
    rewrite get_set_ne by congruence.
    apply acquireRenderTargetForDescription_inv in Hacq as [Hh|Hm].
    - now destruct Hh as (free & pool' & _ & _ & _ & ->).
    - now destruct Hm as (_ & _ & ->). }
  apply acquireRenderTargetForDescription_inv in Hacq as [Hh|Hm].
  - destruct Hh as (free & pool' & Htake & -> & -> & ->).
    apply pool_take_Some in Htake as (before & after & Hsplit & -> & Hfree & _).
    split.
    + intros desc. split; [|apply Nat.eq_le_incl; symmetry;
                            apply (resolve_side_frame graph this _ desc); assumption].
      unfold used_renderTargets. rewrite Hout. cbn. rewrite Hsplit.
      rewrite count_if_middle. rewrite (matches_same_surface free d desc Hfree).
      destruct (same_surface d desc), (RenderTarget.age free =? 0); cbn; lia.
    + intros _ desc. split; [|apply (resolve_side_frame graph this _ desc); assumption].
      unfold have_renderTargets. rewrite Hout. cbn. rewrite Hsplit.
      rewrite count_if_middle. rewrite (matches_same_surface free d desc Hfree). lia.
  - destruct Hm as (_ & Hnew & ->).
    split.
    + intros desc. split; [|apply Nat.eq_le_incl; symmetry;
                            apply (resolve_side_frame graph this _ desc); assumption].
      unfold used_renderTargets. rewrite Hout. cbn. lia.
    + intros Hq. apply RenderTarget_new_handles in Hnew as (_ & Hhandle). lia.
Qed.

Lemma markCleared_checked_out (o : option nat) (this : Ex) (id : nat) :
  is_checked_out (SceneGraphExecutor.markCleared o this) id = is_checked_out this id.
Proof.
  unfold is_checked_out. rewrite markCleared_alive.
  destruct (bool_decide (o = Some id)); [|reflexivity].
  now destruct (JsArray.get (rtAlive this) id).
Qed.

Lemma markCleared_ledger (graph : SceneGraph) (o : option nat) (this : Ex)
    (quiet : Prop) :
  well_kept graph this ->
  well_kept graph (SceneGraphExecutor.markCleared o this) /\
  ledger graph this (SceneGraphExecutor.markCleared o this) quiet.
Proof.
  intros (Hpool & Halive & Hfresh & Htable).
  destruct (markCleared_frame o this) as (_ & Hrsuc & Htab & Hrspool & Hrtpool).
  cbn zeta in *.
  destruct (markCleared_shape graph o this Hpool Halive) as (Hpool' & Halive').
  split.
  { split; [exact Hpool'|]. split; [exact Halive'|].
    split; [exact (proj1 (markCleared_keeps o this) Hfresh)|].
    exact (table_match_frame _ _ _ Htab Htable). }
  assert (forall desc,
            used_renderTargets graph (SceneGraphExecutor.markCleared o this) desc
            = used_renderTargets graph this desc /\
            have_renderTargets graph (SceneGraphExecutor.markCleared o this) desc
            = have_renderTargets graph this desc) as Hsame.
  { intros desc. unfold used_renderTargets, have_renderTargets. rewrite Hrtpool.
    rewrite (checked_out_ext graph this); [auto|]. apply markCleared_checked_out. }
  split.
  - intros desc. destruct (Hsame desc) as [-> _].
    destruct (resolve_side_frame graph this _ desc Hrsuc Htab Hrspool) as [-> _]. lia.
  - intros _ desc. destruct (Hsame desc) as [_ ->].
    destruct (resolve_side_frame graph this _ desc Hrsuc Htab Hrspool) as [_ ->]. auto.
Qed.

Lemma releaseRenderTargetForID_ledger (graph : SceneGraph) (o : option nat)
    (this this' : Ex) (quiet : Prop) :
  SceneGraphExecutor.releaseRenderTargetForID o this = OK this' ->
  well_kept graph this ->
  well_kept graph this' /\ ledger graph this this' quiet.
Proof.
  intros H (Hpool & Halive & Hfresh & Htable).
  destruct (releaseRenderTargetForID_shape graph o this this' H Hpool Halive)
    as (Hpool' & Halive').
  pose proof (proj1 (releaseRenderTargetForID_keeps o this this' H) Hfresh) as Hfresh'.
  destruct o as [id|];
    [|injection H as <-;
      split; [exact (conj Hpool' (conj Halive' (conj Hfresh' Htable)))|];
      apply ledger_refl].
  apply releaseRenderTargetForID_inv in H as (z & Hz & Hpos & H). cbn zeta in H.
  destruct (z =? 1)%Z.
  - destruct H as (rt & Hrt & ->).
    split.
    { split; [exact Hpool'|]. split; [exact Halive'|]. split; [exact Hfresh'|].
      exact Htable. }
    destruct (Halive id rt Hrt) as (_ & d & Hd & Hmatch).
    pose proof (Hfresh id rt Hrt) as Hage.
    assert (forall desc,
              checked_out graph
                (SceneGraphExecutor.with_renderTargetDeadPool
                   (rtPool this ++ [RenderTarget.with_needsClear true rt])
                   (SceneGraphExecutor.with_renderTargetAliveForID
                      (JsArray.delete (rtAlive this) id)
                      (SceneGraphExecutor.with_renderTargetUseCount
                         (decr_at (rtUC this) id) this))) desc
              + (if same_surface d desc then 1 else 0)
              = checked_out graph this desc) as Hout.
    { intros desc.
      pose proof (checked_out_flip graph this
                    (SceneGraphExecutor.with_renderTargetDeadPool
                       (rtPool this ++ [RenderTarget.with_needsClear true rt])
                       (SceneGraphExecutor.with_renderTargetAliveForID
                          (JsArray.delete (rtAlive this) id)
                          (SceneGraphExecutor.with_renderTargetUseCount
                             (decr_at (rtUC this) id) this))) id d desc Hd) as Hflip.
      rewrite (is_checked_out_Some this id rt Hrt) in Hflip.
      rewrite (is_checked_out_None _ id) in Hflip by (cbn; apply get_delete_eq).
      cbn [andb] in Hflip. rewrite Nat.add_0_r in Hflip. apply Hflip.
      intros other Hother. unfold is_checked_out. cbn.
      now rewrite get_delete_ne by congruence. }
    assert (forall desc,
              RenderTarget.matchesDescription (RenderTarget.with_needsClear true rt) desc
              = same_surface d desc) as Hcls
      by (intros desc; exact (matches_same_surface rt d desc Hmatch)).
    split.
    + intros desc. split.
      * unfold used_renderTargets. rewrite <- (Hout desc). cbn.
        rewrite count_if_app. cbn. rewrite Hcls, Hage. cbn.
        destruct (same_surface d desc); cbn; lia.
      * apply Nat.eq_le_incl. symmetry.
        now apply (resolve_side_frame graph this _ desc).
    + intros _ desc. split.
      * unfold have_renderTargets. rewrite <- (Hout desc). cbn.
        rewrite count_if_app. cbn. rewrite Hcls. lia.
      * now apply (resolve_side_frame graph this _ desc).
  - subst this'.
    split.
    { split; [exact Hpool'|]. split; [exact Halive'|]. split; [exact Hfresh'|].
      exact Htable. }
    split.
    + intros desc.
      destruct (surface_side_frame graph this
                  (SceneGraphExecutor.with_renderTargetUseCount
                     (decr_at (rtUC this) id) this) desc eq_refl eq_refl) as [-> _].
      destruct (resolve_side_frame graph this
                  (SceneGraphExecutor.with_renderTargetUseCount
                     (decr_at (rtUC this) id) this) desc eq_refl eq_refl eq_refl)
        as [-> _]. lia.
    + intros _ desc.
      destruct (surface_side_frame graph this
                  (SceneGraphExecutor.with_renderTargetUseCount
                     (decr_at (rtUC this) id) this) desc eq_refl eq_refl) as [_ ->].
      destruct (resolve_side_frame graph this
                  (SceneGraphExecutor.with_renderTargetUseCount
                     (decr_at (rtUC this) id) this) desc eq_refl eq_refl eq_refl)
        as [_ ->]. auto.
Qed.

Lemma ResolveTexture_reset_inv (free rtex : ResolveTexture.t)
    (desc : RenderTargetDescription) :
  ResolveTexture.reset free desc = OK rtex ->
  ResolveTexture.matchesDescription free desc = true /\
  ResolveTexture.matchesDescription rtex desc = true /\
  ResolveTexture.age rtex = 0.
Proof.
  unfold ResolveTexture.reset. intros H. inv_bind H as [] Hm. injection H as <-.
  apply assert_OK in Hm. auto.
Qed.

Lemma ResolveTexture_new_inv (device device' : GfxDevice)
    (desc : RenderTargetDescription) (rtex : ResolveTexture.t) :
  ResolveTexture.new device desc = (rtex, device') ->
  ResolveTexture.matchesDescription rtex desc = true /\
  ResolveTexture.age rtex = 0 /\
  nextHandle device < nextHandle device'.
Proof.
  unfold ResolveTexture.new. cbn. intros [= <- <-].
  unfold ResolveTexture.matchesDescription. cbn.
  rewrite !bool_decide_eq_true_2 by reflexivity. auto.
Qed.

Lemma is_held_registered (this : Ex) (copy : nat) (rtex : ResolveTexture.t) :
  positive (rsUC this) copy ->
  JsArray.get (rsForID this) copy = Some rtex ->
  is_held this copy = true.
Proof.
  intros Hpos Hreg. unfold is_held. rewrite Hreg.
  now rewrite (proj2 (jsnum_gt0_count _ _) Hpos).
Qed.

Lemma is_held_unregistered (this : Ex) (copy : nat) :
  JsArray.get (rsForID this) copy = None -> is_held this copy = false.
Proof. intros Hreg. unfold is_held. rewrite Hreg. apply andb_false_r. Qed.

Lemma acquireResolveTextureOutputForID_ledger (device device' : GfxDevice)
    (graph : SceneGraph) (src o : option nat) (this this' : Ex)
    (out : option GfxTexture) :
  SceneGraphExecutor.acquireResolveTextureOutputForID device graph src o this
    = OK (out, device', this') ->
  well_kept graph this ->
  well_kept graph this' /\
  ledger graph this this' (nextHandle device' = nextHandle device).
Proof.
  intros H (Hpool & Halive & Hfresh & Htable).
  destruct (acquireResolveTextureOutputForID_frame _ _ _ _ _ _ _ _ H)
    as (_ & Hrsuc & Halv & Hrtpool).
  destruct (shape_frame graph this this' Halv Hrtpool) as (Hp & Ha).
  pose proof (proj1 (keeps_frame this this' Halv Hrtpool) Hfresh) as Hfresh'.
  destruct o as [copy|];
    [|injection H as <- <- <-;
      split; [exact (conj Hpool (conj Halive (conj Hfresh Htable)))|];
      apply ledger_refl].
  apply acquireResolveTextureOutputForID_inv in H
    as (Hsrc & Hpos & rt & Hrt & [Hc|[Hc|Hc]]).
  { destruct Hc as (_ & _ & _ & ->).
    split; [exact (conj Hpool (conj Halive (conj Hfresh Htable)))|]. apply ledger_refl. }
  { destruct Hc as (_ & rtex & _ & _ & _ & ->).
    split; [exact (conj Hpool (conj Halive (conj Hfresh Htable)))|]. apply ledger_refl. }
  destruct Hc as (_ & Hhole & surface & d & rtex & this1 & -> & Hd & Hacq & _ & ->).
  symmetry in Hsrc.
  assert (rsForID this1 = rsForID this /\ rsUC this1 = rsUC this /\
          ResolveTexture.matchesDescription rtex d = true /\
          ResolveTexture.age rtex = 0) as (Htab1 & Huc1 & Hm & Hage).
  { apply acquireResolveTextureForDescription_inv in Hacq as [Hh|Hm].
    - destruct Hh as (free & pool' & _ & Hreset & _ & ->).
      apply ResolveTexture_reset_inv in Hreset as (_ & Hm & Hage). auto.
    - destruct Hm as (_ & Hnew & ->).
      apply ResolveTexture_new_inv in Hnew as (Hm & Hage & _). auto. }
  split.
  { split; [exact (Hp Hpool)|]. split; [exact (Ha Halive)|].
    split; [exact Hfresh'|].
    intros c r Hr. cbn in Hr. destruct (decide (c = copy)) as [->|Hne].
    - rewrite get_set_eq in Hr. injection Hr as <-.
      split; [exact Hage|]. exists surface, d. auto.
    - rewrite get_set_ne in Hr by congruence. rewrite Htab1 in Hr.
      exact (Htable c r Hr). }
  assert (forall desc,
            held graph
              (SceneGraphExecutor.with_resolveTextureForID
                 (JsArray.set (rsForID this1) copy rtex) this1) desc
            = held graph this desc + (if same_texture d desc then 1 else 0))
    as Hheld.
  { intros desc.
    pose proof (held_flip graph this
                  (SceneGraphExecutor.with_resolveTextureForID
                     (JsArray.set (rsForID this1) copy rtex) this1)
                  copy surface d desc Hsrc Hd) as Hflip.
    rewrite (is_held_unregistered this copy Hhole) in Hflip.
    rewrite (is_held_registered _ copy rtex) in Hflip;
      [| cbn; rewrite Huc1; exact Hpos | cbn; apply get_set_eq].
    cbn [andb] in Hflip. rewrite Nat.add_0_r in Hflip. apply Hflip.
    intros other Hother. unfold is_held. cbn.
    rewrite get_set_ne by congruence. now rewrite Huc1, Htab1. }
  assert (forall desc,
            used_renderTargets graph
              (SceneGraphExecutor.with_resolveTextureForID
                 (JsArray.set (rsForID this1) copy rtex) this1) desc
            = used_renderTargets graph this desc /\
            have_renderTargets graph
              (SceneGraphExecutor.with_resolveTextureForID
                 (JsArray.set (rsForID this1) copy rtex) this1) desc
            = have_renderTargets graph this desc) as Hsurface
    by (intros desc; now apply surface_side_frame).
  apply acquireResolveTextureForDescription_inv in Hacq as [Hh|Hmiss].
  - destruct Hh as (free & pool' & Htake & Hreset & -> & ->).
    apply pool_take_Some in Htake as (before & after & Hsplit & -> & Hfree & _).
    split.
    + intros desc. split; [destruct (Hsurface desc) as [-> _]; lia|].
      unfold used_resolveTextures. rewrite Hheld. cbn. rewrite Hsplit.
      rewrite count_if_middle. rewrite (matches_same_texture free d desc Hfree).
      destruct (same_texture d desc), (ResolveTexture.age free =? 0); cbn; lia.
    + intros _ desc. split; [exact (proj2 (Hsurface desc))|].
      unfold have_resolveTextures. rewrite Hheld. cbn. rewrite Hsplit.
      rewrite count_if_middle. rewrite (matches_same_texture free d desc Hfree). lia.
  - destruct Hmiss as (_ & Hnew & ->).
    split.
    + intros desc. split; [destruct (Hsurface desc) as [-> _]; lia|].
      unfold used_resolveTextures. rewrite Hheld. cbn. lia.
    + intros Hq. apply ResolveTexture_new_inv in Hnew as (_ & _ & Hlt). lia.
Qed.

Lemma releaseResolveTextureInputForID_ledger (graph : SceneGraph) (o : option nat)
    (this this' : Ex) (quiet : Prop) :
  SceneGraphExecutor.releaseResolveTextureInputForID o this = OK this' ->
  well_kept graph this ->
  well_kept graph this' /\ ledger graph this this' quiet.
Proof.
  intros H (Hpool & Halive & Hfresh & Htable).
  destruct o as [copy|];
    [|injection H as <-;
      split; [exact (conj Hpool (conj Halive (conj Hfresh Htable)))|];
      apply ledger_refl].
  apply releaseResolveTextureInputForID_inv in H as (z & Hz & Hpos & H).
  cbn zeta in H.
  assert (rtAlive this' = rtAlive this /\ rtPool this' = rtPool this /\
          rsForID this' = rsForID this) as (Halv & Hrtpool & Htab).
  { subst this'. destruct (z =? 1)%Z; [|auto].
    destruct (JsArray.get (rsForID this) copy); auto. }
  destruct (shape_frame graph this this' Halv Hrtpool) as (Hp & Ha).
  split.
  { split; [exact (Hp Hpool)|]. split; [exact (Ha Halive)|].
    split; [exact (proj1 (keeps_frame this this' Halv Hrtpool) Hfresh)|].
    exact (table_match_frame _ _ _ Htab Htable). }
  assert (forall desc,
            used_renderTargets graph this' desc = used_renderTargets graph this desc /\
            have_renderTargets graph this' desc = have_renderTargets graph this desc)
    as Hsurface by (intros desc; now apply surface_side_frame).
  assert (forall other, other <> copy ->
            is_held this' other = is_held this other) as Hother.
  { intros other Hne. unfold is_held. rewrite Htab. f_equal. subst this'.
    assert (JsArray.get (decr_at (rsUC this) copy) other = JsArray.get (rsUC this) other)
      as Hd by (apply decr_at_ne; congruence).
    destruct (z =? 1)%Z; [|cbn; now rewrite Hd].
    destruct (JsArray.get (rsForID this) copy); cbn; now rewrite Hd. }
  assert (jsnum_gt0 (JsArray.get (rsUC this') copy) = (0 <? z - 1)%Z) as Hgt.
  { pose proof (decr_at_eq _ _ _ Hz) as Hd. unfold count_is in Hd. subst this'.
    destruct (z =? 1)%Z; [|cbn; now rewrite Hd].
    destruct (JsArray.get (rsForID this) copy); cbn; now rewrite Hd. }
  destruct (z =? 1)%Z eqn:Hz1.
  - apply Z.eqb_eq in Hz1. subst z.
    destruct (JsArray.get (rsForID this) copy) as [rtex|] eqn:Hreg.
    + destruct (Htable copy rtex Hreg) as (Hage & origin & d & Ho & Hd & Hm).
      assert (forall desc,
                held graph this' desc + (if same_texture d desc then 1 else 0)
                = held graph this desc) as Hheld.
      { intros desc.
        pose proof (held_flip graph this this' copy origin d desc Ho Hd Hother)
          as Hflip.
        rewrite (is_held_registered this copy rtex) in Hflip;
          [|exists 1%Z; split; [exact Hz | lia] | exact Hreg].
        assert (is_held this' copy = false) as Hfalse
          by (unfold is_held; now rewrite Hgt).
        rewrite Hfalse in Hflip. cbn [andb] in Hflip. lia. }
      split.
      * intros desc. split; [destruct (Hsurface desc) as [-> _]; lia|].
        unfold used_resolveTextures. rewrite <- (Hheld desc). subst this'. cbn.
        rewrite count_if_app. cbn.
        rewrite (matches_same_texture rtex d desc Hm), Hage.
        destruct (same_texture d desc); cbn; lia.
      * intros _ desc. split; [exact (proj2 (Hsurface desc))|].
        unfold have_resolveTextures. rewrite <- (Hheld desc). subst this'. cbn.
        rewrite count_if_app. cbn.
        rewrite (matches_same_texture rtex d desc Hm). lia.
    + assert (forall desc, held graph this' desc = held graph this desc) as Hheld.
      { intros desc. apply held_ext. intros c.
        destruct (decide (c = copy)) as [->|Hne]; [|now apply Hother].
        rewrite (is_held_unregistered this copy Hreg).
        apply is_held_unregistered. now rewrite Htab. }
      assert (rsPool this' = rsPool this) as Hrspool by now subst this'.
      split.
      * intros desc. split; [destruct (Hsurface desc) as [-> _]; lia|].
        unfold used_resolveTextures. rewrite Hheld, Hrspool. lia.
      * intros _ desc. split; [exact (proj2 (Hsurface desc))|].
        unfold have_resolveTextures. now rewrite Hheld, Hrspool.
  - apply Z.eqb_neq in Hz1.
    assert (forall desc, held graph this' desc = held graph this desc) as Hheld.
    { intros desc. apply held_ext. intros c.
      destruct (decide (c = copy)) as [->|Hne]; [|now apply Hother].
      unfold is_held. rewrite Hgt, Htab. f_equal.
      rewrite (proj2 (jsnum_gt0_count _ _)) by (exists z; split; [exact Hz | lia]).
      apply Z.ltb_lt. lia. }
    assert (rsPool this' = rsPool this) as Hrspool by now subst this'.
    split.
    + intros desc. split; [destruct (Hsurface desc) as [-> _]; lia|].
      unfold used_resolveTextures. rewrite Hheld, Hrspool. lia.
    + intros _ desc. split; [exact (proj2 (Hsurface desc))|].
      unfold have_resolveTextures. now rewrite Hheld, Hrspool.
Qed.

Lemma acquireResolveTextureInputTextureForID_ledger (graph : SceneGraph) (id : nat)
    (this this' : Ex) (tex : GfxTexture) (quiet : Prop) :
  SceneGraphExecutor.acquireResolveTextureInputTextureForID graph id this
    = OK (tex, this') ->
  well_kept graph this ->
  well_kept graph this' /\ ledger graph this this' quiet.
Proof.
  intros H. apply acquireResolveTextureInputTextureForID_inv in H as [H _].
  exact (releaseRenderTargetForID_ledger graph _ this this' quiet H).
Qed.

Lemma acquireInputTextures_ledger (graph : SceneGraph) (ids : list nat) (i : nat)
    (textures textures' : list (option GfxTexture)) (this this' : Ex) (quiet : Prop) :
  SceneGraphExecutor.acquireInputTextures graph ids i textures this
    = OK (textures', this') ->
  well_kept graph this ->
  well_kept graph this' /\ ledger graph this this' quiet.
Proof.
  revert i textures this. induction ids as [|id ids IH]; intros i textures this; simpl.
  - intros [= <- <-] Hk. split; [exact Hk | apply ledger_refl].
  - intros H Hk. inv_bind H as [tex this1] Hacq.
    destruct (acquireResolveTextureInputTextureForID_ledger _ _ _ _ _ quiet Hacq Hk)
      as (Hk1 & L1).
    destruct (IH _ _ _ H Hk1) as (Hk' & L2).
    split; [exact Hk'|]. now apply (ledger_trans graph this this1 this' quiet quiet).
Qed.

Lemma releaseRenderTargets_ledger (graph : SceneGraph) (ids : list (option nat))
    (this this' : Ex) (quiet : Prop) :
  SceneGraphExecutor.releaseRenderTargets ids this = OK this' ->
  well_kept graph this ->
  well_kept graph this' /\ ledger graph this this' quiet.
Proof.
  revert this. induction ids as [|o ids IH]; intros this; simpl.
  - intros [= <-] Hk. split; [exact Hk | apply ledger_refl].
  - intros H Hk. inv_bind H as this1 Hrel.
    destruct (releaseRenderTargetForID_ledger _ _ _ _ quiet Hrel Hk) as (Hk1 & L1).
    destruct (IH _ H Hk1) as (Hk' & L2).
    split; [exact Hk'|]. now apply (ledger_trans graph this this1 this' quiet quiet).
Qed.

Lemma releaseResolveTextureInputs_ledger (graph : SceneGraph) (ids : list nat)
    (this this' : Ex) (quiet : Prop) :
  SceneGraphExecutor.releaseResolveTextureInputs ids this = OK this' ->
  well_kept graph this ->
  well_kept graph this' /\ ledger graph this this' quiet.
Proof.
  revert this. induction ids as [|id ids IH]; intros this; simpl.
  - intros [= <-] Hk. split; [exact Hk | apply ledger_refl].
  - intros H Hk. inv_bind H as this1 Hrel.
    destruct (releaseResolveTextureInputForID_ledger graph (Some id) this this1
                quiet Hrel Hk) as (Hk1 & L1).
    destruct (IH _ H Hk1) as (Hk' & L2).
    split; [exact Hk'|]. now apply (ledger_trans graph this this1 this' quiet quiet).
Qed.

Lemma ledger_weaken (graph : SceneGraph) (this this' : Ex) (quiet : Prop) :
  ledger graph this this' quiet -> ledger graph this this' False.
Proof. intros [U _]. split; [exact U | intros []]. Qed.

Lemma colorResolve_ledger (device device' : GfxDevice) (graph : SceneGraph)
    (pass : SceneGraphPassImpl) (presentColorTexture : option GfxTexture)
    (src : option nat) (this this' : Ex) (out : option GfxTexture) :
  (if doPresent pass then OK (presentColorTexture, device, this)
   else SceneGraphExecutor.acquireResolveTextureOutputForID device graph src
          (JsArray.get (resolveTextureOutputIDs pass) 0) this)
    = OK (out, device', this') ->
  well_kept graph this ->
  well_kept graph this' /\
  ledger graph this this' (nextHandle device' = nextHandle device).
Proof.
  destruct (doPresent pass).
  - intros [= <- <- <-] Hk. split; [exact Hk | apply ledger_refl].
  - apply acquireResolveTextureOutputForID_ledger.
Qed.

(* the states a pass goes through, each with its resources well kept and
   nothing used so far lost on the way to the end of the pass *)
Lemma schedulePass_ledger (device device' : GfxDevice) (graph : SceneGraph)
    (pass pass' : SceneGraphPassImpl) (presentColorTexture : option GfxTexture)
    (this this' : Ex) :
  SceneGraphExecutor.schedulePass device graph pass presentColorTexture this
    = OK (pass', device', this') ->
  well_kept graph this ->
  well_kept graph this' /\ ledger graph this this' False.
Proof.
  intros H Hk.
  apply schedulePass_inv in H. cbn zeta in H.
  destruct H as (color0 & device1 & this1 & colorClear & depthStencil & device2
                 & this2 & depthClear & stencilClear & colorResolve & device3 & this3
                 & depthResolve & this4 & textures & this7 & this8
                 & Hc & _ & Hd & _ & _ & Hcr & Hdr & _ & Hin & Hrel & Hrs & _).
  destruct (acquireRenderTargetForID_ledger _ _ _ _ _ _ _ Hc Hk) as (Hk1 & L1).
  destruct (acquireRenderTargetForID_ledger _ _ _ _ _ _ _ Hd Hk1) as (Hk2 & L2).
  destruct (colorResolve_ledger _ _ _ _ _ _ _ _ _ Hcr Hk2) as (Hk3 & L3).
  destruct (acquireResolveTextureOutputForID_ledger _ _ _ _ _ _ _ _ Hdr Hk3)
    as (Hk4 & L4).
  destruct (markCleared_ledger graph (JsArray.get (renderTargetIDs pass) 0) this4
              False Hk4) as (Hk5 & L5).
  destruct (markCleared_ledger graph (JsArray.get (renderTargetIDs pass) 1) _
              False Hk5) as (Hk6 & L6).
  destruct (acquireInputTextures_ledger _ _ _ _ _ _ _ False Hin Hk6) as (Hk7 & L7).
  destruct (releaseRenderTargets_ledger _ _ _ _ False Hrel Hk7) as (Hk8 & L8).
  destruct (releaseResolveTextureInputs_ledger _ _ _ _ False Hrs Hk8) as (Hk9 & L9).
  split; [exact Hk9|].
  apply ledger_weaken in L1, L2, L3, L4.
  apply (ledger_trans graph this this1 this' False False False);
    [tauto | tauto | exact L1 |].
  apply (ledger_trans graph this1 this2 this' False False False);
    [tauto | tauto | exact L2 |].
  apply (ledger_trans graph this2 this3 this' False False False);
    [tauto | tauto | exact L3 |].
  apply (ledger_trans graph this3 this4 this' False False False);
    [tauto | tauto | exact L4 |].
  eapply (ledger_trans graph this4 _ this' False False False);
    [tauto | tauto | exact L5 |].
  eapply (ledger_trans graph _ _ this' False False False);
    [tauto | tauto | exact L6 |].
  eapply (ledger_trans graph _ this7 this' False False False);
    [tauto | tauto | exact L7 |].
  apply (ledger_trans graph this7 this8 this' False False False);
    [tauto | tauto | exact L8 | exact L9].
Qed.

Lemma schedulePasses_ledger (device device' : GfxDevice) (graph : SceneGraph)
    (ps ps' : list SceneGraphPassImpl) (presentColorTexture : option GfxTexture)
    (this this' : Ex) :
  SceneGraphExecutor.schedulePasses device graph ps presentColorTexture this
    = OK (ps', device', this') ->
  well_kept graph this ->
  well_kept graph this' /\ ledger graph this this' False.
Proof.
  revert device ps' this. induction ps as [|pass ps IH]; intros device ps' this; simpl.
  - intros [= <- <- <-] Hk. split; [exact Hk | apply ledger_refl].
  - intros H Hk. inv_bind H as [[pass' device1] this1] Hp.
    inv_bind H as [[ps'' device2] this2] Hps. injection H as <- <- <-.
    destruct (schedulePass_ledger _ _ _ _ _ _ _ _ Hp Hk) as (Hk1 & L1).
    destruct (IH _ _ _ Hps Hk1) as (Hk' & L2).
    split; [exact Hk'|].
    eapply (ledger_trans graph this this1 _ False False False);
      [tauto | tauto | exact L1 | exact L2].
Qed.

(** ** Two cycles in step *)

Lemma same_stock_refl (graph : SceneGraph) (this : Ex) : same_stock graph this this.
Proof. intros desc. auto. Qed.

Lemma in_step_trans (graph : SceneGraph) (first' first'' other other' other'' : Ex) :
  in_step graph first' other other' -> in_step graph first'' other' other'' ->
  in_step graph first'' other other''.
Proof.
  intros (_ & _ & S1) (T & K & S2). split; [exact T|]. split; [exact K|].
  intros desc. destruct (S1 desc), (S2 desc). split; congruence.
Qed.

Lemma covers_stock (graph : SceneGraph) (final other other' : Ex) :
  covers graph final other -> same_stock graph other other' ->
  covers graph final other'.
Proof.
  intros C S desc. destruct (C desc), (S desc). split; congruence.
Qed.

Lemma covers_earlier (graph : SceneGraph) (earlier final other : Ex) (quiet : Prop) :
  ledger graph earlier final quiet -> covers graph final other ->
  covers graph earlier other.
Proof.
  intros [U _] C desc. destruct (U desc), (C desc). split; lia.
Qed.

Lemma twin_checked_out (graph : SceneGraph) (this other : Ex)
    (desc : RenderTargetDescription) :
  twin this other -> checked_out graph this desc = checked_out graph other desc.
Proof. intros (_ & _ & Hocc & _). now apply checked_out_ext. Qed.

Lemma twin_held (graph : SceneGraph) (this other : Ex)
    (desc : RenderTargetDescription) :
  twin this other -> held graph this desc = held graph other desc.
Proof.
  intros (_ & Hrs & _ & Htab). apply held_ext. intros copy.
  unfold is_held. now rewrite Hrs, Htab.
Qed.

(* whether a checked-out render target is backed by a texture is decided
   by the description of its surface *)
Lemma alive_texture_backed (graph : SceneGraph) (this other : Ex) (id : nat)
    (rt rt' : RenderTarget.t) :
  alive_shape graph this -> alive_shape graph other ->
  JsArray.get (rtAlive this) id = Some rt ->
  JsArray.get (rtAlive other) id = Some rt' ->
  (RenderTarget.texture rt = None <-> RenderTarget.texture rt' = None) /\
  RenderTarget.width rt = RenderTarget.width rt' /\
  RenderTarget.height rt = RenderTarget.height rt' /\
  RenderTarget.numSamples rt = RenderTarget.numSamples rt'.
Proof.
  intros Ha Hb Hrt Hrt'.
  destruct (Ha id rt Hrt) as (Hbacked & d & Hd & Hm).
  destruct (Hb id rt' Hrt') as (Hbacked' & d' & Hd' & Hm').
  rewrite Hd in Hd'. injection Hd' as <-.
  apply matchesDescription_fields in Hm as (_ & Hw & Hh & Hn).
  apply matchesDescription_fields in Hm' as (_ & Hw' & Hh' & Hn').
  unfold texture_backed_iff_single in *.
  split; [rewrite Hbacked, Hbacked', Hn, Hn'; tauto|].
  split; [congruence|]. split; congruence.
Qed.

Lemma acquireRenderTargetForID_checked_out (device device' : GfxDevice)
    (graph : SceneGraph) (id : nat) (this this' : Ex)
    (acquired : option RenderTarget.t) (d : RenderTargetDescription) :
  SceneGraphExecutor.acquireRenderTargetForID device graph (Some id) this
    = OK (acquired, device', this') ->
  JsArray.get (rtAlive this) id = None ->
  renderTargetDescriptions graph !! id = Some d ->
  forall desc,
    checked_out graph this' desc
    = checked_out graph this desc + (if same_surface d desc then 1 else 0).
Proof.
  intros H Hhole Hd desc.
  apply acquireRenderTargetForID_alive in H as (rt & _ & Hrt & Hother & _).
  pose proof (checked_out_flip graph this this' id d desc Hd) as Hflip.
  rewrite (is_checked_out_None this id Hhole) in Hflip.
  rewrite (is_checked_out_Some this' id rt Hrt) in Hflip.
  cbn [andb] in Hflip. rewrite Nat.add_0_r in Hflip. apply Hflip.
  intros other Hne. unfold is_checked_out. now rewrite Hother.
Qed.

Lemma acquireRenderTargetForID_twin_after (device1 device1' device2 device2' : GfxDevice)
    (graph : SceneGraph) (o : option nat) (s1 s1' s2 s2' : Ex)
    (a1 a2 : option RenderTarget.t) :
  SceneGraphExecutor.acquireRenderTargetForID device1 graph o s1
    = OK (a1, device1', s1') ->
  SceneGraphExecutor.acquireRenderTargetForID device2 graph o s2
    = OK (a2, device2', s2') ->
  twin s1 s2 -> twin s1' s2'.
Proof.
  intros H1 H2 (Hrt & Hrs & Hocc & Htab).
  destruct (acquireRenderTargetForID_frame _ _ _ _ _ _ _ H1) as (A1 & B1 & C1 & _).
  destruct (acquireRenderTargetForID_frame _ _ _ _ _ _ _ H2) as (A2 & B2 & C2 & _).
  split; [congruence|]. split; [congruence|]. split; [|now rewrite C1, C2].
  destruct o as [id|].
  - apply acquireRenderTargetForID_alive in H1 as (r1 & _ & Hr1 & Ho1 & _).
    apply acquireRenderTargetForID_alive in H2 as (r2 & _ & Hr2 & Ho2 & _).
    intros k. destruct (decide (k = id)) as [->|Hne].
    + now rewrite (is_checked_out_Some _ _ _ Hr1), (is_checked_out_Some _ _ _ Hr2).
    + unfold is_checked_out. rewrite Ho1, Ho2 by exact Hne. apply Hocc.
  - injection H1 as _ _ <-. injection H2 as _ _ <-. exact Hocc.
Qed.

Lemma acquireRenderTargetForID_twin (device1 device1' device2 : GfxDevice)
    (graph : SceneGraph) (o : option nat) (s1 s1' s2 : Ex)
    (a1 : option RenderTarget.t) :
  SceneGraphExecutor.acquireRenderTargetForID device1 graph o s1
    = OK (a1, device1', s1') ->
  twin s1 s2 -> well_kept graph s2 -> covers graph s1' s2 ->
  exists a2 s2',
    SceneGraphExecutor.acquireRenderTargetForID device2 graph o s2
      = OK (a2, device2, s2') /\
    in_step graph s1' s2 s2'.
Proof.
  intros H1 Htw Hk2 Hcov.
  assert (exists a2 s2',
            SceneGraphExecutor.acquireRenderTargetForID device2 graph o s2
            = OK (a2, device2, s2')) as (a2 & s2' & H2).
  { destruct o as [id|]; [|eexists _, _; reflexivity].
    pose proof H1 as Hinv. apply acquireRenderTargetForID_inv in Hinv as [Hpos Hc].
    pose proof Htw as (Hrt & Hrs & Hocc & Htab).
    unfold SceneGraphExecutor.acquireRenderTargetForID. rewrite <- Hrt.
    rewrite (proj2 (jsnum_gt0_count _ _) Hpos). cbn [assert rbind].
    destruct (JsArray.get (rtAlive s2) id) as [rt2|] eqn:Halive2;
      [eexists _, _; reflexivity|].
    destruct Hc as [Hc|Hc].
    { destruct Hc as (rt0 & Hrt0 & _). specialize (Hocc id).
      rewrite (is_checked_out_Some _ _ _ Hrt0), (is_checked_out_None _ _ Halive2)
        in Hocc. discriminate. }
    destruct Hc as (d & rt & this1 & Hhole & Hd & _).
    unfold SceneGraphExecutor.description_at. rewrite Hd. cbn [rbind].
    assert (0 < count_if (fun rt => RenderTarget.matchesDescription rt d) (rtPool s2))
      as Hpos2.
    { destruct (Hcov d) as [Hu _]. unfold used_renderTargets, have_renderTargets in Hu.
      rewrite (acquireRenderTargetForID_checked_out _ _ _ _ _ _ _ d H1 Hhole Hd) in Hu.
      rewrite same_surface_refl in Hu.
      rewrite (twin_checked_out graph s1 s2 d Htw) in Hu. lia. }
    unfold SceneGraphExecutor.acquireRenderTargetForDescription.
    destruct (pool_take _ [] (rtPool s2)) as [[free pool']|] eqn:Htake;
      [eexists _, _; reflexivity|].
    apply count_if_exists_pos in Hpos2 as (x & Hx & Hmx).
    rewrite (proj1 (pool_take_None _ _ _) Htake x Hx) in Hmx. discriminate. }
  exists a2, s2'. split; [exact H2|].
  destruct (acquireRenderTargetForID_ledger _ _ _ _ _ _ _ H2 Hk2)
    as (Hk2' & [_ Hstock]).
  split; [exact (acquireRenderTargetForID_twin_after _ _ _ _ _ _ _ _ _ _ _ _ H1 H2 Htw)|].
  split; [exact Hk2' | exact (Hstock eq_refl)].
Qed.

Lemma markCleared_twin (graph : SceneGraph) (o : option nat) (s1 s2 : Ex) :
  twin s1 s2 -> well_kept graph s2 ->
  in_step graph (SceneGraphExecutor.markCleared o s1) s2
          (SceneGraphExecutor.markCleared o s2).
Proof.
  intros (Hrt & Hrs & Hocc & Htab) Hk2.
  destruct (markCleared_frame o s1) as (A1 & B1 & C1 & _).
  destruct (markCleared_frame o s2) as (A2 & B2 & C2 & _). cbn zeta in *.
  destruct (markCleared_ledger graph o s2 True Hk2) as (Hk2' & [_ Hstock]).
  split; [|split; [exact Hk2' | exact (Hstock I)]].
  split; [congruence|]. split; [congruence|]. split; [|now rewrite C1, C2].
  intros id. now rewrite !markCleared_checked_out.
Qed.

Lemma releaseRenderTargetForID_twin_after (o : option nat) (s1 s1' s2 s2' : Ex) :
  SceneGraphExecutor.releaseRenderTargetForID o s1 = OK s1' ->
  SceneGraphExecutor.releaseRenderTargetForID o s2 = OK s2' ->
  twin s1 s2 -> twin s1' s2'.
Proof.
  intros H1 H2 (Hrt & Hrs & Hocc & Htab).
  destruct o as [id|]; [|injection H1 as <-; injection H2 as <-; repeat split; auto].
  apply releaseRenderTargetForID_inv in H1 as (z & Hz & _ & H1).
  apply releaseRenderTargetForID_inv in H2 as (z' & Hz' & _ & H2).
  cbn zeta in *. rewrite <- Hrt in Hz'.
  rewrite <- (count_is_inj _ _ _ _ Hz Hz') in H2.
  destruct (z =? 1)%Z.
  - destruct H1 as (r1 & Hr1 & ->). destruct H2 as (r2 & Hr2 & ->).
    split; [cbn; now rewrite Hrt|]. split; [exact Hrs|]. split; [|exact Htab].
    intros k. unfold is_checked_out. cbn. destruct (decide (k = id)) as [->|Hne].
    + now rewrite !get_delete_eq.
    + rewrite !get_delete_ne by congruence. apply Hocc.
  - subst s1' s2'.
    split; [cbn; now rewrite Hrt|]. split; [exact Hrs|]. split; [exact Hocc | exact Htab].
Qed.

Lemma releaseRenderTargetForID_twin (graph : SceneGraph) (o : option nat)
    (s1 s1' s2 : Ex) :
  SceneGraphExecutor.releaseRenderTargetForID o s1 = OK s1' ->
  twin s1 s2 -> well_kept graph s2 ->
  exists s2',
    SceneGraphExecutor.releaseRenderTargetForID o s2 = OK s2' /\
    in_step graph s1' s2 s2'.
Proof.
  intros H1 Htw Hk2.
  assert (exists s2', SceneGraphExecutor.releaseRenderTargetForID o s2 = OK s2')
    as (s2' & H2).
  { destruct o as [id|]; [|eexists; reflexivity].
    pose proof H1 as Hinv.
    apply releaseRenderTargetForID_inv in Hinv as (z & Hz & Hpos & Hinv).
    cbn zeta in Hinv. pose proof Htw as (Hrt & Hrs & Hocc & Htab).
    unfold SceneGraphExecutor.releaseRenderTargetForID. rewrite <- Hrt.
    rewrite (proj2 (jsnum_gt0_count _ _)) by (exists z; auto).
    cbn [assert rbind]. cbn.
    pose proof (decr_at_eq _ _ _ Hz) as Hdecr. unfold count_is in Hdecr.
    rewrite Hdecr. cbn.
    destruct (z - 1 =? 0)%Z eqn:Hz1; [|eexists; reflexivity].
    apply Z.eqb_eq in Hz1. replace z with 1%Z in Hinv by lia. cbn in Hinv.
    destruct Hinv as (rt & Hrt1 & _).
    specialize (Hocc id). rewrite (is_checked_out_Some _ _ _ Hrt1) in Hocc.
    symmetry in Hocc. apply is_checked_out_true in Hocc as (rt2 & Hrt2).
    rewrite Hrt2. cbn. eexists; reflexivity. }
  exists s2'. split; [exact H2|].
  destruct (releaseRenderTargetForID_ledger graph o s2 s2' True H2 Hk2)
    as (Hk2' & [_ Hstock]).
  split; [exact (releaseRenderTargetForID_twin_after o s1 s1' s2 s2' H1 H2 Htw)|].
  split; [exact Hk2' | exact (Hstock I)].
Qed.

Lemma releaseRenderTargets_twin (graph : SceneGraph) (ids : list (option nat))
    (s1 s1' s2 : Ex) :
  SceneGraphExecutor.releaseRenderTargets ids s1 = OK s1' ->
  twin s1 s2 -> well_kept graph s2 ->
  exists s2',
    SceneGraphExecutor.releaseRenderTargets ids s2 = OK s2' /\
    in_step graph s1' s2 s2'.
Proof.
  revert s1 s2. induction ids as [|o ids IH]; intros s1 s2; simpl.
  - intros [= <-] Htw Hk2. exists s2. split; [reflexivity|].
    split; [exact Htw|]. split; [exact Hk2 | apply same_stock_refl].
  - intros H Htw Hk2. inv_bind H as m1 Hrel.
    destruct (releaseRenderTargetForID_twin graph o s1 m1 s2 Hrel Htw Hk2)
      as (m2 & Hrel2 & Hstep).
    destruct (IH m1 m2 H (proj1 Hstep) (proj1 (proj2 Hstep))) as (s2' & Hrest & Hstep').
    exists s2'. rewrite Hrel2. cbn [rbind]. split; [exact Hrest|].
    exact (in_step_trans graph m1 s1' s2 m2 s2' Hstep Hstep').
Qed.

Lemma releaseResolveTextureInputForID_twin (graph : SceneGraph) (o : option nat)
    (s1 s1' s2 : Ex) :
  SceneGraphExecutor.releaseResolveTextureInputForID o s1 = OK s1' ->
  twin s1 s2 -> well_kept graph s2 ->
  exists s2',
    SceneGraphExecutor.releaseResolveTextureInputForID o s2 = OK s2' /\
    in_step graph s1' s2 s2'.
Proof.
  intros H1 Htw Hk2.
  assert (exists s2', SceneGraphExecutor.releaseResolveTextureInputForID o s2 = OK s2')
    as (s2' & H2).
  { destruct o as [id|]; [|eexists; reflexivity].
    pose proof H1 as Hinv.
    apply releaseResolveTextureInputForID_inv in Hinv as (z & Hz & Hpos & _).
    pose proof Htw as (Hrt & Hrs & Hocc & Htab).
    unfold SceneGraphExecutor.releaseResolveTextureInputForID. rewrite <- Hrs.
    rewrite (proj2 (jsnum_gt0_count _ _)) by (exists z; auto).
    cbn [assert rbind].
    destruct (jsnum_is0 _); [|eexists; reflexivity].
    destruct (JsArray.get _ id); eexists; reflexivity. }
  exists s2'. split; [exact H2|].
  destruct (releaseResolveTextureInputForID_ledger graph o s2 s2' True H2 Hk2)
    as (Hk2' & [_ Hstock]).
  split; [|split; [exact Hk2' | exact (Hstock I)]].
  destruct Htw as (Hrt & Hrs & Hocc & Htab).
  destruct o as [id|]; [|injection H1 as <-; injection H2 as <-; repeat split; auto].
  apply releaseResolveTextureInputForID_inv in H1 as (z & Hz & _ & H1).
  apply releaseResolveTextureInputForID_inv in H2 as (z' & Hz' & _ & H2).
  cbn zeta in *.
  assert (rtUC s1' = rtUC s1 /\ rsUC s1' = decr_at (rsUC s1) id /\
          rtAlive s1' = rtAlive s1 /\ rsForID s1' = rsForID s1) as (A1 & B1 & C1 & D1).
  { subst s1'. destruct (z =? 1)%Z; [|auto].
    destruct (JsArray.get (rsForID s1) id); auto. }
  assert (rtUC s2' = rtUC s2 /\ rsUC s2' = decr_at (rsUC s2) id /\
          rtAlive s2' = rtAlive s2 /\ rsForID s2' = rsForID s2) as (A2 & B2 & C2 & D2).
  { subst s2'. destruct (z' =? 1)%Z; [|auto].
    destruct (JsArray.get (rsForID s2) id); auto. }
  split; [congruence|]. split; [congruence|].
  split; [|intros copy; rewrite D1, D2; apply Htab].
  intros k. unfold is_checked_out. rewrite C1, C2. apply Hocc.
Qed.

Lemma releaseResolveTextureInputs_twin (graph : SceneGraph) (ids : list nat)
    (s1 s1' s2 : Ex) :
  SceneGraphExecutor.releaseResolveTextureInputs ids s1 = OK s1' ->
  twin s1 s2 -> well_kept graph s2 ->
  exists s2',
    SceneGraphExecutor.releaseResolveTextureInputs ids s2 = OK s2' /\
    in_step graph s1' s2 s2'.
Proof.
  revert s1 s2. induction ids as [|id ids IH]; intros s1 s2.
  - intros [= <-] Htw Hk2. exists s2. split; [reflexivity|].
    split; [exact Htw|]. split; [exact Hk2 | apply same_stock_refl].
  - cbn [SceneGraphExecutor.releaseResolveTextureInputs].
    intros H Htw Hk2. inv_bind H as m1 Hrel.
    destruct (releaseResolveTextureInputForID_twin graph (Some id) s1 m1 s2
                Hrel Htw Hk2) as (m2 & Hrel2 & Hstep).
    destruct (IH m1 m2 H (proj1 Hstep) (proj1 (proj2 Hstep))) as (s2' & Hrest & Hstep').
    exists s2'. rewrite Hrel2. cbn [rbind]. split; [exact Hrest|].
    exact (in_step_trans graph m1 s1' s2 m2 s2' Hstep Hstep').
Qed.

(* where the request for a copy-output registers a resolve texture *)
Lemma acquireResolveTextureOutputForID_table (device device' : GfxDevice)
    (graph : SceneGraph) (src : option nat) (copy : nat) (this this' : Ex)
    (out : option GfxTexture) :
  SceneGraphExecutor.acquireResolveTextureOutputForID device graph src (Some copy) this
    = OK (out, device', this') ->
  exists rt,
    SceneGraphExecutor.at_id (rtAlive this) src = Some rt /\
    forall c,
      SceneGraphExecutor.is_undefined (JsArray.get (rsForID this') c)
      = SceneGraphExecutor.is_undefined (JsArray.get (rsForID this) c)
        && negb (bool_decide (c = copy)
                 && SceneGraphExecutor.is_undefined (RenderTarget.texture rt)).
Proof.
  intros H. apply acquireResolveTextureOutputForID_inv in H
    as (_ & _ & rt & Hrt & [Hc|[Hc|Hc]]); exists rt; (split; [exact Hrt|]); intros c.
  - destruct Hc as ([tex Htex] & _ & _ & ->). rewrite Htex. cbn.
    now rewrite andb_false_r, andb_true_r.
  - destruct Hc as (Htex & rtex & Hreg & _ & _ & ->). rewrite Htex. cbn.
    rewrite andb_true_r. destruct (bool_decide_reflect (c = copy)) as [->|Hne]; cbn.
    + rewrite Hreg. reflexivity.
    + now rewrite andb_true_r.
  - destruct Hc as (Htex & Hhole & surface & d & rtex & this1 & _ & _ & Hacq & _ & ->).
    rewrite Htex. cbn. rewrite andb_true_r.
    assert (rsForID this1 = rsForID this) as Htab.
    { apply acquireResolveTextureForDescription_inv in Hacq as [Hh|Hm].
      - now destruct Hh as (free & pool' & _ & _ & _ & ->).
      - now destruct Hm as (_ & _ & ->). }
    destruct (bool_decide_reflect (c = copy)) as [->|Hne]; cbn.
    + rewrite get_set_eq. cbn. now rewrite andb_false_r.
    + rewrite get_set_ne by congruence. now rewrite Htab, andb_true_r.
Qed.

Lemma acquireResolveTextureOutputForID_held (device device' : GfxDevice)
    (graph : SceneGraph) (surface copy : nat) (this this' : Ex)
    (out : option GfxTexture) (rt : RenderTarget.t) (d : RenderTargetDescription) :
  SceneGraphExecutor.acquireResolveTextureOutputForID device graph (Some surface)
    (Some copy) this = OK (out, device', this') ->
  JsArray.get (rtAlive this) surface = Some rt ->
  RenderTarget.texture rt = None ->
  JsArray.get (rsForID this) copy = None ->
  renderTargetDescriptions graph !! surface = Some d ->
  forall desc,
    held graph this' desc
    = held graph this desc + (if same_texture d desc then 1 else 0).
Proof.
  intros H Hrt Htex Hhole Hd desc.
  destruct (acquireResolveTextureOutputForID_frame _ _ _ _ _ _ _ _ H)
    as (_ & Hrsuc & _ & _).
  destruct (acquireResolveTextureOutputForID_table _ _ _ _ _ _ _ _ H)
    as (rt' & Hrt' & Htab).
  cbn in Hrt'. rewrite Hrt in Hrt'. injection Hrt' as <-.
  apply acquireResolveTextureOutputForID_inv in H as (Hsrc & Hpos & _).
  symmetry in Hsrc.
  pose proof (held_flip graph this this' copy surface d desc Hsrc Hd) as Hflip.
  rewrite (is_held_unregistered this copy Hhole) in Hflip.
  assert (is_held this' copy = true) as Hheld.
  { unfold is_held. rewrite Htab, Hhole, Htex, Hrsuc. cbn.
    rewrite bool_decide_eq_true_2 by reflexivity. cbn.
    now rewrite (proj2 (jsnum_gt0_count _ _) Hpos). }
  rewrite Hheld in Hflip. cbn [andb] in Hflip. rewrite Nat.add_0_r in Hflip.
  apply Hflip. intros other Hne. unfold is_held. rewrite Htab, Hrsuc.
  rewrite bool_decide_eq_false_2 by exact Hne. cbn. now rewrite andb_true_r.
Qed.

Lemma acquireResolveTextureOutputForID_twin (device1 device1' device2 : GfxDevice)
    (graph : SceneGraph) (src o : option nat) (s1 s1' s2 : Ex)
    (out1 : option GfxTexture) :
  SceneGraphExecutor.acquireResolveTextureOutputForID device1 graph src o s1
    = OK (out1, device1', s1') ->
  twin s1 s2 -> well_kept graph s1 -> well_kept graph s2 -> covers graph s1' s2 ->
  exists out2 s2',
    SceneGraphExecutor.acquireResolveTextureOutputForID device2 graph src o s2
      = OK (out2, device2, s2') /\
    in_step graph s1' s2 s2'.
Proof.
  intros H1 Htw Hk1 Hk2 Hcov.
  destruct o as [copy|];
    [|injection H1 as _ _ <-; exists None, s2; split; [reflexivity|];
      split; [exact Htw|]; split; [exact Hk2 | apply same_stock_refl]].
  pose proof Htw as (Hrt & Hrs & Hocc & Htab).
  pose proof Hk1 as (_ & Ha1 & _). pose proof Hk2 as (_ & Ha2 & _).
  pose proof H1 as Hinv.
  apply acquireResolveTextureOutputForID_inv in Hinv as (Hsrc & Hpos & rt1 & Hrt1 & Hc).
  destruct src as [surface|]; [|discriminate]. cbn in Hrt1.
  assert (exists rt2, JsArray.get (rtAlive s2) surface = Some rt2) as (rt2 & Hrt2).
  { apply is_checked_out_true. rewrite <- Hocc.
    exact (is_checked_out_Some _ _ _ Hrt1). }
  destruct (alive_texture_backed graph s1 s2 surface rt1 rt2 Ha1 Ha2 Hrt1 Hrt2)
    as (Hbacked & _).
  assert (exists out2 s2',
            SceneGraphExecutor.acquireResolveTextureOutputForID device2 graph
              (Some surface) (Some copy) s2 = OK (out2, device2, s2'))
    as (out2 & s2' & H2).
  { unfold SceneGraphExecutor.acquireResolveTextureOutputForID.
    rewrite (bool_decide_eq_true_2 _ Hsrc). cbn [assert rbind]. rewrite <- Hrs.
    rewrite (proj2 (jsnum_gt0_count _ _) Hpos). cbn [assert rbind].
    cbn [SceneGraphExecutor.at_id]. rewrite Hrt2. cbn [assertExists rbind].
    destruct (RenderTarget.texture rt2) as [tex2|] eqn:Htex2;
      [eexists _, _; reflexivity|].
    destruct (JsArray.get (rsForID s2) copy) as [rtex2|] eqn:Hreg2;
      [eexists _, _; reflexivity|].
    pose proof (proj2 Hbacked eq_refl) as Htex1.
    destruct Hc as [Hc|[Hc|Hc]].
    { destruct Hc as ([tex Htex] & _). congruence. }
    { destruct Hc as (_ & rtex & Hreg & _). specialize (Htab copy).
      rewrite Hreg, Hreg2 in Htab. discriminate. }
    destruct Hc as (_ & Hhole & surface' & d & rtex & this1 & Hs & Hd & _).
    injection Hs as <-. rewrite Hd. cbn [assertExists rbind].
    assert (0 < count_if (fun rt => ResolveTexture.matchesDescription rt d) (rsPool s2))
      as Hpos2.
    { destruct (Hcov d) as [_ Hu].
      unfold used_resolveTextures, have_resolveTextures in Hu.
      rewrite (acquireResolveTextureOutputForID_held _ _ _ _ _ _ _ _ rt1 d
                 H1 Hrt1 Htex1 Hhole Hd) in Hu.
      rewrite same_texture_refl in Hu.
      rewrite (twin_held graph s1 s2 d Htw) in Hu. lia. }
    unfold SceneGraphExecutor.acquireResolveTextureForDescription.
    destruct (pool_take _ [] (rsPool s2)) as [[free pool']|] eqn:Htake.
    - apply pool_take_Some in Htake as (_ & _ & _ & _ & Hfree & _).
      unfold ResolveTexture.reset. cbn beta in Hfree. rewrite Hfree.
      cbn [assert rbind]. eexists _, _; reflexivity.
    - apply count_if_exists_pos in Hpos2 as (x & Hx & Hmx).
      rewrite (proj1 (pool_take_None _ _ _) Htake x Hx) in Hmx. discriminate. }
  exists out2, s2'. split; [exact H2|].
  destruct (acquireResolveTextureOutputForID_ledger _ _ _ _ _ _ _ _ H2 Hk2)
    as (Hk2' & [_ Hstock]).
  split; [|split; [exact Hk2' | exact (Hstock eq_refl)]].
  destruct (acquireResolveTextureOutputForID_frame _ _ _ _ _ _ _ _ H1)
    as (A1 & B1 & C1 & _).
  destruct (acquireResolveTextureOutputForID_frame _ _ _ _ _ _ _ _ H2)
    as (A2 & B2 & C2 & _).
  split; [congruence|]. split; [congruence|]. split.
  - intros k. unfold is_checked_out. rewrite C1, C2. apply Hocc.
  - destruct (acquireResolveTextureOutputForID_table _ _ _ _ _ _ _ _ H1)
      as (r1 & Hr1 & T1).
    destruct (acquireResolveTextureOutputForID_table _ _ _ _ _ _ _ _ H2)
      as (r2 & Hr2 & T2).
    cbn in Hr1, Hr2. rewrite Hrt1 in Hr1. rewrite Hrt2 in Hr2.
    injection Hr1 as <-. injection Hr2 as <-.
    intros c. rewrite T1, T2, Htab. f_equal. f_equal. f_equal.
    destruct (RenderTarget.texture rt1), (RenderTarget.texture rt2);
      try reflexivity; destruct Hbacked as [F G];
      [specialize (G eq_refl) | specialize (F eq_refl)]; discriminate.
Qed.

Lemma acquireResolveTextureInputTextureForID_twin (graph : SceneGraph) (id : nat)
    (s1 s1' s2 : Ex) (tex1 : GfxTexture) :
  SceneGraphExecutor.acquireResolveTextureInputTextureForID graph id s1
    = OK (tex1, s1') ->
  twin s1 s2 -> well_kept graph s1 -> well_kept graph s2 ->
  exists tex2 s2',
    SceneGraphExecutor.acquireResolveTextureInputTextureForID graph id s2
      = OK (tex2, s2') /\
    in_step graph s1' s2 s2'.
Proof.
  intros H1 Htw Hk1 Hk2.
  pose proof Htw as (Hrt & Hrs & Hocc & Htab).
  pose proof Hk1 as (_ & Ha1 & _). pose proof Hk2 as (_ & Ha2 & _).
  apply acquireResolveTextureInputTextureForID_inv in H1 as [Hrel Hc].
  destruct (releaseRenderTargetForID_twin graph _ s1 s1' s2 Hrel Htw Hk2)
    as (s2' & Hrel2 & Hstep).
  unfold SceneGraphExecutor.acquireResolveTextureInputTextureForID.
  destruct (JsArray.get (rsForID s2) id) as [rtex2|] eqn:Hreg2.
  { rewrite Hrel2. cbn [rbind]. eauto. }
  destruct Hc as [Hc|Hc].
  { destruct Hc as (rtex & Hreg & _). specialize (Htab id).
    rewrite Hreg, Hreg2 in Htab. discriminate. }
  destruct Hc as (_ & rt1 & Hrt1 & Htex1).
  destruct (resolveTextureRenderTargetIDs graph !! id) as [origin|]; [|discriminate].
  cbn in Hrt1. cbn [SceneGraphExecutor.at_id].
  assert (exists rt2, JsArray.get (rtAlive s2) origin = Some rt2) as (rt2 & Hrt2).
  { apply is_checked_out_true. rewrite <- Hocc.
    exact (is_checked_out_Some _ _ _ Hrt1). }
  destruct (alive_texture_backed graph s1 s2 origin rt1 rt2 Ha1 Ha2 Hrt1 Hrt2)
    as (Hbacked & _).
  rewrite Hrt2. cbn [assertExists rbind]. rewrite Hrel2. cbn [rbind].
  destruct (RenderTarget.texture rt2) as [tex2|] eqn:Htex2.
  - cbn [assertExists rbind]. eauto.
  - pose proof (proj2 Hbacked eq_refl) as Hnone. congruence.
Qed.

Lemma acquireInputTextures_twin (graph : SceneGraph) (ids : list nat) (i : nat)
    (textures1 textures1' textures2 : list (option GfxTexture)) (s1 s1' s2 : Ex) :
  SceneGraphExecutor.acquireInputTextures graph ids i textures1 s1
    = OK (textures1', s1') ->
  twin s1 s2 -> well_kept graph s1 -> well_kept graph s2 ->
  exists textures2' s2',
    SceneGraphExecutor.acquireInputTextures graph ids i textures2 s2
      = OK (textures2', s2') /\
    in_step graph s1' s2 s2'.
Proof.
  revert i textures1 textures2 s1 s2.
  induction ids as [|id ids IH]; intros i textures1 textures2 s1 s2.
  - intros [= <- <-] Htw _ Hk2. exists textures2, s2. split; [reflexivity|].
    split; [exact Htw|]. split; [exact Hk2 | apply same_stock_refl].
  - cbn [SceneGraphExecutor.acquireInputTextures].
    intros H Htw Hk1 Hk2. inv_bind H as [tex1 m1] Hacq.
    destruct (acquireResolveTextureInputTextureForID_twin graph id s1 m1 s2 tex1
                Hacq Htw Hk1 Hk2) as (tex2 & m2 & Hacq2 & Hstep).
    destruct (acquireResolveTextureInputTextureForID_ledger graph id s1 m1 tex1 False
                Hacq Hk1) as (Hkm1 & _).
    destruct (IH (S i) _ (JsArray.set textures2 i tex2) m1 m2 H (proj1 Hstep) Hkm1
                (proj1 (proj2 Hstep))) as (textures2' & s2' & Hrest & Hstep').
    exists textures2', s2'. rewrite Hacq2. cbn [rbind]. split; [exact Hrest|].
    exact (in_step_trans graph m1 s1' s2 m2 s2' Hstep Hstep').
Qed.

Lemma acquireRenderTargetForID_acquired_for (device device' : GfxDevice)
    (graph : SceneGraph) (o : option nat) (this this' : Ex)
    (acquired : option RenderTarget.t) :
  SceneGraphExecutor.acquireRenderTargetForID device graph o this
    = OK (acquired, device', this') ->
  alive_shape graph this' -> acquired_for graph o acquired.
Proof.
  intros H Ha. destruct o as [id|]; [|now injection H as <- _ _].
  apply acquireRenderTargetForID_alive in H as (rt & -> & Hrt & _).
  exact (proj2 (Ha id rt Hrt)).
Qed.

Lemma clearValue_runs {A} (graph : SceneGraph) (o : option nat)
    (acquired : option RenderTarget.t) (f : RenderTargetDescription -> clear A) :
  acquired_for graph o acquired ->
  exists v, SceneGraphExecutor.clearValue graph o acquired f = OK v.
Proof.
  unfold SceneGraphExecutor.clearValue, SceneGraphExecutor.description_at.
  destruct acquired as [rt|], o as [id|]; cbn; try (intros; eexists; reflexivity).
  intros (desc & Hd & _). rewrite Hd.
  destruct (RenderTarget.needsClear rt); eexists; reflexivity.
Qed.

Lemma checkAttachmentsMatch_twin (graph : SceneGraph) (oc od : option nat)
    (c1 d1 c2 d2 : option RenderTarget.t) :
  acquired_for graph oc c1 -> acquired_for graph oc c2 ->
  acquired_for graph od d1 -> acquired_for graph od d2 ->
  SceneGraphExecutor.checkAttachmentsMatch c1 d1 = OK tt ->
  SceneGraphExecutor.checkAttachmentsMatch c2 d2 = OK tt.
Proof.
  unfold SceneGraphExecutor.checkAttachmentsMatch.
  destruct oc as [ic|], od as [id|], c1 as [rc1|], c2 as [rc2|], d1 as [rd1|],
           d2 as [rd2|]; cbn; try tauto; try reflexivity.
  intros (dc & Hdc & Mc1) (dc' & Hdc' & Mc2) (dd & Hdd & Md1) (dd' & Hdd' & Md2) H.
  rewrite Hdc in Hdc'. injection Hdc' as <-.
  rewrite Hdd in Hdd'. injection Hdd' as <-.
  apply matchesDescription_fields in Mc1 as (_ & W1 & H1 & N1).
  apply matchesDescription_fields in Mc2 as (_ & W2 & H2 & N2).
  apply matchesDescription_fields in Md1 as (_ & W3 & H3 & N3).
  apply matchesDescription_fields in Md2 as (_ & W4 & H4 & N4).
  inv_bind H as [] Hw. inv_bind H as [] Hh.
  apply assert_OK, bool_decide_eq_true in Hw, Hh, H.
  rewrite !bool_decide_eq_true_2 by congruence. reflexivity.
Qed.

(* the steps of [schedulePass], put together *)
Lemma schedulePass_runs (device device1 device2 device3 device4 : GfxDevice)
    (graph : SceneGraph) (pass : SceneGraphPassImpl)
    (presentColorTexture : option GfxTexture)
    (this this1 this2 this3 this4 this7 this8 this9 : Ex)
    (color0 depthStencil : option RenderTarget.t)
    (colorClear : clear Color) (depthClear stencilClear : clear Q)
    (colorResolve depthResolve : option GfxTexture)
    (textures : list (option GfxTexture)) :
  let color0ID := JsArray.get (renderTargetIDs pass) 0 in
  let depthStencilID := JsArray.get (renderTargetIDs pass) 1 in
  SceneGraphExecutor.acquireRenderTargetForID device graph color0ID this
    = OK (color0, device1, this1) ->
  SceneGraphExecutor.clearValue graph color0ID color0 desc_colorClearColor
    = OK colorClear ->
  SceneGraphExecutor.acquireRenderTargetForID device1 graph depthStencilID this1
    = OK (depthStencil, device2, this2) ->
  SceneGraphExecutor.clearValue graph depthStencilID depthStencil desc_depthClearValue
    = OK depthClear ->
  SceneGraphExecutor.clearValue graph depthStencilID depthStencil
    desc_stencilClearValue = OK stencilClear ->
  (if doPresent pass then OK (presentColorTexture, device2, this2)
   else SceneGraphExecutor.acquireResolveTextureOutputForID device2 graph color0ID
          (JsArray.get (resolveTextureOutputIDs pass) 0) this2)
    = OK (colorResolve, device3, this3) ->
  SceneGraphExecutor.acquireResolveTextureOutputForID device3 graph depthStencilID
    (JsArray.get (resolveTextureOutputIDs pass) 1) this3
    = OK (depthResolve, device4, this4) ->
  SceneGraphExecutor.checkAttachmentsMatch color0 depthStencil = OK tt ->
  SceneGraphExecutor.acquireInputTextures graph (resolveTextureInputIDs pass) 0
    (resolveTextureInputTextures pass)
    (SceneGraphExecutor.markCleared depthStencilID
       (SceneGraphExecutor.markCleared color0ID this4))
    = OK (textures, this7) ->
  SceneGraphExecutor.releaseRenderTargets (renderTargetIDs pass) this7 = OK this8 ->
  SceneGraphExecutor.releaseResolveTextureInputs (resolveTextureInputIDs pass) this8
    = OK this9 ->
  exists pass',
    SceneGraphExecutor.schedulePass device graph pass presentColorTexture this
    = OK (pass', device4, this9).
Proof.
  cbn zeta. intros H1 H2 H3 H4 H5 H6 H7 H8 H9 H10 H11.
  unfold SceneGraphExecutor.schedulePass. cbn [slot_index].
  rewrite H1. cbn [rbind]. rewrite H2. cbn [rbind]. rewrite H3. cbn [rbind].
  rewrite H4. cbn [rbind]. rewrite H5. cbn [rbind]. rewrite H6. cbn [rbind].
  rewrite H7. cbn [rbind]. rewrite H8. cbn [rbind].
  destruct (SceneGraphExecutor.attachmentSize color0 depthStencil) as [w h].
  assert (forall q, renderTargetIDs (SceneGraphExecutor.scheduleViewport w h q)
                    = renderTargetIDs q
                    /\ resolveTextureInputIDs (SceneGraphExecutor.scheduleViewport w h q)
                       = resolveTextureInputIDs q
                    /\ resolveTextureInputTextures (SceneGraphExecutor.scheduleViewport w h q)
                       = resolveTextureInputTextures q) as Hvp.
  { intros q. unfold SceneGraphExecutor.scheduleViewport.
    destruct ((0 <? w)%Z && (0 <? h)%Z); auto. }
  cbn [renderTargetIDs resolveTextureInputIDs resolveTextureInputTextures
       with_resolveTextureInputTextures].
  destruct (Hvp (with_descriptor
                   (mkDescriptor (RenderTarget.attachment <$> color0) colorResolve
                      (RenderTarget.attachment <$> depthStencil) depthResolve
                      colorClear depthClear stencilClear) pass))
    as (Hv1 & Hv2 & Hv3).
  rewrite Hv1, Hv2, Hv3. cbn [renderTargetIDs resolveTextureInputIDs
                              resolveTextureInputTextures with_descriptor].
  rewrite H9. cbn [rbind]. rewrite H10. cbn [rbind]. rewrite H11. cbn [rbind].
  eexists. reflexivity.
Qed.

Lemma colorResolve_twin (device1 device1' device2 : GfxDevice) (graph : SceneGraph)
    (pass : SceneGraphPassImpl) (p1 p2 : option GfxTexture) (src : option nat)
    (s1 s1' s2 : Ex) (out1 : option GfxTexture) :
  (if doPresent pass then OK (p1, device1, s1)
   else SceneGraphExecutor.acquireResolveTextureOutputForID device1 graph src
          (JsArray.get (resolveTextureOutputIDs pass) 0) s1)
    = OK (out1, device1', s1') ->
  twin s1 s2 -> well_kept graph s1 -> well_kept graph s2 -> covers graph s1' s2 ->
  exists out2 s2',
    (if doPresent pass then OK (p2, device2, s2)
     else SceneGraphExecutor.acquireResolveTextureOutputForID device2 graph src
            (JsArray.get (resolveTextureOutputIDs pass) 0) s2)
      = OK (out2, device2, s2') /\
    in_step graph s1' s2 s2'.
Proof.
  destruct (doPresent pass).
  - intros [= <- <- <-] Htw _ Hk2 _. exists p2, s2. split; [reflexivity|].
    split; [exact Htw|]. split; [exact Hk2 | apply same_stock_refl].
  - apply acquireResolveTextureOutputForID_twin.
Qed.

(* a pass that went through in one cycle goes through in a cycle that
   starts with what the first one used, and creates nothing *)
Lemma schedulePass_twin (device1 device1' device2 : GfxDevice) (graph : SceneGraph)
    (pass pass1' : SceneGraphPassImpl) (p1 p2 : option GfxTexture) (s1 s1' s2 : Ex) :
  SceneGraphExecutor.schedulePass device1 graph pass p1 s1
    = OK (pass1', device1', s1') ->
  twin s1 s2 -> well_kept graph s1 -> well_kept graph s2 -> covers graph s1' s2 ->
  exists pass2' s2',
    SceneGraphExecutor.schedulePass device2 graph pass p2 s2
      = OK (pass2', device2, s2') /\
    in_step graph s1' s2 s2'.
Proof.
  intros H Htw Hk Hk2 Hcov.
  apply schedulePass_inv in H. cbn zeta in H.
  destruct H as (color0 & dev1 & this1 & colorClear & depthStencil & dev2
                 & this2 & depthClear & stencilClear & colorResolve & dev3 & this3
                 & depthResolve & this4 & textures & this7 & this8
                 & Hc & _ & Hd & _ & _ & Hcr & Hdr & Hchk & Hin & Hrel & Hrs & _).
  (* the first cycle *)
  destruct (acquireRenderTargetForID_ledger _ _ _ _ _ _ _ Hc Hk) as (Hk1 & L1).
  destruct (acquireRenderTargetForID_ledger _ _ _ _ _ _ _ Hd Hk1) as (Hk2' & L2).
  destruct (colorResolve_ledger _ _ _ _ _ _ _ _ _ Hcr Hk2') as (Hk3 & L3).
  destruct (acquireResolveTextureOutputForID_ledger _ _ _ _ _ _ _ _ Hdr Hk3)
    as (Hk4 & L4).
  destruct (markCleared_ledger graph (JsArray.get (renderTargetIDs pass) 0) this4
              False Hk4) as (Hk5 & L5).
  destruct (markCleared_ledger graph (JsArray.get (renderTargetIDs pass) 1) _
              False Hk5) as (Hk6 & L6).
  destruct (acquireInputTextures_ledger _ _ _ _ _ _ _ False Hin Hk6) as (Hk7 & L7).
  destruct (releaseRenderTargets_ledger _ _ _ _ False Hrel Hk7) as (Hk8 & L8).
  destruct (releaseResolveTextureInputs_ledger _ _ _ _ False Hrs Hk8) as (Hk9 & L9).
  apply ledger_weaken in L1, L2, L3, L4.
  assert (ledger graph this7 s1' False) as R8
    by (apply (ledger_trans graph this7 this8 s1' False False False);
        [tauto | tauto | exact L8 | exact L9]).
  assert (ledger graph this4 s1' False) as R5.
  { eapply (ledger_trans graph this4 _ s1' False False False);
      [tauto | tauto | exact L5 |].
    eapply (ledger_trans graph _ _ s1' False False False);
      [tauto | tauto | exact L6 |].
    eapply (ledger_trans graph _ this7 s1' False False False);
      [tauto | tauto | exact L7 | exact R8]. }
  assert (ledger graph this3 s1' False) as R4
    by (apply (ledger_trans graph this3 this4 s1' False False False);
        [tauto | tauto | exact L4 | exact R5]).
  assert (ledger graph this2 s1' False) as R3
    by (apply (ledger_trans graph this2 this3 s1' False False False);
        [tauto | tauto | exact L3 | exact R4]).
  assert (ledger graph this1 s1' False) as R2
    by (apply (ledger_trans graph this1 this2 s1' False False False);
        [tauto | tauto | exact L2 | exact R3]).
  (* the second cycle, step by step *)
  destruct (acquireRenderTargetForID_twin _ _ device2 _ _ _ _ s2 _ Hc Htw Hk2
              (covers_earlier _ _ _ _ _ R2 Hcov))
    as (c2 & t1 & E1 & S1).
  pose proof S1 as (T1 & K1 & St1).
  pose proof (covers_stock _ _ _ _ Hcov St1) as Hcov1.
  destruct (acquireRenderTargetForID_twin _ _ device2 _ _ _ _ t1 _ Hd T1 K1
              (covers_earlier _ _ _ _ _ R3 Hcov1))
    as (d2 & t2 & E2 & S2).
  pose proof S2 as (T2 & K2 & St2).
  pose proof (covers_stock _ _ _ _ Hcov1 St2) as Hcov2.
  destruct (colorResolve_twin _ _ device2 _ _ p1 p2 _ _ _ t2 _ Hcr T2 Hk2' K2
              (covers_earlier _ _ _ _ _ R4 Hcov2))
    as (cr2 & t3 & E3 & S3).
  pose proof S3 as (T3 & K3 & St3).
  pose proof (covers_stock _ _ _ _ Hcov2 St3) as Hcov3.
  destruct (acquireResolveTextureOutputForID_twin _ _ device2 _ _ _ _ _ t3 _
              Hdr T3 Hk3 K3 (covers_earlier _ _ _ _ _ R5 Hcov3))
    as (dr2 & t4 & E4 & S4).
  pose proof S4 as (T4 & K4 & St4).
  pose proof (markCleared_twin graph (JsArray.get (renderTargetIDs pass) 0)
                this4 t4 T4 K4) as S5.
  pose proof S5 as (T5 & K5 & St5).
  pose proof (markCleared_twin graph (JsArray.get (renderTargetIDs pass) 1)
                _ _ T5 K5) as S6.
  pose proof S6 as (T6 & K6 & St6).
  destruct (acquireInputTextures_twin graph _ 0 _ _ (resolveTextureInputTextures pass)
              _ _ _ Hin T6 Hk6 K6) as (tx2 & t7 & E7 & S7).
  pose proof S7 as (T7 & K7 & St7).
  destruct (releaseRenderTargets_twin graph _ _ _ t7 Hrel T7 K7) as (t8 & E8 & S8).
  pose proof S8 as (T8 & K8 & St8).
  destruct (releaseResolveTextureInputs_twin graph _ _ _ t8 Hrs T8 K8)
    as (t9 & E9 & S9).
  (* what was acquired *)
  pose proof (acquireRenderTargetForID_acquired_for _ _ _ _ _ _ _ Hc (proj1 (proj2 Hk1)))
    as Ac1.
  pose proof (acquireRenderTargetForID_acquired_for _ _ _ _ _ _ _ Hd
                (proj1 (proj2 Hk2'))) as Ad1.
  pose proof (acquireRenderTargetForID_acquired_for _ _ _ _ _ _ _ E1 (proj1 (proj2 K1)))
    as Ac2.
  pose proof (acquireRenderTargetForID_acquired_for _ _ _ _ _ _ _ E2 (proj1 (proj2 K2)))
    as Ad2.
  destruct (clearValue_runs graph _ c2 desc_colorClearColor Ac2) as (cc2 & Ecc).
  destruct (clearValue_runs graph _ d2 desc_depthClearValue Ad2) as (dc2 & Edc).
  destruct (clearValue_runs graph _ d2 desc_stencilClearValue Ad2) as (sc2 & Esc).
  pose proof (checkAttachmentsMatch_twin graph _ _ _ _ _ _ Ac1 Ac2 Ad1 Ad2 Hchk) as Echk.
  destruct (schedulePass_runs device2 device2 device2 device2 device2 graph pass p2
              s2 t1 t2 t3 t4 t7 t8 t9 c2 d2 cc2 dc2 sc2 cr2 dr2 tx2
              E1 Ecc E2 Edc Esc E3 E4 Echk E7 E8 E9) as (pass2' & Erun).
  exists pass2', t9. split; [exact Erun|].
  apply (in_step_trans graph this1 s1' s2 t1 t9 S1).
  apply (in_step_trans graph this2 s1' t1 t2 t9 S2).
  apply (in_step_trans graph this3 s1' t2 t3 t9 S3).
  apply (in_step_trans graph this4 s1' t3 t4 t9 S4).
  eapply (in_step_trans graph _ s1' t4 _ t9 S5).
  eapply (in_step_trans graph _ s1' _ _ t9 S6).
  apply (in_step_trans graph this7 s1' _ t7 t9 S7).
  exact (in_step_trans graph this8 s1' t7 t8 t9 S8 S9).
Qed.

Lemma schedulePasses_twin (device1 device1' device2 : GfxDevice) (graph : SceneGraph)
    (ps ps1' : list SceneGraphPassImpl) (p1 p2 : option GfxTexture) (s1 s1' s2 : Ex) :
  SceneGraphExecutor.schedulePasses device1 graph ps p1 s1
    = OK (ps1', device1', s1') ->
  twin s1 s2 -> well_kept graph s1 -> well_kept graph s2 -> covers graph s1' s2 ->
  exists ps2' s2',
    SceneGraphExecutor.schedulePasses device2 graph ps p2 s2
      = OK (ps2', device2, s2') /\
    in_step graph s1' s2 s2'.
Proof.
  revert device1 ps1' s1 s2.
  induction ps as [|pass ps IH]; intros device1 ps1' s1 s2; simpl.
  - intros [= <- <- <-] Htw _ Hk2 _. exists [], s2. split; [reflexivity|].
    split; [exact Htw|]. split; [exact Hk2 | apply same_stock_refl].
  - intros H Htw Hk Hk2 Hcov. inv_bind H as [[pass' dev1] m1] Hp.
    inv_bind H as [[ps'' dev2] m1'] Hps. injection H as <- <- <-.
    destruct (schedulePass_ledger _ _ _ _ _ _ _ _ Hp Hk) as (Hkm & _).
    destruct (schedulePasses_ledger _ _ _ _ _ _ _ _ Hps Hkm) as (_ & Lrest).
    destruct (schedulePass_twin _ _ device2 _ _ _ p1 p2 _ _ s2 Hp Htw Hk Hk2
                (covers_earlier _ _ _ _ _ Lrest Hcov))
      as (pass2' & m2 & E1 & S1).
    pose proof S1 as (T1 & K1 & St1).
    destruct (IH _ _ _ m2 Hps T1 Hkm K1 (covers_stock _ _ _ _ Hcov St1))
      as (ps2' & s2' & E2 & S2).
    exists (pass2' :: ps2'), s2'. rewrite E1. cbn [rbind]. rewrite E2. cbn [rbind].
    split; [reflexivity|].
    exact (in_step_trans graph m1 m1' s2 m2 s2' S1 S2).
Qed.

(** ** From one frame to the next *)

Lemma addRenderTargetUse_same_counts (o : option nat) (s s' : Ex) :
  rtUC s = rtUC s' -> rsUC s = rsUC s' ->
  rtUC (SceneGraphExecutor.addRenderTargetUse o s)
  = rtUC (SceneGraphExecutor.addRenderTargetUse o s') /\
  rsUC (SceneGraphExecutor.addRenderTargetUse o s)
  = rsUC (SceneGraphExecutor.addRenderTargetUse o s').
Proof. destruct o; cbn; intros -> ->; auto. Qed.

Lemma addUseCount_renderTargets_same_counts (ids : list (option nat)) (s s' : Ex) :
  rtUC s = rtUC s' -> rsUC s = rsUC s' ->
  rtUC (SceneGraphExecutor.addUseCount_renderTargets ids s)
  = rtUC (SceneGraphExecutor.addUseCount_renderTargets ids s') /\
  rsUC (SceneGraphExecutor.addUseCount_renderTargets ids s)
  = rsUC (SceneGraphExecutor.addUseCount_renderTargets ids s').
Proof.
  revert s s'. induction ids as [|o ids IH]; intros s s' A B; simpl; [auto|].
  destruct (addRenderTargetUse_same_counts o s s' A B). now apply IH.
Qed.

Lemma addUseCount_resolveTextures_same_counts (graph : SceneGraph) (ids : list nat)
    (s s' : Ex) :
  rtUC s = rtUC s' -> rsUC s = rsUC s' ->
  rtUC (SceneGraphExecutor.addUseCount_resolveTextures graph ids s)
  = rtUC (SceneGraphExecutor.addUseCount_resolveTextures graph ids s') /\
  rsUC (SceneGraphExecutor.addUseCount_resolveTextures graph ids s)
  = rsUC (SceneGraphExecutor.addUseCount_resolveTextures graph ids s').
Proof.
  revert s s'. induction ids as [|id ids IH]; intros s s' A B; simpl; [auto|].
  apply IH; apply addRenderTargetUse_same_counts; cbn; congruence.
Qed.

Lemma countPasses_same_counts (graph : SceneGraph) (ps : list SceneGraphPassImpl)
    (s s' : Ex) :
  rtUC s = rtUC s' -> rsUC s = rsUC s' ->
  rtUC (SceneGraphExecutor.countPasses graph ps s)
  = rtUC (SceneGraphExecutor.countPasses graph ps s') /\
  rsUC (SceneGraphExecutor.countPasses graph ps s)
  = rsUC (SceneGraphExecutor.countPasses graph ps s').
Proof.
  revert s s'. induction ps as [|pass ps IH]; intros s s' A B; simpl; [auto|].
  unfold SceneGraphExecutor.scheduleAddUseCount.
  apply IH; apply addUseCount_resolveTextures_same_counts;
    apply addUseCount_renderTargets_same_counts; assumption.
Qed.

(* the counts of a cycle are those of the graph *)
Lemma afterPassA_same_counts (graph : SceneGraph) (s s' : Ex) :
  rtUC (afterPassA graph s) = rtUC (afterPassA graph s') /\
  rsUC (afterPassA graph s) = rsUC (afterPassA graph s').
Proof. unfold afterPassA. apply countPasses_same_counts; reflexivity. Qed.

Lemma afterPassA_well_kept (graph : SceneGraph) (this : Ex) :
  pool_shape this -> alive_empty this -> rsForID this = [] ->
  well_kept graph (afterPassA graph this).
Proof.
  intros Hpool Hempty Htable.
  destruct (afterPassA_shape graph this Hpool Hempty Htable) as (Hp & Ha & _).
  destruct (afterPassA_frame graph this) as (Halive & Htab).
  split; [exact Hp|]. split; [exact Ha|]. split.
  - intros id rt Hrt. rewrite Halive in Hrt.
    rewrite (proj1 (alive_empty_get this) Hempty id) in Hrt. discriminate.
  - intros copy rtex Hr. rewrite Htab, Htable in Hr. destruct copy; discriminate.
Qed.

Lemma afterPassA_twin (graph : SceneGraph) (this other : Ex) :
  alive_empty this -> alive_empty other -> rsForID this = [] -> rsForID other = [] ->
  twin (afterPassA graph this) (afterPassA graph other).
Proof.
  intros E1 E2 T1 T2.
  destruct (afterPassA_same_counts graph this other) as (A & B).
  destruct (afterPassA_frame graph this) as (Halive1 & Htab1).
  destruct (afterPassA_frame graph other) as (Halive2 & Htab2).
  split; [exact A|]. split; [exact B|]. split.
  - intros id. unfold is_checked_out. rewrite Halive1, Halive2.
    now rewrite (proj1 (alive_empty_get this) E1 id),
                (proj1 (alive_empty_get other) E2 id).
  - intros copy. now rewrite Htab1, Htab2, T1, T2.
Qed.

Lemma all_zero_not_positive (a : list (option jsnum)) (i : nat) :
  all_zero a -> jsnum_gt0 (JsArray.get a i) = false.
Proof.
  intros Hz. unfold JsArray.get. destruct (a !! i) as [c|] eqn:Hc; [|reflexivity].
  apply list_elem_of_lookup_2 in Hc.
  rewrite (proj1 (Forall_forall _ _) Hz c Hc). reflexivity.
Qed.

Lemma count_from_none {A} (i : nat) (l : list A) :
  count_from (fun _ _ => false) i l = 0.
Proof. revert i. induction l as [|x l IH]; intros i; simpl; [reflexivity | apply IH]. Qed.

(* what an executor with nothing checked out has is what is pooled *)
Lemma released_checked_out (graph : SceneGraph) (this : Ex)
    (desc : RenderTargetDescription) :
  alive_empty this -> checked_out graph this desc = 0.
Proof.
  intros Hempty. unfold checked_out.
  rewrite (count_from_ext _ (fun _ _ => false)).
  - apply count_from_none.
  - intros k d _. unfold is_checked_out.
    now rewrite (proj1 (alive_empty_get this) Hempty).
Qed.

Lemma released_held (graph : SceneGraph) (this : Ex) (desc : RenderTargetDescription) :
  (forall copy, is_held this copy = false) -> held graph this desc = 0.
Proof.
  intros Hnone. unfold held.
  rewrite (count_from_ext _ (fun _ _ => false)).
  - apply count_from_none.
  - intros k d _. now rewrite Hnone.
Qed.

Lemma destroy_calls_create_nothing (renderTargets : list RenderTarget.t)
    (resolveTextures : list ResolveTexture.t) :
  Forall (fun call => ~ is_creation call)
    (flat_map renderTarget_destroy_calls renderTargets
     ++ flat_map resolveTexture_destroy_calls resolveTextures).
Proof.
  apply Forall_app. split.
  - induction renderTargets as [|rt l IH]; simpl; [constructor|].
    apply Forall_app. split; [|exact IH].
    unfold renderTarget_destroy_calls.
    destruct (RenderTarget.texture rt); repeat constructor; auto.
  - induction resolveTextures as [|rt l IH]; simpl; [constructor|].
    constructor; [auto | exact IH].
Qed.

(* an [execGraph] that returns on a ready executor, taken apart *)
Lemma execGraph_ready_inv (device device' : GfxDevice) (graph graph' : SceneGraph)
    (presentColorTexture : option GfxTexture) (this this' : Ex) :
  ready this ->
  SceneGraphExecutor.execGraph device graph presentColorTexture this
    = OK (graph', device', this') ->
  exists ps device1 this4,
    SceneGraphExecutor.schedulePasses device graph (passes graph) presentColorTexture
      (afterPassA graph this) = OK (ps, device1, this4) /\
    SceneGraphExecutor.checkAllReleased this4 = OK tt /\
    rtUC this' = [] /\ rsUC this' = [] /\ rsForID this' = [] /\
    rtAlive this' = rtAlive this4 /\
    rtPool this' = filter (fun rt => ~ renderTarget_aged rt) (rtPool this4) /\
    rsPool this' = filter (fun rt => ~ resolveTexture_aged rt) (rsPool this4).
Proof.
  intros (Hg & Hp & Hrt & Hrs & Hempty & Htable & Hpool & Hclear) H.
  unfold SceneGraphExecutor.execGraph in H.
  inv_bind H as [[graph1 device1] this1] Hs. inv_bind H as [] Hnull.
  inv_bind H as [device2 this3] Hexec. injection H as <- <- <-.
  pose proof (scheduleGraph_scope _ _ _ _ _ _ _ Hs) as Hscope.
  unfold scope_state in Hscope. rewrite Hg, Hp in Hscope.
  injection Hscope as Hg1 Hp1.
  destruct (execPasses_returns device1 (passes graph1)
              (SceneGraphExecutor.with_currentGraph (Some graph1) this1) Hp1
              _ _ Hexec) as (-> & _).
  apply scheduleGraph_OK_inv in Hs as (_ & _ & ps & dev1 & this4 & Hps & Hchk & _ & Hsw).
  rewrite sweepPools_spec in Hsw. injection Hsw as -> ->.
  exists ps, dev1, this4. split; [exact Hps|]. split; [exact Hchk|].
  cbn. auto 10.
Qed.

(* the next frame, for the graph itself *)
Lemma next_frame_same_graph (device device' next : GfxDevice)
    (graph graph' : SceneGraph) (presentColorTexture nextPresent : option GfxTexture)
    (this this' : SceneGraphExecutor.t) :
  ready this ->
  SceneGraphExecutor.execGraph device graph presentColorTexture this
    = OK (graph', device', this') ->
  exists graph'' next' this'',
    SceneGraphExecutor.scheduleGraph next graph nextPresent this'
      = OK (graph'', next', this'') /\
    nextHandle next' = nextHandle next /\
    exists issued,
      calls next' = calls next ++ issued /\
      Forall (fun call => ~ is_creation call) issued.
Proof.
  intros Hready H.
  destruct (execGraph_ready_inv _ _ _ _ _ _ _ Hready H)
    as (ps & device1 & this4 & Hps & Hchk & Hrt' & Hrs' & Htab' & Halive'
        & Hrtpool' & Hrspool').
  destruct Hready as (Hg & Hp & Hrt & Hrs & Hempty & Htable & Hpool & Hclear).
  pose proof (afterPassA_well_kept graph this Hpool Hempty Htable) as Hk1.
  destruct (schedulePasses_ledger _ _ _ _ _ _ _ _ Hps Hk1) as (Hk4 & _).
  apply checkAllReleased_OK in Hchk as (Hz1 & Hz2 & Hempty4).
  assert (alive_empty this') as Hempty'
    by (unfold alive_empty; rewrite Halive'; exact Hempty4).
  assert (pool_shape this') as Hpool'.
  { intros rt Hin. rewrite Hrtpool' in Hin.
    apply list_elem_of_filter in Hin as [_ Hin]. exact (proj1 Hk4 rt Hin). }
  pose proof (afterPassA_well_kept graph this' Hpool' Hempty' Htab') as Hk2.
  pose proof (afterPassA_twin graph this this' Hempty Hempty' Htable Htab') as Htw.
  assert (covers graph this4 (afterPassA graph this')) as Hcov.
  { intros desc.
    unfold used_renderTargets, have_renderTargets, used_resolveTextures,
      have_resolveTextures.
    rewrite (released_checked_out graph this4 desc Hempty4).
    rewrite (released_held graph this4 desc)
      by (intros copy; unfold is_held; now rewrite (all_zero_not_positive _ _ Hz2)).
    destruct (afterPassA_pools graph this') as (Hp1 & Hp2). rewrite Hp1, Hp2.
    cbn [SceneGraphExecutor.agePools SceneGraphExecutor.renderTargetDeadPool
         SceneGraphExecutor.resolveTextureDeadPool
         SceneGraphExecutor.with_renderTargetDeadPool
         SceneGraphExecutor.with_resolveTextureDeadPool].
    rewrite Hrtpool', Hrspool'. rewrite !count_if_map, !count_if_filter.
    split.
    - rewrite (count_if_ext
                 (fun rt => RenderTarget.matchesDescription rt desc
                            && (RenderTarget.age rt =? 0))
                 (fun x => RenderTarget.matchesDescription
                             (RenderTarget.with_age (S (RenderTarget.age x)) x) desc
                           && bool_decide (~ renderTarget_aged x))); [lia|].
      intros rt _. rewrite matchesDescription_with_age. f_equal.
      unfold renderTarget_aged, SceneGraphExecutor.ageThreshold.
      destruct (RenderTarget.age rt) as [|n]; cbn.
      + symmetry. apply bool_decide_eq_true_2. lia.
      + symmetry. apply bool_decide_eq_false_2. lia.
    - rewrite (count_if_ext
                 (fun rt => ResolveTexture.matchesDescription rt desc
                            && (ResolveTexture.age rt =? 0))
                 (fun x => ResolveTexture.matchesDescription
                             (ResolveTexture.with_age (S (ResolveTexture.age x)) x) desc
                           && bool_decide (~ resolveTexture_aged x))); [lia|].
      intros rt _. f_equal.
      unfold resolveTexture_aged, SceneGraphExecutor.ageThreshold.
      destruct (ResolveTexture.age rt) as [|n]; cbn.
      + symmetry. apply bool_decide_eq_true_2. lia.
      + symmetry. apply bool_decide_eq_false_2. lia. }
  destruct (schedulePasses_twin _ _ next _ _ _ presentColorTexture nextPresent _ _ _
              Hps Htw Hk1 Hk2 Hcov) as (ps2 & s2' & Hps2 & _).
  destruct (afterPassB_released _ _ _ _ _ _ _ Hempty' Hps2) as (Z1 & Z2 & E2).
  rewrite scheduleGraph_unfold. rewrite Hrt', Hrs'.
  rewrite !bool_decide_eq_true_2 by reflexivity. cbn [assert rbind].
  rewrite Hps2. cbn [rbind].
  rewrite (proj2 (checkAllReleased_OK s2') (conj Z1 (conj Z2 E2))). cbn [rbind].
  rewrite sweepPools_spec.
  eexists _, _, _. split; [reflexivity|]. cbn [nextHandle calls].
  split; [reflexivity|]. eexists. split; [reflexivity|].
  apply destroy_calls_create_nothing.
Qed.

(** ** Graphs with the same plan *)

Section SamePlan.

Variables graph graph' : SceneGraph.
Hypothesis Hdescs : renderTargetDescriptions graph' = renderTargetDescriptions graph.
Hypothesis Horigins :
  resolveTextureRenderTargetIDs graph' = resolveTextureRenderTargetIDs graph.

Lemma acquireRenderTargetForID_plan (device : GfxDevice) (o : option nat) (this : Ex) :
  SceneGraphExecutor.acquireRenderTargetForID device graph' o this
  = SceneGraphExecutor.acquireRenderTargetForID device graph o this.
Proof.
  unfold SceneGraphExecutor.acquireRenderTargetForID,
    SceneGraphExecutor.description_at.
  now rewrite Hdescs.
Qed.

Lemma clearValue_plan {A} (o : option nat) (acquired : option RenderTarget.t)
    (f : RenderTargetDescription -> clear A) :
  SceneGraphExecutor.clearValue graph' o acquired f
  = SceneGraphExecutor.clearValue graph o acquired f.
Proof.
  unfold SceneGraphExecutor.clearValue, SceneGraphExecutor.description_at.
  now rewrite Hdescs.
Qed.

Lemma acquireResolveTextureOutputForID_plan (device : GfxDevice) (src o : option nat)
    (this : Ex) :
  SceneGraphExecutor.acquireResolveTextureOutputForID device graph' src o this
  = SceneGraphExecutor.acquireResolveTextureOutputForID device graph src o this.
Proof.
  unfold SceneGraphExecutor.acquireResolveTextureOutputForID.
  now rewrite Hdescs, Horigins.
Qed.

Lemma acquireResolveTextureInputTextureForID_plan (id : nat) (this : Ex) :
  SceneGraphExecutor.acquireResolveTextureInputTextureForID graph' id this
  = SceneGraphExecutor.acquireResolveTextureInputTextureForID graph id this.
Proof.
  unfold SceneGraphExecutor.acquireResolveTextureInputTextureForID.
  now rewrite Horigins.
Qed.

Lemma acquireInputTextures_plan (ids : list nat) (i : nat)
    (textures : list (option GfxTexture)) (this : Ex) :
  SceneGraphExecutor.acquireInputTextures graph' ids i textures this
  = SceneGraphExecutor.acquireInputTextures graph ids i textures this.
Proof.
  revert i textures this. induction ids as [|id ids IH]; intros i textures this;
    cbn [SceneGraphExecutor.acquireInputTextures]; [reflexivity|].
  rewrite acquireResolveTextureInputTextureForID_plan.
  destruct (SceneGraphExecutor.acquireResolveTextureInputTextureForID graph id this)
    as [[tex this1]|e]; cbn [rbind]; [apply IH | reflexivity].
Qed.

Lemma addUseCount_resolveTextures_plan (ids : list nat) (this : Ex) :
  SceneGraphExecutor.addUseCount_resolveTextures graph' ids this
  = SceneGraphExecutor.addUseCount_resolveTextures graph ids this.
Proof.
  revert this. induction ids as [|id ids IH]; intros this; simpl; [reflexivity|].
  now rewrite Horigins, IH.
Qed.

Lemma initUseCounts_plan (this : Ex) :
  SceneGraphExecutor.initUseCounts graph' this
  = SceneGraphExecutor.initUseCounts graph this.
Proof. unfold SceneGraphExecutor.initUseCounts. now rewrite Hdescs, Horigins. Qed.

Lemma countPasses_plan (ps ps' : list SceneGraphPassImpl) (this : Ex) :
  Forall2 same_requests ps ps' ->
  SceneGraphExecutor.countPasses graph' ps' this
  = SceneGraphExecutor.countPasses graph ps this.
Proof.
  intros H. revert this. induction H as [|pass pass' ps ps' Hp _ IH]; intros this;
    simpl; [reflexivity|].
  destruct Hp as (Hids & _ & Hin & _).
  unfold SceneGraphExecutor.scheduleAddUseCount.
  now rewrite IH, Hids, Hin, addUseCount_resolveTextures_plan.
Qed.

(* the textures a pass had before do not matter to the executor *)
Lemma acquireInputTextures_any_textures (ids : list nat) (i : nat)
    (textures textures' other : list (option GfxTexture)) (this this' : Ex) :
  SceneGraphExecutor.acquireInputTextures graph ids i textures this
    = OK (textures', this') ->
  exists other',
    SceneGraphExecutor.acquireInputTextures graph ids i other this
    = OK (other', this').
Proof.
  revert i textures other this. induction ids as [|id ids IH];
    intros i textures other this; cbn [SceneGraphExecutor.acquireInputTextures].
  - intros [= <- <-]. eauto.
  - intros H. inv_bind H as [tex this1] Hacq. rewrite Hacq. cbn [rbind].
    exact (IH _ _ _ _ H).
Qed.

Lemma schedulePass_plan (device device' : GfxDevice)
    (pass pass' scheduled : SceneGraphPassImpl)
    (presentColorTexture : option GfxTexture) (this this' : Ex) :
  same_requests pass pass' ->
  SceneGraphExecutor.schedulePass device graph pass presentColorTexture this
    = OK (scheduled, device', this') ->
  exists scheduled',
    SceneGraphExecutor.schedulePass device graph' pass' presentColorTexture this
    = OK (scheduled', device', this').
Proof.
  intros (Hids & Hout & Hin & Hpresent) H.
  apply schedulePass_inv in H. cbn zeta in H.
  destruct H as (color0 & dev1 & this1 & colorClear & depthStencil & dev2
                 & this2 & depthClear & stencilClear & colorResolve & dev3 & this3
                 & depthResolve & this4 & textures & this7 & this8
                 & Hc & Hcc & Hd & Hdc & Hsc & Hcr & Hdr & Hchk & Hit & Hrel & Hrs & _).
  destruct (acquireInputTextures_any_textures _ _ _ _ (resolveTextureInputTextures pass')
              _ _ Hit) as (textures' & Hit').
  apply (schedulePass_runs device dev1 dev2 dev3 device' graph' pass'
           presentColorTexture this this1 this2 this3 this4 this7 this8 this'
           color0 depthStencil colorClear depthClear stencilClear
           colorResolve depthResolve textures').
  - now rewrite Hids, acquireRenderTargetForID_plan.
  - now rewrite Hids, clearValue_plan.
  - now rewrite Hids, acquireRenderTargetForID_plan.
  - now rewrite Hids, clearValue_plan.
  - now rewrite Hids, clearValue_plan.
  - now rewrite Hids, Hout, Hpresent, acquireResolveTextureOutputForID_plan.
  - now rewrite Hids, Hout, acquireResolveTextureOutputForID_plan.
  - exact Hchk.
  - now rewrite Hids, Hin, acquireInputTextures_plan.
  - now rewrite Hids.
  - now rewrite Hin.
Qed.

Lemma schedulePasses_plan (device device' : GfxDevice)
    (ps ps' scheduled : list SceneGraphPassImpl)
    (presentColorTexture : option GfxTexture) (this this' : Ex) :
  Forall2 same_requests ps ps' ->
  SceneGraphExecutor.schedulePasses device graph ps presentColorTexture this
    = OK (scheduled, device', this') ->
  exists scheduled',
    SceneGraphExecutor.schedulePasses device graph' ps' presentColorTexture this
    = OK (scheduled', device', this').
Proof.
  intros Hps. revert device scheduled this.
  induction Hps as [|pass pass' ps ps' Hp _ IH]; intros device scheduled this; simpl.
  - intros [= <- <- <-]. eauto.
  - intros H. inv_bind H as [[p1 dev1] this1] H1.
    inv_bind H as [[ps1 dev2] this2] H2. injection H as <- <- <-.
    destruct (schedulePass_plan _ _ _ _ _ _ _ _ Hp H1) as (p1' & E1).
    destruct (IH _ _ _ H2) as (ps1' & E2).
    rewrite E1. cbn [rbind]. rewrite E2. cbn [rbind]. eauto.
Qed.

End SamePlan.

(* scheduling a graph with the same plan does to the device and to the
   executor what scheduling the graph does *)
Lemma scheduleGraph_same_plan (device device' : GfxDevice)
    (graph graph' scheduled : SceneGraph) (presentColorTexture : option GfxTexture)
    (this this' : Ex) :
  same_plan graph graph' ->
  SceneGraphExecutor.scheduleGraph device graph presentColorTexture this
    = OK (scheduled, device', this') ->
  exists scheduled',
    SceneGraphExecutor.scheduleGraph device graph' presentColorTexture this
    = OK (scheduled', device', this').
Proof.
  intros (Hd & Ho & Hps). rewrite !scheduleGraph_unfold. intros H.
  inv_bind H as [] H1. inv_bind H as [] H2.
  inv_bind H as [[ps dev1] this4] H3. inv_bind H as [] H4.
  rewrite H1, H2. cbn [rbind].
  assert (afterPassA graph' this = afterPassA graph this) as ->.
  { unfold afterPassA.
    now rewrite (countPasses_plan graph graph' Ho _ _ _ Hps),
                (initUseCounts_plan graph graph' Hd Ho). }
  destruct (schedulePasses_plan graph graph' Hd Ho _ _ _ _ _ _ _ _ Hps H3)
    as (ps' & E3).
  rewrite E3. cbn [rbind]. rewrite H4. cbn [rbind].
  destruct (SceneGraphExecutor.sweepPools dev1 this4) as [dev2 this5].
  injection H as <- <- <-. eauto.
Qed.

Lemma same_plan_refl (graph : SceneGraph) : same_plan graph graph.
Proof.
  split; [reflexivity|]. split; [reflexivity|].
  induction (passes graph) as [|pass ps IH]; constructor; [|exact IH].
  repeat split.
Qed.

Lemma schedulePasses_same_requests (device device' : GfxDevice) (graph : SceneGraph)
    (ps ps' : list SceneGraphPassImpl) (presentColorTexture : option GfxTexture)
    (this this' : Ex) :
  SceneGraphExecutor.schedulePasses device graph ps presentColorTexture this
    = OK (ps', device', this') ->
  Forall2 same_requests ps ps'.
Proof.
  revert device ps' this. induction ps as [|pass ps IH]; intros device ps' this; simpl.
  - intros [= <- <- <-]. constructor.
  - intros H. inv_bind H as [[p1 dev1] this1] H1.
    inv_bind H as [[ps1 dev2] this2] H2. injection H as <- <- <-.
    constructor; [|exact (IH _ _ _ H2)].
    destruct (schedulePass_setup _ _ _ _ _ _ _ _ H1) as (A & B & C & D & _).
    repeat split; assumption.
Qed.

(** X17.  The pools reach a steady state after one frame.  When
    [execGraph] has returned on a ready executor, the graph it leaves has
    the plan of the graph it was given, and scheduling, for the next
    frame, any graph with that plan (the same surfaces and copies, passes
    that bind, request and consume the same ids in the same order;
    callbacks, viewports and names free) returns as well and creates no
    device resource: the device hands out no handle and is asked for
    nothing but the destruction of pooled resources.  Every render target
    and resolve texture the passes need is taken from the pools the first
    frame filled. *)
Theorem next_frame_allocates_nothing (device device' : GfxDevice)
    (graph graph' : SceneGraph) (presentColorTexture : option GfxTexture)
    (this this' : SceneGraphExecutor.t) :
  ready this ->
  SceneGraphExecutor.execGraph device graph presentColorTexture this
    = OK (graph', device', this') ->
  same_plan graph graph' /\
  forall (nextGraph : SceneGraph) (next : GfxDevice)
         (nextPresent : option GfxTexture),
    same_plan graph nextGraph ->
    exists graph'' next' this'',
      SceneGraphExecutor.scheduleGraph next nextGraph nextPresent this'
        = OK (graph'', next', this'') /\
      nextHandle next' = nextHandle next /\
      exists issued,
        calls next' = calls next ++ issued /\
        Forall (fun call => ~ is_creation call) issued.
Proof.
  intros Hready H. split.
  - unfold SceneGraphExecutor.execGraph in H.
    inv_bind H as [[graph1 device1] this1] Hs. inv_bind H as [] Hnull.
    inv_bind H as [device2 this3] Hexec. injection H as <- <- <-.
    apply scheduleGraph_OK_inv in Hs as (_ & _ & ps & dev1 & this4 & Hps & _ & -> & _).
    split; [reflexivity|]. split; [reflexivity|].
    exact (schedulePasses_same_requests _ _ _ _ _ _ _ _ Hps).
  - intros nextGraph next nextPresent Hplan.
    destruct (next_frame_same_graph device device' next graph graph'
                presentColorTexture nextPresent this this' Hready H)
      as (g'' & next' & this'' & Hs & Hhandles & Hissued).
    destruct (scheduleGraph_same_plan _ _ _ _ _ _ _ _ Hplan Hs) as (g2 & Hs2).
    exists g2, next', this''. auto.
Qed.

(** * The pools over two cycles *)

Lemma count_from_hit {A} (f : nat -> A -> bool) (i : nat) (l : list A) (j : nat) (x : A) :
  l !! j = Some x -> f (i + j) x = true -> 1 <= count_from f i l.
Proof.
  revert i j. induction l as [|y l IH]; intros i j Hj Hf; [discriminate|].
  destruct j as [|j]; simpl in *.
  - injection Hj as ->. rewrite Nat.add_0_r in Hf. rewrite Hf. lia.
  - replace (i + S j) with (S i + j) in Hf by lia.
    pose proof (IH (S i) j Hj Hf). lia.
Qed.

(* a surface that is checked out counts among the render targets in use *)
Lemma checked_out_used (graph : SceneGraph) (this : Ex) (id : nat)
    (rt : RenderTarget.t) (desc : RenderTargetDescription) :
  JsArray.get (rtAlive this) id = Some rt ->
  renderTargetDescriptions graph !! id = Some desc ->
  1 <= used_renderTargets graph this desc.
Proof.
  intros Hrt Hdesc. unfold used_renderTargets, checked_out.
  pose proof (count_from_hit
                (fun id d => is_checked_out this id && same_surface d desc)
                0 (renderTargetDescriptions graph) id desc Hdesc) as Hhit.
  cbn beta in Hhit. rewrite Nat.add_0_l in Hhit.
  rewrite (is_checked_out_Some this id rt Hrt), same_surface_refl in Hhit.
  specialize (Hhit eq_refl). lia.
Qed.

(* a copy that holds a resolve texture counts among those in use *)
Lemma held_used (graph : SceneGraph) (this : Ex) (copy origin : nat)
    (desc : RenderTargetDescription) :
  is_held this copy = true ->
  resolveTextureRenderTargetIDs graph !! copy = Some origin ->
  renderTargetDescriptions graph !! origin = Some desc ->
  1 <= used_resolveTextures graph this desc.
Proof.
  intros Hheld Horigin Hdesc. unfold used_resolveTextures, held.
  pose proof (count_from_hit
                (fun copy origin =>
                   is_held this copy
                   && match renderTargetDescriptions graph !! origin with
                      | Some d => same_texture d desc
                      | None => false
                      end)
                0 (resolveTextureRenderTargetIDs graph) copy origin Horigin) as Hhit.
  cbn beta in Hhit. rewrite Nat.add_0_l in Hhit.
  rewrite Hheld, Hdesc, same_texture_refl in Hhit.
  specialize (Hhit eq_refl). lia.
Qed.

(* the request of a copy-output of a multi-sampled surface leaves the copy
   holding a resolve texture *)
Lemma acquireResolveTextureOutputForID_holds (device device' : GfxDevice)
    (graph : SceneGraph) (id copy : nat) (this this' : Ex)
    (out : option GfxTexture) (desc : RenderTargetDescription) :
  SceneGraphExecutor.acquireResolveTextureOutputForID device graph (Some id)
    (Some copy) this = OK (out, device', this') ->
  alive_shape graph this ->
  renderTargetDescriptions graph !! id = Some desc ->
  (1 < desc_numSamples desc)%Z ->
  resolveTextureRenderTargetIDs graph !! copy = Some id /\
  is_held this' copy = true.
Proof.
  intros H Halive Hdesc Hmulti.
  destruct (acquireResolveTextureOutputForID_frame _ _ _ _ _ _ _ _ H)
    as (_ & Hrsuc & _ & _).
  destruct (acquireResolveTextureOutputForID_table _ _ _ _ _ _ _ _ H)
    as (rt & Hrt & Htab).
  apply acquireResolveTextureOutputForID_inv in H as (Hsrc & Hpos & _).
  split; [now symmetry|].
  cbn in Hrt. destruct (Halive id rt Hrt) as (Hbacked & d & Hd & Hm).
  rewrite Hdesc in Hd. injection Hd as <-.
  apply matchesDescription_fields in Hm as (_ & _ & _ & Hn).
  assert (RenderTarget.texture rt = None) as Htex
    by (apply Hbacked; now rewrite Hn).
  unfold is_held. rewrite Hrsuc, (proj2 (jsnum_gt0_count _ _) Hpos).
  rewrite (Htab copy), Htex. cbn.
  rewrite bool_decide_eq_true_2 by reflexivity. cbn.
  now rewrite andb_false_r.
Qed.

(* the states a pass goes through after its render targets were acquired:
   nothing in use is lost on the way to the end of the pass *)
Lemma schedulePass_tail_ledger (device : GfxDevice) (graph : SceneGraph)
    (pass : SceneGraphPassImpl) (this4 this7 this8 this' : Ex)
    (textures : list (option GfxTexture)) :
  SceneGraphExecutor.acquireInputTextures graph (resolveTextureInputIDs pass) 0
    (resolveTextureInputTextures pass)
    (SceneGraphExecutor.markCleared (JsArray.get (renderTargetIDs pass) 1)
       (SceneGraphExecutor.markCleared (JsArray.get (renderTargetIDs pass) 0) this4))
    = OK (textures, this7) ->
  SceneGraphExecutor.releaseRenderTargets (renderTargetIDs pass) this7 = OK this8 ->
  SceneGraphExecutor.releaseResolveTextureInputs (resolveTextureInputIDs pass) this8
    = OK this' ->
  well_kept graph this4 ->
  ledger graph this4 this' False.
Proof.
  intros Hin Hrel Hrs Hk4.
  destruct (markCleared_ledger graph (JsArray.get (renderTargetIDs pass) 0) this4
              False Hk4) as (Hk5 & L5).
  destruct (markCleared_ledger graph (JsArray.get (renderTargetIDs pass) 1) _
              False Hk5) as (Hk6 & L6).
  destruct (acquireInputTextures_ledger _ _ _ _ _ _ _ False Hin Hk6) as (Hk7 & L7).
  destruct (releaseRenderTargets_ledger _ _ _ _ False Hrel Hk7) as (Hk8 & L8).
  destruct (releaseResolveTextureInputs_ledger _ _ _ _ False Hrs Hk8) as (Hk9 & L9).
  eapply (ledger_trans graph this4 _ this' False False False);
    [tauto | tauto | exact L5 |].
  eapply (ledger_trans graph _ _ this' False False False);
    [tauto | tauto | exact L6 |].
  eapply (ledger_trans graph _ this7 this' False False False);
    [tauto | tauto | exact L7 |].
  apply (ledger_trans graph this7 this8 this' False False False);
    [tauto | tauto | exact L8 | exact L9].
Qed.

(* a pass leaves in use, checked out or back in the pool with age 0, a
   render target for each surface it binds *)
Lemma schedulePass_uses_renderTarget (device device' : GfxDevice) (graph : SceneGraph)
    (pass pass' : SceneGraphPassImpl) (presentColorTexture : option GfxTexture)
    (this this' : Ex) (slot : RenderTargetAttachmentSlot) (id : nat)
    (desc : RenderTargetDescription) :
  SceneGraphExecutor.schedulePass device graph pass presentColorTexture this
    = OK (pass', device', this') ->
  well_kept graph this ->
  JsArray.get (renderTargetIDs pass) (slot_index slot) = Some id ->
  renderTargetDescriptions graph !! id = Some desc ->
  1 <= used_renderTargets graph this' desc.
Proof.
  intros H Hk Hslot Hdesc.
  apply schedulePass_inv in H. cbn zeta in H.
  destruct H as (color0 & device1 & this1 & colorClear & depthStencil & device2
                 & this2 & depthClear & stencilClear & colorResolve & device3 & this3
                 & depthResolve & this4 & textures & this7 & this8
                 & Hc & _ & Hd & _ & _ & Hcr & Hdr & _ & Hin & Hrel & Hrs & _).
  destruct (acquireRenderTargetForID_ledger _ _ _ _ _ _ _ Hc Hk) as (Hk1 & L1).
  destruct (acquireRenderTargetForID_ledger _ _ _ _ _ _ _ Hd Hk1) as (Hk2 & L2).
  destruct (colorResolve_ledger _ _ _ _ _ _ _ _ _ Hcr Hk2) as (Hk3 & L3).
  destruct (acquireResolveTextureOutputForID_ledger _ _ _ _ _ _ _ _ Hdr Hk3)
    as (Hk4 & L4).
  pose proof (schedulePass_tail_ledger device graph pass this4 this7 this8 this'
                textures Hin Hrel Hrs Hk4) as Ltail.
  apply ledger_weaken in L2, L3, L4.
  assert (ledger graph this2 this' False) as Lfrom2.
  { apply (ledger_trans graph this2 this3 this' False False False);
      [tauto | tauto | exact L3 |].
    apply (ledger_trans graph this3 this4 this' False False False);
      [tauto | tauto | exact L4 | exact Ltail]. }
  destruct slot; cbn [slot_index] in Hslot.
  - rewrite Hslot in Hc.
    apply acquireRenderTargetForID_alive in Hc as (rt & _ & Hrt & _).
    pose proof (checked_out_used graph this1 id rt desc Hrt Hdesc) as Hused.
    pose proof (proj1 (proj1 L2 desc)). pose proof (proj1 (proj1 Lfrom2 desc)). lia.
  - rewrite Hslot in Hd.
    apply acquireRenderTargetForID_alive in Hd as (rt & _ & Hrt & _).
    pose proof (checked_out_used graph this2 id rt desc Hrt Hdesc) as Hused.
    pose proof (proj1 (proj1 Lfrom2 desc)). lia.
Qed.

(* a pass leaves in use, held or back in the pool with age 0, a resolve
   texture for each copy-output it carries for a multi-sampled surface *)
Lemma schedulePass_uses_resolveTexture (device device' : GfxDevice) (graph : SceneGraph)
    (pass pass' : SceneGraphPassImpl) (presentColorTexture : option GfxTexture)
    (this this' : Ex) (slot : RenderTargetAttachmentSlot) (id copy : nat)
    (desc : RenderTargetDescription) :
  SceneGraphExecutor.schedulePass device graph pass presentColorTexture this
    = OK (pass', device', this') ->
  well_kept graph this ->
  JsArray.get (renderTargetIDs pass) (slot_index slot) = Some id ->
  JsArray.get (resolveTextureOutputIDs pass) (slot_index slot) = Some copy ->
  (slot = Color0 -> doPresent pass = false) ->
  renderTargetDescriptions graph !! id = Some desc ->
  (1 < desc_numSamples desc)%Z ->
  1 <= used_resolveTextures graph this' desc.
Proof.
  intros H Hk Hslot Hout Hpresent Hdesc Hmulti.
  apply schedulePass_inv in H. cbn zeta in H.
  destruct H as (color0 & device1 & this1 & colorClear & depthStencil & device2
                 & this2 & depthClear & stencilClear & colorResolve & device3 & this3
                 & depthResolve & this4 & textures & this7 & this8
                 & Hc & _ & Hd & _ & _ & Hcr & Hdr & _ & Hin & Hrel & Hrs & _).
  destruct (acquireRenderTargetForID_ledger _ _ _ _ _ _ _ Hc Hk) as (Hk1 & L1).
  destruct (acquireRenderTargetForID_ledger _ _ _ _ _ _ _ Hd Hk1) as (Hk2 & L2).
  destruct (colorResolve_ledger _ _ _ _ _ _ _ _ _ Hcr Hk2) as (Hk3 & L3).
  destruct (acquireResolveTextureOutputForID_ledger _ _ _ _ _ _ _ _ Hdr Hk3)
    as (Hk4 & L4).
  pose proof (schedulePass_tail_ledger device graph pass this4 this7 this8 this'
                textures Hin Hrel Hrs Hk4) as Ltail.
  apply ledger_weaken in L4.
  destruct slot; cbn [slot_index] in Hslot, Hout.
  - rewrite (Hpresent eq_refl), Hslot, Hout in Hcr.
    destruct (acquireResolveTextureOutputForID_holds _ _ _ _ _ _ _ _ _ Hcr
                (proj1 (proj2 Hk2)) Hdesc Hmulti) as (Horigin & Hheld).
    pose proof (held_used graph this3 copy id desc Hheld Horigin Hdesc) as Hused.
    pose proof (proj2 (proj1 L4 desc)). pose proof (proj2 (proj1 Ltail desc)). lia.
  - rewrite Hslot, Hout in Hdr.
    destruct (acquireResolveTextureOutputForID_holds _ _ _ _ _ _ _ _ _ Hdr
                (proj1 (proj2 Hk3)) Hdesc Hmulti) as (Horigin & Hheld).
    pose proof (held_used graph this4 copy id desc Hheld Horigin Hdesc) as Hused.
    pose proof (proj2 (proj1 Ltail desc)). lia.
Qed.

Lemma schedulePasses_uses_renderTarget (device device' : GfxDevice) (graph : SceneGraph)
    (ps ps' : list SceneGraphPassImpl) (presentColorTexture : option GfxTexture)
    (this this' : Ex) (i : nat) (pass : SceneGraphPassImpl)
    (slot : RenderTargetAttachmentSlot) (id : nat) (desc : RenderTargetDescription) :
  SceneGraphExecutor.schedulePasses device graph ps presentColorTexture this
    = OK (ps', device', this') ->
  well_kept graph this ->
  ps !! i = Some pass ->
  JsArray.get (renderTargetIDs pass) (slot_index slot) = Some id ->
  renderTargetDescriptions graph !! id = Some desc ->
  1 <= used_renderTargets graph this' desc.
Proof.
  intros H Hk Hi Hslot Hdesc. revert device ps' this i H Hk Hi.
  induction ps as [|first ps IH]; intros device ps' this i H Hk Hi; [discriminate|].
  simpl in H. inv_bind H as [[first' device1] this1] Hp.
  inv_bind H as [[ps'' device2] this2] Hps. injection H as <- <- <-.
  destruct (schedulePass_ledger _ _ _ _ _ _ _ _ Hp Hk) as (Hk1 & _).
  destruct i as [|i]; simpl in Hi.
  - injection Hi as ->.
    pose proof (schedulePass_uses_renderTarget _ _ _ _ _ _ _ _ _ _ _ Hp Hk Hslot Hdesc).
    destruct (schedulePasses_ledger _ _ _ _ _ _ _ _ Hps Hk1) as (_ & L).
    pose proof (proj1 (proj1 L desc)). lia.
  - exact (IH _ _ _ _ Hps Hk1 Hi).
Qed.

Lemma schedulePasses_uses_resolveTexture (device device' : GfxDevice)
    (graph : SceneGraph) (ps ps' : list SceneGraphPassImpl)
    (presentColorTexture : option GfxTexture) (this this' : Ex) (i : nat)
    (pass : SceneGraphPassImpl) (slot : RenderTargetAttachmentSlot) (id copy : nat)
    (desc : RenderTargetDescription) :
  SceneGraphExecutor.schedulePasses device graph ps presentColorTexture this
    = OK (ps', device', this') ->
  well_kept graph this ->
  ps !! i = Some pass ->
  JsArray.get (renderTargetIDs pass) (slot_index slot) = Some id ->
  JsArray.get (resolveTextureOutputIDs pass) (slot_index slot) = Some copy ->
  (slot = Color0 -> doPresent pass = false) ->
  renderTargetDescriptions graph !! id = Some desc ->
  (1 < desc_numSamples desc)%Z ->
  1 <= used_resolveTextures graph this' desc.
Proof.
  intros H Hk Hi Hslot Hout Hpresent Hdesc Hmulti. revert device ps' this i H Hk Hi.
  induction ps as [|first ps IH]; intros device ps' this i H Hk Hi; [discriminate|].
  simpl in H. inv_bind H as [[first' device1] this1] Hp.
  inv_bind H as [[ps'' device2] this2] Hps. injection H as <- <- <-.
  destruct (schedulePass_ledger _ _ _ _ _ _ _ _ Hp Hk) as (Hk1 & _).
  destruct i as [|i]; simpl in Hi.
  - injection Hi as ->.
    pose proof (schedulePass_uses_resolveTexture _ _ _ _ _ _ _ _ _ _ _ _ Hp Hk Hslot
                  Hout Hpresent Hdesc Hmulti).
    destruct (schedulePasses_ledger _ _ _ _ _ _ _ _ Hps Hk1) as (_ & L).
    pose proof (proj2 (proj1 L desc)). lia.
  - exact (IH _ _ _ _ Hps Hk1 Hi).
Qed.

(* at the end of the allocation/release pass what is in use is in the
   pools, with age 0 *)
Lemma released_renderTarget_pooled (graph : SceneGraph) (this : Ex)
    (desc : RenderTargetDescription) :
  alive_empty this ->
  1 <= used_renderTargets graph this desc ->
  exists rt, rt ∈ rtPool this /\
             RenderTarget.matchesDescription rt desc = true /\
             RenderTarget.age rt = 0.
Proof.
  intros Hempty Hused. unfold used_renderTargets in Hused.
  rewrite (released_checked_out graph this desc Hempty) in Hused.
  destruct (count_if_exists_pos _ _ Hused) as (rt & Hin & Hrt).
  apply andb_true_iff in Hrt as (Hm & Hage). apply Nat.eqb_eq in Hage.
  exists rt. auto.
Qed.

Lemma released_resolveTexture_pooled (graph : SceneGraph) (this : Ex)
    (desc : RenderTargetDescription) :
  all_zero (rsUC this) ->
  1 <= used_resolveTextures graph this desc ->
  exists rtex, rtex ∈ rsPool this /\
               ResolveTexture.matchesDescription rtex desc = true /\
               ResolveTexture.age rtex = 0.
Proof.
  intros Hzero Hused. unfold used_resolveTextures in Hused.
  rewrite (released_held graph this desc) in Hused
    by (intros copy; unfold is_held; now rewrite (all_zero_not_positive _ _ Hzero)).
  destruct (count_if_exists_pos _ _ Hused) as (rtex & Hin & Hrt).
  apply andb_true_iff in Hrt as (Hm & Hage). apply Nat.eqb_eq in Hage.
  exists rtex. auto.
Qed.

(* the search of an aged pool: the first entry that matches *)
Lemma pool_take_map_first {A} (matches : A -> bool) (f : A -> A) (pool : list A) (x : A) :
  (forall y, matches (f y) = matches y) ->
  x ∈ pool -> matches x = true ->
  exists pooled before after,
    pool = before ++ pooled :: after /\ matches pooled = true /\
    (forall y, y ∈ before -> matches y = false) /\
    pool_take matches [] (map f pool) = Some (f pooled, map f (before ++ after)).
Proof.
  intros Hf Hin Hx.
  destruct (pool_take_hit matches [] (map f pool) (f x)) as
    (free & before' & after' & Hsplit & Hfree & Hfirst & Htake).
  - apply list_elem_of_In, in_map, list_elem_of_In, Hin.
  - now rewrite Hf.
  - apply map_eq_app in Hsplit as (before & rest & -> & <- & Hrest).
    apply map_eq_cons in Hrest as (pooled & after & -> & <- & <-).
    exists pooled, before, after. rewrite Hf in Hfree.
    split; [reflexivity|]. split; [exact Hfree|]. split.
    + intros y Hy. rewrite <- Hf. apply Hfirst.
      apply list_elem_of_In, in_map, list_elem_of_In, Hy.
    + rewrite Htake. now rewrite map_app.
Qed.

(* the first request of the next cycle for a description that a pooled
   render target matches *)
Lemma next_cycle_takes_renderTarget (next : GfxDevice) (nextGraph : SceneGraph)
    (this : Ex) (desc : RenderTargetDescription) (rt : RenderTarget.t) :
  rt ∈ rtPool this ->
  RenderTarget.matchesDescription rt desc = true ->
  exists pooled before after,
    rtPool this = before ++ pooled :: after /\
    RenderTarget.matchesDescription pooled desc = true /\
    (forall other, other ∈ before ->
       RenderTarget.matchesDescription other desc = false) /\
    SceneGraphExecutor.acquireRenderTargetForDescription next desc
      (afterPassA nextGraph this)
    = OK (RenderTarget.with_age 0 pooled, next,
          SceneGraphExecutor.with_renderTargetDeadPool
            (map (fun rt => RenderTarget.with_age (S (RenderTarget.age rt)) rt)
                 (before ++ after))
            (afterPassA nextGraph this)).
Proof.
  intros Hin Hmatch.
  destruct (pool_take_map_first
              (fun rt => RenderTarget.matchesDescription rt desc)
              (fun rt => RenderTarget.with_age (S (RenderTarget.age rt)) rt)
              (rtPool this) rt)
    as (pooled & before & after & Hsplit & Hm & Hfirst & Htake);
    [reflexivity | exact Hin | exact Hmatch |].
  exists pooled, before, after. split; [exact Hsplit|]. split; [exact Hm|].
  split; [exact Hfirst|].
  unfold SceneGraphExecutor.acquireRenderTargetForDescription.
  rewrite (proj1 (afterPassA_pools nextGraph this)).
  cbn [rtPool SceneGraphExecutor.agePools
       SceneGraphExecutor.with_resolveTextureDeadPool
       SceneGraphExecutor.with_renderTargetDeadPool].
  now rewrite Htake.
Qed.

Lemma next_cycle_takes_resolveTexture (next : GfxDevice) (nextGraph : SceneGraph)
    (this : Ex) (desc : RenderTargetDescription) (rtex : ResolveTexture.t) :
  rtex ∈ rsPool this ->
  ResolveTexture.matchesDescription rtex desc = true ->
  exists pooled before after,
    rsPool this = before ++ pooled :: after /\
    ResolveTexture.matchesDescription pooled desc = true /\
    (forall other, other ∈ before ->
       ResolveTexture.matchesDescription other desc = false) /\
    SceneGraphExecutor.acquireResolveTextureForDescription next desc
      (afterPassA nextGraph this)
    = OK (ResolveTexture.mk (desc_debugName desc) (ResolveTexture.pixelFormat pooled)
            (ResolveTexture.width pooled) (ResolveTexture.height pooled)
            (ResolveTexture.texture pooled) 0,
          next,
          SceneGraphExecutor.with_resolveTextureDeadPool
            (map (fun rt => ResolveTexture.with_age (S (ResolveTexture.age rt)) rt)
                 (before ++ after))
            (afterPassA nextGraph this)).
Proof.
  intros Hin Hmatch.
  destruct (pool_take_map_first
              (fun rt => ResolveTexture.matchesDescription rt desc)
              (fun rt => ResolveTexture.with_age (S (ResolveTexture.age rt)) rt)
              (rsPool this) rtex)
    as (pooled & before & after & Hsplit & Hm & Hfirst & Htake);
    [reflexivity | exact Hin | exact Hmatch |].
  exists pooled, before, after. split; [exact Hsplit|]. split; [exact Hm|].
  split; [exact Hfirst|].
  unfold SceneGraphExecutor.acquireResolveTextureForDescription.
  rewrite (proj2 (afterPassA_pools nextGraph this)).
  cbn [rsPool SceneGraphExecutor.agePools
       SceneGraphExecutor.with_resolveTextureDeadPool
       SceneGraphExecutor.with_renderTargetDeadPool].
  rewrite Htake.
  unfold ResolveTexture.reset, ResolveTexture.matchesDescription in *.
  cbn. rewrite Hm. reflexivity.
Qed.

(** C8.  The pools over a scheduling cycle and the next.  When
    [execGraph] returns on a ready executor, the [scheduleGraph] it ran was:
    one added to the age of every resource in the two dead pools; then the
    counting and the allocation/release pass; then the sweep, which
    destroyed and removed exactly the pooled resources whose age had
    reached the threshold of one, so that every resource left in a pool has
    age zero; and the execution of the passes left the pools alone.  Every
    surface bound by a pass of the graph has left a matching render target
    in the pool, and every copy-output carried for a multi-sampled surface
    a matching resolve texture: released in this cycle, not aged out.  In
    the next cycle, a request for that description is served by the first
    pooled resource that matches, with its age back to zero and without any
    device call; and scheduling, as a whole, a graph that requests the same
    things returns without creating any device resource. *)
Theorem pool_aging_eviction_reuse (device device' : GfxDevice)
    (graph graph' : SceneGraph) (presentColorTexture : option GfxTexture)
    (this this' : SceneGraphExecutor.t) :
  ready this ->
  SceneGraphExecutor.execGraph device graph presentColorTexture this
    = OK (graph', device', this') ->
  exists scheduled device1 swept ps deviceB thisB,
    (* the cycle *)
    SceneGraphExecutor.scheduleGraph device graph presentColorTexture this
      = OK (scheduled, device1, swept) /\
    SceneGraphExecutor.schedulePasses device graph (passes graph) presentColorTexture
      (afterPassA graph this) = OK (ps, deviceB, thisB) /\
    passes scheduled = ps /\
    (* aging, before the passes *)
    SceneGraphExecutor.renderTargetDeadPool (afterPassA graph this)
      = map (fun rt => RenderTarget.with_age (S (RenderTarget.age rt)) rt)
            (SceneGraphExecutor.renderTargetDeadPool this) /\
    SceneGraphExecutor.resolveTextureDeadPool (afterPassA graph this)
      = map (fun rt => ResolveTexture.with_age (S (ResolveTexture.age rt)) rt)
            (SceneGraphExecutor.resolveTextureDeadPool this) /\
    (* eviction, after the passes *)
    SceneGraphExecutor.renderTargetDeadPool swept
      = filter (fun rt => ~ renderTarget_aged rt)
               (SceneGraphExecutor.renderTargetDeadPool thisB) /\
    SceneGraphExecutor.resolveTextureDeadPool swept
      = filter (fun rt => ~ resolveTexture_aged rt)
               (SceneGraphExecutor.resolveTextureDeadPool thisB) /\
    nextHandle device1 = nextHandle deviceB /\
    calls device1
      = calls deviceB
        ++ flat_map renderTarget_destroy_calls
             (filter renderTarget_aged (SceneGraphExecutor.renderTargetDeadPool thisB))
        ++ flat_map resolveTexture_destroy_calls
             (filter resolveTexture_aged
                     (SceneGraphExecutor.resolveTextureDeadPool thisB)) /\
    (forall rt, rt ∈ SceneGraphExecutor.renderTargetDeadPool thisB ->
       renderTarget_aged rt ->
       (rt ∉ SceneGraphExecutor.renderTargetDeadPool this') /\
       forall call, call ∈ renderTarget_destroy_calls rt -> call ∈ calls device1) /\
    (forall rtex, rtex ∈ SceneGraphExecutor.resolveTextureDeadPool thisB ->
       resolveTexture_aged rtex ->
       (rtex ∉ SceneGraphExecutor.resolveTextureDeadPool this') /\
       DestroyTexture (ResolveTexture.texture rtex) ∈ calls device1) /\
    (* the pools between the two cycles *)
    SceneGraphExecutor.renderTargetDeadPool this'
      = SceneGraphExecutor.renderTargetDeadPool swept /\
    SceneGraphExecutor.resolveTextureDeadPool this'
      = SceneGraphExecutor.resolveTextureDeadPool swept /\
    (forall rt, rt ∈ SceneGraphExecutor.renderTargetDeadPool this' ->
       RenderTarget.age rt = 0) /\
    (forall rtex, rtex ∈ SceneGraphExecutor.resolveTextureDeadPool this' ->
       ResolveTexture.age rtex = 0) /\
    (* released in this cycle, taken from the pool in the next *)
    (forall i pass slot id desc,
       passes graph !! i = Some pass ->
       JsArray.get (renderTargetIDs pass) (slot_index slot) = Some id ->
       renderTargetDescriptions graph !! id = Some desc ->
       forall (next : GfxDevice) (nextGraph : SceneGraph),
       exists pooled before after,
         SceneGraphExecutor.renderTargetDeadPool this' = before ++ pooled :: after /\
         RenderTarget.matchesDescription pooled desc = true /\
         RenderTarget.age pooled = 0 /\
         (forall other, other ∈ before ->
            RenderTarget.matchesDescription other desc = false) /\
         SceneGraphExecutor.acquireRenderTargetForDescription next desc
           (afterPassA nextGraph this')
         = OK (RenderTarget.with_age 0 pooled, next,
               SceneGraphExecutor.with_renderTargetDeadPool
                 (map (fun rt => RenderTarget.with_age (S (RenderTarget.age rt)) rt)
                      (before ++ after))
                 (afterPassA nextGraph this'))) /\
    (forall i pass slot id copy desc,
       passes graph !! i = Some pass ->
       JsArray.get (renderTargetIDs pass) (slot_index slot) = Some id ->
       JsArray.get (resolveTextureOutputIDs pass) (slot_index slot) = Some copy ->
       (slot = Color0 -> doPresent pass = false) ->
       renderTargetDescriptions graph !! id = Some desc ->
       (1 < desc_numSamples desc)%Z ->
       forall (next : GfxDevice) (nextGraph : SceneGraph),
       exists pooled before after,
         SceneGraphExecutor.resolveTextureDeadPool this' = before ++ pooled :: after /\
         ResolveTexture.matchesDescription pooled desc = true /\
         ResolveTexture.age pooled = 0 /\
         (forall other, other ∈ before ->
            ResolveTexture.matchesDescription other desc = false) /\
         SceneGraphExecutor.acquireResolveTextureForDescription next desc
           (afterPassA nextGraph this')
         = OK (ResolveTexture.mk (desc_debugName desc)
                 (ResolveTexture.pixelFormat pooled) (ResolveTexture.width pooled)
                 (ResolveTexture.height pooled) (ResolveTexture.texture pooled) 0,
               next,
               SceneGraphExecutor.with_resolveTextureDeadPool
                 (map (fun rt => ResolveTexture.with_age (S (ResolveTexture.age rt)) rt)
                      (before ++ after))
                 (afterPassA nextGraph this'))) /\
    (* the next cycle as a whole *)
    (forall (next : GfxDevice) (nextGraph : SceneGraph)
            (nextPresent : option GfxTexture),
       same_plan graph nextGraph ->
       exists graph'' next' this'',
         SceneGraphExecutor.scheduleGraph next nextGraph nextPresent this'
           = OK (graph'', next', this'') /\
         nextHandle next' = nextHandle next /\
         exists issued,
           calls next' = calls next ++ issued /\
           Forall (fun call => ~ is_creation call) issued).
Proof.
  intros Hready H.
  pose proof H as Hcycle.
  pose proof Hready as (Hg & Hp & Hrt & Hrs & Hempty & Htable & Hpool & Hclear).
  unfold SceneGraphExecutor.execGraph in H.
  inv_bind H as [[graph1 device1] this1] Hs. inv_bind H as [] Hnull.
  inv_bind H as [device2 this3] Hexec. injection H as <- <- <-.
  pose proof (scheduleGraph_scope _ _ _ _ _ _ _ Hs) as Hscope.
  unfold scope_state in Hscope. rewrite Hg, Hp in Hscope.
  injection Hscope as Hg1 Hp1.
  destruct (execPasses_returns device1 (passes graph1)
              (SceneGraphExecutor.with_currentGraph (Some graph1) this1) Hp1
              _ _ Hexec) as (-> & _).
  pose proof Hs as Hinv.
  apply scheduleGraph_OK_inv in Hinv
    as (_ & _ & ps & deviceB & thisB & Hps & Hchk & Hgraph1 & Hsw).
  rewrite sweepPools_spec in Hsw. injection Hsw as Hdevice1 Hthis1.
  pose proof (afterPassA_well_kept graph this Hpool Hempty Htable) as HkA.
  destruct (schedulePasses_ledger _ _ _ _ _ _ _ _ Hps HkA) as (HkB & _).
  apply checkAllReleased_OK in Hchk as (Hz1 & Hz2 & HemptyB).
  assert (rtPool this1 = filter (fun rt => ~ renderTarget_aged rt) (rtPool thisB))
    as Hrtpool by (rewrite Hthis1; reflexivity).
  assert (rsPool this1 = filter (fun rt => ~ resolveTexture_aged rt) (rsPool thisB))
    as Hrspool by (rewrite Hthis1; reflexivity).
  assert (forall rt, rt ∈ rtPool this1 -> RenderTarget.age rt = 0) as Hrtage.
  { intros rt Hin. rewrite Hrtpool in Hin. apply list_elem_of_filter in Hin as [Hage _].
    unfold renderTarget_aged, SceneGraphExecutor.ageThreshold in Hage. lia. }
  assert (forall rtex, rtex ∈ rsPool this1 -> ResolveTexture.age rtex = 0) as Hrsage.
  { intros rt Hin. rewrite Hrspool in Hin. apply list_elem_of_filter in Hin as [Hage _].
    unfold resolveTexture_aged, SceneGraphExecutor.ageThreshold in Hage. lia. }
  exists graph1, device1, this1, ps, deviceB, thisB.
  split; [exact Hs|]. split; [exact Hps|].
  split; [now rewrite Hgraph1|].
  destruct (afterPassA_pools graph this) as [-> ->].
  split; [reflexivity|]. split; [reflexivity|].
  split; [exact Hrtpool|]. split; [exact Hrspool|].
  split; [now rewrite Hdevice1|]. split; [now rewrite Hdevice1|].
  cbn [rtPool rsPool SceneGraphExecutor.with_resolveTextureForID
       SceneGraphExecutor.with_currentGraph].
  split.
  { intros rt Hin Hold. split.
    - rewrite Hrtpool, list_elem_of_filter. tauto.
    - intros call Hcall. rewrite Hdevice1. cbn [calls].
      rewrite !elem_of_app. right. left.
      apply list_elem_of_In, in_flat_map. exists rt.
      split; apply list_elem_of_In; [|exact Hcall].
      apply list_elem_of_filter. auto. }
  split.
  { intros rt Hin Hold. split.
    - rewrite Hrspool, list_elem_of_filter. tauto.
    - rewrite Hdevice1. cbn [calls]. rewrite !elem_of_app. right. right.
      apply list_elem_of_In, in_flat_map. exists rt.
      split; [|now left]. apply list_elem_of_In, list_elem_of_filter. auto. }
  split; [reflexivity|]. split; [reflexivity|].
  split; [exact Hrtage|]. split; [exact Hrsage|].
  split.
  { intros i pass slot id desc Hi Hslot Hdesc next nextGraph.
    pose proof (schedulePasses_uses_renderTarget _ _ _ _ _ _ _ _ _ _ _ _ _
                  Hps HkA Hi Hslot Hdesc) as Hused.
    destruct (released_renderTarget_pooled graph thisB desc HemptyB Hused)
      as (rt & Hin & Hm & Hage).
    assert (rt ∈ rtPool this1) as Hin1.
    { rewrite Hrtpool. apply list_elem_of_filter. split; [|exact Hin].
      unfold renderTarget_aged, SceneGraphExecutor.ageThreshold. lia. }
    destruct (next_cycle_takes_renderTarget next nextGraph
                (SceneGraphExecutor.with_resolveTextureForID []
                   (SceneGraphExecutor.with_currentGraph None
                      (SceneGraphExecutor.with_currentGraph (Some graph1) this1)))
                desc rt Hin1 Hm)
      as (pooled & before & after & Hsplit & Hmp & Hfirst & Hacq).
    exists pooled, before, after.
    split; [exact Hsplit|]. split; [exact Hmp|]. split.
    - apply Hrtage. cbn in Hsplit. rewrite Hsplit.
      apply elem_of_app. right. apply elem_of_cons. now left.
    - split; [exact Hfirst | exact Hacq]. }
  split.
  { intros i pass slot id copy desc Hi Hslot Hout Hpresent Hdesc Hmulti next nextGraph.
    pose proof (schedulePasses_uses_resolveTexture _ _ _ _ _ _ _ _ _ _ _ _ _ _
                  Hps HkA Hi Hslot Hout Hpresent Hdesc Hmulti) as Hused.
    destruct (released_resolveTexture_pooled graph thisB desc Hz2 Hused)
      as (rtex & Hin & Hm & Hage).
    assert (rtex ∈ rsPool this1) as Hin1.
    { rewrite Hrspool. apply list_elem_of_filter. split; [|exact Hin].
      unfold resolveTexture_aged, SceneGraphExecutor.ageThreshold. lia. }
    destruct (next_cycle_takes_resolveTexture next nextGraph
                (SceneGraphExecutor.with_resolveTextureForID []
                   (SceneGraphExecutor.with_currentGraph None
                      (SceneGraphExecutor.with_currentGraph (Some graph1) this1)))
                desc rtex Hin1 Hm)
      as (pooled & before & after & Hsplit & Hmp & Hfirst & Hacq).
    exists pooled, before, after.
    split; [exact Hsplit|]. split; [exact Hmp|]. split.
    - apply Hrsage. cbn in Hsplit. rewrite Hsplit.
      apply elem_of_app. right. apply elem_of_cons. now left.
    - split; [exact Hfirst | exact Hacq]. }
  intros next nextGraph nextPresent Hplan.
  destruct (next_frame_same_graph device _ next graph _
              presentColorTexture nextPresent this _ Hready Hcycle)
    as (g'' & next' & this'' & Hs2 & Hhandles & Hissued).
  destruct (scheduleGraph_same_plan _ _ _ _ _ _ _ _ Hplan Hs2) as (g2 & Hs3).
  exists g2, next', this''. auto.
Qed.
(** * The properties at work on the worked graphs *)


Lemma resolveRenderTargetToColorTexture_last_writer_witness :
  exists this1 copy this2 this3 slot,
    SceneGraphBuilder.pushPass
      (SceneGraphBuilder.setup_of_calls [CallAttachRenderTargetID Color0 0])
      (SceneGraphBuilder.mk (Some (mkGraph [surface256 1] [] []))) = OK this1 /\
    SceneGraphBuilder.resolveRenderTargetToColorTexture 0 this1 = OK (copy, this2) /\
    SceneGraphBuilder.pushPass
      (SceneGraphBuilder.setup_of_calls [CallAttachRenderTargetID DepthStencil 0])
      this2 = OK this3 /\
    renderTargetIDs (writer 0) !! slot = Some (Some 0) /\
    passes <$> SceneGraphBuilder.currentGraph this3 =
      Some ([] ++ [with_resolveTextureOutputIDs (JsArray.set [] slot copy) (writer 0);
                   with_renderTargetIDs [None; Some 0] newPass]) /\
    resolveTextureOutputIDs (with_renderTargetIDs [None; Some 0] newPass) = [].
Proof.
  apply (proj2 (proj2 (resolveRenderTargetToColorTexture_last_writer
                         (mkGraph [surface256 1] [] []) 0))
           [CallAttachRenderTargetID Color0 0]
           [CallAttachRenderTargetID DepthStencil 0]).
  - reflexivity.
  - unfold binds. cbn. repeat constructor.
  - reflexivity.
  - unfold binds. cbn. repeat constructor.
Defined.

Lemma scheduleAddUseCount_counts_witness :
  (* a graph without copies: the bound surface goes from 0 to 1 *)
  count_is
    (SceneGraphExecutor.renderTargetUseCount
       (SceneGraphExecutor.scheduleAddUseCount depth_only_graph depth_only_present
          (SceneGraphExecutor.initUseCounts depth_only_graph SceneGraphExecutor.new)))
    0 1
  (* a pass consuming a copy: the origin and the copy go from 0 to 1, the
     surface the pass binds goes from 0 to 1 *)
  /\ count_is
       (SceneGraphExecutor.renderTargetUseCount
          (SceneGraphExecutor.scheduleAddUseCount (scenario_graph 1)
             (with_resolveTextureInputIDs [0] (writer 1))
             (SceneGraphExecutor.initUseCounts (scenario_graph 1) SceneGraphExecutor.new)))
       0 1
  /\ count_is
       (SceneGraphExecutor.resolveTextureUseCount
          (SceneGraphExecutor.scheduleAddUseCount (scenario_graph 1)
             (with_resolveTextureInputIDs [0] (writer 1))
             (SceneGraphExecutor.initUseCounts (scenario_graph 1) SceneGraphExecutor.new)))
       0 1
  (* a surface the pass has nothing to do with stays at 0 *)
  /\ count_is
       (SceneGraphExecutor.renderTargetUseCount
          (SceneGraphExecutor.scheduleAddUseCount color_depth_graph (writer 0)
             (SceneGraphExecutor.initUseCounts color_depth_graph SceneGraphExecutor.new)))
       1 0.
Proof.
  split; [|split; [|split]].
  - exact (proj1 (scheduleAddUseCount_counts depth_only_graph depth_only_present
                    (SceneGraphExecutor.initUseCounts depth_only_graph
                       SceneGraphExecutor.new)) 0 0%Z eq_refl).
  - exact (proj1 (scheduleAddUseCount_counts (scenario_graph 1)
                    (with_resolveTextureInputIDs [0] (writer 1))
                    (SceneGraphExecutor.initUseCounts (scenario_graph 1)
                       SceneGraphExecutor.new)) 0 0%Z eq_refl).
  - exact (proj1 (proj2 (scheduleAddUseCount_counts (scenario_graph 1)
                           (with_resolveTextureInputIDs [0] (writer 1))
                           (SceneGraphExecutor.initUseCounts (scenario_graph 1)
                              SceneGraphExecutor.new))) 0 0%Z eq_refl).
  - apply (proj2 (proj2 (scheduleAddUseCount_counts color_depth_graph (writer 0)
                           (SceneGraphExecutor.initUseCounts color_depth_graph
                              SceneGraphExecutor.new))) 1 0%Z).
    + intros Hin. apply list_elem_of_singleton in Hin. discriminate Hin.
    + intros copy Hin. inversion Hin.
    + reflexivity.
Defined.

Lemma single_sampled_copy_is_passthrough_witness :
  exists graph' device' this' producer consumer renderTarget tex,
    SceneGraphExecutor.scheduleGraph device0 (scenario_graph 1) (Some 99)
      SceneGraphExecutor.new = OK (graph', device', this') /\
    JsArray.get (SceneGraphExecutor.resolveTextureForID this') 0 = None /\
    passes graph' !! 0 = Some producer /\
    JsArray.get (resolveTextureOutputIDs producer) (slot_index Color0) = Some 0 /\
    colorResolveTo (descriptor producer) = None /\
    passes graph' !! 1 = Some consumer /\
    lookup_during consumer 0 = OK tex /\
    renderTarget ∈ SceneGraphExecutor.renderTargetDeadPool this' /\
    RenderTarget.texture renderTarget = Some tex /\
    colorAttachment (descriptor producer)
      = Some (RenderTarget.attachment renderTarget).
Proof.
  eassert (SceneGraphExecutor.scheduleGraph device0 (scenario_graph 1) (Some 99)
             SceneGraphExecutor.new = OK (_, _, _)) as Hrun
    by (vm_compute; reflexivity).
  assert (pool_shape SceneGraphExecutor.new) as Hpool
    by (intros rt Hrt; inversion Hrt).
  assert (~ (1 < desc_numSamples (surface256 1))%Z) as Hsingle by (cbn; lia).
  destruct (single_sampled_copy_is_passthrough _ _ _ _ _ _ _ 0 0 (surface256 1)
              Hpool (Forall_nil_2 _) eq_refl Hrun eq_refl eq_refl Hsingle)
    as (Hnone & Hresolve & Hread & _).
  assert (0 ∈ [0]) as Hin by (apply elem_of_cons; now left).
  destruct (Hread 1 _ eq_refl Hin) as (tex & Hlook & _ & Hproducers).
  destruct (Hproducers 0 _ Color0 eq_refl eq_refl) as (rt & Hpooled & Htex & Hatt).
  eexists _, _, _, _, _, rt, tex. split; [exact Hrun|].
  split; [exact Hnone|]. split; [reflexivity|]. split; [reflexivity|].
  split; [exact (Hresolve 0 _ Color0 eq_refl eq_refl)|].
  split; [reflexivity|]. split; [exact Hlook|].
  split; [exact Hpooled|]. split; [exact Htex | exact Hatt].
Defined.

Lemma needsClear_on_first_touch_witness :
  exists pass' device' this',
    SceneGraphExecutor.schedulePass device0 (scenario_graph 1)
      (with_resolveTextureOutputIDs [Some 0] (writer 0)) (Some 99)
      (afterPassA (scenario_graph 1) SceneGraphExecutor.new)
    = OK (pass', device', this') /\
    colorClearColor (descriptor pass') = Clear red /\
    pool_clear this' /\ alive_clean this'.
Proof.
  eassert (SceneGraphExecutor.schedulePass device0 (scenario_graph 1)
             (with_resolveTextureOutputIDs [Some 0] (writer 0)) (Some 99)
             (afterPassA (scenario_graph 1) SceneGraphExecutor.new)
           = OK (_, _, _)) as Hrun by (vm_compute; reflexivity).
  assert (pool_clear (afterPassA (scenario_graph 1) SceneGraphExecutor.new)) as Hpool
    by (intros rt Hrt; inversion Hrt).
  assert (alive_clean (afterPassA (scenario_graph 1) SceneGraphExecutor.new)) as Hclean
    by (intros id rt Hrt; destruct id; discriminate).
  destruct (needsClear_on_first_touch _ _ _ _ _ _ _ _ Hrun Hpool Hclean)
    as ((Hpool' & Hclean') & Hcolor & _).
  eexists _, _, _. split; [exact Hrun|].
  split; [reflexivity|]. split; assumption.
Defined.

Lemma present_redirects_color_only_witness :
  exists pass' device' this',
    SceneGraphExecutor.schedulePass device0 depth_only_graph depth_only_present
      (Some 99) (afterPassA depth_only_graph SceneGraphExecutor.new)
    = OK (pass', device', this') /\
    colorResolveTo (descriptor pass') = Some 99 /\
    depthStencilResolveTo (descriptor pass') = None.
Proof.
  eassert (SceneGraphExecutor.schedulePass device0 depth_only_graph
             depth_only_present (Some 99)
             (afterPassA depth_only_graph SceneGraphExecutor.new)
           = OK (_, _, _)) as Hrun by (vm_compute; reflexivity).
  destruct (present_redirects_color_only _ _ _ _ _ _ _ _ Hrun eq_refl)
    as (Hcolor & Hdepth & _).
  eexists _, _, _. split; [exact Hrun|]. split; [exact Hcolor|].
  apply Hdepth. reflexivity.
Defined.



Lemma pool_aging_eviction_reuse_witness :
  exists graph' device' this',
    SceneGraphExecutor.execGraph device0 (scenario_graph 4) (Some 99)
      SceneGraphExecutor.new = OK (graph', device', this') /\
    (* the multi-sampled surface of the first pass: its render target and
       the resolve texture of its copy are taken from the pools *)
    (exists pooled before after,
       SceneGraphExecutor.renderTargetDeadPool this' = before ++ pooled :: after /\
       RenderTarget.matchesDescription pooled (surface256 4) = true /\
       RenderTarget.age pooled = 0 /\
       SceneGraphExecutor.acquireRenderTargetForDescription device' (surface256 4)
         (afterPassA (scenario_graph 4) this')
       = OK (RenderTarget.with_age 0 pooled, device',
             SceneGraphExecutor.with_renderTargetDeadPool
               (map (fun rt => RenderTarget.with_age (S (RenderTarget.age rt)) rt)
                    (before ++ after))
               (afterPassA (scenario_graph 4) this'))) /\
    (exists pooled before after,
       SceneGraphExecutor.resolveTextureDeadPool this' = before ++ pooled :: after /\
       ResolveTexture.matchesDescription pooled (surface256 4) = true /\
       ResolveTexture.age pooled = 0 /\
       SceneGraphExecutor.acquireResolveTextureForDescription device' (surface256 4)
         (afterPassA (scenario_graph 4) this')
       = OK (ResolveTexture.mk (desc_debugName (surface256 4))
               (ResolveTexture.pixelFormat pooled) (ResolveTexture.width pooled)
               (ResolveTexture.height pooled) (ResolveTexture.texture pooled) 0,
             device',
             SceneGraphExecutor.with_resolveTextureDeadPool
               (map (fun rt => ResolveTexture.with_age (S (ResolveTexture.age rt)) rt)
                    (before ++ after))
               (afterPassA (scenario_graph 4) this'))) /\
    (* the next cycle *)
    (exists graph'' device'' this'',
       SceneGraphExecutor.scheduleGraph device' (scenario_graph 4) (Some 99) this'
         = OK (graph'', device'', this'') /\
       nextHandle device'' = nextHandle device').
Proof.
  eassert (SceneGraphExecutor.execGraph device0 (scenario_graph 4) (Some 99)
             SceneGraphExecutor.new = OK (_, _, _)) as Hrun
    by (vm_compute; reflexivity).
  lazymatch type of Hrun with
  | _ = OK (?graph', ?device', ?this') =>
      destruct (pool_aging_eviction_reuse device0 device' (scenario_graph 4) graph'
                  (Some 99) SceneGraphExecutor.new this' ready_new Hrun)
        as (scheduled & device1 & swept & ps & deviceB & thisB & _ & _ & _ & _ & _ & _
            & _ & _ & _ & _ & _ & _ & _ & _ & _ & Hsurface & Hcopy & Hnext);
      destruct (Hsurface 0 _ Color0 0 (surface256 4) eq_refl eq_refl eq_refl
                  device' (scenario_graph 4))
        as (rt & before & after & Hsplit & Hm & Hage & _ & Hacq);
      destruct (Hcopy 0 _ Color0 0 0 (surface256 4) eq_refl eq_refl eq_refl
                  (fun _ => eq_refl) eq_refl eq_refl device' (scenario_graph 4))
        as (rtex & before' & after' & Hsplit' & Hm' & Hage' & _ & Hacq');
      destruct (Hnext device' (scenario_graph 4) (Some 99)
                  (same_plan_refl (scenario_graph 4)))
        as (graph'' & device'' & this'' & Hs & Hhandles & _)
  end.
  eexists _, _, _. split; [exact Hrun|].
  split; [exists rt, before, after; auto|].
  split; [exists rtex, before', after'; auto|].
  exists graph'', device'', this''. auto.
Defined.

Lemma one_render_target_per_surface_witness :
  exists ps' device' this' second third att,
    SceneGraphExecutor.schedulePasses device0 (scenario_graph 1)
      (passes (scenario_graph 1)) (Some 99)
      (afterPassA (scenario_graph 1) SceneGraphExecutor.new)
    = OK (ps', device', this') /\
    ps' !! 1 = Some second /\ ps' !! 2 = Some third /\
    slot_attachment Color0 (descriptor second) = Some att /\
    slot_attachment Color0 (descriptor third) = Some att.
Proof.
  eassert (SceneGraphExecutor.schedulePasses device0 (scenario_graph 1)
             (passes (scenario_graph 1)) (Some 99)
             (afterPassA (scenario_graph 1) SceneGraphExecutor.new)
           = OK (_, _, _)) as Hrun by (vm_compute; reflexivity).
  destruct (proj1 (one_render_target_per_surface _ _ _ _ _ _ _ _ Hrun)
              1 2 _ _ Color0 Color0 1 eq_refl eq_refl eq_refl eq_refl)
    as (att & Hsecond & Hthird).
  eexists _, _, _, _, _, att. split; [exact Hrun|].
  split; [reflexivity|]. split; [reflexivity|]. split; assumption.
Defined.

Lemma resolve_texture_outlives_its_count_witness :
  exists graph' device' this' consumer rtex,
    SceneGraphExecutor.scheduleGraph device0 (scenario_graph 4) (Some 99)
      SceneGraphExecutor.new = OK (graph', device', this') /\
    SceneGraphExecutor.resolveTextureUseCount this' = [] /\
    passes graph' !! 1 = Some consumer /\
    JsArray.get (SceneGraphExecutor.resolveTextureForID this') 0 = Some rtex /\
    rtex ∈ SceneGraphExecutor.resolveTextureDeadPool this' /\
    lookup_during consumer 0 = OK (ResolveTexture.texture rtex).
Proof.
  eassert (SceneGraphExecutor.scheduleGraph device0 (scenario_graph 4) (Some 99)
             SceneGraphExecutor.new = OK (_, _, _)) as Hrun
    by (vm_compute; reflexivity).
  assert (pool_shape SceneGraphExecutor.new) as Hpool
    by (intros rt Hrt; inversion Hrt).
  destruct (proj1 (proj2 resolve_texture_outlives_its_count)
              _ _ _ _ _ _ _ Hpool (Forall_nil_2 _) eq_refl Hrun) as [Hcounts Hlookup].
  eexists _, _, _, _, _. split; [exact Hrun|]. split; [exact Hcounts|].
  split; [reflexivity|]. split; [reflexivity|]. split.
  - cbn. repeat constructor.
  - apply (Hlookup 1 _ 0 _ eq_refl); [|reflexivity]. cbn. repeat constructor.
Defined.

(** * The further properties at work *)

Lemma countPasses_totals_witness :
  count_is (SceneGraphExecutor.renderTargetUseCount
              (afterPassA (scenario_graph 1) SceneGraphExecutor.new)) 0 2 /\
  count_is (SceneGraphExecutor.renderTargetUseCount
              (afterPassA (scenario_graph 1) SceneGraphExecutor.new)) 1 2 /\
  count_is (SceneGraphExecutor.resolveTextureUseCount
              (afterPassA (scenario_graph 1) SceneGraphExecutor.new)) 0 1 /\
  (forall z, ~ count_is (SceneGraphExecutor.renderTargetUseCount
                           (afterPassA (scenario_graph 1) SceneGraphExecutor.new))
                        2 z).
Proof.
  destruct (countPasses_totals (scenario_graph 1) SceneGraphExecutor.new)
    as (Hsurface & Hcopy & Hnone & _).
  assert (0 < length (renderTargetDescriptions (scenario_graph 1))) as H0
    by (cbn; lia).
  assert (1 < length (renderTargetDescriptions (scenario_graph 1))) as H1
    by (cbn; lia).
  assert (0 < length (resolveTextureRenderTargetIDs (scenario_graph 1))) as Hc0
    by (cbn; lia).
  assert (length (renderTargetDescriptions (scenario_graph 1)) <= 2) as H2
    by (cbn; lia).
  split; [exact (Hsurface 0 H0)|]. split; [exact (Hsurface 1 H1)|].
  split; [exact (Hcopy 0 Hc0)|]. exact (Hnone 2 H2).
Defined.

Lemma scheduleGraph_needs_created_ids_witness :
  ids_in_range (scenario_graph 1) /\
  is_fatal (SceneGraphExecutor.scheduleGraph device0 dangling_graph None
              SceneGraphExecutor.new).
Proof.
  split.
  - eassert (SceneGraphExecutor.scheduleGraph device0 (scenario_graph 1) (Some 99)
               SceneGraphExecutor.new = OK (_, _, _)) as Hrun
      by (vm_compute; reflexivity).
    exact (proj1 (scheduleGraph_needs_created_ids device0 (scenario_graph 1) (Some 99)
                    SceneGraphExecutor.new) _ _ _ Hrun).
  - apply (proj2 (scheduleGraph_needs_created_ids device0 dangling_graph None
                    SceneGraphExecutor.new)).
    intros H. destruct (H (writer 5)) as [Hb _].
    + apply elem_of_cons. now left.
    + assert (binds (writer 5) 5) as Hbinds by (apply elem_of_cons; now left).
      apply Hb in Hbinds. cbn in Hbinds. lia.
Defined.

Lemma scheduleGraph_outputs_consumed_witness :
  (exists consumer,
     consumer ∈ passes (scenario_graph 1) /\ 0 ∈ resolveTextureInputIDs consumer) /\
  is_fatal (SceneGraphExecutor.scheduleGraph device0 unconsumed_graph None
              SceneGraphExecutor.new).
Proof.
  split.
  - eassert (SceneGraphExecutor.scheduleGraph device0 (scenario_graph 1) (Some 99)
               SceneGraphExecutor.new = OK (_, _, _)) as Hrun
      by (vm_compute; reflexivity).
    assert (with_resolveTextureOutputIDs [Some 0] (writer 0)
              ∈ passes (scenario_graph 1)) as Hin
      by (apply elem_of_cons; now left).
    assert (Color0 = Color0 ->
            doPresent (with_resolveTextureOutputIDs [Some 0] (writer 0)) = false)
      as Hpresent by reflexivity.
    exact (proj2 (proj1 (scheduleGraph_outputs_consumed device0 (scenario_graph 1)
                           (Some 99) SceneGraphExecutor.new _ Color0 0
                           Hin eq_refl Hpresent) _ _ _ Hrun)).
  - assert (with_resolveTextureOutputIDs [Some 0] (writer 0)
              ∈ passes unconsumed_graph) as Hin
      by (apply elem_of_cons; now left).
    assert (Color0 = Color0 ->
            doPresent (with_resolveTextureOutputIDs [Some 0] (writer 0)) = false)
      as Hpresent by reflexivity.
    apply (proj2 (scheduleGraph_outputs_consumed device0 unconsumed_graph
                    None SceneGraphExecutor.new _ Color0 0 Hin eq_refl Hpresent)).
    intros consumer Hc Hcopy. apply list_elem_of_singleton in Hc. subst consumer.
    inversion Hcopy.
Defined.

Lemma scheduleGraph_keeps_setup_witness :
  exists graph' device' this' consumer',
    SceneGraphExecutor.scheduleGraph device0 (scenario_graph 4) (Some 99)
      SceneGraphExecutor.new = OK (graph', device', this') /\
    passes graph' !! 1 = Some consumer' /\
    same_setup (with_resolveTextureInputIDs [0] (writer 1)) consumer'.
Proof.
  eassert (SceneGraphExecutor.scheduleGraph device0 (scenario_graph 4) (Some 99)
             SceneGraphExecutor.new = OK (_, _, _)) as Hrun
    by (vm_compute; reflexivity).
  destruct (scheduleGraph_keeps_setup _ _ _ _ _ _ _ Hrun) as (_ & _ & _ & Hpasses).
  eexists _, _, _, _. split; [exact Hrun|]. split; [reflexivity|].
  exact (Hpasses 1 _ _ eq_refl eq_refl).
Defined.

Lemma scheduleGraph_slots_agree_witness :
  exists graph' device' this' colorDesc depthDesc,
    SceneGraphExecutor.scheduleGraph device0 color_depth_graph None
      SceneGraphExecutor.new = OK (graph', device', this') /\
    renderTargetDescriptions color_depth_graph !! 0 = Some colorDesc /\
    renderTargetDescriptions color_depth_graph !! 1 = Some depthDesc /\
    desc_width colorDesc = desc_width depthDesc /\
    desc_height colorDesc = desc_height depthDesc /\
    desc_numSamples colorDesc = desc_numSamples depthDesc.
Proof.
  eassert (SceneGraphExecutor.scheduleGraph device0 color_depth_graph None
             SceneGraphExecutor.new = OK (_, _, _)) as Hrun
    by (vm_compute; reflexivity).
  assert (pool_shape SceneGraphExecutor.new) as Hpool
    by (intros rt Hrt; inversion Hrt).
  assert (with_renderTargetIDs [Some 0; Some 1] newPass ∈ passes color_depth_graph)
    as Hin by (apply elem_of_cons; now left).
  eexists _, _, _, _, _. split; [exact Hrun|].
  split; [reflexivity|]. split; [reflexivity|].
  exact (scheduleGraph_slots_agree _ _ _ _ _ _ _ _ 0 1 _ _
           Hpool (Forall_nil_2 _) eq_refl Hrun Hin eq_refl eq_refl eq_refl eq_refl).
Defined.

Lemma scheduleGraph_viewport_witness :
  exists graph' device' this' pass',
    SceneGraphExecutor.scheduleGraph device0 window_graph None
      SceneGraphExecutor.new = OK (graph', device', this') /\
    passes graph' !! 0 = Some pass' /\
    pixelViewport pass' =
    (PrimFloat.mul (double_of_Z 3) tenth, PrimFloat.mul (double_of_Z 7) tenth,
     PrimFloat.mul (double_of_Z 3) tenth, PrimFloat.mul (double_of_Z 7) tenth) /\
    PrimFloat.mul (double_of_Z 3) tenth
    <> PrimFloat.div (double_of_Z 3) (double_of_Z 10).
Proof.
  eassert (SceneGraphExecutor.scheduleGraph device0 window_graph None
             SceneGraphExecutor.new = OK (_, _, _)) as Hrun
    by (vm_compute; reflexivity).
  assert (pool_shape SceneGraphExecutor.new) as Hpool
    by (intros rt Hrt; inversion Hrt).
  destruct (scheduleGraph_viewport _ _ _ _ _ _ _ 0 _ _
              Hpool (Forall_nil_2 _) eq_refl Hrun eq_refl eq_refl)
    as (desc & Hdesc & Hview).
  injection Hdesc as <-.
  eexists _, _, _, _. split; [exact Hrun|]. split; [reflexivity|].
  split; [exact Hview|]. vm_compute. discriminate.
Defined.

Lemma multisampled_copy_is_resolved_witness :
  exists graph' device' this' resolveTexture producer' consumer',
    SceneGraphExecutor.scheduleGraph device0 (scenario_graph 4) (Some 99)
      SceneGraphExecutor.new = OK (graph', device', this') /\
    JsArray.get (SceneGraphExecutor.resolveTextureForID this') 0
      = Some resolveTexture /\
    passes graph' !! 0 = Some producer' /\
    colorResolveTo (descriptor producer')
      = Some (ResolveTexture.texture resolveTexture) /\
    passes graph' !! 1 = Some consumer' /\
    lookup_during consumer' 0 = OK (ResolveTexture.texture resolveTexture).
Proof.
  eassert (SceneGraphExecutor.scheduleGraph device0 (scenario_graph 4) (Some 99)
             SceneGraphExecutor.new = OK (_, _, _)) as Hrun
    by (vm_compute; reflexivity).
  assert (pool_shape SceneGraphExecutor.new) as Hpool
    by (intros rt Hrt; inversion Hrt).
  assert (1 < desc_numSamples (surface256 4))%Z as Hmulti by (cbn; lia).
  assert (Color0 = Color0 ->
          doPresent (with_resolveTextureOutputIDs [Some 0] (writer 0)) = false)
    as Hpresent by reflexivity.
  destruct (multisampled_copy_is_resolved _ _ _ _ _ _ _ 0 0 (surface256 4) 0 _ Color0
              Hpool (Forall_nil_2 _) eq_refl Hrun eq_refl eq_refl Hmulti
              eq_refl eq_refl Hpresent)
    as (resolveTexture & producer' & Hreg & Hproducer & Hresolve & Hread).
  assert (0 ∈ [0]) as Hin by (apply elem_of_cons; now left).
  eexists _, _, _, resolveTexture, producer', _.
  split; [exact Hrun|]. split; [exact Hreg|]. split; [exact Hproducer|].
  split; [exact Hresolve|]. split; [reflexivity|].
  exact (Hread 1 _ eq_refl Hin).
Defined.

Lemma scheduleGraph_attachments_distinct_witness :
  exists graph' device' this' pass a b,
    SceneGraphExecutor.scheduleGraph device0 color_depth_graph None
      SceneGraphExecutor.new = OK (graph', device', this') /\
    attachments_distinct device' this' /\
    passes graph' !! 0 = Some pass /\
    colorAttachment (descriptor pass) = Some a /\
    depthStencilAttachment (descriptor pass) = Some b /\ a <> b.
Proof.
  eassert (SceneGraphExecutor.scheduleGraph device0 color_depth_graph None
             SceneGraphExecutor.new = OK (_, _, _)) as Hrun
    by (vm_compute; reflexivity).
  assert (attachments_distinct device0 SceneGraphExecutor.new) as Hnew.
  { split; [apply NoDup_nil_2|]. intros att Hatt. inversion Hatt. }
  destruct (scheduleGraph_attachments_distinct _ _ _ _ _ _ _ Hnew Hrun)
    as (Hdistinct & Hslots & _).
  assert (0 <> 1) as Hne by lia.
  destruct (Hslots 0 _ 0 1 eq_refl eq_refl eq_refl Hne) as (a & b & Ha & Hb & Hab).
  eexists _, _, _, _, a, b. split; [exact Hrun|]. split; [exact Hdistinct|].
  split; [reflexivity|]. split; [exact Ha|]. split; [exact Hb | exact Hab].
Defined.

Lemma scheduleGraph_spares_attachments_in_use_witness :
  exists graph' device' this' issued pass att,
    SceneGraphExecutor.scheduleGraph device0 (scenario_graph 1) (Some 99)
      SceneGraphExecutor.new = OK (graph', device', this') /\
    calls device' = calls device0 ++ issued /\
    passes graph' !! 0 = Some pass /\
    colorAttachment (descriptor pass) = Some att /\
    DestroyAttachment att ∉ issued.
Proof.
  eassert (SceneGraphExecutor.scheduleGraph device0 (scenario_graph 1) (Some 99)
             SceneGraphExecutor.new = OK (_, _, _)) as Hrun
    by (vm_compute; reflexivity).
  assert (attachments_distinct device0 SceneGraphExecutor.new) as Hnew.
  { split; [apply NoDup_nil_2|]. intros att Hatt. inversion Hatt. }
  assert (pool_shape SceneGraphExecutor.new) as Hpool
    by (intros rt Hrt; inversion Hrt).
  destruct (scheduleGraph_spares_attachments_in_use _ _ _ _ _ _ _
              Hnew Hpool (Forall_nil_2 _) eq_refl Hrun) as (issued & Hcalls & Hspared).
  eexists _, _, _, issued, _, _. split; [exact Hrun|]. split; [exact Hcalls|].
  split; [reflexivity|]. split; [reflexivity|].
  exact (Hspared 0 _ Color0 0 _ eq_refl eq_refl eq_refl).
Defined.

Lemma execPasses_in_order_witness :
  (exists device',
     SceneGraphExecutor.execPasses device0 [writer 0; writer 1] SceneGraphExecutor.new
       = OK (device', SceneGraphExecutor.new) /\
     calls device' = pass_calls (writer 0) [] ++ pass_calls (writer 1) []) /\
  SceneGraphExecutor.execPasses device0 [writer 0; sampling_pass; writer 1]
    SceneGraphExecutor.new = Fatal AssertFailed.
Proof.
  split.
  - eassert (SceneGraphExecutor.execPasses device0 [writer 0; writer 1]
               SceneGraphExecutor.new = OK (_, _)) as Hrun
      by (vm_compute; reflexivity).
    destruct (proj1 (execPasses_in_order device0 [writer 0; writer 1]
                       SceneGraphExecutor.new eq_refl) _ _ Hrun)
      as (Hsame & _ & drawns & Hdrawn & Hcalls).
    eexists. split; [exact Hrun|].
    apply Forall2_cons_inv_l in Hdrawn as (d0 & drawns' & Hd0 & Hdrawn & ->).
    apply Forall2_cons_inv_l in Hdrawn as (d1 & drawns'' & Hd1 & Hdrawn & ->).
    apply Forall2_nil_inv_l in Hdrawn as ->.
    injection Hd0 as <-. injection Hd1 as <-.
    rewrite Hcalls. cbn [zip_with concat calls device0 app]. now rewrite app_nil_r.
  - apply (proj2 (proj2 (execPasses_in_order device0
                           [writer 0; sampling_pass; writer 1]
                           SceneGraphExecutor.new eq_refl))
             [writer 0] sampling_pass [writer 1] AssertFailed eq_refl).
    + apply Forall_cons. split; [|apply Forall_nil_2].
      intros Hfatal. exact Hfatal.
    + reflexivity.
Defined.

Lemma execGraph_keeps_ready_witness :
  exists graph' device' this',
    SceneGraphExecutor.execGraph device0 (scenario_graph 4) (Some 99)
      SceneGraphExecutor.new = OK (graph', device', this') /\
    ready this'.
Proof.
  eassert (SceneGraphExecutor.execGraph device0 (scenario_graph 4) (Some 99)
             SceneGraphExecutor.new = OK (_, _, _)) as Hrun
    by (vm_compute; reflexivity).
  assert (ready SceneGraphExecutor.new) as Hnew.
  { do 4 (split; [reflexivity|]). split; [apply Forall_nil_2|].
    split; [reflexivity|]. split; intros x Hx; inversion Hx. }
  eexists _, _, _. split; [exact Hrun|].
  exact (proj1 (execGraph_keeps_ready _ _ _ _ _ _ _ Hnew Hrun)).
Defined.

Lemma destroy_spec_witness :
  SceneGraphExecutor.destroy device0 pooled_surface0
    = OK (mkDevice 0 [DestroyTexture 0; DestroyAttachment 1]) /\
  SceneGraphExecutor.destroy device0 registered_copy = Fatal AssertFailed.
Proof.
  split.
  - apply (proj1 (destroy_spec device0 pooled_surface0)).
    split; [apply Forall_cons; split; [reflexivity | apply Forall_nil_2]
           | apply Forall_nil_2].
  - apply (proj1 (proj2 (destroy_spec device0 registered_copy))).
    intros [_ Hregistered]. inversion Hregistered as [|? ? Hcell _]. discriminate Hcell.
Defined.

Lemma getResolveTextureForID_declared_only_witness :
  SceneGraphExecutor.getResolveTextureForID 0 SceneGraphExecutor.new
    = Fatal TypeError /\
  lookup_during (writer 0) 3 = Fatal AssertFailed /\
  exists graph' device' this' consumer' tex,
    SceneGraphExecutor.scheduleGraph device0 (scenario_graph 4) (Some 99)
      SceneGraphExecutor.new = OK (graph', device', this') /\
    passes graph' !! 1 = Some consumer' /\
    lookup_during consumer' 0 = OK tex.
Proof.
  eassert (SceneGraphExecutor.scheduleGraph device0 (scenario_graph 4) (Some 99)
             SceneGraphExecutor.new = OK (_, _, _)) as Hrun
    by (vm_compute; reflexivity).
  assert (pool_shape SceneGraphExecutor.new) as Hpool
    by (intros rt Hrt; inversion Hrt).
  lazymatch type of Hrun with
  | _ = OK (?graph', ?device', ?this') =>
      destruct (getResolveTextureForID_declared_only device0 device'
                  (scenario_graph 4) graph' (Some 99) SceneGraphExecutor.new this')
        as (Houtside & Hundeclared & Hdeclared)
  end.
  split; [exact (Houtside 0 SceneGraphExecutor.new eq_refl)|].
  split.
  - apply Hundeclared. intros Hin. inversion Hin.
  - assert (0 ∈ [0]) as Hin by (apply elem_of_cons; now left).
    destruct (proj2 (Hdeclared Hpool (Forall_nil_2 _) eq_refl Hrun 1 _ 0 eq_refl) Hin)
      as (tex & Hlook).
    eexists _, _, _, _, tex. split; [exact Hrun|]. split; [reflexivity | exact Hlook].
Defined.

Lemma builder_keeps_outputs_wired_witness :
  exists graph',
    SceneGraphBuilder.pushPass
      (sampling_setup 0 (fun copy => [CallAttachResolveTexture copy;
                                      CallAttachRenderTargetID Color0 1]))
      (SceneGraphBuilder.mk (Some (mkGraph [surface256 1; surface256 1] [] [writer 0])))
    = OK (SceneGraphBuilder.mk (Some graph')) /\
    outputs_wired graph'.
Proof.
  assert (outputs_wired (mkGraph [surface256 1; surface256 1] [] [writer 0]))
    as Hwired.
  { intros pass Hin slot copy Hget. apply list_elem_of_singleton in Hin.
    subst pass. destruct slot; discriminate Hget. }
  destruct (builder_keeps_outputs_wired _ Hwired) as (_ & _ & _ & Hpush & _ & Htidy).
  eassert (SceneGraphBuilder.pushPass
             (sampling_setup 0 (fun copy => [CallAttachResolveTexture copy;
                                             CallAttachRenderTargetID Color0 1]))
             (SceneGraphBuilder.mk
                (Some (mkGraph [surface256 1; surface256 1] [] [writer 0])))
           = OK _) as Hrun
    by (vm_compute; reflexivity).
  destruct (Hpush _ _ (Htidy 0 (fun copy => [CallAttachResolveTexture copy;
                                             CallAttachRenderTargetID Color0 1]))
              Hrun) as (graph' & Heq & Hwired').
  exists graph'. split; [|exact Hwired']. rewrite <- Heq. exact Hrun.
Defined.

Lemma setup_interface_spec_witness :
  (exists pass,
     run_calls [CallAttachRenderTargetID Color0 0; CallAttachResolveTexture 3;
                CallAttachRenderTargetID DepthStencil 1; CallPresent] newPass
       = OK pass /\
     JsArray.get (renderTargetIDs pass) (slot_index DepthStencil) = Some 1 /\
     resolveTextureInputIDs pass = [3] /\ doPresent pass = true) /\
  run_calls [CallAttachRenderTargetID Color0 0; CallAttachRenderTargetID Color0 1]
    newPass = Fatal AssertFailed.
Proof.
  split.
  - destruct (setup_interface_spec
                [CallAttachRenderTargetID Color0 0; CallAttachResolveTexture 3;
                 CallAttachRenderTargetID DepthStencil 1; CallPresent])
      as (Hruns & _ & Hfields).
    destruct (proj2 Hruns) as (pass & Hpass).
    { split; [|cbn; lia].
      apply NoDup_cons. split; [|apply NoDup_singleton].
      intros Hin. apply list_elem_of_singleton in Hin. discriminate Hin. }
    destruct (Hfields pass Hpass) as (Hslots & Hinputs & _ & Hpresent & _).
    exists pass. split; [exact Hpass|]. split; [|split; assumption].
    apply Hslots. apply elem_of_cons. right. apply elem_of_cons. now left.
  - destruct (run_calls [CallAttachRenderTargetID Color0 0;
                         CallAttachRenderTargetID Color0 1] newPass) as [pass|e] eqn:Hrun.
    + exfalso.
      destruct (proj1 (proj1 (setup_interface_spec
                                [CallAttachRenderTargetID Color0 0;
                                 CallAttachRenderTargetID Color0 1]))
                  (ex_intro _ pass Hrun)) as (Hnd & _).
      apply NoDup_cons in Hnd as (Hnotin & _). apply Hnotin.
      apply elem_of_cons. now left.
    + f_equal.
      exact (proj1 (proj2 (setup_interface_spec
                             [CallAttachRenderTargetID Color0 0;
                              CallAttachRenderTargetID Color0 1])) e Hrun).
Defined.

Lemma acquireRenderTargetForDescription_first_fit_witness :
  SceneGraphExecutor.acquireRenderTargetForDescription device0 (surface256 1)
    pooled_surface0
  = OK (renderTarget0, device0,
        SceneGraphExecutor.with_renderTargetDeadPool [] pooled_surface0) /\
  is_fatal (SceneGraphExecutor.acquireRenderTargetForDescription device0
              (surface256 0) pooled_surface0).
Proof.
  destruct (acquireRenderTargetForDescription_first_fit device0 (surface256 1)
              pooled_surface0) as (Hreturns & _).
  destruct (acquireRenderTargetForDescription_first_fit device0 (surface256 0)
              pooled_surface0) as (_ & Hfails).
  split.
  - eassert (SceneGraphExecutor.acquireRenderTargetForDescription device0
               (surface256 1) pooled_surface0 = OK (_, _, _)) as Hrun
      by (vm_compute; reflexivity).
    destruct (Hreturns _ _ _ Hrun) as (_ & _ & [Hhit|Hmiss]).
    + exact Hrun.
    + exfalso. destruct Hmiss as (Hnone & _).
      assert (renderTarget0 ∈ SceneGraphExecutor.renderTargetDeadPool pooled_surface0)
        as Hin by (apply elem_of_cons; now left).
      apply Hnone in Hin. discriminate Hin.
  - apply (proj2 Hfails). split; [|cbn; lia].
    intros pooled Hin. apply list_elem_of_singleton in Hin. now subst pooled.
Defined.

Lemma next_frame_allocates_nothing_witness :
  exists graph' device' this' graph'' device'' this'',
    SceneGraphExecutor.execGraph device0 (scenario_graph 4) (Some 99)
      SceneGraphExecutor.new = OK (graph', device', this') /\
    SceneGraphExecutor.scheduleGraph device' graph' (Some 99) this'
      = OK (graph'', device'', this'') /\
    nextHandle device'' = nextHandle device'.
Proof.
  eassert (SceneGraphExecutor.execGraph device0 (scenario_graph 4) (Some 99)
             SceneGraphExecutor.new = OK (_, _, _)) as Hrun
    by (vm_compute; reflexivity).
  lazymatch type of Hrun with
  | _ = OK (?graph', ?device', ?this') =>
      destruct (next_frame_allocates_nothing device0 device'
                  (scenario_graph 4) graph' (Some 99)
                  SceneGraphExecutor.new this' ready_new Hrun)
        as (Hplan & Hnext);
      destruct (Hnext graph' device' (Some 99) Hplan)
        as (graph'' & device'' & this'' & Hs & Hhandles & _)
  end.
  eexists _, _, _, graph'', device'', this''.
  split; [exact Hrun|]. split; [exact Hs | exact Hhandles].
Defined.
